(** * Cluster transport core: connection.cc and nio.cc

    A shallow embedding of the parts of [iocore/cluster/connection.cc] and
    [iocore/cluster/nio.cc] that carry the handshake, the reconnect backoff,
    the per-priority send queues, the writev batching of [deal_write_event]
    and the framing of [deal_read_event], and of the tables behind them: the
    socket contexts of the machines with their free lists, the list of the
    connections in progress with [connection_handler], and the functions
    that dial, take in, reconnect and release connections.

    Conventions.  C [int] values are modelled as [Z]; where the source relies
    on the wrap-around of [uint32_t] it is written out with [wrap32].
    Pointers to [OutMessage] are addresses into a heap ([gmap]), [NULL] is
    [None].  A function whose C counterpart would dereference an invalid
    pointer, index an array out of range or (for a loop) not finish within
    the given fuel yields [None]. *)

From stdpp Require Import base numbers option list gmap.
From Stdlib Require Import ZArith Lia.

#[local] Open Scope Z_scope.

(** errno values (Linux, <errno.h>). *)
Definition EINTR : Z := 4.
Definition EIO : Z := 5.
Definition EAGAIN : Z := 11.
Definition EWOULDBLOCK : Z := 11.
Definition EINVAL : Z := 22.
Definition ENOSPC : Z := 28.
Definition ECONNRESET : Z := 104.

(** Storing into a [uint32_t]. *)
Definition wrap32 (z : Z) : Z := z mod 2 ^ 32.

(** The conversion [(int)u] of a [uint32_t] value (two's complement). *)
Definition to_int (u : Z) : Z := if u <? 2 ^ 31 then u else u - 2 ^ 32.

Inductive ConnectType := CONNECT_TYPE_CLIENT | CONNECT_TYPE_SERVER.

(** The wire header (message.h).  The magic number, which a build with
    CHECK_MAGIC_NUMBER puts in front of these fields, is kept apart: see
    [Reader.WireHeader]. *)
Record MsgHeader := mkMsgHeader {
  func_id : Z;
  data_len : Z;
  aligned_data_len : Z;
  session_ip : Z;
  session_timestamp : Z;
  session_seq : Z;
  msg_seq : Z
}.

Definition BYTE_ALIGN8 (x : Z) : Z := ((x + 7) / 8) * 8.

(** ** connection.cc: the hello exchange *)
Module Hello.

(** The hello payload: four [uint32_t] fields. *)
Record HelloMessage := mkHello {
  major : Z;
  minor : Z;
  min_major : Z;
  min_minor : Z
}.

Definition sizeof_HelloMessage : Z := 16.

(** The two fields of [ClusterMachine] that [deal_hello_message] writes. *)
Record ClusterMachine := mkMachine {
  msg_proto_major : Z;
  msg_proto_minor : Z
}.

(** What [deal_hello_message] leaves behind: its return value, the locals
    [proto_major] and [proto_minor] at the point of return, and the machine
    record. *)
Record HelloResult := mkHelloResult {
  hr_ret : Z;
  hr_proto_major : Z;
  hr_proto_minor : Z;
  hr_machine : ClusterMachine
}.

(** Version constants and function ids of P_Cluster.h / message.h, which are
    not among these sources: non-negative [int] literals. *)
Record VersionConfig := mkVersionConfig {
  CLUSTER_MAJOR_VERSION : Z;
  CLUSTER_MINOR_VERSION : Z;
  MIN_CLUSTER_MAJOR_VERSION : Z;
  MIN_CLUSTER_MINOR_VERSION : Z;
  FUNC_ID_CLUSTER_HELLO_REQUEST : Z;
  FUNC_ID_CLUSTER_HELLO_RESPONSE : Z
}.

(** [fill_send_buffer]: the header and the hello that this node sends (in a
    build with CHECK_MAGIC_NUMBER, with MAGIC_NUMBER in front of them). *)
Definition fill_send_buffer (c : VersionConfig) (my_machine_ip now : Z) (fid : Z)
  : MsgHeader * HelloMessage :=
  ({| func_id := fid;
      data_len := sizeof_HelloMessage;
      aligned_data_len := BYTE_ALIGN8 sizeof_HelloMessage;
      session_ip := my_machine_ip;
      session_timestamp := now;
      session_seq := 0;
      msg_seq := 11111 |},
   {| major := wrap32 (CLUSTER_MAJOR_VERSION c);
      minor := wrap32 (CLUSTER_MINOR_VERSION c);
      min_major := wrap32 (MIN_CLUSTER_MAJOR_VERSION c);
      min_minor := wrap32 (MIN_CLUSTER_MINOR_VERSION c) |}).

(** The loop
    [for (major = hello->major; major >= hello->min_major; --major)]
    over a [uint32_t major]; there is no [break] in its body.  [fuel] bounds
    the number of evaluations of the loop condition. *)
Fixpoint hello_loop (c : VersionConfig) (fuel : nat)
    (major min_major proto_major : Z) : option Z :=
  match fuel with
  | O => None
  | S fuel' =>
    if major >=? min_major then
      let proto_major' :=
        if (major >=? MIN_CLUSTER_MAJOR_VERSION c) && (major <=? CLUSTER_MAJOR_VERSION c)
        then to_int major else proto_major in
      hello_loop c fuel' (wrap32 (major - 1)) min_major proto_major'
    else Some proto_major
  end.

(** [deal_hello_message].  A build with CHECK_MAGIC_NUMBER first compares
    the magic number of the header (lines 253-260), which
    [fill_send_buffer] sets (line 223); the header is taken to carry the
    right one. *)
Definition deal_hello_message (c : VersionConfig) (fuel : nat)
    (connect_type : ConnectType) (machine : ClusterMachine)
    (data : MsgHeader * HelloMessage) : option HelloResult :=
  let pHeader := data.1 in
  let pHelloMessage := data.2 in
  let fail := Some (mkHelloResult EINVAL (-1) (-1) machine) in
  if negb (data_len pHeader =? sizeof_HelloMessage) then fail
  else
    let expect_func_id :=
      match connect_type with
      | CONNECT_TYPE_CLIENT => FUNC_ID_CLUSTER_HELLO_RESPONSE c
      | CONNECT_TYPE_SERVER => FUNC_ID_CLUSTER_HELLO_REQUEST c
      end in
    if negb (func_id pHeader =? expect_func_id) then fail
    else
      proto_major ← hello_loop c fuel (major pHelloMessage) (min_major pHelloMessage) (-1);
      if proto_major >? 0 then
        let proto_minor :=
          if proto_major =? to_int (major pHelloMessage)
          then to_int (minor pHelloMessage) else 0 in
        Some (mkHelloResult 0 proto_major proto_minor
                (mkMachine (major pHelloMessage) (minor pHelloMessage)))
      else Some (mkHelloResult EINVAL proto_major (-1) machine).

(** What the specification asks of the negotiation: the highest major in
    the peer's range [min_major, major] that also lies in
    [MIN_CLUSTER_MAJOR_VERSION, CLUSTER_MAJOR_VERSION], if there is one. *)
Definition spec_negotiated_major (c : VersionConfig) (h : HelloMessage) : option Z :=
  let hi := Z.min (major h) (CLUSTER_MAJOR_VERSION c) in
  let lo := Z.max (min_major h) (MIN_CLUSTER_MAJOR_VERSION c) in
  if lo <=? hi then Some hi else None.

(** What the loop computes instead: the lowest such major. *)
Definition lowest_common_major (c : VersionConfig) (h : HelloMessage) : option Z :=
  let hi := Z.min (major h) (CLUSTER_MAJOR_VERSION c) in
  let lo := Z.max (min_major h) (MIN_CLUSTER_MAJOR_VERSION c) in
  if lo <=? hi then Some lo else None.

(** The negotiated pair and the return code, as one observable outcome. *)
Definition hello_outcome (r : HelloResult) : Z * Z * Z :=
  (hr_ret r, hr_proto_major r, hr_proto_minor r).


Definition loop_result (c : VersionConfig) (major min_major pm : Z) : Z :=
  let hi := Z.min major (CLUSTER_MAJOR_VERSION c) in
  let lo := Z.max min_major (MIN_CLUSTER_MAJOR_VERSION c) in
  if lo <=? hi then lo else pm.

End Hello.

(** ** connection.cc: the reconnect backoff *)
Module Reconnect.

Inductive ConnectState :=
| STATE_NOT_CONNECT | STATE_CONNECTING | STATE_CONNECTED
| STATE_SEND_DATA | STATE_RECV_DATA.

(** The fields of [SocketContext] (and of its machine) that the connection
    controller reads and writes while it reconnects. *)
Record SocketContext := mkSock {
  sock : Z;
  connect_type : ConnectType;
  machine_dead : bool
}.

Record ConnectContext := mkConnectContext {
  pSockContext : option SocketContext;
  connect_start_time : Z;
  server_start_time : Z;
  reconnect_interval : Z;
  connect_count : Z;
  send_bytes : Z;
  recv_bytes : Z;
  total_bytes : Z;
  state : ConnectState;
  need_reconnect : bool;
  used : bool;
  need_check_timeout : bool
}.

Definition sizeof_MsgHeader_plus_Hello (MSG_HEADER_LENGTH : Z) : Z :=
  MSG_HEADER_LENGTH + Hello.sizeof_HelloMessage.

(** [alloc_connect_context], the initialisation of the pool entry it hands
    out (lines 952-964). *)
Definition alloc_connect_context (MSG_HEADER_LENGTH : Z) (e : ConnectContext)
  : ConnectContext :=
  {| pSockContext := pSockContext e;
     connect_start_time := connect_start_time e;
     server_start_time := server_start_time e;
     reconnect_interval := 100;
     connect_count := 0;
     send_bytes := 0;
     recv_bytes := 0;
     total_bytes := sizeof_MsgHeader_plus_Hello MSG_HEADER_LENGTH;
     state := STATE_NOT_CONNECT;
     need_reconnect := false;
     used := true;
     need_check_timeout := false |}.

(** What the system calls of one [do_connect] did. *)
Inductive ConnectOutcome :=
| SocketFailed              (* socket() < 0 *)
| NonblockingFailed (fd : Z) (* safe_nonblocking != 0 *)
| SetsockoptFailed (fd : Z)
| BadAddress (fd : Z)        (* inet_aton == 0 *)
| ConnectedAtOnce (fd : Z)   (* connect() == 0 *)
| ConnectFailed (fd : Z)     (* connect() failed, errno != EINPROGRESS *)
| AttachFailed (fd : Z)      (* EINPROGRESS, ev_poll->attach < 0 *)
| InProgress (fd : Z).       (* EINPROGRESS, attached for EVENTIO_WRITE *)

Definition set_sock (cc : ConnectContext) (fd : Z) : ConnectContext :=
  {| pSockContext := (fun s => mkSock fd (connect_type s) (machine_dead s)) <$> pSockContext cc;
     connect_start_time := connect_start_time cc;
     server_start_time := server_start_time cc;
     reconnect_interval := reconnect_interval cc;
     connect_count := connect_count cc;
     send_bytes := send_bytes cc;
     recv_bytes := recv_bytes cc;
     total_bytes := total_bytes cc;
     state := state cc;
     need_reconnect := need_reconnect cc;
     used := used cc;
     need_check_timeout := need_check_timeout cc |}.

Definition set_connecting (cc : ConnectContext) : ConnectContext :=
  {| pSockContext := pSockContext cc;
     connect_start_time := connect_start_time cc;
     server_start_time := server_start_time cc;
     reconnect_interval := reconnect_interval cc;
     connect_count := connect_count cc + 1;
     send_bytes := send_bytes cc;
     recv_bytes := recv_bytes cc;
     total_bytes := total_bytes cc;
     state := STATE_CONNECTING;
     need_reconnect := need_reconnect cc;
     used := used cc;
     need_check_timeout := need_check_timeout cc |}.

Definition set_start (cc : ConnectContext) (now : Z) (st : ConnectState)
    (check : bool) : ConnectContext :=
  {| pSockContext := pSockContext cc;
     connect_start_time := now;
     server_start_time := server_start_time cc;
     reconnect_interval := reconnect_interval cc;
     connect_count := connect_count cc;
     send_bytes := send_bytes cc;
     recv_bytes := recv_bytes cc;
     total_bytes := total_bytes cc;
     state := st;
     need_reconnect := need_reconnect cc;
     used := used cc;
     need_check_timeout := check |}.

(** [remove_connection], seen from the entry: it is marked unused and loses
    its socket context. *)
Definition removed (cc : ConnectContext) : ConnectContext :=
  {| pSockContext := None;
     connect_start_time := connect_start_time cc;
     server_start_time := server_start_time cc;
     reconnect_interval := reconnect_interval cc;
     connect_count := connect_count cc;
     send_bytes := send_bytes cc;
     recv_bytes := recv_bytes cc;
     total_bytes := total_bytes cc;
     state := state cc;
     need_reconnect := need_reconnect cc;
     used := false;
     need_check_timeout := need_check_timeout cc |}.

(** [do_connect], up to the call of [connection_handler] (which touches
    neither [reconnect_interval] nor [connect_count] nor
    [connect_start_time]).  [now] is CURRENT_MS() at line 886. *)
Definition do_connect (now : Z) (o : ConnectOutcome) (cc : ConnectContext)
  : ConnectContext :=
  match o with
  | SocketFailed => set_connecting (set_sock cc (-1))
  | NonblockingFailed fd => set_sock (set_connecting (set_sock cc fd)) (-1)
  | SetsockoptFailed fd => set_connecting (set_sock cc fd)
  | BadAddress fd => removed (set_sock (set_connecting (set_sock cc fd)) (-1))
  | ConnectedAtOnce fd =>
      set_start (set_connecting (set_sock cc fd)) now STATE_CONNECTED true
  | ConnectFailed fd =>
      set_sock (set_start (set_connecting (set_sock cc fd)) now STATE_CONNECTING
                  (need_check_timeout cc)) (-1)
  | AttachFailed fd =>
      set_sock (set_start (set_connecting (set_sock cc fd)) now STATE_CONNECTING
                  (need_check_timeout cc)) (-1)
  | InProgress fd =>
      set_start (set_connecting (set_sock cc fd)) now STATE_CONNECTING true
  end.

(** [make_connection] once a pool entry was found: lines 1033-1041. *)
Definition make_connection (MSG_HEADER_LENGTH : Z) (now : Z) (o : ConnectOutcome)
    (s : SocketContext) (e : ConnectContext) : ConnectContext :=
  let cc := alloc_connect_context MSG_HEADER_LENGTH e in
  do_connect now o
    {| pSockContext := Some s;
       connect_start_time := connect_start_time cc;
       server_start_time := server_start_time cc;
       reconnect_interval := 100;
       connect_count := connect_count cc;
       send_bytes := send_bytes cc;
       recv_bytes := recv_bytes cc;
       total_bytes := total_bytes cc;
       state := state cc;
       need_reconnect := true;
       used := used cc;
       need_check_timeout := need_check_timeout cc |}.

(** The interval update of lines 1340-1349.  The interval starts at 100 and
    never exceeds 30000 ([next_reconnect_interval_range]), so the [int]
    product does not overflow. *)
Definition next_reconnect_interval (dead : bool) (reconnect_interval : Z) : Z :=
  let reconnect_interval := reconnect_interval * 2 in
  let max_reconnect_interval := if dead then 1000 else 30000 in
  if reconnect_interval >? max_reconnect_interval
  then max_reconnect_interval else reconnect_interval.

Definition set_interval (cc : ConnectContext) (ri : Z) : ConnectContext :=
  {| pSockContext := pSockContext cc;
     connect_start_time := connect_start_time cc;
     server_start_time := server_start_time cc;
     reconnect_interval := ri;
     connect_count := connect_count cc;
     send_bytes := send_bytes cc;
     recv_bytes := recv_bytes cc;
     total_bytes := total_bytes cc;
     state := state cc;
     need_reconnect := need_reconnect cc;
     used := used cc;
     need_check_timeout := false |}.

(** What one turn of the [while] loop of [do_reconnect] does with the entry
    under [ppConnection]. *)
Inductive ReconnectAction :=
| ActSkip      (* NULL entry, or socket open: ppConnection++ *)
| ActWait      (* interval not elapsed: ppConnection++ *)
| ActConnect   (* interval updated, do_connect called, ppConnection++ *)
| ActNone      (* need_reconnect with connect_count == 0: no branch taken *)
| ActRelease.  (* !need_reconnect: remove_connection, free_connect_sock_context *)

(** The body of the loop of [do_reconnect] (lines 1318-1368); [now] is
    CURRENT_MS() at line 1333, [now'] the one inside [do_connect]. *)
Definition do_reconnect_entry (now now' : Z) (o : ConnectOutcome)
    (cc : ConnectContext) : ReconnectAction * ConnectContext :=
  match pSockContext cc with
  | None => (ActSkip, cc)
  | Some s =>
    if sock s >=? 0 then (ActSkip, cc)
    else if need_reconnect cc then
      if connect_count cc >? 0 then
        if now - connect_start_time cc <? reconnect_interval cc then (ActWait, cc)
        else
          (ActConnect,
           do_connect now' o
             (set_interval cc (next_reconnect_interval (machine_dead s) (reconnect_interval cc))))
      else (ActNone, cc)
    else (ActRelease, removed cc)
  end.

End Reconnect.

(** ** nio.cc: the send queues and [deal_write_event] *)
Module Nio.

(** Constants of message.h and nio.h, which are not among these sources. *)
Record NioConfig := mkNioConfig {
  MSG_HEADER_LENGTH : Z;
  WRITEV_ARRAY_SIZE : Z;
  WRITEV_ITEM_ONCE : Z;
  WRITE_MAX_COMBINE_BYTES : Z
}.

(** Three priorities (high, mid, low); [msgs[0..2]] in [deal_write_event]. *)
Definition PRIORITY_COUNT : Z := 3.
Definition PRIORITY_HIGH : Z := 0.

Inductive DataType := DATA_TYPE_OBJECT | DATA_TYPE_BUFFER.
Inductive BuffType := BUFF_TYPE_HEADER | BUFF_TYPE_DATA | BUFF_TYPE_PADDING.

(** An [OutMessage].  [blocks] is the chain of [IOBufferBlock]s, each given
    by its [read_avail()]; the bytes themselves play no part here.  [next] is
    the intrusive queue link. *)
Record OutMessage := mkOutMessage {
  header : MsgHeader;
  data_type : DataType;
  blocks : list Z;
  bytes_sent : Z;
  in_queue_time : Z;
  next : option positive
}.

Record MessageQueue := mkQueue {
  head : option positive;
  tail : option positive
}.

(** The counters of [thread_context->stats] that these functions touch. *)
Record Stats := mkStats {
  send_retry_count : Z;
  call_writev_count : Z;
  send_bytes : Z;
  send_msg_count : Z;
  send_delayed_time : Z;
  push_msg_count : Z;
  push_msg_bytes : Z;
  fail_msg_count : Z;
  fail_msg_bytes : Z
}.

(** A socket context with the memory its queues point into.  [released]
    logs the messages handed to [release_out_message], as they were at that
    moment. *)
Record State := mkState {
  heap : gmap positive OutMessage;
  sock : Z;
  version : Z;
  queue_index : Z;
  send_queues : Z -> MessageQueue;
  stats : Stats;
  released : list (positive * OutMessage)
}.

Definition set_heap (s : State) (h : gmap positive OutMessage) : State :=
  mkState h (sock s) (version s) (queue_index s) (send_queues s) (stats s) (released s).

Definition set_stats (s : State) (st : Stats) : State :=
  mkState (heap s) (sock s) (version s) (queue_index s) (send_queues s) st (released s).

Definition set_queue_index (s : State) (qi : Z) : State :=
  mkState (heap s) (sock s) (version s) qi (send_queues s) (stats s) (released s).

Definition set_send_queue (s : State) (priority : Z) (q : MessageQueue) : State :=
  mkState (heap s) (sock s) (version s) (queue_index s)
    (fun p => if p =? priority then q else send_queues s p) (stats s) (released s).

Definition set_next (m : OutMessage) (n : option positive) : OutMessage :=
  mkOutMessage (header m) (data_type m) (blocks m) (bytes_sent m) (in_queue_time m) n.

(** [pSockContext->send_queues + priority]: an array of PRIORITY_COUNT. *)
Definition send_queue_at (s : State) (priority : Z) : option MessageQueue :=
  if (0 <=? priority) && (priority <? PRIORITY_COUNT)
  then Some (send_queues s priority) else None.

Definition msg_total (c : NioConfig) (m : OutMessage) : Z :=
  MSG_HEADER_LENGTH c + aligned_data_len (header m).

Definition count_push (c : NioConfig) (m : OutMessage) (st : Stats) : Stats :=
  mkStats (send_retry_count st) (call_writev_count st) (send_bytes st)
    (send_msg_count st) (send_delayed_time st)
    (push_msg_count st + 1) (push_msg_bytes st + msg_total c m)
    (fail_msg_count st) (fail_msg_bytes st).

Definition count_fail (c : NioConfig) (m : OutMessage) (st : Stats) : Stats :=
  mkStats (send_retry_count st) (call_writev_count st) (send_bytes st)
    (send_msg_count st) (send_delayed_time st)
    (push_msg_count st) (push_msg_bytes st)
    (fail_msg_count st + 1) (fail_msg_bytes st + msg_total c m).

(** [push_to_send_queue]. *)
Definition push_to_send_queue (c : NioConfig) (s : State) (pMessage : positive)
    (priority : Z) (sessionVersion : Z) : option (Z * State) :=
  q ← send_queue_at s priority;
  let result :=
    if negb (version s =? sessionVersion) then EINVAL
    else if sock s <? 0 then EINVAL
    else 0 in
  if negb (result =? 0) then
    m ← heap s !! pMessage;
    Some (result, set_stats s (count_fail c m (stats s)))
  else
    h ← match head q with
         | None => Some (heap s)
         | Some _ =>
           t ← tail q;
           mt ← heap s !! t;
           Some (<[t := set_next mt (Some pMessage)]> (heap s))
         end;
    let q' := mkQueue (match head q with None => Some pMessage | Some a => Some a end)
                      (Some pMessage) in
    m ← h !! pMessage;
    let s1 := set_send_queue (set_heap s h) priority q' in
    Some (0, set_stats s1 (count_push c m (stats s1))).

(** [insert_into_send_queue_head]. *)
Definition insert_into_send_queue_head (c : NioConfig) (s : State)
    (pMessage : positive) (priority : Z) : option (Z * State) :=
  q ← send_queue_at s priority;
  s1 ← match head q with
        | None =>
          Some (set_send_queue s priority (mkQueue (Some pMessage) (Some pMessage)))
        | Some hd =>
          mh ← heap s !! hd;
          if bytes_sent mh =? 0 then
            m ← heap s !! pMessage;
            let h1 := <[pMessage := set_next m (Some hd)]> (heap s) in
            Some (set_send_queue (set_heap s h1) priority
                    (mkQueue (Some pMessage) (tail q)))
          else
            m ← heap s !! pMessage;
            let h1 := <[pMessage := set_next m (next mh)]> (heap s) in
            mh1 ← h1 !! hd;
            let h2 := <[hd := set_next mh1 (Some pMessage)]> h1 in
            m2 ← h2 !! pMessage;
            Some (set_send_queue (set_heap s h2) priority
                    (mkQueue (Some hd)
                       (match next m2 with None => Some pMessage | Some _ => tail q end)))
        end;
  m ← heap s1 !! pMessage;
  Some (0, set_stats s1 (count_push c m (stats s1))).

(** *** [deal_write_event] *)

(** One slot of [write_vec] with its [msg_indexes] entry. *)
Record IovEntry := mkEntry {
  iov_len : Z;
  ix_priority : Z;
  ix_index : nat;
  ix_buff_type : BuffType
}.

(** The locals that the fetch loop builds: [write_vec]/[msg_indexes]
    ([vec_count] is its length), [msgs[p].send_msgs] ([msg_count] is its
    length), and the counters. *)
Record Fetch := mkFetch {
  write_vec : list IovEntry;
  send_msgs : Z -> list positive;
  total_msg_count : Z;
  total_bytes : Z;
  last_msg_complete : bool;
  fetch_done : bool
}.

Definition vec_count (f : Fetch) : Z := Z.of_nat (length (write_vec f)).

Definition fetch_init : Fetch := mkFetch [] (fun _ => []) 0 0 false false.

(** [write_vec[vec_count] = ...; total_bytes += iov_len; vec_count++]. *)
Definition push_entry (f : Fetch) (e : IovEntry) : Fetch :=
  mkFetch (write_vec f ++ [e]) (send_msgs f) (total_msg_count f)
    (total_bytes f + iov_len e) (last_msg_complete f) (fetch_done f).

Definition set_complete (f : Fetch) (b : bool) : Fetch :=
  mkFetch (write_vec f) (send_msgs f) (total_msg_count f) (total_bytes f) b (fetch_done f).

Definition set_fetch_done (f : Fetch) : Fetch :=
  mkFetch (write_vec f) (send_msgs f) (total_msg_count f) (total_bytes f)
    (last_msg_complete f) true.

(** [msgs[priority].send_msgs[msgs[priority].msg_count++] = msg;
    total_msg_count++]. *)
Definition add_msg (f : Fetch) (priority : Z) (a : positive) : Fetch :=
  mkFetch (write_vec f)
    (fun p => if p =? priority then send_msgs f p ++ [a] else send_msgs f p)
    (total_msg_count f + 1) (total_bytes f) (last_msg_complete f) (fetch_done f).

(** [get_iovec]: the lengths it stores, at most [size] of them, skipping
    blocks with nothing to read. *)
Fixpoint get_iovec (blocks : list Z) (size : nat) : list Z :=
  match blocks, size with
  | [], _ => []
  | _, O => []
  | a :: bs, S n => if a >? 0 then a :: get_iovec bs n else get_iovec bs (S n)
  end.

(** [consume]: drop [l] bytes from the front of the chain. *)
Fixpoint consume (blocks : list Z) (l : Z) : list Z :=
  match blocks with
  | [] => []
  | r :: bs => if l <? r then (r - l) :: bs else consume bs (l - r)
  end.

Definition sum_list (l : list Z) : Z := foldr Z.add 0 l.

(** The body of the [while (msg != NULL)] loop up to the stop test
    (lines 731-806): the iovec entries of one message. *)
Definition fetch_msg (c : NioConfig) (priority : Z) (a : positive)
    (msg : OutMessage) (f : Fetch) : Fetch :=
  let idx := length (send_msgs f priority) in
  let entry len ty := mkEntry len priority idx ty in
  let aligned := aligned_data_len (header msg) in
  let f1 :=
    if bytes_sent msg <? MSG_HEADER_LENGTH c
    then push_entry f (entry (MSG_HEADER_LENGTH c - bytes_sent msg) BUFF_TYPE_HEADER)
    else f in
  let remain_len :=
    if bytes_sent msg <? MSG_HEADER_LENGTH c then aligned
    else (aligned + MSG_HEADER_LENGTH c) - bytes_sent msg in
  let f2 :=
    if remain_len >? 0 then
      let pad_len := aligned - data_len (header msg) in
      let remain_data_len := remain_len - pad_len in
      let f' :=
        if remain_data_len >? 0 then
          match data_type msg with
          | DATA_TYPE_OBJECT =>
            let iov := get_iovec (blocks msg)
                         (Z.to_nat (WRITEV_ARRAY_SIZE c - 1 - vec_count f1)) in
            let read_bytes := sum_list iov in
            set_complete
              (foldl push_entry f1 (map (fun len => entry len BUFF_TYPE_DATA) iov))
              (read_bytes =? remain_data_len)
          | DATA_TYPE_BUFFER =>
            set_complete (push_entry f1 (entry remain_data_len BUFF_TYPE_DATA)) true
          end
        else set_complete f1 true in
      if (pad_len >? 0) && last_msg_complete f'
      then push_entry f'
             (entry (if remain_data_len >? 0 then pad_len else remain_len)
                    BUFF_TYPE_PADDING)
      else f'
    else set_complete f1 true in
  add_msg f2 priority a.

(** The stop test of lines 817-819. *)
Definition fetch_stop (c : NioConfig) (f : Fetch) : bool :=
  (total_msg_count f =? WRITEV_ITEM_ONCE c)
  || (vec_count f >=? WRITEV_ARRAY_SIZE c - 2)
  || (total_bytes f >=? WRITE_MAX_COMBINE_BYTES c).

(** The [while (msg != NULL)] loop over one queue. *)
Fixpoint fetch_queue (c : NioConfig) (h : gmap positive OutMessage) (fuel : nat)
    (i priority : Z) (msg : option positive) (f : Fetch) : option Fetch :=
  match msg with
  | None => Some f
  | Some a =>
    match fuel with
    | O => None
    | S fuel' =>
      m ← h !! a;
      let f' := fetch_msg c priority a m f in
      if fetch_stop c f' then Some (set_fetch_done f')
      else if i =? 0 then Some f'
      else fetch_queue c h fuel' i priority (next m) f'
    end
  end.

(** The [for (i = start; i <= PRIORITY_COUNT; i++)] loop, [n] turns of it. *)
Fixpoint fetch_loop (c : NioConfig) (s : State) (n : nat) (i priority : Z)
    (f : Fetch) : option Fetch :=
  match n with
  | O => Some f
  | S n' =>
    send_queue ← send_queue_at s priority;
    msg ← (if (queue_index s >? 0) && (i =? queue_index s + 1) then
             match head send_queue with
             | Some a => m ← heap s !! a; Some (next m)
             | None => Some None
             end
           else Some (head send_queue));
    f' ← fetch_queue c (heap s) (Z.to_nat (WRITEV_ITEM_ONCE c)) i priority msg f;
    if fetch_done f' then Some f'
    else fetch_loop c s n' (i + 1) (if i =? 0 then 0 else priority + 1) f'
  end.

(** Lines 704-841. *)
Definition fetch (c : NioConfig) (s : State) : option Fetch :=
  let priority := queue_index s in
  let start := if queue_index s =? 0 then 1 else 0 in
  fetch_loop c s (Z.to_nat (PRIORITY_COUNT - start + 1)) start priority fetch_init.

Definition set_bytes_sent (m : OutMessage) (bl : list Z) (bs : Z) : OutMessage :=
  mkOutMessage (header m) (data_type m) bl bs (in_queue_time m) (next m).

(** [msg->bytes_sent += n], after [consume(msg, n)] for object payload. *)
Definition advance (e : IovEntry) (m : OutMessage) (n : Z) : OutMessage :=
  let bl := match data_type m, ix_buff_type e with
            | DATA_TYPE_OBJECT, BUFF_TYPE_DATA => consume (blocks m) n
            | _, _ => blocks m
            end in
  set_bytes_sent m bl (bytes_sent m + n).

(** The accounting walk (lines 913-942) over the entries from [vi] on.  It
    yields the heap, [msgs[p].done_msgs], [total_done_count] and the [vi] it
    stopped at. *)
Fixpoint walk (c : NioConfig) (f : Fetch) (vec : list IovEntry) (vi : nat)
    (remain_bytes : Z) (h : gmap positive OutMessage)
    (done_msgs : Z -> list positive) (total_done_count : Z)
  : option (gmap positive OutMessage * (Z -> list positive) * Z * nat) :=
  match vec with
  | [] => Some (h, done_msgs, total_done_count, vi)
  | e :: rest =>
    let remain_bytes := remain_bytes - iov_len e in
    a ← send_msgs f (ix_priority e) !! ix_index e;
    msg ← h !! a;
    if remain_bytes >=? 0 then
      let msg' := advance e msg (iov_len e) in
      let h' := <[a := msg']> h in
      if bytes_sent msg' >=? msg_total c msg' then
        walk c f rest (S vi) remain_bytes h'
          (fun p => if p =? ix_priority e then done_msgs p ++ [a] else done_msgs p)
          (total_done_count + 1)
      else walk c f rest (S vi) remain_bytes h' done_msgs total_done_count
    else
      let msg' := advance e msg (remain_bytes + iov_len e) in
      Some (<[a := msg']> h, done_msgs, total_done_count, vi)
  end.

(** Lines 957-969: advance each queue past its done messages. *)
Definition unlink_done (s : State) (done_msgs : Z -> list positive) (i : Z)
  : option State :=
  match last (done_msgs i) with
  | None => Some s
  | Some a =>
    m ← heap s !! a;
    let q := send_queues s i in
    Some (set_send_queue s i
            (mkQueue (next m) (match next m with None => None | Some _ => tail q end)))
  end.

(** Modelled from the spec: [release_out_message] (message.cc) is not among
    the sources; the spec has it release the message's buffers.  Here the
    message leaves the heap and is logged as it was. *)
Definition release_out_message (s : State) (a : positive) (m : OutMessage) : State :=
  mkState (delete a (heap s)) (sock s) (version s) (queue_index s) (send_queues s)
    (stats s) (released s ++ [(a, m)]).

Definition count_delay (d : Z) (st : Stats) : Stats :=
  mkStats (send_retry_count st) (call_writev_count st) (send_bytes st)
    (send_msg_count st) (send_delayed_time st + d)
    (push_msg_count st) (push_msg_bytes st)
    (fail_msg_count st) (fail_msg_bytes st).

(** Lines 971-1020 for one priority; [now] is CURRENT_NS(). *)
Fixpoint release_done (now : Z) (s : State) (l : list positive) : option State :=
  match l with
  | [] => Some s
  | a :: l' =>
    m ← heap s !! a;
    let s1 := set_stats s (count_delay (now - in_queue_time m) (stats s)) in
    release_done now (release_out_message s1 a m) l'
  end.

Definition count_writev (n : Z) (st : Stats) : Stats :=
  mkStats (send_retry_count st + n) (call_writev_count st + 1) (send_bytes st)
    (send_msg_count st) (send_delayed_time st)
    (push_msg_count st) (push_msg_bytes st)
    (fail_msg_count st) (fail_msg_bytes st).

Definition count_sent (n : Z) (st : Stats) : Stats :=
  mkStats (send_retry_count st) (call_writev_count st) (send_bytes st + n)
    (send_msg_count st) (send_delayed_time st)
    (push_msg_count st) (push_msg_bytes st)
    (fail_msg_count st) (fail_msg_bytes st).

Definition count_done (n : Z) (st : Stats) : Stats :=
  mkStats (send_retry_count st) (call_writev_count st) (send_bytes st)
    (send_msg_count st + n) (send_delayed_time st)
    (push_msg_count st) (push_msg_bytes st)
    (fail_msg_count st) (fail_msg_bytes st).

(** Lines 955-1022. *)
Definition finish (now : Z) (s : State) (done_msgs : Z -> list positive)
    (total_done_count : Z) (result : Z) : option (Z * State) :=
  let s := set_stats s (count_done total_done_count (stats s)) in
  s ← unlink_done s done_msgs 0;
  s ← unlink_done s done_msgs 1;
  s ← unlink_done s done_msgs 2;
  s ← release_done now s (done_msgs 0);
  s ← release_done now s (done_msgs 1);
  s ← release_done now s (done_msgs 2);
  Some (result, s).

(** [deal_write_event].  [write_bytes] and [errno] are what [writev] gave;
    [now] stands for CURRENT_NS(). *)
Definition deal_write_event (c : NioConfig) (now write_bytes errno : Z)
    (s : State) : option (Z * State) :=
  f ← fetch c s;
  if vec_count f =? 0 then Some (EAGAIN, s)
  else
    let s := set_stats s (count_writev (total_msg_count f) (stats s)) in
    if write_bytes =? 0 then Some (ECONNRESET, s)
    else if write_bytes <? 0 then
      if (errno =? EAGAIN) || (errno =? EWOULDBLOCK) then Some (EAGAIN, s)
      else if errno =? EINTR then Some (0, s)
      else Some (if negb (errno =? 0) then errno else EIO, s)
    else
      let s := set_stats s (count_sent write_bytes (stats s)) in
      let result :=
        if (write_bytes =? total_bytes f) && fetch_done f then 0 else EAGAIN in
      if (write_bytes =? total_bytes f) && last_msg_complete f then
        finish now (set_queue_index s 0) (send_msgs f) (total_msg_count f) result
      else
        '(h, done_msgs, total_done_count, vi) ←
          walk c f (write_vec f) 0 write_bytes (heap s) (fun _ => []) 0;
        e ← (if (Z.of_nat vi <? vec_count f) then write_vec f !! vi
             else write_vec f !! (vi - 1)%nat);
        let s := set_queue_index (set_heap s h) (ix_priority e) in
        if total_done_count =? 0 then Some (result, s)
        else finish now s done_msgs total_done_count result.

(** A run of calls of [deal_write_event]; each call comes with CURRENT_NS()
    and with what [writev] answers. *)
Fixpoint run (c : NioConfig) (calls : list (Z * Z * Z)) (s : State) : option State :=
  match calls with
  | [] => Some s
  | (now, write_bytes, errno) :: rest =>
    r ← deal_write_event c now write_bytes errno s;
    run c rest r.2
  end.

(** *** Vocabulary of the statements *)

(** [lseg h p l]: following [next] from [p] in [h] visits exactly the
    addresses [l] and ends in NULL. *)
Inductive lseg (h : gmap positive OutMessage) : option positive -> list positive -> Prop :=
| lseg_nil : lseg h None []
| lseg_cons a m l :
    h !! a = Some m -> lseg h (next m) l -> lseg h (Some a) (a :: l).

(** A queue that holds the messages [l], in this order. *)
Definition queue_repr (h : gmap positive OutMessage) (q : MessageQueue)
    (l : list positive) : Prop :=
  lseg h (head q) l /\ tail q = last l.

(** Where [insert_into_send_queue_head] is claimed to put the message. *)
Definition insert_head_list (h : gmap positive OutMessage) (pMessage : positive)
    (l : list positive) : list positive :=
  match l with
  | [] => [pMessage]
  | hd :: rest =>
    match h !! hd with
    | Some mh => if bytes_sent mh =? 0 then pMessage :: hd :: rest
                 else hd :: pMessage :: rest
    | None => l
    end
  end.

(** Two states that differ at most in the statistics. *)
Definition same_socket (s s' : State) : Prop :=
  heap s' = heap s /\ sock s' = sock s /\ version s' = version s /\
  queue_index s' = queue_index s /\ send_queues s' = send_queues s /\
  released s' = released s.

(** Only the links of the messages changed between two heaps. *)
Definition same_payloads (h h' : gmap positive OutMessage) : Prop :=
  forall a, match h !! a, h' !! a with
            | Some m, Some m' =>
              header m' = header m /\ bytes_sent m' = bytes_sent m /\
              blocks m' = blocks m /\ data_type m' = data_type m
            | None, None => True
            | _, _ => False
            end.

(** *** Vocabulary of the accounting invariant *)

(** The bytes that the chain still holds ([read_avail] summed). *)
Fixpoint blocks_avail (bl : list Z) : Z :=
  match bl with
  | [] => 0
  | a :: r => (if a >? 0 then a else 0) + blocks_avail r
  end.

(** The payload bytes of [m] that [bytes_sent] does not cover yet. *)
Definition data_remaining (c : NioConfig) (m : OutMessage) : Z :=
  Z.max 0 (data_len (header m) - Z.max 0 (bytes_sent m - MSG_HEADER_LENGTH c)).

(** A message as the senders build it: [bytes_sent] within the frame,
    the payload no longer than its aligned length, and an object payload
    whose chain holds no more than the unsent payload. *)
Definition msg_wf (c : NioConfig) (m : OutMessage) : Prop :=
  0 <= bytes_sent m <= msg_total c m /\
  0 <= data_len (header m) <= aligned_data_len (header m) /\
  (data_type m = DATA_TYPE_OBJECT -> blocks_avail (blocks m) <= data_remaining c m).

Definition sum_len (vec : list IovEntry) : Z :=
  foldr (fun e acc => iov_len e + acc) 0 vec.

(** The bytes of the entries of [vec] that stand for message [a], found the
    way the accounting walk finds it: [send_msgs[priority][index]]. *)
Fixpoint refs (sm : Z -> list positive) (a : positive) (vec : list IovEntry) : Z :=
  match vec with
  | [] => 0
  | e :: r =>
    (if decide (sm (ix_priority e) !! ix_index e = Some a) then iov_len e else 0)
    + refs sm a r
  end.

(** Every message has room for the entries that stand for it. *)
Definition budget (c : NioConfig) (sm : Z -> list positive)
    (h : gmap positive OutMessage) (vec : list IovEntry) : Prop :=
  forall a m, h !! a = Some m -> bytes_sent m + refs sm a vec <= msg_total c m.

(** [queue_index] is a priority, the three queues are NULL-terminated
    chains of allocated, well-formed messages, and no message is in two
    queues. *)
Definition state_wf (c : NioConfig) (s : State) : Prop :=
  0 <= queue_index s < PRIORITY_COUNT /\
  (forall a m, heap s !! a = Some m -> msg_wf c m) /\
  exists L : Z -> list positive,
    (forall p, 0 <= p < PRIORITY_COUNT -> lseg (heap s) (head (send_queues s p)) (L p)) /\
    (forall p p' a, 0 <= p < PRIORITY_COUNT -> 0 <= p' < PRIORITY_COUNT ->
       p <> p' -> a ∈ L p -> a ∉ L p').

Definition fetched (f : Fetch) (a : positive) : Prop :=
  exists p, a ∈ send_msgs f p.

(** No message occurs twice in the per-priority arrays [d]. *)
Definition distinct (d : Z -> list positive) : Prop :=
  (forall p, NoDup (d p)) /\
  (forall p p' a, p <> p' -> a ∈ d p -> a ∉ d p').

(** The entries of [vec] that stand for message [a]. *)
Definition own (sm : Z -> list positive) (a : positive) (vec : list IovEntry)
  : list IovEntry :=
  filter (fun e => sm (ix_priority e) !! ix_index e = Some a) vec.

(** The accounting walk may stop anywhere in the entries [es] of message
    [m]: the message is well-formed before, inside and after each entry. *)
Fixpoint entries_fit (c : NioConfig) (m : OutMessage) (es : list IovEntry) : Prop :=
  msg_wf c m /\
  match es with
  | [] => True
  | e :: es' =>
    (forall n, 0 <= n < iov_len e -> msg_wf c (advance e m n)) /\
    entries_fit c (advance e m (iov_len e)) es'
  end.

(** Within one priority the entries of [write_vec] follow the order of
    [send_msgs]. *)
Fixpoint ordered (vec : list IovEntry) : Prop :=
  match vec with
  | [] => True
  | e :: r =>
    Forall (fun e2 => ix_priority e2 = ix_priority e -> (ix_index e <= ix_index e2)%nat) r /\
    ordered r
  end.

(** The invariant of the fetch loop. *)
Definition fetch_inv (c : NioConfig) (h : gmap positive OutMessage) (f : Fetch) : Prop :=
  Forall (fun e => 0 < iov_len e /\
                   (ix_index e < length (send_msgs f (ix_priority e)))%nat) (write_vec f) /\
  budget c (send_msgs f) h (write_vec f) /\
  (forall a, fetched f a -> is_Some (h !! a)) /\
  distinct (send_msgs f) /\
  Forall (fun e => 0 <= ix_priority e < PRIORITY_COUNT) (write_vec f) /\
  (forall a m, h !! a = Some m -> entries_fit c m (own (send_msgs f) a (write_vec f))) /\
  ordered (write_vec f).

(** The arrays of the fetch loop are within their bounds:
    [write_vec[WRITEV_ARRAY_SIZE]] and [send_msgs[WRITEV_ITEM_ONCE]]. *)
Definition fetch_bounded (c : NioConfig) (f : Fetch) : Prop :=
  total_msg_count f <= WRITEV_ITEM_ONCE c /\
  vec_count f <= WRITEV_ARRAY_SIZE c /\
  forall p, Z.of_nat (length (send_msgs f p)) <= total_msg_count f.

(** What holds whenever the loop goes on to another message: no stop
    condition was met. *)
Definition fetch_room (c : NioConfig) (f : Fetch) : Prop :=
  total_msg_count f < WRITEV_ITEM_ONCE c /\
  vec_count f <= WRITEV_ARRAY_SIZE c - 3 /\
  forall p, Z.of_nat (length (send_msgs f p)) <= total_msg_count f.

(** What is left to visit in queue [p] once the loop index is 1 or more:
    the queue, without its head if that was the message fetched at [i = 0]. *)
Definition rest_of (s : State) (L : Z -> list positive) (p : Z) : list positive :=
  if (queue_index s >? 0) && (p =? queue_index s) then drop 1 (L p) else L p.

(** Each [send_msgs[p]] is a prefix of queue [p]; from priority [i - 1] on,
    what follows it is what the loop still has to visit. *)
Definition prefixes (s : State) (L : Z -> list positive) (f : Fetch) (i : Z) : Prop :=
  forall p, 0 <= p < PRIORITY_COUNT ->
    exists l, send_msgs f p ++ l = L p /\ (i - 1 <= p -> l = rest_of s L p).

(** The last message of [d p] is the one that [send_msgs] holds latest. *)
Definition latest (sm d : Z -> list positive) (p : Z) : Prop :=
  forall a, last (d p) = Some a ->
    exists j, sm p !! j = Some a /\
      forall x, x ∈ d p -> exists i, (i <= j)%nat /\ sm p !! i = Some x.

(** What is left of the chain [l] behind [a]. *)
Fixpoint after (a : positive) (l : list positive) : list positive :=
  match l with
  | [] => []
  | x :: r => if decide (x = a) then r else after a r
  end.

(** The queues once the messages of [d] are unlinked. *)
Definition unlinked (L d : Z -> list positive) (p : Z) : list positive :=
  match last (d p) with
  | Some a => after a (L p)
  | None => L p
  end.

(** [d p] lies within queue [p], and its last message is the one furthest
    down the queue. *)
Definition selects (L d : Z -> list positive) (p : Z) : Prop :=
  forall a, last (d p) = Some a ->
    exists l1 l2, L p = l1 ++ a :: l2 /\ forall x, x ∈ d p -> x ∈ l1 ++ [a].

(** What one call may do to a message that stays allocated. *)
Definition msg_step (c : NioConfig) (m m' : OutMessage) : Prop :=
  header m' = header m /\ next m' = next m /\
  bytes_sent m <= bytes_sent m' <= msg_total c m'.

Definition entry_ok (p : Z) (idx : nat) (e : IovEntry) : Prop :=
  0 < iov_len e /\ ix_priority e = p /\ ix_index e = idx.

(** The bytes of the first [n] bytes of [vec] that lie in entries that
    stand for message [a]. *)
Fixpoint written (sm : Z -> list positive) (a : positive) (vec : list IovEntry)
    (n : Z) : Z :=
  match vec with
  | [] => 0
  | e :: r =>
    if n - iov_len e >=? 0 then
      (if decide (sm (ix_priority e) !! ix_index e = Some a) then iov_len e else 0)
      + written sm a r (n - iov_len e)
    else if decide (sm (ix_priority e) !! ix_index e = Some a) then n else 0
  end.

(** The message [a] is in the batch. *)
Definition in_batch (f : Fetch) (a : positive) : Prop :=
  exists p, 0 <= p < PRIORITY_COUNT /\ a ∈ send_msgs f p.

(** The message at [a] as the call leaves it: allocated, or released. *)
Definition left_as (s' : State) (rel : list (positive * OutMessage)) (a : positive)
    (m' : OutMessage) : Prop :=
  heap s' !! a = Some m' \/ (heap s' !! a = None /\ (a, m') ∈ rel).

(** Sample data: a 32-byte header, 16 iovec slots, 8 messages a batch. *)
Definition sample_config : NioConfig := mkNioConfig 32 16 8 65536.

Definition sample_header (len : Z) : MsgHeader :=
  mkMsgHeader 5 len (BYTE_ALIGN8 len) 1 2 3 4.

Definition no_queue : MessageQueue := mkQueue None None.

Definition zero_stats : Stats := mkStats 0 0 0 0 0 0 0 0 0.

(** One ping-sized message (no payload) at address 1, queued at high
    priority, nothing sent yet. *)
Definition sample_one : State :=
  mkState {[ 1%positive := mkOutMessage (sample_header 0) DATA_TYPE_BUFFER [] 0 0 None ]}
    5 0 0
    (fun p => if p =? 0 then mkQueue (Some 1%positive) (Some 1%positive) else no_queue)
    zero_stats [].

(** The same message once its first byte was sent. *)
Definition sample_half : State :=
  mkState {[ 1%positive := mkOutMessage (sample_header 0) DATA_TYPE_BUFFER [] 1 0 None ]}
    5 0 0
    (fun p => if p =? 0 then mkQueue (Some 1%positive) (Some 1%positive) else no_queue)
    zero_stats [].

(** Two 100-byte messages at addresses 1 and 2 queued at high priority, and
    a fresh message at address 3 that is not queued yet. *)
Definition sample_two (sock version bytes_sent1 : Z) : State :=
  mkState
    (<[ 1%positive := mkOutMessage (sample_header 100) DATA_TYPE_BUFFER []
                        bytes_sent1 0 (Some 2%positive) ]>
     (<[ 2%positive := mkOutMessage (sample_header 100) DATA_TYPE_OBJECT [60; 0; 40]
                        0 0 None ]>
     {[ 3%positive := mkOutMessage (sample_header 0) DATA_TYPE_BUFFER [] 0 0 None ]}))
    sock version 0
    (fun p => if p =? 0 then mkQueue (Some 1%positive) (Some 2%positive) else no_queue)
    zero_stats [].

End Nio.

(** ** nio.cc: [deal_read_event] *)
Module Reader.

(** [read_buffer_size] is a setting (2 MiB unless configured); the others
    are constants and a build option of message.h, which is not among
    these sources: [CHECK_MAGIC_NUMBER] tells whether the build defines
    the macro of that name. *)
Record ReadConfig := mkReadConfig {
  MSG_HEADER_LENGTH : Z;
  MAX_MSG_LENGTH : Z;
  read_buffer_size : Z;
  CHECK_MAGIC_NUMBER : bool;
  MAGIC_NUMBER : Z
}.

(** A header of the incoming stream.  In a build with CHECK_MAGIC_NUMBER
    the header starts with the field [magic]; in a build without it the
    field is not there, and [magic] plays no part. *)
Record WireHeader := mkWireHeader {
  magic : Z;
  fields :> MsgHeader
}.

(** Payloads are aligned to 8 bytes. *)
Definition ALIGN_BYTES : Z := 8.

(** A pointer into a receive buffer: the buffer, by its allocation number,
    and the offset from its [_data]. *)
Record Ptr := mkPtr { p_buf : nat; p_off : Z }.

(** An [IOBufferBlock] made by [new_IOBufferBlock(buffer, size, offset)]. *)
Record Block := mkBlock { b_buf : nat; b_size : Z; b_offset : Z }.

(** [ReaderManager]; [current] and [buff_end] are offsets into [buffer]. *)
Record ReaderManager := mkReader {
  buffer : nat;
  current : Z;
  buff_end : Z;
  msg_header : Ptr;
  recv_body_bytes : Z;
  blocks : list Block
}.

(** The reader with what surrounds it: the allocation counter of
    [new_RecvBuffer], the number of the frame of the incoming stream that
    starts at [msg_header], the calls of [deal_message] so far, and the
    counters. *)
Record World := mkWorld {
  reader : ReaderManager;
  next_buffer : nat;
  frame_no : nat;
  delivered : list (MsgHeader * list Block);
  call_read_count : Z;
  recv_bytes : Z;
  recv_msg_count : Z
}.

Definition set_reader (w : World) (r : ReaderManager) : World :=
  mkWorld r (next_buffer w) (frame_no w) (delivered w)
    (call_read_count w) (recv_bytes w) (recv_msg_count w).

(** [INIT_READER(reader, len)]. *)
Definition INIT_READER (w : World) (len : Z) : World :=
  mkWorld
    (mkReader (next_buffer w) 0 len (mkPtr (next_buffer w) 0)
       (recv_body_bytes (reader w)) (blocks (reader w)))
    (S (next_buffer w)) (frame_no w) (delivered w)
    (call_read_count w) (recv_bytes w) (recv_msg_count w).

(** [ALLOC_READER_BUFFER(reader, len)]: [msg_header] stays where it is. *)
Definition ALLOC_READER_BUFFER (w : World) (len : Z) : World :=
  mkWorld
    (mkReader (next_buffer w) 0 len (msg_header (reader w))
       (recv_body_bytes (reader w)) (blocks (reader w)))
    (S (next_buffer w)) (frame_no w) (delivered w)
    (call_read_count w) (recv_bytes w) (recv_msg_count w).

(** [MOVE_TO_NEW_BUFFER(pSockContext, msg_bytes)]: a new buffer that starts
    with the [msg_bytes] bytes found at the old [msg_header]. *)
Definition MOVE_TO_NEW_BUFFER (c : ReadConfig) (w : World) (msg_bytes : Z) : World :=
  let w1 := INIT_READER w (read_buffer_size c) in
  let r := reader w1 in
  set_reader w1
    (mkReader (buffer r) (current r + msg_bytes) (buff_end r) (msg_header r)
       (recv_body_bytes r) (blocks r)).

(** [append_to_blocks]. *)
Definition append_to_blocks (c : ReadConfig) (r : ReaderManager)
    (current_body_bytes : Z) : option ReaderManager :=
  match blocks r with
  | [] =>
    if decide (p_buf (msg_header r) = buffer r) then
      Some (mkReader (buffer r) (current r) (buff_end r) (msg_header r)
              (recv_body_bytes r)
              [mkBlock (buffer r) current_body_bytes
                 (p_off (msg_header r) + MSG_HEADER_LENGTH c)])
    else None
  | bs =>
    Some (mkReader (buffer r) (current r) (buff_end r) (msg_header r)
            (recv_body_bytes r) (bs ++ [mkBlock (buffer r) current_body_bytes 0]))
  end.

(** How one turn of the [while (1)] loop ends. *)
Inductive Turn :=
| Return (ret : Z) (w : World)
| Again (w : World)
| Aborted.

Definition set_recv_body_bytes (r : ReaderManager) (n : Z) : ReaderManager :=
  mkReader (buffer r) (current r) (buff_end r) (msg_header r) n (blocks r).

(** One turn of the loop of [deal_read_event] (lines 1214-1389).  [pHeader]
    is what the bytes at [msg_header] decode to; the comparison of its
    magic number (lines 1251-1258) is there with CHECK_MAGIC_NUMBER
    only. *)
Definition read_turn (c : ReadConfig) (pHeader : WireHeader) (result : Z)
    (w : World) : option Turn :=
  let r := reader w in
  '(msg_bytes, recv_body_bytes', bFirstBlock) ←
    match blocks r with
    | [] =>
      if decide (p_buf (msg_header r) = buffer r) then
        let msg_bytes := current r - p_off (msg_header r) in
        Some (msg_bytes, msg_bytes - MSG_HEADER_LENGTH c, true)
      else None
    | _ =>
      let msg_bytes := current r in
      Some (msg_bytes, recv_body_bytes r + msg_bytes, false)
    end;
  if bFirstBlock && (msg_bytes <? MSG_HEADER_LENGTH c) then
    if buff_end r - current r <? 4 * 1024 then
      if msg_bytes >? 0 then Some (Return result (MOVE_TO_NEW_BUFFER c w msg_bytes))
      else Some (Return result (INIT_READER w (read_buffer_size c)))
    else Some (Return result w)
  else if CHECK_MAGIC_NUMBER c && negb (magic pHeader =? MAGIC_NUMBER c)
  then Some (Return EINVAL w)
  else if aligned_data_len pHeader >? MAX_MSG_LENGTH c then Some (Return ENOSPC w)
  else if recv_body_bytes' <? aligned_data_len pHeader then
    if recv_body_bytes' + (buff_end r - current r) >=? aligned_data_len pHeader
    then Some (Return result w)
    else
      let padding_body_bytes := recv_body_bytes' - recv_body_bytes r in
      let recv_padding_len := recv_body_bytes' - data_len pHeader in
      let current_true_body_bytes :=
        if recv_padding_len >? 0 then padding_body_bytes - recv_padding_len
        else padding_body_bytes in
      if func_id pHeader <? 0 then
        if negb bFirstBlock then Some (Return EINVAL w)
        else Some (Return result (MOVE_TO_NEW_BUFFER c w msg_bytes))
      else if buff_end r - current r >=? 4 * 1024 then Some (Return result w)
      else if negb (Z.rem recv_body_bytes' ALIGN_BYTES =? 0) then
        if current r <? buff_end r then Some (Return result w) else Some Aborted
      else
        r1 ← (if current_true_body_bytes >? 0
               then append_to_blocks c r current_true_body_bytes else Some r);
        let w1 := set_reader w (set_recv_body_bytes r1 recv_body_bytes') in
        if bFirstBlock then
          if current_true_body_bytes >? 0
          then Some (Return result (ALLOC_READER_BUFFER w1 (read_buffer_size c)))
          else Some (Return result (MOVE_TO_NEW_BUFFER c w1 msg_bytes))
        else Some (Return result (ALLOC_READER_BUFFER w1 (read_buffer_size c)))
  else
    let padding_body_bytes :=
      if bFirstBlock then aligned_data_len pHeader
      else aligned_data_len pHeader - recv_body_bytes r in
    let padding_len := aligned_data_len pHeader - data_len pHeader in
    let current_true_body_bytes :=
      if padding_len >? 0 then
        (if padding_body_bytes >? padding_len then padding_body_bytes - padding_len else 0)
      else padding_body_bytes in
    r1 ← (if current_true_body_bytes >? 0
           then append_to_blocks c r current_true_body_bytes else Some r);
    let r2 :=
      mkReader (buffer r1) (current r1) (buff_end r1)
        (if bFirstBlock
         then mkPtr (p_buf (msg_header r1))
                (p_off (msg_header r1) + (MSG_HEADER_LENGTH c + padding_body_bytes))
         else mkPtr (buffer r1) padding_body_bytes)
        (if recv_body_bytes r1 >? 0 then 0 else recv_body_bytes r1)
        [] in
    Some (Again (mkWorld r2 (next_buffer w) (S (frame_no w))
                   (delivered w ++ [(fields pHeader, blocks r1)])
                   (call_read_count w) (recv_bytes w) (recv_msg_count w + 1))).

(** The [while (1)] loop; [peek k] is the header of the [k]-th frame of the
    incoming stream. *)
Fixpoint read_loop (c : ReadConfig) (peek : nat -> WireHeader) (fuel : nat)
    (result : Z) (w : World) : option Turn :=
  match fuel with
  | O => None
  | S fuel' =>
    t ← read_turn c (peek (frame_no w)) result w;
    match t with
    | Again w' => read_loop c peek fuel' result w'
    | _ => Some t
    end
  end.

(** [deal_read_event]; [read_bytes] and [errno] are what
    [read(sock, current, buff_end - current)] gave. *)
Definition deal_read_event (c : ReadConfig) (peek : nat -> WireHeader) (fuel : nat)
    (read_bytes errno : Z) (w : World) : option Turn :=
  let w := mkWorld (reader w) (next_buffer w) (frame_no w) (delivered w)
             (call_read_count w + 1) (recv_bytes w) (recv_msg_count w) in
  if read_bytes =? 0 then Some (Return ECONNRESET w)
  else if read_bytes <? 0 then
    if (errno =? EAGAIN) || (errno =? EWOULDBLOCK) then Some (Return EAGAIN w)
    else if errno =? EINTR then Some (Return 0 w)
    else Some (Return (if negb (errno =? 0) then errno else EIO) w)
  else
    let r := reader w in
    let r' := mkReader (buffer r) (current r + read_bytes) (buff_end r)
                (msg_header r) (recv_body_bytes r) (blocks r) in
    let w := mkWorld r' (next_buffer w) (frame_no w) (delivered w)
               (call_read_count w) (recv_bytes w + read_bytes) (recv_msg_count w) in
    let result := if buff_end r' - current r' =? 0 then 0 else EAGAIN in
    read_loop c peek fuel result w.



(** The number of bytes that the next [read] asks for. *)
Definition read_request (w : World) : Z :=
  buff_end (reader w) - current (reader w).

(** The reader as [nio_add_to_epoll] leaves it. *)
Definition fresh_world (c : ReadConfig) : World :=
  INIT_READER (mkWorld (mkReader 0 0 0 (mkPtr 0 0) 0 []) 0 0 [] 0 0 0)
    (read_buffer_size c).

(** The reader is on the first block of a frame that lies in the current
    buffer. *)
Definition on_first_block (c : ReadConfig) (w : World) : Prop :=
  blocks (reader w) = [] /\
  p_buf (msg_header (reader w)) = buffer (reader w) /\
  0 <= p_off (msg_header (reader w)) <= current (reader w) /\
  current (reader w) <= buff_end (reader w) /\
  buff_end (reader w) = read_buffer_size c.

(** The bytes of the frame in progress that the buffer holds, for a
    reader on the first block. *)
Definition frame_bytes (w : World) : Z :=
  current (reader w) - p_off (msg_header (reader w)).

(** The magic number of [h] is compared and is wrong. *)
Definition bad_magic (c : ReadConfig) (h : WireHeader) : bool :=
  CHECK_MAGIC_NUMBER c && negb (magic h =? MAGIC_NUMBER c).

(** What the checks of the complete header (lines 1251-1265) answer. *)
Definition refusal (c : ReadConfig) (h : WireHeader) : option Z :=
  if bad_magic c h then Some EINVAL
  else if aligned_data_len h >? MAX_MSG_LENGTH c then Some ENOSPC
  else None.

(** A frame that must fit one buffer, whose payload is longer than the
    buffer has room for, and whose aligned length is not below the length
    of the payload. *)
Definition too_long (c : ReadConfig) (h : MsgHeader) : Prop :=
  func_id h < 0 /\
  read_buffer_size c - MSG_HEADER_LENGTH c < data_len h /\
  data_len h <= aligned_data_len h.

(** A frame that must fit one buffer and cannot. *)
Definition oversized_negative (c : ReadConfig) (h : MsgHeader) : Prop :=
  func_id h < 0 /\
  read_buffer_size c - MSG_HEADER_LENGTH c < data_len h /\
  data_len h <= aligned_data_len h /\
  aligned_data_len h <= MAX_MSG_LENGTH c.

(** The reader as [INIT_READER] and the calls of [deal_read_event] leave
    it, [h] being the header of the frame in progress: on the first block
    the header lies in the current buffer, and the chain of blocks is only
    ever built for a frame whose [func_id] is not negative and whose body
    is incomplete. *)
Definition reader_ok (c : ReadConfig) (h : MsgHeader) (r : ReaderManager) : Prop :=
  0 <= current r <= buff_end r /\ buff_end r = read_buffer_size c /\
  match blocks r with
  | [] => p_buf (msg_header r) = buffer r /\ 0 <= p_off (msg_header r) <= current r
  | _ => 0 <= func_id h /\ recv_body_bytes r < aligned_data_len h
  end.

(** A bound on the frames that one call can still complete. *)
Definition frames_left (r : ReaderManager) : nat :=
  match blocks r with
  | [] => Z.to_nat (current r - p_off (msg_header r))
  | _ => S (Z.to_nat (current r))
  end.

(** Sample data: a buffer of 2 MiB, headers of 32 bytes, no magic number;
    a frame whose [func_id] is -1 and whose payload is 2 MiB. *)
Definition sample_config : ReadConfig :=
  mkReadConfig 32 (64 * 1024 * 1024) (2 * 1024 * 1024) false 0.

Definition sample_frame : WireHeader :=
  mkWireHeader 0 (mkMsgHeader (-1) 2097152 2097152 0 0 0 0).


End Reader.

(** ** connection.cc: the per-machine socket tables *)
Module Machines.

Definition ENOENT : Z := 2.
Definition ENOMEM : Z := 12.

(** [a[i]] for an [int] index: reading outside the array yields [None]. *)
Definition at_index {A} (l : list A) (i : Z) : option A :=
  if i <? 0 then None else l !! Z.to_nat i.

(** [a[i] = x]; outside the array the store yields [None]. *)
Definition store {A} (l : list A) (i : Z) (x : A) : option (list A) :=
  if (0 <=? i) && (i <? Z.of_nat (length l)) then Some (<[Z.to_nat i := x]> l) else None.

(** The fields of [SocketContext] (nio.h) that the tables use.  Pointers to
    socket contexts are indices into [socket_contexts_pool]; [machine] holds
    the [ip] of the [ClusterMachine] it points to, [None] for NULL.
    [connect_type] is [None] as long as the zeroed memory was not written. *)
Record SocketContext := mkSocketContext {
  sock : Z;
  connect_type : option ConnectType;
  machine : option Z;
  next : option nat;
  thread_context : Z
}.

(** [SocketContextArray]: a malloc'ed array of [alloc_size] pointers, of
    which the first [count] are in use, and the round-robin counter. *)
Record SocketContextArray := mkArray {
  contexts : list (option nat);
  count : Z;
  alloc_size : Z;
  index : Z
}.

Record SocketContextsByMachine := mkSlot {
  ip : Z;
  connect_free_list : option nat;
  accept_free_list : option nat;
  connected_list : SocketContextArray
}.

(** [machine_sockets[MAX_MACHINE_COUNT]] and [socket_contexts_pool]. *)
Record Tables := mkTables {
  machine_sockets : list SocketContextsByMachine;
  socket_contexts_pool : list SocketContext
}.

Definition set_ip (s : SocketContextsByMachine) (v : Z) : SocketContextsByMachine :=
  mkSlot v (connect_free_list s) (accept_free_list s) (connected_list s).

Definition set_connected_list (s : SocketContextsByMachine) (a : SocketContextArray)
  : SocketContextsByMachine :=
  mkSlot (ip s) (connect_free_list s) (accept_free_list s) a.

Definition set_next (c : SocketContext) (n : option nat) : SocketContext :=
  mkSocketContext (sock c) (connect_type c) (machine c) n (thread_context c).

(** The free list of one role: [connect_free_list] for client contexts,
    [accept_free_list] for server contexts. *)
Definition free_list (ty : ConnectType) (s : SocketContextsByMachine) : option nat :=
  match ty with
  | CONNECT_TYPE_CLIENT => connect_free_list s
  | CONNECT_TYPE_SERVER => accept_free_list s
  end.

Definition set_free_list (ty : ConnectType) (s : SocketContextsByMachine)
    (v : option nat) : SocketContextsByMachine :=
  match ty with
  | CONNECT_TYPE_CLIENT => mkSlot (ip s) v (accept_free_list s) (connected_list s)
  | CONNECT_TYPE_SERVER => mkSlot (ip s) (connect_free_list s) v (connected_list s)
  end.

(** The loop [while (count <= MAX_MACHINE_COUNT)] of [get_machine_index]
    and of [alloc_machine_index], which differ in the value [want] that
    they compare [machine_sockets[index].ip] with.  [fuel] bounds the
    number of evaluations of the loop condition. *)
Fixpoint probe (MAX_MACHINE_COUNT : Z) (t : list SocketContextsByMachine)
    (want id count : Z) (fuel : nat) : option Z :=
  match fuel with
  | O => None
  | S fuel' =>
    if count <=? MAX_MACHINE_COUNT then
      let index := Z.rem (id + count) MAX_MACHINE_COUNT in
      s ← at_index t index;
      if ip s =? want then Some index
      else probe MAX_MACHINE_COUNT t want id (count + 1) fuel'
    else Some (-1)
  end.

(** [get_machine_index]; [ip] is an [unsigned int]. *)
Definition get_machine_index (MAX_MACHINE_COUNT : Z)
    (t : list SocketContextsByMachine) (ip_ : Z) : option Z :=
  let id := ip_ mod MAX_MACHINE_COUNT in
  s ← at_index t id;
  if ip s =? ip_ then Some id
  else probe MAX_MACHINE_COUNT t ip_ id 1 (S (Z.to_nat MAX_MACHINE_COUNT)).

(** [alloc_machine_index]. *)
Definition alloc_machine_index (MAX_MACHINE_COUNT : Z)
    (t : list SocketContextsByMachine) (ip_ : Z) : option Z :=
  let id := ip_ mod MAX_MACHINE_COUNT in
  s ← at_index t id;
  if ip s =? 0 then Some id
  else probe MAX_MACHINE_COUNT t 0 id 1 (S (Z.to_nat MAX_MACHINE_COUNT)).

(** Lines 580-587 and 632-639: the slot of [machine_ip], claimed if the
    machine has none yet; [None] inside when the table is full. *)
Definition machine_slot (MAX_MACHINE_COUNT : Z) (t : list SocketContextsByMachine)
    (machine_ip : Z) : option (option (Z * list SocketContextsByMachine)) :=
  machine_id ← get_machine_index MAX_MACHINE_COUNT t machine_ip;
  if machine_id <? 0 then
    machine_id ← alloc_machine_index MAX_MACHINE_COUNT t machine_ip;
    if machine_id <? 0 then Some None
    else
      s ← at_index t machine_id;
      t' ← store t machine_id (set_ip s machine_ip);
      Some (Some (machine_id, t'))
  else Some (Some (machine_id, t)).

(** [alloc_connect_sock_context] ([ty] client) and
    [alloc_accept_sock_context] ([ty] server): the same text but for the
    free list taken.  The result is the context, NULL when the table is
    full or the list is empty. *)
Definition alloc_sock_context (ty : ConnectType) (MAX_MACHINE_COUNT : Z)
    (w : Tables) (machine_ip : Z) : option (option nat * Tables) :=
  r ← machine_slot MAX_MACHINE_COUNT (machine_sockets w) machine_ip;
  match r with
  | None => Some (None, w)
  | Some (machine_id, t) =>
    s ← at_index t machine_id;
    match free_list ty s with
    | None => Some (None, mkTables t (socket_contexts_pool w))
    | Some p =>
      c ← socket_contexts_pool w !! p;
      t' ← store t machine_id (set_free_list ty s (next c));
      Some (Some p, mkTables t' (socket_contexts_pool w))
    end
  end.

Definition alloc_connect_sock_context := alloc_sock_context CONNECT_TYPE_CLIENT.
Definition alloc_accept_sock_context := alloc_sock_context CONNECT_TYPE_SERVER.

(** [free_connect_sock_context] and [free_accept_sock_context]. *)
Definition free_sock_context (ty : ConnectType) (MAX_MACHINE_COUNT : Z)
    (w : Tables) (pSockContext : nat) : option Tables :=
  c ← socket_contexts_pool w !! pSockContext;
  machine_ip ← machine c;
  machine_id ← get_machine_index MAX_MACHINE_COUNT (machine_sockets w) machine_ip;
  if machine_id <? 0 then Some w
  else
    s ← at_index (machine_sockets w) machine_id;
    t' ← store (machine_sockets w) machine_id (set_free_list ty s (Some pSockContext));
    Some (mkTables t'
            (<[pSockContext := set_next c (free_list ty s)]> (socket_contexts_pool w))).

Definition free_connect_sock_context := free_sock_context CONNECT_TYPE_CLIENT.
Definition free_accept_sock_context := free_sock_context CONNECT_TYPE_SERVER.

(** One turn of the inner loops of [init_socket_contexts]
    (lines 741-746 and 750-755). *)
Definition push_free (ty : ConnectType) (w : Tables) (machine_index : Z)
    (pSockContext : nat) (thread : Z) : option Tables :=
  c ← socket_contexts_pool w !! pSockContext;
  s ← at_index (machine_sockets w) machine_index;
  t' ← store (machine_sockets w) machine_index (set_free_list ty s (Some pSockContext));
  Some (mkTables t'
          (<[pSockContext := mkSocketContext (sock c) (Some ty) (machine c)
                               (free_list ty s) thread]> (socket_contexts_pool w))).

(** [for (k = 0; k < half_connections_per_machine; k++)], [k] turns left. *)
Fixpoint push_loop (ty : ConnectType) (k : nat) (w : Tables) (machine_index : Z)
    (pSockContext : nat) (thread_index num_of_cluster_threads : Z)
  : option (Tables * nat * Z) :=
  match k with
  | O => Some (w, pSockContext, thread_index)
  | S k' =>
    w' ← push_free ty w machine_index pSockContext
           (Z.rem thread_index num_of_cluster_threads);
    push_loop ty k' w' machine_index (S pSockContext) (thread_index + 1)
      num_of_cluster_threads
  end.

(** [for (machine_index = 0; machine_index < MAX_MACHINE_COUNT; ...)],
    [n] turns left. *)
Fixpoint machine_loop (n half : nat) (w : Tables) (machine_index : Z)
    (pSockContext : nat) (thread_index num_of_cluster_threads : Z) : option Tables :=
  match n with
  | O => Some w
  | S n' =>
    '(w1, p1, ti1) ← push_loop CONNECT_TYPE_SERVER half w machine_index pSockContext
                       thread_index num_of_cluster_threads;
    '(w2, p2, ti2) ← push_loop CONNECT_TYPE_CLIENT half w1 machine_index p1
                       ti1 num_of_cluster_threads;
    machine_loop n' half w2 (machine_index + 1) p2 ti2 num_of_cluster_threads
  end.

(** The pool as [alloc_socket_contexts] makes it: zeroed memory. *)
Definition zero_context : SocketContext := mkSocketContext 0 None None None 0.

(** [init_socket_contexts], on the table that [connection_init] zeroed; the
    pool holds [num_of_cluster_connections * MAX_MACHINE_COUNT + 1]
    contexts. *)
Definition init_socket_contexts (MAX_MACHINE_COUNT num_of_cluster_connections
    num_of_cluster_threads : Z) (t : list SocketContextsByMachine) : option Tables :=
  let total_connections := num_of_cluster_connections * MAX_MACHINE_COUNT + 1 in
  let pool := replicate (Z.to_nat total_connections) zero_context in
  let half_connections_per_machine := Z.quot num_of_cluster_connections 2 in
  machine_loop (Z.to_nat MAX_MACHINE_COUNT) (Z.to_nat half_connections_per_machine)
    (mkTables t pool) 0 1 0 num_of_cluster_threads.

(** The table as [connection_init] zeroes it. *)
Definition zero_slot : SocketContextsByMachine :=
  mkSlot 0 None None (mkArray [] 0 0 0).

(** *** The connected contexts of a machine *)

(** [add_machine_sock_context], lines 1622-1653, on the array of the
    machine.  [malloc_errno] is [None] when [malloc] succeeds and the
    [errno] it left otherwise. *)
Definition array_add (a : SocketContextArray) (pSockContext : nat)
    (malloc_errno : option Z) : option (Z * SocketContextArray) :=
  if count a >=? alloc_size a then
    let alloc_size' := if alloc_size a =? 0 then 64 else alloc_size a * 2 in
    match malloc_errno with
    | Some errno =>
      Some (if negb (errno =? 0) then errno else ENOMEM,
            mkArray (contexts a) (count a) alloc_size' (index a))
    | None =>
      copied ← (if count a >? 0 then
                  if count a <=? Z.of_nat (length (contexts a))
                  then Some (take (Z.to_nat (count a)) (contexts a)) else None
                else Some []);
      let newContexts :=
        copied ++ replicate (Z.to_nat alloc_size' - length copied) None in
      c ← store newContexts (count a) (Some pSockContext);
      Some (0, mkArray c (count a + 1) alloc_size' (index a))
    end
  else
    c ← store (contexts a) (count a) (Some pSockContext);
    Some (0, mkArray c (count a + 1) (alloc_size a) (index a)).

(** [add_machine_sock_context]. *)
Definition add_machine_sock_context (MAX_MACHINE_COUNT : Z) (w : Tables)
    (pSockContext : nat) (malloc_errno : option Z) : option (Z * Tables) :=
  c ← socket_contexts_pool w !! pSockContext;
  machine_ip ← machine c;
  machine_id ← get_machine_index MAX_MACHINE_COUNT (machine_sockets w) machine_ip;
  if machine_id <? 0 then Some (ENOENT, w)
  else
    s ← at_index (machine_sockets w) machine_id;
    '(r, a) ← array_add (connected_list s) pSockContext malloc_errno;
    t' ← store (machine_sockets w) machine_id (set_connected_list s a);
    Some (r, mkTables t' (socket_contexts_pool w)).

(** [for (found = 0; found < count; found++)]: the index of the first
    entry equal to [pSockContext], or where the loop ran out. *)
Fixpoint find_context (l : list (option nat)) (pSockContext : nat) (found : nat)
    (turns : nat) : option nat :=
  match turns with
  | O => Some found
  | S k =>
    x ← l !! found;
    if decide (x = Some pSockContext) then Some found
    else find_context l pSockContext (S found) k
  end.

(** [for (i = found + 1; i < count; i++) contexts[i-1] = contexts[i]]. *)
Fixpoint shift_left {A} (l : list A) (i : nat) (turns : nat) : option (list A) :=
  match turns with
  | O => Some l
  | S k =>
    x ← l !! i;
    shift_left (<[(i - 1)%nat := x]> l) (S i) k
  end.

(** [remove_machine_sock_context], lines 1672-1691, on the array of the
    machine. *)
Definition array_remove (a : SocketContextArray) (pSockContext : nat)
    : option (Z * SocketContextArray) :=
  if count a =? 0 then Some (ENOENT, a)
  else if count a <? 0 then None
  else
    let n := Z.to_nat (count a) in
    found ← find_context (contexts a) pSockContext 0 n;
    if decide (found = n) then Some (ENOENT, a)
    else
      c ← shift_left (contexts a) (S found) (n - S found);
      c' ← store c (count a - 1) None;
      Some (0, mkArray c' (count a - 1) (alloc_size a) (index a)).

(** [remove_machine_sock_context]. *)
Definition remove_machine_sock_context (MAX_MACHINE_COUNT : Z) (w : Tables)
    (pSockContext : nat) : option (Z * Tables) :=
  c ← socket_contexts_pool w !! pSockContext;
  machine_ip ← machine c;
  machine_id ← get_machine_index MAX_MACHINE_COUNT (machine_sockets w) machine_ip;
  if machine_id <? 0 then Some (ENOENT, w)
  else
    s ← at_index (machine_sockets w) machine_id;
    '(r, a) ← array_remove (connected_list s) pSockContext;
    t' ← store (machine_sockets w) machine_id (set_connected_list s a);
    Some (r, mkTables t' (socket_contexts_pool w)).

(** The type of the counter [index] is declared outside these sources: it
    is taken as a 32-bit integer, [index_signed] telling an [int] from an
    [unsigned int].  [counter index_signed v] is what the counter holds
    once [v] was stored into it. *)
Definition counter (index_signed : bool) (v : Z) : Z :=
  if index_signed then to_int (wrap32 v) else wrap32 v.

(** [get_socket_context]; [machine_ip] is [machine->ip].
    [ink_atomic_increment] yields the value of the counter before the
    increment and lets the counter wrap around.  With an [int] counter the
    remainder has the sign of the counter and is then stored into the
    [unsigned int context_index]; with an [unsigned int] counter the
    remainder is taken in unsigned arithmetic. *)
Definition get_socket_context (index_signed : bool) (MAX_MACHINE_COUNT : Z)
    (w : Tables) (machine_ip : Z) : option (option nat * Tables) :=
  machine_id ← get_machine_index MAX_MACHINE_COUNT (machine_sockets w) machine_ip;
  if machine_id <? 0 then Some (None, w)
  else
    s ← at_index (machine_sockets w) machine_id;
    let a := connected_list s in
    let context_count := count a in
    if context_count <=? 0 then Some (None, w)
    else
      let context_index :=
        if index_signed then wrap32 (Z.rem (index a) context_count)
        else Z.rem (index a) context_count in
      x ← at_index (contexts a) context_index;
      t' ← store (machine_sockets w) machine_id
             (set_connected_list s
                (mkArray (contexts a) (count a) (alloc_size a)
                   (counter index_signed (index a + 1))));
      Some (x, mkTables t' (socket_contexts_pool w)).

(** The contexts in use: [contexts[0 .. count)]. *)
Definition live (a : SocketContextArray) : list (option nat) :=
  take (Z.to_nat (count a)) (contexts a).

(** The array is what [add_machine_sock_context] and
    [remove_machine_sock_context] make of the zeroed one. *)
Definition array_ok (a : SocketContextArray) : Prop :=
  0 <= count a <= alloc_size a /\
  Z.of_nat (length (contexts a)) = alloc_size a.

(** Following [next] from [hd] in the pool visits exactly [l] and ends in
    NULL. *)
Inductive chain (pool : list SocketContext) : option nat -> list nat -> Prop :=
| chain_nil : chain pool None []
| chain_cons p c l :
    pool !! p = Some c -> chain pool (next c) l -> chain pool (Some p) (p :: l).

(** *** Vocabulary of the statements *)

(** The heads of the free lists of role [ty] point into the pool. *)
Definition heads_in_pool (ty : ConnectType) (w : Tables) : Prop :=
  forall s p, s ∈ machine_sockets w -> free_list ty s = Some p ->
    is_Some (socket_contexts_pool w !! p).

(** The machine [machine_ip] has the slot [i], which is [s]. *)
Definition machine_at (N : Z) (w : Tables) (machine_ip i : Z)
    (s : SocketContextsByMachine) : Prop :=
  get_machine_index N (machine_sockets w) machine_ip = Some i /\ 0 <= i /\
  at_index (machine_sockets w) i = Some s.

(** The socket context [p] belongs to a machine that has the slot [i],
    which is [s]. *)
Definition connected_at (N : Z) (w : Tables) (p : nat) (i : Z)
    (s : SocketContextsByMachine) : Prop :=
  exists c machine_ip,
    socket_contexts_pool w !! p = Some c /\ machine c = Some machine_ip /\
    machine_at N w machine_ip i s.

(** [v] is a value of the counter's type. *)
Definition counter_ok (index_signed : bool) (v : Z) : Prop :=
  if index_signed then - 2 ^ 31 <= v < 2 ^ 31 else 0 <= v < 2 ^ 32.

(** The array after [k] more calls of [get_socket_context]. *)
Definition bump (index_signed : bool) (a : SocketContextArray) (k : Z)
    : SocketContextArray :=
  mkArray (contexts a) (count a) (alloc_size a) (counter index_signed (index a + k)).

(** [k] calls of [get_socket_context] in a row, with their answers. *)
Fixpoint get_socket_contexts (index_signed : bool) (N : Z) (k : nat) (w : Tables)
    (machine_ip : Z) : option (list (option nat) * Tables) :=
  match k with
  | O => Some ([], w)
  | S k' =>
    '(x, w1) ← get_socket_context index_signed N w machine_ip;
    '(xs, w2) ← get_socket_contexts index_signed N k' w1 machine_ip;
    Some (x :: xs, w2)
  end.

(** [k] requests in a row for a context of one machine and role, with
    their answers. *)
Fixpoint alloc_sock_contexts (ty : ConnectType) (N : Z) (k : nat) (w : Tables)
    (machine_ip : Z) : option (list (option nat) * Tables) :=
  match k with
  | O => Some ([], w)
  | S k' =>
    '(x, w1) ← alloc_sock_context ty N w machine_ip;
    '(xs, w2) ← alloc_sock_contexts ty N k' w1 machine_ip;
    Some (x :: xs, w2)
  end.

(** The first context of machine [i] in the pool, with [h] contexts a
    role: context 0 is kept for the listening socket. *)
Definition block (h i : nat) : nat := 1 + 2 * h * i.

(** The contexts [a .. a + h - 1] as a free list: they were pushed in this
    order, so the last one is the head. *)
Definition pushed (a h : nat) : list nat := reverse (seq a h).

(** Machine [i] has its two free lists. *)
Definition slot_done (h : nat) (pool : list SocketContext) (i : nat)
    (s : SocketContextsByMachine) : Prop :=
  ip s = 0 /\ connected_list s = mkArray [] 0 0 0 /\
  chain pool (accept_free_list s) (pushed (block h i) h) /\
  chain pool (connect_free_list s) (pushed (block h i + h) h) /\
  (forall x, x ∈ pushed (block h i) h ->
     exists c, pool !! x = Some c /\ connect_type c = Some CONNECT_TYPE_SERVER) /\
  (forall x, x ∈ pushed (block h i + h) h ->
     exists c, pool !! x = Some c /\ connect_type c = Some CONNECT_TYPE_CLIENT).

(** The state of [init_socket_contexts] when [mi] machines are done: their
    slots have their lists, the other slots and the contexts from
    [block h mi] on are as zeroed, context 0 too, and context [j] belongs
    to the worker thread [(j - 1) % num_of_cluster_threads]. *)
Definition init_inv (h : nat) (nt : Z) (w : Tables) (mi : nat) : Prop :=
  (forall i s, (i < mi)%nat -> machine_sockets w !! i = Some s ->
     slot_done h (socket_contexts_pool w) i s) /\
  (forall i s, (mi <= i)%nat -> machine_sockets w !! i = Some s -> s = zero_slot) /\
  (forall j c, (j = 0 \/ block h mi <= j)%nat ->
     socket_contexts_pool w !! j = Some c -> c = zero_context) /\
  (forall j, (1 <= j < block h mi)%nat ->
     exists c, socket_contexts_pool w !! j = Some c /\
       thread_context c = Z.rem (Z.of_nat (j - 1)) nt /\
       sock c = 0 /\ machine c = None).

(** Sample data: three slots, the machines 4 and 7 registered (7 after a
    collision with 4), ten socket contexts that belong to machine 4. *)
Definition sample_pool : list SocketContext :=
  replicate 10 (mkSocketContext (-1) (Some CONNECT_TYPE_CLIENT) (Some 4) None 0).

Definition sample_tables : Tables :=
  mkTables
    [zero_slot;
     mkSlot 4 (Some 5%nat) None (mkArray [Some 7%nat; Some 8%nat; None; None] 2 4 0);
     mkSlot 7 None None (mkArray [] 0 0 0)]
    sample_pool.

(** The same tables with the counter of machine 4 one short of the highest
    [unsigned int] value. *)
Definition sample_wrap_tables : Tables :=
  mkTables
    [zero_slot;
     mkSlot 4 (Some 5%nat) None
       (mkArray [Some 7%nat; Some 8%nat; None; None] 2 4 (2 ^ 32 - 2));
     mkSlot 7 None None (mkArray [] 0 0 0)]
    sample_pool.

End Machines.

(** ** connection.cc: the connections in progress *)
Module Connections.

Definition ENOENT : Z := 2.

(** [ConnectContext] with [pSockContext] as a pointer into
    [socket_contexts_pool]; [buff] holds a header and a hello. *)
Record ConnectContext := mkConnectContext {
  pSockContext : option nat;
  connect_start_time : Z;
  server_start_time : Z;
  reconnect_interval : Z;
  connect_count : Z;
  send_bytes : Z;
  recv_bytes : Z;
  total_bytes : Z;
  state : Reconnect.ConnectState;
  buff : MsgHeader * Hello.HelloMessage;
  is_accept : bool;
  need_reconnect : bool;
  used : bool;
  need_check_timeout : bool
}.

(** [connect_thread_context] without its event poll.  Pointers to connect
    contexts are indices into [connections_buffer]; [lock] tells whether
    the mutex is held. *)
Record connection_thread_context := mkThread {
  alloc_size : Z;
  lock : bool;
  connections_buffer : list ConnectContext;
  connections : list (option nat);
  connection_count : Z
}.

Definition set_lock (t : connection_thread_context) (b : bool)
  : connection_thread_context :=
  mkThread (alloc_size t) b (connections_buffer t) (connections t) (connection_count t).

(** [used = false; pSockContext = NULL] (lines 114-115). *)
Definition unuse (e : ConnectContext) : ConnectContext :=
  mkConnectContext None (connect_start_time e) (server_start_time e)
    (reconnect_interval e) (connect_count e) (send_bytes e) (recv_bytes e)
    (total_bytes e) (state e) (buff e) (is_accept e) (need_reconnect e) false
    (need_check_timeout e).

(** The loop over [connections[0 .. connection_count)] of
    [remove_connection] and of [find_connection]: the index of the first
    entry whose [pSockContext] is the given one, or where the loop ran
    out.  [turns] is the number of entries left. *)
Fixpoint search (t : connection_thread_context) (pSock : nat) (i turns : nat)
  : option nat :=
  match turns with
  | O => Some i
  | S k =>
    pp ← connections t !! i;
    p ← pp;
    e ← connections_buffer t !! p;
    if decide (pSockContext e = Some pSock) then Some i
    else search t pSock (S i) k
  end.

(** [remove_connection]. *)
Definition remove_connection (t : connection_thread_context) (pSock : nat)
    (needLock : bool) : option (Z * connection_thread_context) :=
  if connection_count t <? 0 then None
  else
    let t := if needLock then set_lock t true else t in
    let n := Z.to_nat (connection_count t) in
    i ← search t pSock 0 n;
    if decide (i = n) then Some (ENOENT, set_lock t false)
    else
      pp ← connections t !! i;
      p ← pp;
      e ← connections_buffer t !! p;
      c ← Machines.shift_left (connections t) (S i) (n - S i);
      let t' := mkThread (alloc_size t) (lock t)
                  (<[p := unuse e]> (connections_buffer t)) c
                  (connection_count t - 1) in
      Some (0, if needLock then set_lock t' false else t').

(** [find_connection]. *)
Definition find_connection (t : connection_thread_context) (pSock : nat)
  : option (option nat) :=
  if connection_count t <? 0 then None
  else
    let n := Z.to_nat (connection_count t) in
    i ← search t pSock 0 n;
    if decide (i = n) then Some None
    else pp ← connections t !! i; Some pp.

(** The loop of lines 938-944 over the pool: the index of the first entry
    that is not in use, or where the loop ran out. *)
Fixpoint first_unused (buf : list ConnectContext) (i turns : nat) : option nat :=
  match turns with
  | O => Some i
  | S k =>
    e ← buf !! i;
    if used e then first_unused buf (S i) k else Some i
  end.

(** The fields that [alloc_connect_context] sets (lines 952-964). *)
Definition fresh (MSG_HEADER_LENGTH : Z) (e : ConnectContext) : ConnectContext :=
  mkConnectContext (pSockContext e) (connect_start_time e) (server_start_time e)
    100 0 0 0 (Reconnect.sizeof_MsgHeader_plus_Hello MSG_HEADER_LENGTH)
    Reconnect.STATE_NOT_CONNECT (buff e) (is_accept e) false true false.

(** [alloc_connect_context]. *)
Definition alloc_connect_context (MSG_HEADER_LENGTH : Z)
    (t : connection_thread_context) : option (option nat * connection_thread_context) :=
  if connection_count t >=? alloc_size t then Some (None, set_lock t false)
  else if alloc_size t <? 0 then None
  else
    let n := Z.to_nat (alloc_size t) in
    p ← first_unused (connections_buffer t) 0 n;
    if decide (p = n) then Some (None, set_lock t false)
    else
      e ← connections_buffer t !! p;
      c ← Machines.store (connections t) (connection_count t) (Some p);
      Some (Some p,
            mkThread (alloc_size t) false
              (<[p := fresh MSG_HEADER_LENGTH e]> (connections_buffer t)) c
              (connection_count t + 1)).

(** The connect contexts listed: [connections[0 .. connection_count)]. *)
Definition listed (t : connection_thread_context) : list (option nat) :=
  take (Z.to_nat (connection_count t)) (connections t).

(** The arrays as [connection_init] allocates them, with entries that point
    into the pool. *)
Definition thread_ok (t : connection_thread_context) : Prop :=
  0 <= connection_count t <= alloc_size t /\
  Z.of_nat (length (connections t)) = alloc_size t /\
  Z.of_nat (length (connections_buffer t)) = alloc_size t /\
  forall x, x ∈ listed t -> exists p, x = Some p /\ is_Some (connections_buffer t !! p).

(** Every pool entry in use is listed, once, and nothing else is. *)
Definition pool_listed (t : connection_thread_context) : Prop :=
  NoDup (listed t) /\
  forall p e, connections_buffer t !! p = Some e ->
    (used e = true <-> Some p ∈ listed t).

(** The entry behind a listed pointer points to [pSock]. *)
Definition points_to (t : connection_thread_context) (pSock : nat)
    (x : option nat) : Prop :=
  exists p e, x = Some p /\ connections_buffer t !! p = Some e /\
    pSockContext e = Some pSock.

(** Sample data: a pool of three connect contexts; the listening socket's
    context 0 and the context 1 of socket context 4 are listed. *)
Definition sample_entry (pSock : option nat) (u : bool) : ConnectContext :=
  mkConnectContext pSock 0 0 100 0 0 0 48 Reconnect.STATE_NOT_CONNECT
    (mkMsgHeader 0 0 0 0 0 0 0, Hello.mkHello 0 0 0 0) false false u false.

Definition sample_thread : connection_thread_context :=
  mkThread 3 true
    [sample_entry (Some 0%nat) true; sample_entry (Some 4%nat) true; sample_entry None false]
    [Some 0%nat; Some 1%nat; None] 2.

End Connections.

(** ** nio.cc: [clear_send_queue] *)
Module Purge.
Import Nio.

Definition set_version (s : State) (v : Z) : State :=
  mkState (heap s) (sock s) v (queue_index s) (send_queues s) (stats s) (released s).

(** The loop [while (send_queue->head != NULL)] of lines 596-602 on queue
    [i]; [fuel] bounds its turns. *)
Fixpoint drain (c : NioConfig) (fuel : nat) (s : State) (i : Z)
    (count drop_bytes : Z) : option (State * Z * Z) :=
  match head (send_queues s i) with
  | None => Some (s, count, drop_bytes)
  | Some a =>
    match fuel with
    | O => None
    | S fuel' =>
      msg ← heap s !! a;
      let s1 := set_send_queue s i (mkQueue (next msg) (tail (send_queues s i))) in
      let drop_bytes := drop_bytes + (MSG_HEADER_LENGTH c + aligned_data_len (header msg)) in
      let s2 := release_out_message s1 a msg in
      drain c fuel' s2 i (count + 1) drop_bytes
    end
  end.

(** One turn of [for (i = 0; i < PRIORITY_COUNT; i++)], lines 593-604. *)
Definition clear_queue (c : NioConfig) (fuel : nat) (s : State) (i : Z)
    (count drop_bytes : Z) : option (State * Z * Z) :=
  let s := set_version s (version s + 1) in
  '(s, count, drop_bytes) ← drain c fuel s i count drop_bytes;
  Some (set_send_queue s i (mkQueue (head (send_queues s i)) None), count, drop_bytes).

(** [clear_send_queue].  It yields the socket context with [count] and
    [drop_bytes], which lines 620-621 add to the counters drop_msg_count
    and drop_bytes of the statistics when [count > 0]. *)
Definition clear_send_queue (c : NioConfig) (fuel : nat) (s : State)
  : option (State * Z * Z) :=
  '(s, count, drop_bytes) ← clear_queue c fuel s 0 0 0;
  '(s, count, drop_bytes) ← clear_queue c fuel s 1 count drop_bytes;
  clear_queue c fuel s 2 count drop_bytes.

(** The messages of the three queues, high priority first. *)
Definition queued (L : Z -> list positive) : list positive := L 0 ++ L 1 ++ L 2.

(** The bytes of the messages [l] as they are in [h]. *)
Fixpoint frame_bytes (c : NioConfig) (h : gmap positive OutMessage)
    (l : list positive) : Z :=
  match l with
  | [] => 0
  | a :: r =>
    match h !! a with
    | Some m => msg_total c m
    | None => 0
    end + frame_bytes c h r
  end.

(** The log entries of the messages [l] as they are in [h]. *)
Definition logged (h : gmap positive OutMessage) (l : list positive)
  : list (positive * OutMessage) :=
  omap (fun a => m ← h !! a; Some (a, m)) l.

(** The three queues hold the messages [L 0], [L 1] and [L 2] and share
    none. *)
Definition queues_hold (s : State) (L : Z -> list positive) : Prop :=
  (forall p, 0 <= p < PRIORITY_COUNT -> lseg (heap s) (head (send_queues s p)) (L p)) /\
  (forall p p' a, 0 <= p < PRIORITY_COUNT -> 0 <= p' < PRIORITY_COUNT ->
     p <> p' -> a ∈ L p -> a ∉ L p').

(** The queue contents of [sample_one]. *)
Definition sample_one_queues (p : Z) : list positive :=
  if p =? 0 then [1%positive] else [].

End Purge.

(** ** connection.cc: the handshake of a connection *)
Module Handshake.
Import Connections.

Definition ENOMEM : Z := 12.

(** The events asked of the poll; [NO_EVENTS] is [events == 0]. *)
Inductive Events := NO_EVENTS | EVENTIO_READ | EVENTIO_WRITE.

(** The controller: the socket tables, the connections in progress, and
    the [ClusterMachine] records, by ip. *)
Record World := mkWorld {
  tables : Machines.Tables;
  thread : connection_thread_context;
  machines : Z -> Hello.ClusterMachine
}.

(** What the environment answers during one call of
    [connection_handler]. *)
Record Answers := mkAnswers {
  so_error : Z;                 (* check_socket_status(sock) *)
  transfers : list (Z * Z);     (* return value and errno of each write() or read() *)
  received : MsgHeader * Hello.HelloMessage;
                                (* what [buff] holds once [total_bytes] were read *)
  control : Z * Z;              (* return value and errno of ev_poll->attach or modify *)
  detached : Z * Z;             (* return value and errno of ev_poll->detach *)
  now_ms : Z;                   (* CURRENT_MS() *)
  now : Z                       (* CURRENT_TIME() *)
}.

(** How a call of [connection_handler] ends. *)
Inductive Outcome :=
| Pending (w : World)             (* return 0 at line 520: the next event is awaited *)
| HandOff (w : World)             (* line 539 reached with [result == 0]:
                                     machine_add_connection comes next *)
| Failed (result : Z) (w : World). (* return of a [result != 0] at line 552 *)

Definition set_state (e : ConnectContext) (s : Reconnect.ConnectState) : ConnectContext :=
  mkConnectContext (pSockContext e) (connect_start_time e) (server_start_time e)
    (reconnect_interval e) (connect_count e) (send_bytes e) (recv_bytes e)
    (total_bytes e) s (buff e) (is_accept e) (need_reconnect e) (used e)
    (need_check_timeout e).

Definition set_send_bytes (e : ConnectContext) (n : Z) : ConnectContext :=
  mkConnectContext (pSockContext e) (connect_start_time e) (server_start_time e)
    (reconnect_interval e) (connect_count e) n (recv_bytes e)
    (total_bytes e) (state e) (buff e) (is_accept e) (need_reconnect e) (used e)
    (need_check_timeout e).

Definition set_recv_bytes (e : ConnectContext) (n : Z) : ConnectContext :=
  mkConnectContext (pSockContext e) (connect_start_time e) (server_start_time e)
    (reconnect_interval e) (connect_count e) (send_bytes e) n
    (total_bytes e) (state e) (buff e) (is_accept e) (need_reconnect e) (used e)
    (need_check_timeout e).

Definition set_buff (e : ConnectContext) (b : MsgHeader * Hello.HelloMessage)
  : ConnectContext :=
  mkConnectContext (pSockContext e) (connect_start_time e) (server_start_time e)
    (reconnect_interval e) (connect_count e) (send_bytes e) (recv_bytes e)
    (total_bytes e) (state e) b (is_accept e) (need_reconnect e) (used e)
    (need_check_timeout e).

Definition set_server_start_time (e : ConnectContext) (t : Z) : ConnectContext :=
  mkConnectContext (pSockContext e) (connect_start_time e) t
    (reconnect_interval e) (connect_count e) (send_bytes e) (recv_bytes e)
    (total_bytes e) (state e) (buff e) (is_accept e) (need_reconnect e) (used e)
    (need_check_timeout e).

(** [fill_send_buffer] on the connect context: the header and the hello
    go to [buff], and [send_bytes] is 0. *)
Definition fill_send_buffer (c : Hello.VersionConfig) (my_machine_ip now : Z)
    (e : ConnectContext) (func_id : Z) : ConnectContext :=
  set_send_bytes (set_buff e (Hello.fill_send_buffer c my_machine_ip now func_id)) 0.

(** [do_send_data]; [answer] is what [write] gave. *)
Definition do_send_data (e : ConnectContext) (answer : Z * Z) : Z * ConnectContext :=
  let bytes := answer.1 in
  let errno := answer.2 in
  if bytes <? 0 then (if negb (errno =? 0) then errno else EAGAIN, e)
  else if bytes =? 0 then (ECONNRESET, e)
  else
    let e' := set_send_bytes e (send_bytes e + bytes) in
    (if send_bytes e' =? total_bytes e' then 0 else EAGAIN, e').

(** [do_recv_data]; [answer] is what [read] gave. *)
Definition do_recv_data (e : ConnectContext) (answer : Z * Z) : Z * ConnectContext :=
  let bytes := answer.1 in
  let errno := answer.2 in
  if bytes <? 0 then (if negb (errno =? 0) then errno else EAGAIN, e)
  else if bytes =? 0 then (ECONNRESET, e)
  else
    let e' := set_recv_bytes e (recv_bytes e + bytes) in
    (if recv_bytes e' =? total_bytes e' then 0 else EAGAIN, e').

(** [while ((result = do_send_data(...)) == EINTR) { }] and the same loop
    with [do_recv_data]; the answers of the environment are taken from the
    list, and the loop gives [None] if it outlasts them. *)
Fixpoint retry (step : ConnectContext -> Z * Z -> Z * ConnectContext)
    (e : ConnectContext) (answers : list (Z * Z)) : option (Z * ConnectContext) :=
  match answers with
  | [] => None
  | a :: rest =>
    let r := step e a in
    if r.1 =? EINTR then retry step r.2 rest else Some r
  end.

(** [connect_type == CONNECT_TYPE_CLIENT] and
    [connect_type == CONNECT_TYPE_SERVER]. *)
Definition is_client (c : Machines.SocketContext) : bool :=
  match Machines.connect_type c with Some CONNECT_TYPE_CLIENT => true | _ => false end.

Definition is_server (c : Machines.SocketContext) : bool :=
  match Machines.connect_type c with Some CONNECT_TYPE_SERVER => true | _ => false end.

Definition set_sock (c : Machines.SocketContext) (fd : Z) : Machines.SocketContext :=
  Machines.mkSocketContext fd (Machines.connect_type c) (Machines.machine c)
    (Machines.next c) (Machines.thread_context c).

(** [close_connection]. *)
Definition close_connection (tb : Machines.Tables) (pSock : nat) : option Machines.Tables :=
  c ← Machines.socket_contexts_pool tb !! pSock;
  if Machines.sock c >=? 0 then
    Some (Machines.mkTables (Machines.machine_sockets tb)
            (<[pSock := set_sock c (-1)]> (Machines.socket_contexts_pool tb)))
  else Some tb.

(** [free_accept_sock_context] with the lock that it takes and releases
    once the slot of the machine is found. *)
Definition free_accept_sock_context (MAX_MACHINE_COUNT : Z) (w : World) (pSock : nat)
  : option World :=
  c ← Machines.socket_contexts_pool (tables w) !! pSock;
  machine_ip ← Machines.machine c;
  machine_id ← Machines.get_machine_index MAX_MACHINE_COUNT
                 (Machines.machine_sockets (tables w)) machine_ip;
  tb ← Machines.free_accept_sock_context MAX_MACHINE_COUNT (tables w) pSock;
  Some (mkWorld tb (if machine_id <? 0 then thread w else set_lock (thread w) false)
          (machines w)).

(** Lines 545-550: the socket is closed and a server context is given
    back. *)
Definition abandon (MAX_MACHINE_COUNT : Z) (w : World) (pSock : nat) : option World :=
  tb ← close_connection (tables w) pSock;
  c ← Machines.socket_contexts_pool tb !! pSock;
  let w1 := mkWorld tb (thread w) (machines w) in
  if is_server c then free_accept_sock_context MAX_MACHINE_COUNT w1 pSock
  else Some w1.

Definition set_entry (w : World) (p : nat) (e : ConnectContext) : World :=
  mkWorld (tables w)
    (mkThread (alloc_size (thread w)) (lock (thread w))
       (<[p := e]> (connections_buffer (thread w))) (connections (thread w))
       (connection_count (thread w)))
    (machines w).

Definition set_machine (w : World) (ip_ : Z) (m : Hello.ClusterMachine) : World :=
  mkWorld (tables w) (thread w) (fun i => if i =? ip_ then m else machines w i).

(** Lines 446-457, the case STATE_CONNECTED: result, events, bNew and the
    connect context. *)
Definition connected (c : Hello.VersionConfig) (my_machine_ip : Z) (a : Answers)
    (client : bool) (e : ConnectContext) : Z * Events * bool * ConnectContext :=
  if client then
    (0, EVENTIO_WRITE, false,
     fill_send_buffer c my_machine_ip (now a) (set_state e Reconnect.STATE_SEND_DATA)
       (Hello.FUNC_ID_CLUSTER_HELLO_REQUEST c))
  else
    (0, EVENTIO_READ, true,
     set_server_start_time
       (set_recv_bytes (set_state e Reconnect.STATE_RECV_DATA) 0) (now_ms a)).

(** The [switch] of lines 438-507: result, events, bNew, the connect
    context, and the world with what [deal_hello_message] wrote. *)
Definition switch (c : Hello.VersionConfig) (fuel : nat) (my_machine_ip : Z)
    (a : Answers) (w : World) (sc : Machines.SocketContext) (e : ConnectContext)
  : option (Z * Events * bool * ConnectContext * World) :=
  let client := is_client sc in
  match state e with
  | Reconnect.STATE_CONNECTING =>
    if negb (so_error a =? 0) then Some (so_error a, NO_EVENTS, false, e, w)
    else Some (connected c my_machine_ip a client (set_state e Reconnect.STATE_CONNECTED), w)
  | Reconnect.STATE_CONNECTED =>
    Some (connected c my_machine_ip a client e, w)
  | Reconnect.STATE_SEND_DATA =>
    r ← retry do_send_data e (transfers a);
    let result := r.1 in
    let e := r.2 in
    if result =? EAGAIN then Some (result, EVENTIO_WRITE, false, e, w)
    else if negb (result =? 0) then Some (result, NO_EVENTS, false, e, w)
    else if client then
      Some (result, EVENTIO_READ, false,
            set_server_start_time
              (set_recv_bytes (set_state e Reconnect.STATE_RECV_DATA) 0) (now_ms a), w)
    else Some (result, NO_EVENTS, false, e, w)
  | Reconnect.STATE_RECV_DATA =>
    r ← retry do_recv_data e (transfers a);
    let result := r.1 in
    let e := r.2 in
    if result =? EAGAIN then Some (result, EVENTIO_READ, false, e, w)
    else if negb (result =? 0) then Some (result, NO_EVENTS, false, e, w)
    else
      let e := set_buff e (received a) in
      machine_ip ← Machines.machine sc;
      hr ← Hello.deal_hello_message c fuel
             (if client then CONNECT_TYPE_CLIENT else CONNECT_TYPE_SERVER)
             (machines w machine_ip) (buff e);
      let w := set_machine w machine_ip (Hello.hr_machine hr) in
      let result := Hello.hr_ret hr in
      if client then Some (result, NO_EVENTS, false, e, w)
      else if result =? 0 then
        Some (result, EVENTIO_WRITE, false,
              fill_send_buffer c my_machine_ip (now a)
                (set_state e Reconnect.STATE_SEND_DATA)
                (Hello.FUNC_ID_CLUSTER_HELLO_RESPONSE c), w)
      else Some (result, NO_EVENTS, false, e, w)
  | Reconnect.STATE_NOT_CONNECT => Some (EINVAL, NO_EVENTS, false, e, w)
  end.

(** Lines 529-550: the connection leaves the controller. *)
Definition leave (MAX_MACHINE_COUNT : Z) (a : Answers) (w : World) (pSock : nat)
    (needLock : bool) (result : Z) : option Outcome :=
  let result :=
    if (detached a).1 <? 0
    then (if negb ((detached a).2 =? 0) then (detached a).2 else ENOMEM)
    else result in
  r ← remove_connection (thread w) pSock needLock;
  let w := mkWorld (tables w) r.2 (machines w) in
  if result =? 0 then Some (HandOff w)
  else
    w' ← abandon MAX_MACHINE_COUNT w pSock;
    Some (Failed result w').

(** [connection_handler], up to the call of machine_add_connection. *)
Definition connection_handler (c : Hello.VersionConfig) (fuel : nat)
    (my_machine_ip MAX_MACHINE_COUNT : Z) (a : Answers) (w : World)
    (pConnectContext : nat) (needLock : bool) : option Outcome :=
  e ← connections_buffer (thread w) !! pConnectContext;
  pSock ← pSockContext e;
  sc ← Machines.socket_contexts_pool (tables w) !! pSock;
  '(result, events, bNew, e, w) ← switch c fuel my_machine_ip a w sc e;
  let w := set_entry w pConnectContext e in
  match events with
  | NO_EVENTS => leave MAX_MACHINE_COUNT a w pSock needLock result
  | _ =>
    if (control a).1 >=? 0 then Some (Pending w)
    else
      leave MAX_MACHINE_COUNT a w pSock needLock
        (if negb ((control a).2 =? 0) then (control a).2 else ENOMEM)
  end.

(** What follows the call of machine_add_connection (lines 540-552), given
    its answer and the world it left. *)
Definition after_add_connection (MAX_MACHINE_COUNT : Z) (result : Z) (w : World)
    (pSock : nat) : option (Z * World) :=
  if result =? 0 then Some (0, w)
  else
    w' ← abandon MAX_MACHINE_COUNT w pSock;
    Some (result, w').

(** The calls of [connection_handler] for one connect context, one for
    each event that the poll reports, as long as the handshake is
    pending. *)
Fixpoint handshake (c : Hello.VersionConfig) (fuel : nat)
    (my_machine_ip MAX_MACHINE_COUNT : Z) (calls : list Answers) (w : World)
    (pConnectContext : nat) : option Outcome :=
  match calls with
  | [] => Some (Pending w)
  | a :: rest =>
    o ← connection_handler c fuel my_machine_ip MAX_MACHINE_COUNT a w pConnectContext true;
    match o with
    | Pending w' => handshake c fuel my_machine_ip MAX_MACHINE_COUNT rest w' pConnectContext
    | _ => Some o
    end
  end.

(** The hello of the peer was taken in one of the calls:
    [deal_hello_message] returned 0 on what that call had received, and
    [m] is the machine record that it left. *)
Definition hello_taken (c : Hello.VersionConfig) (fuel : nat) (client : bool)
    (calls : list Answers) (m : Hello.ClusterMachine) : Prop :=
  exists a m0 hr,
    a ∈ calls /\
    Hello.deal_hello_message c fuel
      (if client then CONNECT_TYPE_CLIENT else CONNECT_TYPE_SERVER) m0 (received a)
      = Some hr /\
    Hello.hr_ret hr = 0 /\ m = Hello.hr_machine hr.

(** Where an exchange stands, by the state of its connect context: a
    client that receives has sent its hello, and a server that sends has
    received and taken the hello of the client. *)
Definition under_way (c : Hello.VersionConfig) (fuel : nat) (calls : list Answers)
    (sc : Machines.SocketContext) (w : World) (e : ConnectContext) : Prop :=
  match state e with
  | Reconnect.STATE_RECV_DATA =>
    is_client sc = true -> send_bytes e = total_bytes e
  | Reconnect.STATE_SEND_DATA =>
    is_client sc = false ->
    recv_bytes e = total_bytes e /\
    exists machine_ip, Machines.machine sc = Some machine_ip /\
      hello_taken c fuel false calls (machines w machine_ip)
  | _ => True
  end.

(** Both hellos went over the connection of the connect context [p]. *)
Definition exchanged (c : Hello.VersionConfig) (fuel : nat) (calls : list Answers)
    (sc : Machines.SocketContext) (w : World) (p : nat) : Prop :=
  exists e machine_ip,
    connections_buffer (thread w) !! p = Some e /\
    send_bytes e = total_bytes e /\ recv_bytes e = total_bytes e /\
    Machines.machine sc = Some machine_ip /\
    hello_taken c fuel (is_client sc) calls (machines w machine_ip).

(** The connect context [p] is listed, for the socket context [pSock],
    and no other listed connect context is for that socket context. *)
Definition in_progress (t : connection_thread_context) (p pSock : nat) : Prop :=
  thread_ok t /\ NoDup (listed t) /\ Some p ∈ listed t /\
  points_to t pSock (Some p) /\
  forall x, x ∈ listed t -> points_to t pSock x -> x = Some p.

(** The connect context [p] is off the list and free. *)
Definition left_list (t : connection_thread_context) (p : nat) : Prop :=
  thread_ok t /\ (Some p ∉ listed t) /\
  exists e, connections_buffer t !! p = Some e /\ used e = false /\
    pSockContext e = None.

(** The socket of [pSock] is closed; a server context is at the head of
    the accept free list of its machine, if the machine has a slot, and
    for other contexts the table of machines is as in [tb]. *)
Definition given_up (MAX_MACHINE_COUNT : Z) (tb tb' : Machines.Tables) (pSock : nat)
    (sc : Machines.SocketContext) : Prop :=
  exists sc',
    Machines.socket_contexts_pool tb' !! pSock = Some sc' /\
    Machines.sock sc' < 0 /\
    Machines.connect_type sc' = Machines.connect_type sc /\
    Machines.machine sc' = Machines.machine sc /\
    if is_server sc then
      forall machine_ip machine_id,
        Machines.machine sc = Some machine_ip ->
        Machines.get_machine_index MAX_MACHINE_COUNT (Machines.machine_sockets tb)
          machine_ip = Some machine_id ->
        0 <= machine_id ->
        exists s s',
          Machines.at_index (Machines.machine_sockets tb) machine_id = Some s /\
          Machines.at_index (Machines.machine_sockets tb') machine_id = Some s' /\
          Machines.ip s' = Machines.ip s /\
          Machines.accept_free_list s' = Some pSock /\
          Machines.next sc' = Machines.accept_free_list s
    else
      Machines.machine_sockets tb' = Machines.machine_sockets tb /\
      Machines.next sc' = Machines.next sc.

(** One of the [write]s or [read]s of the call is not interrupted: the
    loop over EINTR comes to an end. *)
Definition answered (answers : list (Z * Z)) : Prop :=
  exists x, x ∈ answers /\ ~ (x.1 < 0 /\ x.2 = EINTR).

(** The loop of [deal_hello_message] over the majors of the hello [h]
    comes to an end within the fuel. *)
Definition hello_ends (fuel : nat) (h : Hello.HelloMessage) : Prop :=
  0 < Hello.min_major h /\ 0 <= Hello.major h < 2 ^ 32 /\
  (Z.to_nat (Hello.major h - Hello.min_major h + 1) < fuel)%nat.

(** Sample data: the connect context 1 of [sample_thread], in the state
    [st], for the socket context 4 of a pool of contexts of the type [ty]
    of the machine 4, whose socket is open. *)
Definition sample_world (ty : ConnectType) (st : Reconnect.ConnectState) : World :=
  mkWorld
    (Machines.mkTables (Machines.machine_sockets Machines.sample_tables)
       (replicate 10 (Machines.mkSocketContext 9 (Some ty) (Some 4) None 0)))
    (mkThread 3 false
       [sample_entry (Some 0%nat) true;
        set_state (sample_entry (Some 4%nat) true) st;
        sample_entry None false]
       [Some 0%nat; Some 1%nat; None] 2)
    (fun _ => Hello.mkMachine 0 0).

Definition sample_config : Hello.VersionConfig := Hello.mkVersionConfig 3 2 3 2 61 62.

Definition sample_answers (transfers : list (Z * Z)) (func_id : Z) : Answers :=
  mkAnswers 0 transfers
    (mkMsgHeader func_id 16 16 4 100 0 11111, Hello.mkHello 3 2 3 2) (0, 0) (0, 0) 7000 7.

(** The calls of a handshake of a client: the connection is there, the
    hello goes out in two parts, and the response comes in after an
    interrupted read. *)
Definition sample_calls : list Answers :=
  [sample_answers [] 0; sample_answers [(20, 0)] 0; sample_answers [(28, 0)] 0;
   sample_answers [(-1, 4); (48, 0)] 62].

(** A call in which the poll refuses the socket with ENOSPC. *)
Definition sample_refused : Answers :=
  mkAnswers 0 []
    (mkMsgHeader 0 0 0 0 0 0 0, Hello.mkHello 0 0 0 0) (-1, 28) (0, 0) 7000 7.

End Handshake.

(** ** connection.cc: connecting to a machine *)
Module Dialing.
Import Connections Handshake.

Definition EEXIST : Z := 17.
Definition EMFILE : Z := 24.
Definition EINPROGRESS : Z := 115.

(** What the system calls of one [do_connect] answer. *)
Record Syscalls := mkSyscalls {
  socket_made : Z * Z;     (* socket(): return value and errno *)
  nonblocking : Z;         (* safe_nonblocking(sock) *)
  nodelay : Z * Z;         (* safe_setsockopt(sock, ...): return value and errno *)
  aton : Z;                (* inet_aton(hostname, &addr.sin_addr) *)
  connect_made : Z * Z;    (* connect(): return value and errno *)
  attached : Z * Z;        (* ev_poll->attach: return value and errno *)
  start_ms : Z             (* CURRENT_MS() at line 886 *)
}.

(** [errno != 0 ? errno : otherwise]. *)
Definition errno_or (errno otherwise : Z) : Z :=
  if negb (errno =? 0) then errno else otherwise.

Definition set_connect_count (e : ConnectContext) (n : Z) : ConnectContext :=
  mkConnectContext (pSockContext e) (connect_start_time e) (server_start_time e)
    (reconnect_interval e) n (send_bytes e) (recv_bytes e)
    (total_bytes e) (state e) (buff e) (is_accept e) (need_reconnect e) (used e)
    (need_check_timeout e).

Definition set_connect_start_time (e : ConnectContext) (t : Z) : ConnectContext :=
  mkConnectContext (pSockContext e) t (server_start_time e)
    (reconnect_interval e) (connect_count e) (send_bytes e) (recv_bytes e)
    (total_bytes e) (state e) (buff e) (is_accept e) (need_reconnect e) (used e)
    (need_check_timeout e).

Definition set_need_check_timeout (e : ConnectContext) (b : bool) : ConnectContext :=
  mkConnectContext (pSockContext e) (connect_start_time e) (server_start_time e)
    (reconnect_interval e) (connect_count e) (send_bytes e) (recv_bytes e)
    (total_bytes e) (state e) (buff e) (is_accept e) (need_reconnect e) (used e) b.

(** Lines 1038-1040: [need_reconnect = true; reconnect_interval = 100;
    pSockContext = pSockContext]. *)
Definition aim (e : ConnectContext) (pSock : nat) : ConnectContext :=
  mkConnectContext (Some pSock) (connect_start_time e) (server_start_time e)
    100 (connect_count e) (send_bytes e) (recv_bytes e)
    (total_bytes e) (state e) (buff e) (is_accept e) true (used e)
    (need_check_timeout e).

Definition set_tables (w : World) (tb : Machines.Tables) : World :=
  mkWorld tb (thread w) (machines w).

Definition set_thread (w : World) (t : connection_thread_context) : World :=
  mkWorld (tables w) t (machines w).

(** [pSockContext->sock = fd]. *)
Definition set_socket (w : World) (pSock : nat) (sc : Machines.SocketContext) (fd : Z)
  : World :=
  set_tables w
    (Machines.mkTables (Machines.machine_sockets (tables w))
       (<[pSock := set_sock sc fd]> (Machines.socket_contexts_pool (tables w)))).

(** [do_connect].  Its call of [connection_handler] is for a connect
    context in the state STATE_CONNECTED, from where the handler does not
    come to the hand-over ([connected_not_handed_off]). *)
Definition do_connect (c : Hello.VersionConfig) (fuel : nat)
    (my_machine_ip MAX_MACHINE_COUNT : Z) (s : Syscalls) (a : Answers) (w : World)
    (pConnectContext : nat) (needLock : bool) : option (Z * World) :=
  e ← connections_buffer (thread w) !! pConnectContext;
  pSock ← pSockContext e;
  sc ← Machines.socket_contexts_pool (tables w) !! pSock;
  let w := set_socket w pSock sc (socket_made s).1 in
  let e := set_state (set_connect_count e (connect_count e + 1))
             Reconnect.STATE_CONNECTING in
  let w := set_entry w pConnectContext e in
  if (socket_made s).1 <? 0 then Some (errno_or (socket_made s).2 EMFILE, w)
  else if negb (nonblocking s =? 0) then
    tb ← close_connection (tables w) pSock;
    Some (nonblocking s, set_tables w tb)
  else if (nodelay s).1 <? 0 then Some (errno_or (nodelay s).2 EINVAL, w)
  else
    _ ← Machines.machine sc;
    if aton s =? 0 then
      tb ← close_connection (tables w) pSock;
      r ← remove_connection (thread w) pSock needLock;
      Some (EINVAL, set_thread (set_tables w tb) r.2)
    else
      let e := set_connect_start_time e (start_ms s) in
      if (connect_made s).1 =? 0 then
        let e := set_need_check_timeout (set_state e Reconnect.STATE_CONNECTED) true in
        o ← connection_handler c fuel my_machine_ip MAX_MACHINE_COUNT a
              (set_entry w pConnectContext e) pConnectContext needLock;
        match o with
        | Pending w' => Some (0, w')
        | Failed result w' => Some (result, w')
        | HandOff _ => None
        end
      else
        let w := set_entry w pConnectContext e in
        let result := errno_or (connect_made s).2 EINPROGRESS in
        if negb (result =? EINPROGRESS) then
          tb ← close_connection (tables w) pSock;
          Some (result, set_tables w tb)
        else if (attached s).1 <? 0 then
          tb ← close_connection (tables w) pSock;
          Some (errno_or (attached s).2 ENOMEM, set_tables w tb)
        else
          Some (result, set_entry w pConnectContext (set_need_check_timeout e true)).

(** [make_connection]; [find_connection] and [alloc_connect_context] take
    the lock and release it. *)
Definition make_connection (MSG_HEADER_LENGTH : Z) (c : Hello.VersionConfig)
    (fuel : nat) (my_machine_ip MAX_MACHINE_COUNT : Z) (s : Syscalls) (a : Answers)
    (w : World) (pSock : nat) : option (Z * World) :=
  found ← find_connection (thread w) pSock;
  let w := set_thread w (set_lock (thread w) false) in
  match found with
  | Some _ => Some (EEXIST, w)
  | None =>
    r ← alloc_connect_context MSG_HEADER_LENGTH (thread w);
    let w := set_thread w r.2 in
    match r.1 with
    | None => Some (ENOSPC, w)
    | Some pConnectContext =>
      e ← connections_buffer (thread w) !! pConnectContext;
      do_connect c fuel my_machine_ip MAX_MACHINE_COUNT s a
        (set_entry w pConnectContext (aim e pSock)) pConnectContext true
    end
  end.

(** No two listed connect contexts are for the same socket context. *)
Definition targets_unique (t : connection_thread_context) : Prop :=
  forall x y pSock, x ∈ listed t -> y ∈ listed t ->
    points_to t pSock x -> points_to t pSock y -> x = y.

(** The list of the connections in progress is in order. *)
Definition controller_ok (t : connection_thread_context) : Prop :=
  thread_ok t /\ pool_listed t /\ targets_unique t.

(** Some listed connect context is for the socket context [pSock]. *)
Definition has_connection (t : connection_thread_context) (pSock : nat) : Prop :=
  exists x, x ∈ listed t /\ points_to t pSock x.

(** Sample data: system calls that leave the connection in progress on
    the socket 12. *)
Definition sample_syscalls : Syscalls :=
  mkSyscalls (12, 0) 0 (0, 0) 1 (-1, 115) (0, 0) 5000.

End Dialing.

(** ** connection.cc: taking a connection in *)
Module Accepting.
Import Connections Handshake Dialing.

(** What the environment answers during one [deal_income_connection];
    [peer_machine] is the ip of the machine that get_machine finds for the
    peer, [None] for NULL. *)
Record Income := mkIncome {
  income_nonblocking : Z;     (* safe_nonblocking(incomesock) *)
  income_nodelay : Z * Z;     (* safe_setsockopt(incomesock, ...): return value and errno *)
  peer_machine : option Z     (* get_machine(get_peer_ip(incomesock, ...), cluster_port) *)
}.

(** [pSockContext->sock = incomesock; pSockContext->machine = machine]. *)
Definition set_income (c : Machines.SocketContext) (incomesock machine_ip : Z)
  : Machines.SocketContext :=
  Machines.mkSocketContext incomesock (Machines.connect_type c) (Some machine_ip)
    (Machines.next c) (Machines.thread_context c).

(** Lines 1451-1453: [pSockContext = pSockContext; state = STATE_CONNECTED;
    need_check_timeout = true]. *)
Definition welcome (e : ConnectContext) (pSock : nat) : ConnectContext :=
  mkConnectContext (Some pSock) (connect_start_time e) (server_start_time e)
    (reconnect_interval e) (connect_count e) (send_bytes e) (recv_bytes e)
    (total_bytes e) Reconnect.STATE_CONNECTED (buff e) (is_accept e) (need_reconnect e)
    (used e) true.

(** [deal_income_connection].  Its call of [connection_handler] is for a
    connect context in the state STATE_CONNECTED, from where the handler
    does not come to the hand-over. *)
Definition deal_income_connection (MSG_HEADER_LENGTH : Z) (c : Hello.VersionConfig)
    (fuel : nat) (my_machine_ip MAX_MACHINE_COUNT : Z) (i : Income) (a : Answers)
    (w : World) (incomesock : Z) : option (Z * World) :=
  if negb (income_nonblocking i =? 0) then Some (income_nonblocking i, w)
  else if (income_nodelay i).1 <? 0 then Some (errno_or (income_nodelay i).2 EINVAL, w)
  else
    match peer_machine i with
    | None => Some (ENOENT, w)
    | Some machine_ip =>
      r ← Machines.alloc_accept_sock_context MAX_MACHINE_COUNT (tables w) machine_ip;
      let w := mkWorld r.2 (set_lock (thread w) false) (machines w) in
      match r.1 with
      | None => Some (ENOSPC, w)
      | Some pSock =>
        sc ← Machines.socket_contexts_pool (tables w) !! pSock;
        let w :=
          set_tables w
            (Machines.mkTables (Machines.machine_sockets (tables w))
               (<[pSock := set_income sc incomesock machine_ip]>
                  (Machines.socket_contexts_pool (tables w)))) in
        r ← alloc_connect_context MSG_HEADER_LENGTH (thread w);
        let w := set_thread w r.2 in
        match r.1 with
        | None =>
          w' ← free_accept_sock_context MAX_MACHINE_COUNT w pSock;
          Some (ENOSPC, w')
        | Some pConnectContext =>
          e ← connections_buffer (thread w) !! pConnectContext;
          o ← connection_handler c fuel my_machine_ip MAX_MACHINE_COUNT a
                (set_entry w pConnectContext (welcome e pSock)) pConnectContext true;
          match o with
          | Pending w' => Some (0, w')
          | Failed _ w' => Some (0, w')
          | HandOff _ => None
          end
        end
      end
    end.

(** The lists of the machines in [tb'] are those of [tb]: a slot may have
    got its machine, and a socket context its socket and its machine. *)
Definition same_lists (tb tb' : Machines.Tables) : Prop :=
  length (Machines.machine_sockets tb') = length (Machines.machine_sockets tb) /\
  (forall i s', Machines.machine_sockets tb' !! i = Some s' ->
     exists s, Machines.machine_sockets tb !! i = Some s /\
       Machines.accept_free_list s' = Machines.accept_free_list s /\
       Machines.connect_free_list s' = Machines.connect_free_list s /\
       Machines.connected_list s' = Machines.connected_list s /\
       (Machines.ip s' = Machines.ip s \/ Machines.ip s = 0)) /\
  length (Machines.socket_contexts_pool tb') = length (Machines.socket_contexts_pool tb) /\
  (forall q c', Machines.socket_contexts_pool tb' !! q = Some c' ->
     exists c, Machines.socket_contexts_pool tb !! q = Some c /\
       Machines.next c' = Machines.next c /\
       Machines.connect_type c' = Machines.connect_type c /\
       Machines.thread_context c' = Machines.thread_context c).

(** The heads of the accept free lists are server contexts of the pool
    that have no connection in progress. *)
Definition accept_heads_free (w : World) : Prop :=
  forall s p, s ∈ Machines.machine_sockets (tables w) ->
    Machines.accept_free_list s = Some p ->
    (exists c, Machines.socket_contexts_pool (tables w) !! p = Some c /\
       is_server c = true) /\
    ~ has_connection (thread w) p.

(** The connect context [p] waits for the hello of the machine
    [machine_ip] on the socket [incomesock]. *)
Definition awaits_hello (w : World) (p : nat) (incomesock machine_ip : Z) : Prop :=
  exists e pSock sc,
    connections_buffer (thread w) !! p = Some e /\
    pSockContext e = Some pSock /\
    state e = Reconnect.STATE_RECV_DATA /\ need_check_timeout e = true /\
    Machines.socket_contexts_pool (tables w) !! pSock = Some sc /\
    Machines.sock sc = incomesock /\ Machines.machine sc = Some machine_ip /\
    is_server sc = true.

(** Sample data: the connections of [sample_world] over tables in which
    the machine 4 has the server socket context 6 on its accept free
    list. *)
Definition sample_accept_world : World :=
  mkWorld
    (Machines.mkTables
       [Machines.zero_slot;
        Machines.mkSlot 4 (Some 5%nat) (Some 6%nat)
          (Machines.mkArray [Some 7%nat; Some 8%nat; None; None] 2 4 0);
        Machines.mkSlot 7 None None (Machines.mkArray [] 0 0 0)]
       (replicate 10
          (Machines.mkSocketContext (-1) (Some CONNECT_TYPE_SERVER) (Some 4) None 0)))
    (thread (sample_world CONNECT_TYPE_SERVER Reconnect.STATE_CONNECTING))
    (fun _ => Hello.mkMachine 0 0).

(** The peer of the machine 4 comes in. *)
Definition sample_income : Income := mkIncome 0 (0, 0) (Some 4).

End Accepting.

(** ** connection.cc: the pass over the connections in progress *)
Module Reconnecting.
Import Connections Handshake Dialing.

(** What the environment answers during one turn of the loop of
    [do_reconnect]. *)
Record Turn := mkTurn {
  turn_ms : Z;                 (* CURRENT_MS() at line 1333 *)
  turn_syscalls : Syscalls;    (* the system calls of do_connect *)
  turn_answers : Answers       (* the answers to connection_handler *)
}.

Definition set_reconnect_interval (e : ConnectContext) (v : Z) : ConnectContext :=
  mkConnectContext (pSockContext e) (connect_start_time e) (server_start_time e)
    v (connect_count e) (send_bytes e) (recv_bytes e)
    (total_bytes e) (state e) (buff e) (is_accept e) (need_reconnect e) (used e)
    (need_check_timeout e).

(** One turn of the [while] loop of [do_reconnect] (lines 1318-1368), with
    [ppConnection] as the index [i] into [connections]: the world and the
    index after the turn.  [dead] tells the [dead] flag of a machine. *)
Definition reconnect_turn (c : Hello.VersionConfig) (fuel : nat)
    (my_machine_ip MAX_MACHINE_COUNT : Z) (dead : Z -> bool) (tn : Turn) (w : World)
    (i : nat) : option (World * nat) :=
  pp ← connections (thread w) !! i;
  match pp with
  | None => Some (w, S i)
  | Some p =>
    e ← connections_buffer (thread w) !! p;
    match pSockContext e with
    | None => Some (w, S i)
    | Some pSock =>
      sc ← Machines.socket_contexts_pool (tables w) !! pSock;
      if Machines.sock sc >=? 0 then Some (w, S i)
      else if need_reconnect e then
        if connect_count e >? 0 then
          if turn_ms tn - connect_start_time e <? reconnect_interval e then Some (w, S i)
          else
            machine_ip ← Machines.machine sc;
            let e :=
              set_need_check_timeout
                (set_reconnect_interval e
                   (Reconnect.next_reconnect_interval (dead machine_ip)
                      (reconnect_interval e))) false in
            r ← do_connect c fuel my_machine_ip MAX_MACHINE_COUNT (turn_syscalls tn)
                  (turn_answers tn) (set_entry w p e) p false;
            Some (r.2, S i)
        else Some (w, i)
      else
        r ← remove_connection (thread w) pSock false;
        let w := set_thread w r.2 in
        tb ← Machines.free_connect_sock_context MAX_MACHINE_COUNT (tables w) pSock;
        Some (set_tables w tb, if r.1 =? 0 then i else S i)
    end
  end.

(** The loop: [ppConnectionEnd] is [connections + connection_count] at the
    head of every turn.  [turns k] is what the environment answers in the
    turn [k]; [steps] bounds the number of turns. *)
Fixpoint reconnect_loop (steps : nat) (c : Hello.VersionConfig) (fuel : nat)
    (my_machine_ip MAX_MACHINE_COUNT : Z) (dead : Z -> bool) (turns : nat -> Turn)
    (k : nat) (w : World) (i : nat) : option World :=
  match steps with
  | O => None
  | S steps' =>
    if decide (i < Z.to_nat (connection_count (thread w)))%nat then
      r ← reconnect_turn c fuel my_machine_ip MAX_MACHINE_COUNT dead (turns k) w i;
      reconnect_loop steps' c fuel my_machine_ip MAX_MACHINE_COUNT dead turns (S k) r.1 r.2
    else Some w
  end.

(** [do_reconnect]. *)
Definition do_reconnect (steps : nat) (c : Hello.VersionConfig) (fuel : nat)
    (my_machine_ip MAX_MACHINE_COUNT : Z) (dead : Z -> bool) (turns : nat -> Turn)
    (w : World) : option World :=
  w' ← reconnect_loop steps c fuel my_machine_ip MAX_MACHINE_COUNT dead turns 0
         (set_thread w (set_lock (thread w) true)) 0;
  Some (set_thread w' (set_lock (thread w') false)).

Definition set_need_reconnect (e : ConnectContext) (b : bool) : ConnectContext :=
  mkConnectContext (pSockContext e) (connect_start_time e) (server_start_time e)
    (reconnect_interval e) (connect_count e) (send_bytes e) (recv_bytes e)
    (total_bytes e) (state e) (buff e) (is_accept e) b (used e)
    (need_check_timeout e).

(** The loop of [machine_stop_reconnect] over [connections[i .. i + turns)]:
    [count] and the pool of connect contexts.  The machine [m] is given by
    its ip. *)
Fixpoint stop_loop (w : World) (m : Z) (i turns : nat) (count : Z)
    (buf : list ConnectContext) : option (Z * list ConnectContext) :=
  match turns with
  | O => Some (count, buf)
  | S k =>
    pp ← connections (thread w) !! i;
    p ← pp;
    e ← buf !! p;
    pSock ← pSockContext e;
    sc ← Machines.socket_contexts_pool (tables w) !! pSock;
    if decide (Machines.machine sc = Some m)
    then stop_loop w m (S i) k (count + 1) (<[p := set_need_reconnect e false]> buf)
    else stop_loop w m (S i) k count buf
  end.

(** [machine_stop_reconnect]. *)
Definition machine_stop_reconnect (w : World) (m : Z) : option (Z * World) :=
  r ← stop_loop w m 0 (Z.to_nat (connection_count (thread w))) 0
        (connections_buffer (thread w));
  Some (if r.1 >? 0 then 0 else ENOENT,
        set_thread w
          (mkThread (alloc_size (thread w)) false r.2 (connections (thread w))
             (connection_count (thread w)))).

(** The connect context [p] is for a socket context of the machine [m]. *)
Definition of_machine (w : World) (m : Z) (p : nat) : Prop :=
  exists e pSock sc,
    connections_buffer (thread w) !! p = Some e /\ pSockContext e = Some pSock /\
    Machines.socket_contexts_pool (tables w) !! pSock = Some sc /\
    Machines.machine sc = Some m.

(** Every listed connect context has its socket context. *)
Definition aimed (w : World) : Prop :=
  forall p e, Some p ∈ listed (thread w) ->
    connections_buffer (thread w) !! p = Some e ->
    exists pSock sc, pSockContext e = Some pSock /\
      Machines.socket_contexts_pool (tables w) !! pSock = Some sc.

(** What [do_connect] for the connect context [p] of the socket context
    [pSock] may change: the socket of [pSock], the connect context [p],
    and the list, which may lose entries. *)
Definition redialled (p pSock : nat) (w w' : World) : Prop :=
  Machines.machine_sockets (tables w') = Machines.machine_sockets (tables w) /\
  (forall q, q <> pSock ->
     Machines.socket_contexts_pool (tables w') !! q
     = Machines.socket_contexts_pool (tables w) !! q) /\
  (forall sc, Machines.socket_contexts_pool (tables w) !! pSock = Some sc ->
     exists sc', Machines.socket_contexts_pool (tables w') !! pSock = Some sc' /\
       Machines.connect_type sc' = Machines.connect_type sc /\
       Machines.machine sc' = Machines.machine sc) /\
  (forall q, q <> p ->
     connections_buffer (thread w') !! q = connections_buffer (thread w) !! q) /\
  (forall e, connections_buffer (thread w) !! p = Some e ->
     exists e', connections_buffer (thread w') !! p = Some e' /\
       need_reconnect e' = need_reconnect e /\
       connect_count e <= connect_count e' /\
       (pSockContext e' = pSockContext e \/ pSockContext e' = None)) /\
  sublist (listed (thread w')) (listed (thread w)) /\
  connection_count (thread w') <= connection_count (thread w).

(** Every listed connect context whose socket is closed can be dialled
    again: its socket context is not of a server and has its machine, and
    a connect context that is to reconnect was dialled before. *)
Definition ready (w : World) : Prop :=
  forall p e pSock,
    Some p ∈ listed (thread w) ->
    connections_buffer (thread w) !! p = Some e ->
    pSockContext e = Some pSock ->
    exists sc,
      Machines.socket_contexts_pool (tables w) !! pSock = Some sc /\
      (Machines.sock sc < 0 ->
       is_server sc = false /\ is_Some (Machines.machine sc) /\
       (need_reconnect e = true -> 0 < connect_count e)).

(** The state that a pass of [do_reconnect] keeps. *)
Definition pass_ok (MAX_MACHINE_COUNT : Z) (w : World) : Prop :=
  0 < MAX_MACHINE_COUNT /\
  Z.of_nat (length (Machines.machine_sockets (tables w))) = MAX_MACHINE_COUNT /\
  controller_ok (thread w) /\ ready w.

(** Sample data: the connections of [sample_world] over the tables of
    [sample_tables], whose sockets are closed.  The connect context 0 is
    not to reconnect; the connect context 1 is, and was dialled once. *)
Definition sample_closed_world : World :=
  set_entry
    (mkWorld Machines.sample_tables
       (thread (sample_world CONNECT_TYPE_CLIENT Reconnect.STATE_CONNECTING))
       (fun _ => Hello.mkMachine 0 0))
    1 (set_connect_count (aim (sample_entry (Some 4%nat) true) 4) 1).

Definition sample_turns : nat -> Turn :=
  fun _ => mkTurn 9000 sample_syscalls sample_refused.

End Reconnecting.

(** * Theorems *)

(** ** The hello exchange *)
Module HelloFacts.
Import Hello.

Lemma wrap32_small z : 0 <= z < 2 ^ 32 -> wrap32 z = z.
Proof. intros H. unfold wrap32. apply Z.mod_small. exact H. Qed.

Lemma wrap32_range z : 0 <= wrap32 z < 2 ^ 32.
Proof. unfold wrap32. apply Z.mod_pos_bound. lia. Qed.

Lemma wrap32_pred_zero : wrap32 (0 - 1) = 2 ^ 32 - 1.
Proof. reflexivity. Qed.

(** With [min_major = 0] the condition [major >= min_major] holds for every
    [uint32_t] value of [major]: the loop never leaves. *)
Lemma hello_loop_min_major_zero c fuel :
  forall major pm, 0 <= major < 2 ^ 32 -> hello_loop c fuel major 0 pm = None.
Proof.
  induction fuel as [|fuel IH]; intros major pm Hm; simpl; [reflexivity|].
  destruct (Z.geb_spec major 0) as [_|Hlt]; [|lia].
  apply IH. apply wrap32_range.
Qed.

Lemma to_int_small z : 0 <= z < 2 ^ 31 -> to_int z = z.
Proof.
  intros H. unfold to_int. destruct (Z.ltb_spec z (2 ^ 31)); [reflexivity | lia].
Qed.

(** With [min_major > 0] the loop runs [major - min_major + 1] times (or not
    at all) and leaves in [proto_major] the last match it saw, which is the
    lowest common major. *)
Lemma hello_loop_lowest c n :
  forall fuel major min_major pm,
    CLUSTER_MAJOR_VERSION c < 2 ^ 31 ->
    0 < min_major -> 0 <= major < 2 ^ 32 ->
    n = Z.to_nat (major - min_major + 1) ->
    (n < fuel)%nat ->
    hello_loop c fuel major min_major pm = Some (loop_result c major min_major pm).
Proof.
  induction n as [|n IH]; intros fuel major min_major pm Hmax Hmin Hmaj Hn Hfuel;
    (destruct fuel as [|fuel]; [lia|]); simpl.
  - destruct (Z.geb_spec major min_major) as [Hge|Hlt]; [lia|].
    f_equal. unfold loop_result.
    destruct (Z.leb_spec (Z.max min_major (MIN_CLUSTER_MAJOR_VERSION c))
                (Z.min major (CLUSTER_MAJOR_VERSION c))); [lia | reflexivity].
  - destruct (Z.geb_spec major min_major) as [Hge|Hlt]; [|lia].
    assert (Hw : wrap32 (major - 1) = major - 1) by (apply wrap32_small; lia).
    rewrite Hw.
    rewrite (IH fuel (major - 1) min_major); try lia.
    f_equal. unfold loop_result.
    destruct (Z.geb_spec major (MIN_CLUSTER_MAJOR_VERSION c));
      destruct (Z.leb_spec major (CLUSTER_MAJOR_VERSION c)); simpl;
      try (rewrite to_int_small by lia);
      repeat match goal with
             | |- context [Z.leb ?a ?b] => destruct (Z.leb_spec a b)
             end; lia.
Qed.

(** On a well-formed header from a peer whose range starts above 0 the
    function returns, with the lowest common major in [proto_major]. *)
Lemma deal_hello_message_lowest c fuel ct m hdr h :
  CLUSTER_MAJOR_VERSION c < 2 ^ 31 ->
  0 < min_major h -> 0 <= major h < 2 ^ 32 ->
  (Z.to_nat (major h - min_major h + 1) < fuel)%nat ->
  data_len hdr = sizeof_HelloMessage ->
  func_id hdr = match ct with
                | CONNECT_TYPE_CLIENT => FUNC_ID_CLUSTER_HELLO_RESPONSE c
                | CONNECT_TYPE_SERVER => FUNC_ID_CLUSTER_HELLO_REQUEST c
                end ->
  exists r, deal_hello_message c fuel ct m (hdr, h) = Some r /\
    hr_proto_major r = loop_result c (major h) (min_major h) (-1) /\
    hr_ret r = (if hr_proto_major r >? 0 then 0 else EINVAL) /\
    hr_proto_minor r =
      (if hr_proto_major r >? 0
       then (if hr_proto_major r =? to_int (major h) then to_int (minor h) else 0)
       else -1).
Proof.
  intros Hmax Hmin Hmaj Hfuel Hlen Hfid.
  unfold deal_hello_message; simpl.
  rewrite Hlen, Z.eqb_refl; simpl.
  rewrite Hfid, Z.eqb_refl; simpl.
  rewrite (hello_loop_lowest c _ fuel (major h) (min_major h) (-1) Hmax Hmin Hmaj eq_refl Hfuel).
  simpl.
  destruct (loop_result c (major h) (min_major h) (-1) >? 0) eqn:E;
    eexists; (split; [reflexivity|]); simpl; rewrite E; auto.
Qed.

(** C1 (the code against the claim).  The claim asks for the highest common
    major, or EINVAL when there is none.  (a) A hello whose [min_major] is 0
    keeps the [uint32_t] loop running for ever, whatever the constants and
    the fuel: the function neither selects a major nor fails.  (b) With
    constants 1..3 and a peer range 1..3 the function returns 0 with
    [proto_major = 1], the lowest common major, where the claim's value is
    3. *)
Theorem deal_hello_message_not_highest_major :
  (forall c fuel ct m ip now,
     deal_hello_message c fuel ct m
       ({| func_id := match ct with
                      | CONNECT_TYPE_CLIENT => FUNC_ID_CLUSTER_HELLO_RESPONSE c
                      | CONNECT_TYPE_SERVER => FUNC_ID_CLUSTER_HELLO_REQUEST c
                      end;
           data_len := sizeof_HelloMessage;
           aligned_data_len := BYTE_ALIGN8 sizeof_HelloMessage;
           session_ip := ip; session_timestamp := now; session_seq := 0;
           msg_seq := 11111 |},
        {| major := 3; minor := 2; min_major := 0; min_minor := 0 |}) = None) /\
  (let c := mkVersionConfig 3 2 1 0 61 62 in
   let h := {| major := 3; minor := 2; min_major := 1; min_minor := 0 |} in
   spec_negotiated_major c h = Some 3 /\
   hello_outcome <$> deal_hello_message c 8 CONNECT_TYPE_SERVER (mkMachine 0 0)
       (fill_send_buffer c 0 0 61) = Some (0, 1, 0)).
Proof.
  split.
  - intros c fuel ct m ip now. unfold deal_hello_message; simpl.
    rewrite Z.eqb_refl; simpl.
    rewrite hello_loop_min_major_zero by (compute; split; congruence).
    reflexivity.
  - split; reflexivity.
Qed.





(** X15.  What the negotiation yields in general.  For a well-formed hello
    of the expected kind from a peer whose [min_major] is above 0, the
    function returns; if the peer's range [min_major, major] and the
    node's range [MIN_CLUSTER_MAJOR_VERSION, CLUSTER_MAJOR_VERSION] meet,
    it returns 0 with the lowest major they share, takes the peer's minor
    if that major is the peer's own and 0 otherwise, and records the
    peer's version in the machine; if they do not meet it returns EINVAL
    and leaves the machine as it was. *)
Theorem deal_hello_message_lowest_common c fuel ct m hdr h :
  CLUSTER_MAJOR_VERSION c < 2 ^ 31 ->
  0 < min_major h -> 0 <= major h < 2 ^ 32 ->
  (Z.to_nat (major h - min_major h + 1) < fuel)%nat ->
  data_len hdr = sizeof_HelloMessage ->
  func_id hdr = match ct with
                | CONNECT_TYPE_CLIENT => FUNC_ID_CLUSTER_HELLO_RESPONSE c
                | CONNECT_TYPE_SERVER => FUNC_ID_CLUSTER_HELLO_REQUEST c
                end ->
  exists r, deal_hello_message c fuel ct m (hdr, h) = Some r /\
    match lowest_common_major c h with
    | Some lo =>
      hr_ret r = 0 /\ hr_proto_major r = lo /\
      hr_proto_minor r = (if lo =? to_int (major h) then to_int (minor h) else 0) /\
      hr_machine r = mkMachine (major h) (minor h)
    | None => hr_ret r = EINVAL /\ hr_machine r = m
    end.
Proof.
  intros Hmax Hmin Hmaj Hfuel Hlen Hfid.
  unfold deal_hello_message; simpl.
  rewrite Hlen, Z.eqb_refl; simpl.
  rewrite Hfid, Z.eqb_refl; simpl.
  rewrite (hello_loop_lowest c _ fuel (major h) (min_major h) (-1) Hmax Hmin Hmaj eq_refl Hfuel).
  simpl. unfold loop_result, lowest_common_major.
  destruct (Z.leb_spec (Z.max (min_major h) (MIN_CLUSTER_MAJOR_VERSION c))
              (Z.min (major h) (CLUSTER_MAJOR_VERSION c))) as [Hle|Hgt].
  - destruct (Z.gtb_spec (Z.max (min_major h) (MIN_CLUSTER_MAJOR_VERSION c)) 0); [|lia].
    eexists. split; [reflexivity|]. simpl. auto.
  - eexists. split; [reflexivity|]. simpl. auto.
Qed.

(** A peer that speaks the majors 2 to 5 meets a node that speaks 1 to 3:
    the outcome is major 2. *)
Lemma deal_hello_message_lowest_common_witness :
  exists r,
    deal_hello_message (mkVersionConfig 3 0 1 0 61 62) 8 CONNECT_TYPE_CLIENT (mkMachine 0 0)
      (mkMsgHeader 62 16 16 1 100 0 11111, mkHello 5 7 2 0) = Some r /\
    hr_ret r = 0 /\ hr_proto_major r = 2 /\ hr_proto_minor r = 0 /\
    hr_machine r = mkMachine 5 7.
Proof.
  apply (deal_hello_message_lowest_common (mkVersionConfig 3 0 1 0 61 62) 8
           CONNECT_TYPE_CLIENT (mkMachine 0 0) (mkMsgHeader 62 16 16 1 100 0 11111)
           (mkHello 5 7 2 0)); simpl; try lia; reflexivity.
Defined.

End HelloFacts.

(** ** The reconnect backoff *)
Module ReconnectFacts.
Import Reconnect.



Lemma next_reconnect_interval_min dead ri :
  next_reconnect_interval dead ri = Z.min (2 * ri) (if dead then 1000 else 30000).
Proof.
  unfold next_reconnect_interval.
  destruct (Z.gtb_spec (ri * 2) (if dead then 1000 else 30000)); lia.
Qed.

Lemma next_reconnect_interval_range dead ri :
  0 < ri <= 30000 -> 0 < next_reconnect_interval dead ri <= 30000.
Proof.
  intros H. rewrite next_reconnect_interval_min. destruct dead; lia.
Qed.

(** X18.  The interval starts at 100 ms; after [k] scheduled retries it is
    100 * 2^k ms, cut at the cap: 30000 ms, or 1000 ms for a peer that is
    marked dead.  It reaches the cap after 9 retries, or 4. *)
Lemma reconnect_interval_closed_form dead k :
  Nat.iter k (next_reconnect_interval dead) 100
  = Z.min (100 * 2 ^ Z.of_nat k) (if dead then 1000 else 30000).
Proof.
  induction k as [|k IH].
  - simpl. destruct dead; reflexivity.
  - rewrite Nat.iter_succ, IH, next_reconnect_interval_min.
    rewrite Nat2Z.inj_succ, Z.pow_succ_r by lia.
    destruct dead; lia.
Qed.



(** Three failed attempts in a row: the waits are 100, 200 and 400 ms. *)
Example reconnect_backoff_100_200_400 :
  let s := mkSock (-1) CONNECT_TYPE_CLIENT false in
  let e := mkConnectContext None 0 0 0 0 0 0 0 STATE_NOT_CONNECT false false false in
  let c0 := make_connection 32 0 (ConnectFailed 7) s e in
  let r1 := do_reconnect_entry 99 99 (ConnectFailed 7) c0 in
  let r2 := do_reconnect_entry 100 100 (ConnectFailed 7) c0 in
  let r3 := do_reconnect_entry 299 299 (ConnectFailed 7) r2.2 in
  let r4 := do_reconnect_entry 300 300 (ConnectFailed 7) r2.2 in
  let r5 := do_reconnect_entry 699 699 (ConnectFailed 7) r4.2 in
  let r6 := do_reconnect_entry 700 700 (ConnectFailed 7) r4.2 in
  (r1.1, r2.1, r3.1, r4.1, r5.1, r6.1)
    = (ActWait, ActConnect, ActWait, ActConnect, ActWait, ActConnect) /\
  (reconnect_interval c0, reconnect_interval r2.2, reconnect_interval r4.2,
   reconnect_interval r6.2) = (100, 200, 400, 800).
Proof. split; reflexivity. Qed.

End ReconnectFacts.

(** ** The send queues *)
Module QueueFacts.
Import Nio.

Lemma lseg_cons_inv h a l :
  lseg h (Some a) l -> exists m l', l = a :: l' /\ h !! a = Some m /\ lseg h (next m) l'.
Proof. inversion 1; subst; eauto. Qed.

Lemma lseg_nil_inv h l : lseg h None l -> l = [].
Proof. inversion 1; reflexivity. Qed.

Lemma lseg_functional h p l1 :
  lseg h p l1 -> forall l2, lseg h p l2 -> l1 = l2.
Proof.
  induction 1 as [|a m l Ha Hl IH]; intros l2 H2; inversion H2; subst; [reflexivity|].
  f_equal. apply IH. congruence.
Qed.

Lemma lseg_suffix h p l :
  lseg h p l -> forall a, a ∈ l ->
  exists l1 l2, l = l1 ++ a :: l2 /\ lseg h (Some a) (a :: l2).
Proof.
  induction 1 as [|a m l Ha Hl IH]; intros b Hb.
  - inversion Hb.
  - destruct (decide (b = a)) as [->|Hne].
    + exists [], l. split; [reflexivity|]. econstructor; eauto.
    + apply elem_of_cons in Hb as [?|Hb]; [congruence|].
      destruct (IH b Hb) as (l1 & l2 & -> & Hs).
      exists (a :: l1), l2. split; [reflexivity | exact Hs].
Qed.

(** A NULL-terminated chain visits no address twice. *)
Lemma lseg_NoDup h p l : lseg h p l -> NoDup l.
Proof.
  induction 1 as [|a m l Ha Hl IH]; constructor; [|exact IH].
  intros Hin.
  destruct (lseg_suffix _ _ _ Hl a Hin) as (l1 & l2 & -> & Hs).
  assert (Hfull : lseg h (Some a) (a :: l1 ++ a :: l2)) by (econstructor; eauto).
  pose proof (lseg_functional _ _ _ Hs _ Hfull) as E.
  apply (f_equal length) in E. simpl in E. rewrite length_app in E. simpl in E. lia.
Qed.

Lemma lseg_insert_notin h p l t x :
  lseg h p l -> t ∉ l -> lseg (<[t := x]> h) p l.
Proof.
  induction 1 as [|a m l Ha Hl IH]; intros Hnot; [constructor|].
  apply not_elem_of_cons in Hnot as [Hne Hnot].
  econstructor; [rewrite lookup_insert_ne; eauto | auto].
Qed.

Lemma lseg_snoc h p l t mt pm m :
  lseg h p l -> last l = Some t -> h !! t = Some mt ->
  h !! pm = Some m -> next m = None -> pm ∉ l ->
  lseg (<[t := set_next mt (Some pm)]> h) p (l ++ [pm]).
Proof.
  intros Hl. pose proof (lseg_NoDup _ _ _ Hl) as Hnd. revert Hnd.
  induction Hl as [|a ma l Ha Hl IH]; intros Hnd Hlast Ht Hpm Hnext Hnot; [discriminate|].
  apply not_elem_of_cons in Hnot as [Hne Hnot].
  apply NoDup_cons in Hnd as [Hal Hnd].
  destruct l as [|b l].
  - simpl in Hlast. injection Hlast as ->.
    simpl. econstructor; [apply lookup_insert_eq|]. simpl.
    econstructor; [rewrite lookup_insert_ne by congruence; exact Hpm|].
    rewrite Hnext. constructor.
  - assert (Hlast' : last (b :: l) = Some t) by exact Hlast.
    assert (t ∈ b :: l) by (apply last_Some_elem_of; exact Hlast').
    assert (a <> t) by (intros ->; contradiction).
    simpl. econstructor; [rewrite lookup_insert_ne by congruence; exact Ha|].
    apply IH; auto.
Qed.

Lemma send_queue_at_in_range s p :
  0 <= p < PRIORITY_COUNT -> send_queue_at s p = Some (send_queues s p).
Proof.
  intros [H1 H2]. unfold send_queue_at.
  destruct (Z.leb_spec 0 p); [|lia]. destruct (Z.ltb_spec p PRIORITY_COUNT); [|lia].
  reflexivity.
Qed.

Lemma same_payloads_set_next h t mt n :
  h !! t = Some mt -> same_payloads h (<[t := set_next mt n]> h).
Proof.
  intros Ht a. destruct (decide (a = t)) as [->|Hne].
  - rewrite Ht, lookup_insert_eq. simpl. auto.
  - rewrite lookup_insert_ne by congruence. destruct (h !! a); auto.
Qed.

Lemma same_payloads_refl h : same_payloads h h.
Proof. intros a. destruct (h !! a); auto. Qed.

Lemma same_payloads_trans h1 h2 h3 :
  same_payloads h1 h2 -> same_payloads h2 h3 -> same_payloads h1 h3.
Proof.
  intros H12 H23 a. specialize (H12 a). specialize (H23 a).
  destruct (h1 !! a), (h2 !! a), (h3 !! a); try tauto.
  destruct H12 as (?&?&?&?), H23 as (?&?&?&?). repeat split; congruence.
Qed.

(** C3.  [push_to_send_queue] on a queue that holds [l], for a message that
    is allocated and not yet linked.  If the socket's version differs from
    the caller's or the socket is closed, the call returns EINVAL
    (stale session), heap and queues are as before, and fail_msg_count and
    fail_msg_bytes grow by 1 and by MSG_HEADER_LENGTH + aligned_data_len.
    Otherwise it returns 0, the queue holds [l ++ [pMessage]] with the
    message as its tail, and the push counters grow instead. *)
Theorem push_to_send_queue_spec c s pMessage priority sessionVersion m l :
  0 <= priority < PRIORITY_COUNT ->
  heap s !! pMessage = Some m ->
  next m = None ->
  queue_repr (heap s) (send_queues s priority) l ->
  pMessage ∉ l ->
  (version s <> sessionVersion \/ sock s < 0 ->
   exists s',
     push_to_send_queue c s pMessage priority sessionVersion = Some (EINVAL, s') /\
     same_socket s s' /\
     fail_msg_count (stats s') = fail_msg_count (stats s) + 1 /\
     fail_msg_bytes (stats s')
       = fail_msg_bytes (stats s) + (MSG_HEADER_LENGTH c + aligned_data_len (header m)) /\
     push_msg_count (stats s') = push_msg_count (stats s) /\
     push_msg_bytes (stats s') = push_msg_bytes (stats s)) /\
  (version s = sessionVersion /\ 0 <= sock s ->
   exists s',
     push_to_send_queue c s pMessage priority sessionVersion = Some (0, s') /\
     queue_repr (heap s') (send_queues s' priority) (l ++ [pMessage]) /\
     tail (send_queues s' priority) = Some pMessage /\
     (forall p, p <> priority -> send_queues s' p = send_queues s p) /\
     same_payloads (heap s) (heap s') /\
     push_msg_count (stats s') = push_msg_count (stats s) + 1 /\
     push_msg_bytes (stats s')
       = push_msg_bytes (stats s) + (MSG_HEADER_LENGTH c + aligned_data_len (header m)) /\
     fail_msg_count (stats s') = fail_msg_count (stats s) /\
     fail_msg_bytes (stats s') = fail_msg_bytes (stats s)).
Proof.
  intros Hp Hm Hnext [Hl Htail] Hnot.
  unfold push_to_send_queue. rewrite (send_queue_at_in_range _ _ Hp). simpl.
  split.
  - intros Hstale.
    assert (E : (if negb (version s =? sessionVersion) then EINVAL
                 else if sock s <? 0 then EINVAL else 0) = EINVAL).
    { destruct (Z.eqb_spec (version s) sessionVersion); simpl; [|reflexivity].
      destruct (Z.ltb_spec (sock s) 0); [reflexivity|]. lia. }
    rewrite E. simpl. rewrite Hm. simpl.
    eexists. split; [reflexivity|]. unfold same_socket. simpl. tauto.
  - intros [Hv Hs].
    assert (E : (if negb (version s =? sessionVersion) then EINVAL
                 else if sock s <? 0 then EINVAL else 0) = 0).
    { destruct (Z.eqb_spec (version s) sessionVersion); simpl; [|congruence].
      destruct (Z.ltb_spec (sock s) 0); [lia | reflexivity]. }
    rewrite E. simpl.
    destruct (head (send_queues s priority)) as [hd|] eqn:Hhd.
    + destruct (lseg_cons_inv _ _ _ Hl) as (ma & l' & -> & Ha & Hl').
      destruct (last (hd :: l')) as [t|] eqn:Hlast.
      2:{ apply last_None in Hlast. discriminate. }
      rewrite Htail. simpl.
      assert (Hin : t ∈ hd :: l') by (apply last_Some_elem_of; exact Hlast).
      destruct (lseg_suffix _ _ _ Hl t Hin) as (l1 & l2 & _ & Hs').
      destruct (lseg_cons_inv _ _ _ Hs') as (mt & ? & _ & Ht & _).
      rewrite Ht. simpl.
      assert (Hne : t <> pMessage) by (intros ->; contradiction).
      rewrite lookup_insert_ne by exact Hne. rewrite Hm. simpl.
      eexists. split; [reflexivity|]. simpl. rewrite Z.eqb_refl.
      unfold queue_repr; simpl.
      repeat split.
      * apply (lseg_snoc _ _ (hd :: l') t mt pMessage m); auto.
      * change (hd :: l' ++ [pMessage]) with ((hd :: l') ++ [pMessage]).
        rewrite last_snoc. reflexivity.
      * intros p Hpne. destruct (Z.eqb_spec p priority); [contradiction | reflexivity].
      * apply same_payloads_set_next. exact Ht.
    + apply lseg_nil_inv in Hl as ->. simpl. rewrite Hm. simpl.
      eexists. split; [reflexivity|]. simpl. rewrite Z.eqb_refl.
      unfold queue_repr; simpl.
      repeat split.
      * econstructor; [exact Hm|]. rewrite Hnext. constructor.
      * intros p Hpne. destruct (Z.eqb_spec p priority); [contradiction | reflexivity].
      * apply same_payloads_refl.
Qed.

Lemma last_cons_cons {A} (x y : A) l : last (x :: y :: l) = last (y :: l).
Proof. reflexivity. Qed.

(** C5.  [insert_into_send_queue_head] on a queue that holds [l] returns 0
    and leaves the queue holding [insert_head_list]: the message alone
    (head and tail) if [l] is empty, the message before the head if the
    head has [bytes_sent = 0], and otherwise the message right after the
    head (as the tail, if the head had no successor).  No payload and no
    [bytes_sent] changes, so a head in transmission stays the head. *)
Theorem insert_into_send_queue_head_spec c s pMessage priority m l :
  0 <= priority < PRIORITY_COUNT ->
  heap s !! pMessage = Some m ->
  next m = None ->
  queue_repr (heap s) (send_queues s priority) l ->
  pMessage ∉ l ->
  exists s',
    insert_into_send_queue_head c s pMessage priority = Some (0, s') /\
    queue_repr (heap s') (send_queues s' priority)
      (insert_head_list (heap s) pMessage l) /\
    (forall p, p <> priority -> send_queues s' p = send_queues s p) /\
    same_payloads (heap s) (heap s').
Proof.
  intros Hp Hm Hnext [Hl Htail] Hnot.
  unfold insert_into_send_queue_head. rewrite (send_queue_at_in_range _ _ Hp). simpl.
  assert (Hother : forall q p, p <> priority ->
            (if p =? priority then q else send_queues s p) = send_queues s p).
  { intros q p Hne. destruct (Z.eqb_spec p priority); [contradiction | reflexivity]. }
  destruct (head (send_queues s priority)) as [hd|] eqn:Hhd.
  - destruct (lseg_cons_inv _ _ _ Hl) as (mh & rest & -> & Hh & Hrest).
    pose proof (lseg_NoDup _ _ _ Hl) as Hnd.
    apply NoDup_cons in Hnd as [Hhd_rest Hnd].
    apply not_elem_of_cons in Hnot as [Hne Hnot].
    simpl. rewrite Hh. simpl.
    destruct (Z.eqb_spec (bytes_sent mh) 0) as [Hz|Hnz].
    + rewrite Hm. simpl. rewrite lookup_insert_eq. simpl.
      eexists. split; [reflexivity|]. simpl. rewrite Z.eqb_refl.
      unfold queue_repr; simpl. repeat split.
      * econstructor; [apply lookup_insert_eq|]. simpl.
        apply lseg_insert_notin; [exact Hl|].
        apply not_elem_of_cons. split; auto.
      * exact Htail.
      * intros p Hpne. apply Hother, Hpne.
      * apply same_payloads_set_next, Hm.
    + rewrite Hm. simpl.
      rewrite lookup_insert_ne by congruence. rewrite Hh. simpl.
      rewrite lookup_insert_ne by congruence. rewrite lookup_insert_eq. simpl.
      rewrite lookup_insert_ne by congruence. rewrite lookup_insert_eq. simpl.
      eexists. split; [reflexivity|]. simpl. rewrite Z.eqb_refl.
      unfold queue_repr; simpl. repeat split.
      * econstructor; [apply lookup_insert_eq|]. simpl.
        econstructor.
        { rewrite lookup_insert_ne by congruence. apply lookup_insert_eq. }
        simpl. apply lseg_insert_notin; [|exact Hhd_rest].
        apply lseg_insert_notin; [exact Hrest | exact Hnot].
      * destruct (next mh) as [n|] eqn:Hn.
        -- destruct (lseg_cons_inv _ _ _ Hrest) as (? & rest' & -> & _ & _).
           exact Htail.
        -- apply lseg_nil_inv in Hrest as ->. reflexivity.
      * intros p Hpne. apply Hother, Hpne.
      * eapply same_payloads_trans; [apply same_payloads_set_next, Hm|].
        apply same_payloads_set_next. rewrite lookup_insert_ne by congruence. exact Hh.
  - apply lseg_nil_inv in Hl as ->. simpl. rewrite Hm. simpl.
    eexists. split; [reflexivity|]. simpl. rewrite Z.eqb_refl.
    unfold queue_repr; simpl. repeat split.
    + econstructor; [exact Hm|]. rewrite Hnext. constructor.
    + intros p Hpne. apply Hother, Hpne.
    + apply same_payloads_refl.
Qed.

(** C9.  [insert_into_send_queue_head] looks neither at [sock] nor at
    [version]: whatever they are, it returns 0, links the message (as the
    head, or as the successor of the head) and adds 1 and
    MSG_HEADER_LENGTH + aligned_data_len to the push counters; the fail
    counters stay.  In the same state [push_to_send_queue] returns EINVAL
    as soon as the version differs or the socket is closed. *)
Theorem insert_into_send_queue_head_unconditional c s pMessage priority m :
  0 <= priority < PRIORITY_COUNT ->
  heap s !! pMessage = Some m ->
  (forall hd, head (send_queues s priority) = Some hd -> is_Some (heap s !! hd)) ->
  (exists s',
    insert_into_send_queue_head c s pMessage priority = Some (0, s') /\
    sock s' = sock s /\ version s' = version s /\
    push_msg_count (stats s') = push_msg_count (stats s) + 1 /\
    push_msg_bytes (stats s')
      = push_msg_bytes (stats s) + (MSG_HEADER_LENGTH c + aligned_data_len (header m)) /\
    fail_msg_count (stats s') = fail_msg_count (stats s) /\
    fail_msg_bytes (stats s') = fail_msg_bytes (stats s) /\
    (head (send_queues s' priority) = Some pMessage \/
     exists hd mh, head (send_queues s' priority) = Some hd /\
       heap s' !! hd = Some mh /\ next mh = Some pMessage)) /\
  (forall sessionVersion, version s <> sessionVersion \/ sock s < 0 ->
     exists s'', push_to_send_queue c s pMessage priority sessionVersion = Some (EINVAL, s'')).
Proof.
  intros Hp Hm Hhead. split.
  - unfold insert_into_send_queue_head. rewrite (send_queue_at_in_range _ _ Hp). simpl.
    destruct (head (send_queues s priority)) as [hd|] eqn:Hhd.
    + destruct (Hhead hd eq_refl) as [mh Hh]. simpl. rewrite Hh. simpl.
      destruct (Z.eqb_spec (bytes_sent mh) 0) as [Hz|Hnz].
      * rewrite Hm. simpl. rewrite lookup_insert_eq. simpl.
        eexists. split; [reflexivity|]. simpl. rewrite Z.eqb_refl. simpl.
        repeat split; auto.
      * rewrite Hm. simpl.
        destruct (decide (hd = pMessage)) as [->|Hne].
        -- rewrite lookup_insert_eq. simpl. rewrite lookup_insert_eq. simpl.
           rewrite lookup_insert_eq. simpl.
           eexists. split; [reflexivity|]. simpl. rewrite Z.eqb_refl. simpl.
           repeat split; auto;
             try (right; eexists _, _;
                  split; [reflexivity|]; split; [apply lookup_insert_eq | reflexivity]).
        -- rewrite lookup_insert_ne by congruence. rewrite Hh. simpl.
           rewrite lookup_insert_ne by congruence. rewrite lookup_insert_eq. simpl.
           rewrite lookup_insert_ne by congruence. rewrite lookup_insert_eq. simpl.
           eexists. split; [reflexivity|]. simpl. rewrite Z.eqb_refl. simpl.
           repeat split; auto;
             try (right; eexists _, _;
                  split; [reflexivity|]; split; [apply lookup_insert_eq | reflexivity]).
    + simpl. rewrite Hm. simpl.
      eexists. split; [reflexivity|]. simpl. rewrite Z.eqb_refl. simpl.
      repeat split; auto.
  - intros sv Hstale.
    unfold push_to_send_queue. rewrite (send_queue_at_in_range _ _ Hp). simpl.
    assert (E : (if negb (version s =? sv) then EINVAL
                 else if sock s <? 0 then EINVAL else 0) = EINVAL).
    { destruct (Z.eqb_spec (version s) sv); simpl; [|reflexivity].
      destruct (Z.ltb_spec (sock s) 0); [reflexivity|]. lia. }
    rewrite E. simpl. rewrite Hm. simpl. eauto.
Qed.

Lemma sample_two_queue sock version bs :
  queue_repr (heap (sample_two sock version bs))
    (send_queues (sample_two sock version bs) 0) [1%positive; 2%positive].
Proof.
  split; [|reflexivity].
  econstructor; [reflexivity|]. simpl.
  econstructor; [reflexivity|]. simpl. constructor.
Qed.

Lemma three_not_queued : 3%positive ∉ [1%positive; 2%positive].
Proof.
  intros H. apply elem_of_cons in H as [H|H]; [discriminate|].
  apply elem_of_cons in H as [H|H]; [discriminate|]. inversion H.
Qed.

(** The stale-session scenario (version 1 against a caller's 0) and a
    successful append on the sample queue. *)
Lemma push_to_send_queue_spec_witness :
  (exists s', push_to_send_queue sample_config (sample_two 5 1 0) 3 0 0 = Some (EINVAL, s') /\
     same_socket (sample_two 5 1 0) s' /\ fail_msg_count (stats s') = 1) /\
  (exists s', push_to_send_queue sample_config (sample_two 5 0 0) 3 0 0 = Some (0, s') /\
     queue_repr (heap s') (send_queues s' 0) [1%positive; 2%positive; 3%positive]).
Proof.
  split.
  - destruct (push_to_send_queue_spec sample_config (sample_two 5 1 0) 3 0 0
                (mkOutMessage (sample_header 0) DATA_TYPE_BUFFER [] 0 0 None)
                [1%positive; 2%positive]) as [Hfail _].
    + unfold PRIORITY_COUNT. lia.
    + reflexivity.
    + reflexivity.
    + apply sample_two_queue.
    + apply three_not_queued.
    + destruct Hfail as (s' & H1 & H2 & H3 & _).
      * left. simpl. lia.
      * exists s'. repeat split; auto; apply H2.
  - destruct (push_to_send_queue_spec sample_config (sample_two 5 0 0) 3 0 0
                (mkOutMessage (sample_header 0) DATA_TYPE_BUFFER [] 0 0 None)
                [1%positive; 2%positive]) as [_ Hok].
    + unfold PRIORITY_COUNT. lia.
    + reflexivity.
    + reflexivity.
    + apply sample_two_queue.
    + apply three_not_queued.
    + destruct Hok as (s' & H1 & H2 & _).
      * simpl. lia.
      * exists s'. split; [exact H1 | exact H2].
Defined.

(** Head insert before an untouched head, and behind a head that has sent
    7 bytes. *)
Lemma insert_into_send_queue_head_spec_witness :
  (exists s', insert_into_send_queue_head sample_config (sample_two 5 0 0) 3 0 = Some (0, s') /\
     queue_repr (heap s') (send_queues s' 0) [3%positive; 1%positive; 2%positive]) /\
  (exists s', insert_into_send_queue_head sample_config (sample_two 5 0 7) 3 0 = Some (0, s') /\
     queue_repr (heap s') (send_queues s' 0) [1%positive; 3%positive; 2%positive]).
Proof.
  split.
  - destruct (insert_into_send_queue_head_spec sample_config (sample_two 5 0 0) 3 0
                (mkOutMessage (sample_header 0) DATA_TYPE_BUFFER [] 0 0 None)
                [1%positive; 2%positive]) as (s' & H1 & H2 & _).
    + unfold PRIORITY_COUNT. lia.
    + reflexivity.
    + reflexivity.
    + apply sample_two_queue.
    + apply three_not_queued.
    + exists s'. split; [exact H1 | exact H2].
  - destruct (insert_into_send_queue_head_spec sample_config (sample_two 5 0 7) 3 0
                (mkOutMessage (sample_header 0) DATA_TYPE_BUFFER [] 0 0 None)
                [1%positive; 2%positive]) as (s' & H1 & H2 & _).
    + unfold PRIORITY_COUNT. lia.
    + reflexivity.
    + reflexivity.
    + apply sample_two_queue.
    + apply three_not_queued.
    + exists s'. split; [exact H1 | exact H2].
Defined.

(** Head insert on a closed socket ([sock = -1]) whose version is 9. *)
Lemma insert_into_send_queue_head_unconditional_witness :
  exists s', insert_into_send_queue_head sample_config (sample_two (-1) 9 0) 3 0 = Some (0, s') /\
    sock s' = -1 /\ version s' = 9 /\
    push_msg_count (stats s') = 1 /\ push_msg_bytes (stats s') = 32 /\
    head (send_queues s' 0) = Some 3%positive /\
    exists s'', push_to_send_queue sample_config (sample_two (-1) 9 0) 3 0 9 = Some (EINVAL, s'').
Proof.
  destruct (insert_into_send_queue_head_unconditional sample_config (sample_two (-1) 9 0) 3 0
              (mkOutMessage (sample_header 0) DATA_TYPE_BUFFER [] 0 0 None))
    as [(s' & H1 & H2 & H3 & H4 & H5 & _) Hpush].
  - unfold PRIORITY_COUNT. lia.
  - reflexivity.
  - intros hd Hhd. injection Hhd as <-. eexists. reflexivity.
  - exists s'. split; [exact H1|]. split; [exact H2|]. split; [exact H3|].
    split; [exact H4|]. split; [exact H5|].
    split.
    + vm_compute in H1. injection H1 as <-. reflexivity.
    + apply Hpush. right. simpl. lia.
Defined.

End QueueFacts.

(** ** [deal_write_event]: return value and the empty case *)
Module WriteFacts.
Import Nio.
Import QueueFacts.

Ltac norm_arith :=
  repeat match goal with
         | |- context [Z.add ?a ?b] =>
           let v := eval vm_compute in (Z.add a b) in
           progress change (Z.add a b) with v
         end.

Lemma fetch_queue_null c h fuel i p f : fetch_queue c h fuel i p None f = Some f.
Proof. destruct fuel; reflexivity. Qed.

(** C10.  With the three send queues empty, the fetch loop assembles no
    iovec entry and [deal_write_event] returns EAGAIN in the state it was
    called in, whatever [writev] would have answered: no queue, no
    [queue_index], no [bytes_sent] and no counter (so no call_writev_count)
    changes. *)
Theorem deal_write_event_empty_queues c now write_bytes errno s :
  0 <= queue_index s < PRIORITY_COUNT ->
  (forall p, 0 <= p < PRIORITY_COUNT -> head (send_queues s p) = None) ->
  fetch c s = Some fetch_init /\
  write_vec fetch_init = [] /\
  deal_write_event c now write_bytes errno s = Some (EAGAIN, s).
Proof.
  intros Hqi Hempty.
  assert (H0 := Hempty 0). assert (H1 := Hempty 1). assert (H2 := Hempty 2).
  unfold PRIORITY_COUNT in *.
  assert (Hf : fetch c s = Some fetch_init).
  { unfold fetch.
    assert (Hcases : queue_index s = 0 \/ queue_index s = 1 \/ queue_index s = 2) by lia.
    assert (H0' : head (send_queues s 0) = None) by (apply H0; lia).
    assert (H1' : head (send_queues s 1) = None) by (apply H1; lia).
    assert (H2' : head (send_queues s 2) = None) by (apply H2; lia).
    destruct Hcases as [E|[E|E]]; rewrite E; simpl;
      unfold send_queue_at, PRIORITY_COUNT; rewrite ?E; simpl;
      repeat (first [ rewrite H0' | rewrite H1' | rewrite H2'
                    | rewrite fetch_queue_null
                    | progress norm_arith
                    | progress simpl ]);
      reflexivity. }
  split; [exact Hf|]. split; [reflexivity|].
  unfold deal_write_event. rewrite Hf. reflexivity.
Qed.

(** A connected socket with nothing queued, left at [queue_index = 2]. *)
Lemma deal_write_event_empty_queues_witness :
  let s := mkState ∅ 5 0 2 (fun _ => no_queue) zero_stats [] in
  fetch sample_config s = Some fetch_init /\
  write_vec fetch_init = [] /\
  deal_write_event sample_config 0 100 0 s = Some (EAGAIN, s).
Proof.
  intros s.
  apply (deal_write_event_empty_queues sample_config 0 100 0 s).
  - unfold PRIORITY_COUNT. simpl. lia.
  - intros p _. reflexivity.
Defined.

Lemma finish_result now s d t r ret s' :
  finish now s d t r = Some (ret, s') -> ret = r.
Proof.
  unfold finish. intros H.
  repeat match type of H with
         | (?x ≫= _) = Some _ => destruct x; simpl in H; [|discriminate]
         end.
  congruence.
Qed.

(** The return value of a call that returns, case by case. *)
Lemma deal_write_event_result_cases c now write_bytes errno s f ret s' :
  fetch c s = Some f ->
  deal_write_event c now write_bytes errno s = Some (ret, s') ->
  (ret = 0 <->
   write_vec f <> [] /\
   ((write_bytes < 0 /\ errno = EINTR) \/
    (0 < write_bytes /\ write_bytes = total_bytes f /\ fetch_done f = true))) /\
  (ret <> 0 ->
   ret = EAGAIN \/
   (write_bytes = 0 /\ ret = ECONNRESET) \/
   (write_bytes < 0 /\ ret = (if errno =? 0 then EIO else errno))).
Proof.
  intros Hf H. unfold deal_write_event in H. rewrite Hf in H. simpl in H.
  unfold vec_count in H.
  destruct (write_vec f) as [|e0 vec] eqn:Hvec.
  { simpl in H. injection H as <- <-. unfold EAGAIN.
    split; [split; [discriminate | intros [? _]; congruence] | auto]. }
  assert (Hnz : (Z.of_nat (length (e0 :: vec)) =? 0) = false)
    by (apply Z.eqb_neq; simpl; lia).
  rewrite Hnz in H.
  destruct (Z.eqb_spec write_bytes 0) as [Hw0|Hw0].
  { injection H as <- <-. unfold ECONNRESET.
    split; [split; [discriminate | intros [_ [[? _]|[? _]]]; lia] | auto]. }
  destruct (Z.ltb_spec write_bytes 0) as [Hneg|Hpos].
  { unfold EAGAIN, EWOULDBLOCK, EINTR, EIO in *.
    destruct (Z.eqb_spec errno 11) as [E11|E11]; simpl in H.
    - injection H as <- <-. split; [split; [discriminate | intros [_ [[_ ?]|[? _]]]; lia] | auto].
    - destruct (Z.eqb_spec errno 4) as [E4|E4].
      + injection H as <- <-.
        split; [split; [intros _; split; [discriminate | left; lia] | reflexivity] | congruence].
      + destruct (Z.eqb_spec errno 0) as [E0|E0]; simpl in H; injection H as <- <-.
        * split; [split; [discriminate | intros [_ [[_ ?]|[? _]]]; lia] | auto].
        * split; [split; [congruence | intros [_ [[_ ?]|[? _]]]; lia] | auto]. }
  assert (Hret : ret = if (write_bytes =? total_bytes f) && fetch_done f then 0 else EAGAIN).
  { destruct ((write_bytes =? total_bytes f) && last_msg_complete f).
    - apply finish_result in H. exact H.
    - match type of H with (?x ≫= _) = _ => destruct x as [[[[h dm] td] vi]|] end;
        simpl in H; [|discriminate].
      match type of H with (?x ≫= _) = _ => destruct x as [e|] end;
        simpl in H; [|discriminate].
      destruct (td =? 0); [congruence | apply finish_result in H; exact H]. }
  rewrite Hret. unfold EAGAIN.
  destruct (Z.eqb_spec write_bytes (total_bytes f)) as [Et|Et]; simpl.
  - destruct (fetch_done f).
    + split; [split; [intros _; split; [discriminate | right; repeat split; lia] | reflexivity]
             | congruence].
    + split; [split; [discriminate | intros [_ [[? _]|[_ [_ ?]]]]; [lia | discriminate]] | auto].
  - split; [split; [discriminate | intros [_ [[? _]|[_ [? _]]]]; lia] | auto].
Qed.

(** C2, the claim as stated fails: on the sample queue [writev] fails with
    EINTR (-1 bytes written, fetch not cut short) and the function returns
    0. *)
Lemma deal_write_event_eintr_returns_zero :
  exists f s',
    fetch sample_config sample_one = Some f /\
    deal_write_event sample_config 0 (-1) EINTR sample_one = Some (0, s') /\
    ~ (-1 = total_bytes f /\ fetch_done f = true).
Proof.
  eexists _, _. split; [vm_compute; reflexivity|].
  split; [vm_compute; reflexivity|].
  simpl. intros [? _]. discriminate.
Qed.

End WriteFacts.

(** ** [deal_write_event]: the accounting of [bytes_sent] *)
Module AccountingFacts.
Import Nio.
Import QueueFacts.
Import WriteFacts.


(** *** The iovec entries of one message *)

Lemma sum_len_app v1 v2 : sum_len (v1 ++ v2) = sum_len v1 + sum_len v2.
Proof. induction v1 as [|e v1 IH]; simpl; [lia|]. unfold sum_len in *. simpl. lia. Qed.

Lemma write_vec_foldl_push f es :
  write_vec (foldl push_entry f es) = write_vec f ++ es.
Proof.
  revert f. induction es as [|e es IH]; intros f; simpl.
  - rewrite app_nil_r. reflexivity.
  - rewrite IH. simpl. rewrite <- app_assoc. reflexivity.
Qed.

Lemma send_msgs_foldl_push f es :
  send_msgs (foldl push_entry f es) = send_msgs f.
Proof. revert f. induction es as [|e es IH]; intros f; simpl; [reflexivity|]. rewrite IH. reflexivity. Qed.

Lemma last_msg_complete_foldl_push f es :
  last_msg_complete (foldl push_entry f es) = last_msg_complete f.
Proof. revert f. induction es as [|e es IH]; intros f; simpl; [reflexivity|]. rewrite IH. reflexivity. Qed.

Lemma total_msg_count_foldl_push f es :
  total_msg_count (foldl push_entry f es) = total_msg_count f.
Proof. revert f. induction es as [|e es IH]; intros f; simpl; [reflexivity|]. rewrite IH. reflexivity. Qed.

Lemma get_iovec_pos bl n : Forall (fun x => 0 < x) (get_iovec bl n).
Proof.
  revert n. induction bl as [|a bl IH]; intros n; simpl.
  - destruct n; constructor.
  - destruct n; [constructor|].
    destruct (Z.gtb_spec a 0); [constructor; [lia | apply IH] | apply IH].
Qed.

Lemma get_iovec_sum bl n : 0 <= sum_list (get_iovec bl n) <= blocks_avail bl.
Proof.
  revert n. induction bl as [|a bl IH]; intros n; simpl.
  - destruct n; simpl; lia.
  - destruct n; simpl.
    + specialize (IH 0%nat). destruct (Z.gtb_spec a 0); unfold sum_list in *; simpl in *; lia.
    + destruct (Z.gtb_spec a 0).
      * specialize (IH n). unfold sum_list in *. simpl. lia.
      * specialize (IH (S n)). lia.
Qed.

Lemma sum_len_map_entry (g : Z -> IovEntry) l :
  (forall x, iov_len (g x) = x) -> sum_len (map g l) = sum_list l.
Proof.
  intros Hg. induction l as [|x l IH]; [reflexivity|].
  unfold sum_len, sum_list in *. simpl. rewrite Hg, IH. reflexivity.
Qed.


Ltac destr_cond :=
  match goal with
  | |- context [Z.ltb ?a ?b] => destruct (Z.ltb_spec a b)
  | |- context [Z.gtb ?a ?b] => destruct (Z.gtb_spec a b)
  | |- context [Z.geb ?a ?b] => destruct (Z.geb_spec a b)
  | |- context [Z.leb ?a ?b] => destruct (Z.leb_spec a b)
  | |- context [Z.eqb ?a ?b] => destruct (Z.eqb_spec a b)
  end.

Lemma Forall_entry_map p idx ty l :
  Forall (fun x => 0 < x) l ->
  Forall (entry_ok p idx) (map (fun len => mkEntry len p idx ty) l).
Proof.
  induction 1; simpl; constructor; auto. unfold entry_ok; simpl; auto.
Qed.


Lemma sum_len_cons e v : sum_len (e :: v) = iov_len e + sum_len v.
Proof. reflexivity. Qed.

Lemma sum_len_nil : sum_len [] = 0.
Proof. reflexivity. Qed.

Lemma sum_len_map_mkEntry p idx ty l :
  sum_len (map (fun len => mkEntry len p idx ty) l) = sum_list l.
Proof. apply sum_len_map_entry. reflexivity. Qed.

Ltac solve_forall :=
  repeat first
    [ apply Forall_nil_2
    | apply Forall_entry_map; assumption
    | apply Forall_app_2
    | constructor; [unfold entry_ok; simpl; repeat split; lia|] ].

Ltac destr_dt :=
  match goal with
  | |- context [match data_type ?m with _ => _ end] => destruct (data_type m) eqn:?
  end.

(** *** A message stays well-formed entry by entry *)

Lemma entries_fit_wf c m es : entries_fit c m es -> msg_wf c m.
Proof. destruct es; simpl; tauto. Qed.

Lemma blocks_avail_nonneg bl : 0 <= blocks_avail bl.
Proof. induction bl as [|a bl IH]; simpl; [lia|]. destruct (a >? 0) eqn:E; lia. Qed.

(** [consume] takes at least [n] bytes off what the chain holds. *)
Lemma consume_avail bl : forall n, 0 <= n ->
  blocks_avail (consume bl n) <= Z.max 0 (blocks_avail bl - n).
Proof.
  induction bl as [|r bl IH]; intros n Hn; simpl; [lia|].
  pose proof (blocks_avail_nonneg bl) as Hnn.
  destruct (Z.ltb_spec n r) as [Hlt|Hge].
  - simpl. destruct (Z.gtb_spec (r - n) 0); destruct (Z.gtb_spec r 0); lia.
  - destruct (Z.gtb_spec r 0) as [Hr|Hr].
    + specialize (IH (n - r)). lia.
    + specialize (IH (n - r)). lia.
Qed.

Lemma advance_data_wf c m p idx x n :
  msg_wf c m -> 0 <= n -> bytes_sent m + n <= msg_total c m ->
  msg_wf c (advance (mkEntry x p idx BUFF_TYPE_DATA) m n).
Proof.
  intros (Hbs & Hdl & Hbl) Hn Hle. unfold msg_wf, advance, msg_total, data_remaining in *.
  simpl. split; [lia|]. split; [lia|].
  intros Hd. rewrite Hd. specialize (Hbl Hd).
  pose proof (consume_avail (blocks m) n Hn) as Hc.
  pose proof (blocks_avail_nonneg (blocks m)). lia.
Qed.

Lemma sum_list_cons x l : sum_list (x :: l) = x + sum_list l.
Proof. reflexivity. Qed.

Lemma sum_list_nonneg l : Forall (fun x => 0 < x) l -> 0 <= sum_list l.
Proof. induction 1 as [|x l Hx _ IH]; [unfold sum_list; simpl; lia|]. rewrite sum_list_cons. lia. Qed.

(** The run of data entries that [get_iovec] gave for an object payload,
    followed by [tail]. *)
Lemma fit_data_run c p idx tail :
  forall iov m,
    data_type m = DATA_TYPE_OBJECT ->
    Forall (fun x => 0 < x) iov ->
    msg_wf c m ->
    bytes_sent m + sum_list iov <= msg_total c m ->
    (forall m', header m' = header m -> data_type m' = data_type m ->
       bytes_sent m' = bytes_sent m + sum_list iov ->
       blocks_avail (blocks m') <= Z.max 0 (blocks_avail (blocks m) - sum_list iov) ->
       msg_wf c m' -> entries_fit c m' tail) ->
    entries_fit c m (map (fun len => mkEntry len p idx BUFF_TYPE_DATA) iov ++ tail).
Proof.
  induction iov as [|x iov IH]; intros m Hd Hpos Hwf Hle Hk.
  - simpl. apply Hk; auto.
    + unfold sum_list. simpl. lia.
    + pose proof (blocks_avail_nonneg (blocks m)). unfold sum_list. simpl. lia.
  - apply Forall_cons in Hpos as [Hx Hpos].
    pose proof (sum_list_nonneg iov Hpos) as Hnn.
    rewrite sum_list_cons in Hle.
    simpl. split; [exact Hwf|]. split.
    + intros n Hn. apply advance_data_wf; [exact Hwf | lia | lia].
    + set (m1 := advance (mkEntry x p idx BUFF_TYPE_DATA) m x).
      assert (Hwf1 : msg_wf c m1) by (apply advance_data_wf; [exact Hwf | lia | lia]).
      assert (Hbs1 : bytes_sent m1 = bytes_sent m + x) by reflexivity.
      assert (Ht1 : msg_total c m1 = msg_total c m) by reflexivity.
      assert (Hm1 : blocks_avail (blocks m1) <= Z.max 0 (blocks_avail (blocks m) - x)).
      { unfold m1, advance. simpl. rewrite Hd. apply consume_avail. lia. }
      apply IH; auto; [lia|].
      intros m' Hh Hdt Hb Ha Hwf'. rewrite Hbs1 in Hb.
      apply Hk; auto; rewrite sum_list_cons; lia.
Qed.

Ltac wf_fields :=
  repeat match goal with
         | H : header ?m' = _ |- _ => rewrite H in *; clear H
         | H : data_type ?m' = _ |- _ => rewrite H in *; clear H
         | H : bytes_sent ?m' = _ |- _ => rewrite H in *; clear H
         end.

Ltac wf_norm :=
  cbn [header data_type blocks bytes_sent iov_len ix_buff_type] in *;
  repeat match goal with
         | H : data_type ?m = DATA_TYPE_OBJECT |- _ => rewrite H in *
         | H : data_type ?m = DATA_TYPE_BUFFER |- _ => rewrite H in *
         end;
  cbn [header data_type blocks bytes_sent iov_len ix_buff_type] in *;
  repeat match goal with
         | H : DATA_TYPE_OBJECT = DATA_TYPE_OBJECT -> _ |- _ => specialize (H eq_refl)
         end.

Ltac wf_tac :=
  unfold msg_wf, msg_total, data_remaining, advance, set_bytes_sent in *;
  wf_norm;
  repeat split; try lia;
  try (intros; try discriminate; wf_norm; lia).

Ltac fit_cont :=
  let m' := fresh "m'" in
  intros m' ? ? ? ? ?;
  cbn [entries_fit];
  unfold msg_wf, msg_total, data_remaining, advance, set_bytes_sent in *;
  cbn [header data_type blocks bytes_sent iov_len ix_buff_type] in *;
  wf_fields; wf_tac.

Ltac fit_tac :=
  cbn [entries_fit];
  repeat match goal with |- _ /\ _ => split end;
  lazymatch goal with
  | |- entries_fit _ _ (map _ _ ++ _) =>
    apply fit_data_run; [assumption | assumption | wf_tac | wf_tac | fit_cont]
  | |- entries_fit _ _ (map ?g ?l) =>
    rewrite <- (app_nil_r (map g l));
    apply fit_data_run; [assumption | assumption | wf_tac | wf_tac | fit_cont]
  | |- True => exact I
  | |- forall _, _ => intros ? ?; wf_tac
  | |- msg_wf _ _ => wf_tac
  end.

(** What [fetch_msg] adds: the message in [send_msgs[p]] and entries that
    all stand for it, no longer in total than what is left to send. *)
Lemma fetch_msg_ext c p a m f :
  exists f2 new,
    fetch_msg c p a m f = add_msg f2 p a /\
    write_vec f2 = write_vec f ++ new /\
    send_msgs f2 = send_msgs f /\
    total_msg_count f2 = total_msg_count f /\
    Forall (entry_ok p (length (send_msgs f p))) new /\
    (msg_wf c m -> sum_len new <= msg_total c m - bytes_sent m) /\
    (msg_wf c m -> entries_fit c m new).
Proof.
  unfold fetch_msg.
  destruct (Z.ltb_spec (bytes_sent m) (MSG_HEADER_LENGTH c)) as [Hh|Hh].
  - match goal with |- context [get_iovec ?b ?n] =>
      pose proof (get_iovec_sum b n) as Hsum; pose proof (get_iovec_pos b n) as Hpos;
      remember (get_iovec b n) as iov eqn:Hiov end.
    clear Hiov.
    repeat (first [destr_cond | destr_dt | progress simpl]).
    all: eexists _, _; split; [reflexivity|]; simpl;
      rewrite ?write_vec_foldl_push, ?send_msgs_foldl_push; simpl;
      rewrite <- ?app_assoc; simpl.
    all: (split; [reflexivity|]); (split; [reflexivity|]).
    all: (split; [rewrite ?total_msg_count_foldl_push; reflexivity|]).
    all: split; [solve_forall|].
    all: split.
    all: try (intros (Hbs & Hdl & Hbl); unfold msg_total, data_remaining in *;
              try (match goal with Hd : data_type _ = DATA_TYPE_OBJECT |- _ =>
                     specialize (Hbl Hd) end);
              rewrite ?sum_len_cons, ?sum_len_app, ?sum_len_cons, ?sum_len_nil,
                ?sum_len_map_mkEntry; simpl; lia).
    all: intros Hwf; pose proof Hwf as (Hbs & Hdl & Hbl);
      pose proof (blocks_avail_nonneg (blocks m)) as Hav; fit_tac.
  - match goal with |- context [get_iovec ?b ?n] =>
      pose proof (get_iovec_sum b n) as Hsum; pose proof (get_iovec_pos b n) as Hpos;
      remember (get_iovec b n) as iov eqn:Hiov end.
    clear Hiov.
    repeat (first [destr_cond | destr_dt | progress simpl]).
    all: eexists _, _; split; [reflexivity|]; simpl;
      rewrite ?write_vec_foldl_push, ?send_msgs_foldl_push; simpl;
      rewrite <- ?app_assoc; simpl.
    all: (split; [try reflexivity; symmetry; apply app_nil_r|]); (split; [reflexivity|]).
    all: (split; [rewrite ?total_msg_count_foldl_push; reflexivity|]).
    all: split; [solve_forall|].
    all: split.
    all: try (intros (Hbs & Hdl & Hbl); unfold msg_total, data_remaining in *;
              try (match goal with Hd : data_type _ = DATA_TYPE_OBJECT |- _ =>
                     specialize (Hbl Hd) end);
              rewrite ?sum_len_cons, ?sum_len_app, ?sum_len_cons, ?sum_len_nil,
                ?sum_len_map_mkEntry; simpl; lia).
    all: intros Hwf; pose proof Hwf as (Hbs & Hdl & Hbl);
      pose proof (blocks_avail_nonneg (blocks m)) as Hav; fit_tac.
Qed.


Lemma refs_app sm a v1 v2 : refs sm a (v1 ++ v2) = refs sm a v1 + refs sm a v2.
Proof. induction v1 as [|e v1 IH]; simpl; lia. Qed.

Lemma refs_nonneg sm a vec :
  Forall (fun e => 0 < iov_len e) vec -> 0 <= refs sm a vec.
Proof.
  induction 1 as [|e vec He _ IH]; simpl; [lia|].
  destruct (decide _); lia.
Qed.

Lemma refs_not_fetched sm a vec :
  (forall p, a ∉ sm p) -> refs sm a vec = 0.
Proof.
  intros Hnot. induction vec as [|e vec IH]; simpl; [reflexivity|].
  destruct (decide _) as [Heq|_]; [|lia].
  exfalso. apply (Hnot (ix_priority e)). eapply list_elem_of_lookup_2. exact Heq.
Qed.

Lemma refs_ext sm sm' a vec :
  Forall (fun e => sm' (ix_priority e) !! ix_index e = sm (ix_priority e) !! ix_index e) vec ->
  refs sm' a vec = refs sm a vec.
Proof.
  induction 1 as [|e vec He _ IH]; simpl; [reflexivity|].
  rewrite He, IH. reflexivity.
Qed.

Lemma refs_slot sm a a0 p idx vec :
  sm p !! idx = Some a0 ->
  Forall (entry_ok p idx) vec ->
  refs sm a vec = if decide (a0 = a) then sum_len vec else 0.
Proof.
  intros Hslot. induction 1 as [|e vec (Hpos & Hp & Hi) _ IH].
  - simpl. destruct (decide _); reflexivity.
  - rewrite sum_len_cons. cbn [refs]. rewrite Hp, Hi, Hslot, IH.
    destruct (decide (Some a0 = Some a)) as [E|E]; destruct (decide (a0 = a)); try lia; congruence.
Qed.

Lemma ordered_app v1 v2 :
  ordered v1 -> ordered v2 ->
  (forall e1 e2, e1 ∈ v1 -> e2 ∈ v2 -> ix_priority e2 = ix_priority e1 ->
     (ix_index e1 <= ix_index e2)%nat) ->
  ordered (v1 ++ v2).
Proof.
  induction v1 as [|e v1 IH]; intros H1 H2 Hx; [exact H2|].
  destruct H1 as [He H1]. simpl. split.
  - apply Forall_app_2; [exact He|].
    apply Forall_forall. intros e2 Hin. apply Hx; [apply elem_of_cons; left; reflexivity | exact Hin].
  - apply IH; auto. intros e1 e2 Hin1 Hin2. apply Hx; [apply elem_of_cons; right; exact Hin1 | exact Hin2].
Qed.

Lemma ordered_same p idx vec : Forall (entry_ok p idx) vec -> ordered vec.
Proof.
  induction 1 as [|e vec (_ & Hp & Hi) Hall IH]; simpl; [exact I|].
  split; [|exact IH].
  eapply Forall_impl; [exact Hall|]. intros e2 (_ & _ & Hi2) _. lia.
Qed.

Lemma own_app sm a v1 v2 : own sm a (v1 ++ v2) = own sm a v1 ++ own sm a v2.
Proof. apply filter_app. Qed.

Lemma own_not_fetched sm a vec : (forall p, a ∉ sm p) -> own sm a vec = [].
Proof.
  intros Hnot. induction vec as [|e vec IH]; [reflexivity|].
  unfold own. rewrite filter_cons_False; [exact IH|].
  intros Heq. apply (Hnot (ix_priority e)). eapply list_elem_of_lookup_2. exact Heq.
Qed.

Lemma own_ext sm sm' a vec :
  Forall (fun e => sm' (ix_priority e) !! ix_index e = sm (ix_priority e) !! ix_index e) vec ->
  own sm' a vec = own sm a vec.
Proof.
  induction 1 as [|e vec He _ IH]; [reflexivity|].
  unfold own in *.
  destruct (decide (sm (ix_priority e) !! ix_index e = Some a)) as [E|E].
  - rewrite !filter_cons_True by congruence. rewrite IH. reflexivity.
  - rewrite !filter_cons_False by congruence. exact IH.
Qed.

Lemma own_slot sm a a0 p idx vec :
  sm p !! idx = Some a0 ->
  Forall (entry_ok p idx) vec ->
  own sm a vec = if decide (a0 = a) then vec else [].
Proof.
  intros Hslot. induction 1 as [|e vec (Hpos & Hp & Hi) _ IH].
  - destruct (decide _); reflexivity.
  - unfold own in *. destruct (decide (a0 = a)) as [->|Hne].
    + rewrite filter_cons_True by (rewrite Hp, Hi; exact Hslot). rewrite IH. reflexivity.
    + rewrite filter_cons_False by (rewrite Hp, Hi, Hslot; congruence). exact IH.
Qed.

Lemma fetched_add_msg f2 p a a' :
  fetched (add_msg f2 p a) a' <-> fetched f2 a' \/ a' = a.
Proof.
  unfold fetched; simpl. split.
  - intros [p' Hin]. destruct (Z.eqb_spec p' p) as [E|Hne].
    + apply elem_of_app in Hin as [Hin|Hin]; [left; eauto|].
      right. apply list_elem_of_singleton in Hin. exact Hin.
    + left; eauto.
  - intros [[p' Hin]| ->].
    + exists p'. destruct (Z.eqb_spec p' p); [apply elem_of_app; left|]; exact Hin.
    + exists p. rewrite Z.eqb_refl. apply elem_of_app. right. apply list_elem_of_singleton. reflexivity.
Qed.

Lemma distinct_add d p a :
  distinct d -> (forall p', a ∉ d p') ->
  distinct (fun p' => if p' =? p then d p' ++ [a] else d p').
Proof.
  intros [Hnd Hdisj] Hfresh. split.
  - intros p'. destruct (Z.eqb_spec p' p) as [_|_]; [|apply Hnd].
    apply NoDup_app. split; [apply Hnd|]. split; [|apply NoDup_singleton].
    intros x Hx Hxa. apply list_elem_of_singleton in Hxa. subst x.
    exact (Hfresh _ Hx).
  - intros p1 p2 x Hne Hx1 Hx2.
    destruct (Z.eqb_spec p1 p) as [E1|E1]; destruct (Z.eqb_spec p2 p) as [E2|E2];
      try congruence.
    + apply elem_of_app in Hx1 as [Hx1|Hx1]; [exact (Hdisj _ _ _ Hne Hx1 Hx2)|].
      apply list_elem_of_singleton in Hx1. subst x. exact (Hfresh _ Hx2).
    + apply elem_of_app in Hx2 as [Hx2|Hx2]; [exact (Hdisj _ _ _ Hne Hx1 Hx2)|].
      apply list_elem_of_singleton in Hx2. subst x. exact (Hfresh _ Hx1).
    + exact (Hdisj _ _ _ Hne Hx1 Hx2).
Qed.

(** *** The invariant of the fetch loop *)

Lemma fetch_msg_inv c h p a m f :
  fetch_inv c h f ->
  h !! a = Some m ->
  msg_wf c m ->
  ~ fetched f a ->
  0 <= p < PRIORITY_COUNT ->
  fetch_inv c h (fetch_msg c p a m f) /\
  (forall a', fetched (fetch_msg c p a m f) a' <-> fetched f a' \/ a' = a).
Proof.
  intros (Hvec & Hbud & Halloc & Hdist & Hprio & Hfit & Hord) Ha Hwf Hnew Hp.
  destruct (fetch_msg_ext c p a m f)
    as (f2 & new & -> & Hwv & Hsm & _ & Hnew_ok & Hbound & Hnewfit).
  specialize (Hbound Hwf). specialize (Hnewfit Hwf).
  assert (Hfetched : forall a', fetched (add_msg f2 p a) a' <-> fetched f a' \/ a' = a).
  { intros a'. rewrite fetched_add_msg. unfold fetched. rewrite Hsm. reflexivity. }
  split; [|exact Hfetched].
  assert (Hslot : send_msgs (add_msg f2 p a) p !! length (send_msgs f p) = Some a).
  { simpl. rewrite Z.eqb_refl, Hsm. apply list_lookup_middle. reflexivity. }
  assert (Hold : Forall (fun e => send_msgs (add_msg f2 p a) (ix_priority e) !! ix_index e
                                  = send_msgs f (ix_priority e) !! ix_index e) (write_vec f)).
  { eapply Forall_impl; [exact Hvec|]. intros e [_ Hlt]. simpl. rewrite Hsm.
    destruct (Z.eqb_spec (ix_priority e) p); [|reflexivity].
    apply lookup_app_l. exact Hlt. }
  split; [|split; [|split; [|split; [|split; [|split]]]]].
  - simpl. rewrite Hwv. apply Forall_app_2.
    + eapply Forall_impl; [exact Hvec|]. intros e [Hpos Hlt]. split; [exact Hpos|].
      rewrite Hsm. destruct (Z.eqb_spec (ix_priority e) p); [|exact Hlt].
      rewrite length_app. simpl. lia.
    + eapply Forall_impl; [exact Hnew_ok|]. intros e (Hpos & Hpe & Hi). split; [exact Hpos|].
      rewrite Hpe, Z.eqb_refl, Hsm, length_app, Hi. simpl. lia.
  - intros a' m' Ha'. change (write_vec (add_msg f2 p a)) with (write_vec f2).
    rewrite Hwv, refs_app, (refs_ext _ _ _ _ Hold).
    rewrite (refs_slot _ a' a p (length (send_msgs f p)) new Hslot Hnew_ok).
    destruct (decide (a = a')) as [<-|Hne].
    + assert (m' = m) by congruence. subst m'.
      rewrite refs_not_fetched; [lia|].
      intros p' Hin. apply Hnew. exists p'. exact Hin.
    + specialize (Hbud a' m' Ha'). lia.
  - intros a' Hfa. apply Hfetched in Hfa as [Hfa| ->]; [apply Halloc, Hfa | eauto].
  - simpl. rewrite Hsm. apply distinct_add; [exact Hdist|].
    intros p' Hin. apply Hnew. exists p'. exact Hin.
  - change (write_vec (add_msg f2 p a)) with (write_vec f2). rewrite Hwv.
    apply Forall_app_2; [exact Hprio|].
    eapply Forall_impl; [exact Hnew_ok|]. intros e (_ & He & _). rewrite He. exact Hp.
  - intros a' m' Ha'.
    change (write_vec (add_msg f2 p a)) with (write_vec f2). rewrite Hwv.
    rewrite own_app, (own_ext _ _ _ _ Hold).
    rewrite (own_slot _ a' a p (length (send_msgs f p)) new Hslot Hnew_ok).
    destruct (decide (a = a')) as [<-|Hne].
    + assert (m' = m) by congruence. subst m'.
      rewrite own_not_fetched; [exact Hnewfit|].
      intros p' Hin. apply Hnew. exists p'. exact Hin.
    + rewrite app_nil_r. apply Hfit, Ha'.
  - change (write_vec (add_msg f2 p a)) with (write_vec f2). rewrite Hwv.
    apply ordered_app; [exact Hord | eapply ordered_same; exact Hnew_ok|].
    intros e1 e2 H1 H2 Heq.
    eapply Forall_forall in Hvec; [|exact H1]. destruct Hvec as [_ Hlt].
    eapply Forall_forall in Hnew_ok; [|exact H2]. destruct Hnew_ok as (_ & Hp2 & Hi2).
    rewrite <- Heq, Hp2 in Hlt. lia.
Qed.

Lemma fetch_inv_set_done c h f : fetch_inv c h f -> fetch_inv c h (set_fetch_done f).
Proof. intros H. exact H. Qed.

Lemma fetch_queue_inv c h i p fuel :
  0 <= p < PRIORITY_COUNT ->
  forall l msg f f',
    fetch_queue c h fuel i p msg f = Some f' ->
    lseg h msg l ->
    (forall a, a ∈ l -> ~ fetched f a) ->
    (forall a m, h !! a = Some m -> msg_wf c m) ->
    fetch_inv c h f ->
    fetch_inv c h f' /\ (forall a, fetched f' a -> fetched f a \/ a ∈ l).
Proof.
  intros Hp. induction fuel as [|fuel IH]; intros l msg f f' Hq Hl Hnew Hwf Hinv.
  - destruct msg; simpl in Hq; [discriminate|]. injection Hq as <-. auto.
  - destruct msg as [a|]; simpl in Hq; [|injection Hq as <-; auto].
    destruct (lseg_cons_inv _ _ _ Hl) as (m & l' & -> & Ha & Hl').
    pose proof (lseg_NoDup _ _ _ Hl) as Hnd. apply NoDup_cons in Hnd as [Hal' _].
    rewrite Ha in Hq. simpl in Hq.
    destruct (fetch_msg_inv c h p a m f Hinv Ha (Hwf _ _ Ha)) as [Hinv' Hf']; [|exact Hp|].
    { apply Hnew. apply elem_of_cons. left. reflexivity. }
    assert (Hsub : forall a', fetched (fetch_msg c p a m f) a' -> fetched f a' \/ a' ∈ a :: l').
    { intros a' H. apply Hf' in H as [H| ->]; [left; exact H | right; apply elem_of_cons; left; reflexivity]. }
    destruct (fetch_stop c (fetch_msg c p a m f)).
    { injection Hq as <-. split; [exact Hinv' | exact Hsub]. }
    destruct (i =? 0).
    { injection Hq as <-. split; [exact Hinv' | exact Hsub]. }
    destruct (IH l' (next m) _ f' Hq Hl') as [Hinv'' Hf'']; auto.
    { intros a' Hin Hfa'. apply Hf' in Hfa' as [Hfa'| ->].
      - apply (Hnew a'); [apply elem_of_cons; right; exact Hin | exact Hfa'].
      - contradiction. }
    split; [exact Hinv''|].
    intros a' H. apply Hf'' in H as [H|H].
    + apply Hsub, H.
    + right. apply elem_of_cons. right. exact H.
Qed.


Lemma rest_of_subset s L p a : a ∈ rest_of s L p -> a ∈ L p.
Proof.
  unfold rest_of. destruct (_ && _); [|auto].
  destruct (L p); simpl; [auto|]. rewrite drop_0. intros H. apply elem_of_cons. right. exact H.
Qed.

Lemma fetch_queue_S c h fuel i p a f :
  fetch_queue c h (S fuel) i p (Some a) f =
  (m ← h !! a;
   let f' := fetch_msg c p a m f in
   if fetch_stop c f' then Some (set_fetch_done f')
   else if i =? 0 then Some f'
   else fetch_queue c h fuel i p (next m) f').
Proof. reflexivity. Qed.

Lemma fetch_queue_O c h i p a f : fetch_queue c h O i p (Some a) f = None.
Proof. reflexivity. Qed.

#[local] Arguments fetch_loop : simpl never.
#[local] Arguments fetch_queue : simpl never.

Lemma fetch_loop_S c s n i p f :
  fetch_loop c s (S n) i p f =
  (send_queue ← send_queue_at s p;
   msg ← (if (queue_index s >? 0) && (i =? queue_index s + 1) then
            match head send_queue with
            | Some a => m ← heap s !! a; Some (next m)
            | None => Some None
            end
          else Some (head send_queue));
   f' ← fetch_queue c (heap s) (Z.to_nat (WRITEV_ITEM_ONCE c)) i p msg f;
   if fetch_done f' then Some f'
   else fetch_loop c s n (i + 1) (if i =? 0 then 0 else p + 1) f').
Proof. reflexivity. Qed.

Lemma fetch_loop_inv c s L n :
  (forall a m, heap s !! a = Some m -> msg_wf c m) ->
  (forall p, 0 <= p < PRIORITY_COUNT -> lseg (heap s) (head (send_queues s p)) (L p)) ->
  (forall p p' a, 0 <= p < PRIORITY_COUNT -> 0 <= p' < PRIORITY_COUNT ->
     p <> p' -> a ∈ L p -> a ∉ L p') ->
  forall i f f',
    1 <= i ->
    fetch_loop c s n i (i - 1) f = Some f' ->
    fetch_inv c (heap s) f ->
    (forall p a, i - 1 <= p < PRIORITY_COUNT -> a ∈ rest_of s L p -> ~ fetched f a) ->
    fetch_inv c (heap s) f'.
Proof.
  intros Hwf HL Hdisj.
  induction n as [|n IH]; intros i f f' Hi Hloop Hinv Hfresh.
  - injection Hloop as <-. exact Hinv.
  - rewrite fetch_loop_S in Hloop. unfold send_queue_at in Hloop.
    destruct (Z.leb_spec 0 (i - 1)) as [Hlo|?];
      destruct (Z.ltb_spec (i - 1) PRIORITY_COUNT) as [Hhi|?];
      cbn [andb] in Hloop; try discriminate.
    assert (Hp : 0 <= i - 1 < PRIORITY_COUNT) by lia.
    cbn [mbind option_bind] in Hloop.
    match type of Hloop with (?x ≫= _) = _ => destruct x as [msg|] eqn:Hmsg end;
      cbn [mbind option_bind] in Hloop; [|discriminate].
    assert (Hlseg : lseg (heap s) msg (rest_of s L (i - 1))).
    { specialize (HL (i - 1) Hp). unfold rest_of.
      destruct (Z.gtb_spec (queue_index s) 0) as [Hq|Hq]; simpl in Hmsg |- *.
      - destruct (Z.eqb_spec i (queue_index s + 1)) as [E|E].
        + destruct (Z.eqb_spec (i - 1) (queue_index s)) as [_|?]; [|lia].
          destruct (head (send_queues s (i - 1))) as [a|].
          * destruct (lseg_cons_inv _ _ _ HL) as (m & l' & HLp & Ha & Hl').
            rewrite Ha in Hmsg. simpl in Hmsg. injection Hmsg as <-.
            rewrite HLp. simpl. rewrite drop_0. exact Hl'.
          * injection Hmsg as <-. apply lseg_nil_inv in HL. rewrite HL. constructor.
        + destruct (Z.eqb_spec (i - 1) (queue_index s)) as [?|_]; [lia|].
          injection Hmsg as <-. exact HL.
      - injection Hmsg as <-. exact HL. }
    match type of Hloop with (?x ≫= _) = _ => destruct x as [f1|] eqn:Hq1 end;
      cbn [mbind option_bind] in Hloop; [|discriminate].
    destruct (fetch_queue_inv c (heap s) i (i - 1) _ Hp _ _ _ _ Hq1 Hlseg) as [Hinv1 Hf1]; auto.
    { intros a Ha. apply (Hfresh (i - 1)); [lia | exact Ha]. }
    destruct (fetch_done f1); [injection Hloop as <-; exact Hinv1|].
    destruct (Z.eqb_spec i 0) as [?|_]; [lia|].
    replace (i - 1 + 1) with (i + 1 - 1) in Hloop by lia.
    apply (IH (i + 1) f1 f'); auto; [lia|].
    intros p a Hpr Ha Hfa. apply Hf1 in Hfa as [Hfa|Hfa].
    + apply (Hfresh p a); [lia | exact Ha | exact Hfa].
    + apply rest_of_subset in Ha. apply rest_of_subset in Hfa.
      apply (Hdisj (i - 1) p a); auto; lia.
Qed.

Lemma fetch_inv_init c h :
  (forall a m, h !! a = Some m -> msg_wf c m) -> fetch_inv c h fetch_init.
Proof.
  intros Hwf. split; [constructor|]. split; [|split].
  - intros a m Ha. simpl. destruct (Hwf a m Ha) as [? _]. lia.
  - intros a [p Hin]. inversion Hin.
  - split; [|split; [|split]].
    + split; [intros p; apply NoDup_nil_2 | intros p p' a _ Hin; inversion Hin].
    + constructor.
    + intros a m Ha. simpl. split; [exact (Hwf a m Ha) | exact I].
    + exact I.
Qed.

Lemma fetched_init a : ~ fetched fetch_init a.
Proof. intros [p H]. simpl in H. inversion H. Qed.

(** The batch that [fetch] assembles on well-formed queues satisfies the
    invariant. *)
Lemma fetch_inv_fetch c s f :
  state_wf c s -> fetch c s = Some f -> fetch_inv c (heap s) f.
Proof.
  intros (_ & Hwf & L & HL & Hdisj) Hf. unfold fetch in Hf.
  destruct (Z.eqb_spec (queue_index s) 0) as [Hq|Hq].
  - rewrite Hq in Hf.
    change (fetch_loop c s (Z.to_nat (PRIORITY_COUNT - 1 + 1)) 1 (1 - 1) fetch_init = Some f) in Hf.
    eapply (fetch_loop_inv c s L _ Hwf HL Hdisj 1); [lia | exact Hf | apply fetch_inv_init, Hwf|].
    intros p a _ _. apply fetched_init.
  - change (Z.to_nat (PRIORITY_COUNT - 0 + 1)) with 4%nat in Hf.
    rewrite fetch_loop_S in Hf. unfold send_queue_at in Hf.
    destruct (Z.leb_spec 0 (queue_index s)) as [Hlo|?];
      destruct (Z.ltb_spec (queue_index s) PRIORITY_COUNT) as [Hhi|?];
      destruct (Z.gtb_spec (queue_index s) 0) as [Hpos|?];
      destruct (Z.eqb_spec 0 (queue_index s + 1)) as [?|_];
      simpl in Hf; try discriminate; try lia.
    assert (Hp : 0 <= queue_index s < PRIORITY_COUNT) by lia.
    match type of Hf with (?x ≫= _) = _ => destruct x as [f1|] eqn:Hq1 end;
      simpl in Hf; [|discriminate].
    pose proof (HL _ Hp) as HLq.
    pose proof (lseg_NoDup _ _ _ HLq) as Hnd.
    pose proof (fetch_inv_init c (heap s) Hwf) as Hinit.
    assert (H1 : fetch_inv c (heap s) f1 /\
                 (forall a, fetched f1 a -> exists l', L (queue_index s) = a :: l')).
    { destruct (head (send_queues s (queue_index s))) as [a|].
      - destruct (lseg_cons_inv _ _ _ HLq) as (m & l' & HLp & Ha & _).
        destruct (Z.to_nat (WRITEV_ITEM_ONCE c)) as [|fuel];
          [rewrite fetch_queue_O in Hq1; discriminate|].
        rewrite fetch_queue_S, Ha in Hq1. simpl in Hq1.
        destruct (fetch_msg_inv c (heap s) (queue_index s) a m fetch_init Hinit Ha (Hwf _ _ Ha)
                    (fetched_init a) Hp) as [Hinv1 Hf1].
        assert (Hsub : forall a', fetched (fetch_msg c (queue_index s) a m fetch_init) a' ->
                                  exists l', L (queue_index s) = a' :: l').
        { intros a' H. apply Hf1 in H as [H| ->]; [destruct (fetched_init _ H) | eauto]. }
        destruct (fetch_stop c _); injection Hq1 as <-; split; auto.
      - rewrite fetch_queue_null in Hq1. injection Hq1 as <-.
        split; [exact Hinit|]. intros a H. destruct (fetched_init _ H). }
    destruct H1 as [Hinv1 Hf1].
    destruct (fetch_done f1); [injection Hf as <-; exact Hinv1|].
    try rewrite Z.eqb_refl in Hf.
    change (fetch_loop c s 3 1 (1 - 1) f1 = Some f) in Hf.
    eapply (fetch_loop_inv c s L _ Hwf HL Hdisj 1); [lia | exact Hf | exact Hinv1|].
    intros p a Hpr Ha Hfa. destruct (Hf1 a Hfa) as [l' HLq'].
    destruct (Z.eq_dec p (queue_index s)) as [E|E].
    + subst p. unfold rest_of in Ha.
      destruct (Z.gtb_spec (queue_index s) 0) as [_|?]; [|lia].
      rewrite Z.eqb_refl in Ha. simpl in Ha. rewrite HLq' in Ha, Hnd. simpl in Ha.
      rewrite drop_0 in Ha. apply NoDup_cons in Hnd as [Hnot _]. contradiction.
    + apply rest_of_subset in Ha.
      apply (Hdisj (queue_index s) p a); auto; try lia.
      rewrite HLq'. apply elem_of_cons. left. reflexivity.
Qed.

(** *** The accounting walk *)

Lemma advance_fields e m n :
  header (advance e m n) = header m /\ next (advance e m n) = next m /\
  data_type (advance e m n) = data_type m /\
  bytes_sent (advance e m n) = bytes_sent m + n.
Proof. unfold advance. simpl. auto. Qed.

Lemma msg_total_advance c e m n : msg_total c (advance e m n) = msg_total c m.
Proof. reflexivity. Qed.


(** The walk keeps every message allocated, its header and link as they
    were and [bytes_sent] between its old value and the frame length; a
    message it marks done has [bytes_sent] at the frame length. *)
Lemma walk_spec c f vec :
  forall vi rem h done td h' done' td' vi',
    walk c f vec vi rem h done td = Some (h', done', td', vi') ->
    0 <= rem ->
    Forall (fun e => 0 < iov_len e) vec ->
    budget c (send_msgs f) h vec ->
    (forall a m, h !! a = Some m -> exists m', h' !! a = Some m' /\ msg_step c m m') /\
    (forall a, h !! a = None -> h' !! a = None) /\
    (forall p a, a ∈ done' p ->
       a ∈ done p \/ exists m', h' !! a = Some m' /\ msg_total c m' <= bytes_sent m').
Proof.
  induction vec as [|e rest IH]; intros vi rem h done td h' done' td' vi' Hw Hrem Hpos Hbud.
  - simpl in Hw. injection Hw as <- <- <- <-.
    split; [|split; auto].
    intros a m Ha. exists m. split; [exact Ha|].
    specialize (Hbud a m Ha). simpl in Hbud. unfold msg_step. repeat split; lia.
  - simpl in Hw.
    destruct (send_msgs f (ix_priority e) !! ix_index e) as [a|] eqn:Hslot;
      simpl in Hw; [|discriminate].
    destruct (h !! a) as [msg|] eqn:Hmsg; simpl in Hw; [|discriminate].
    apply Forall_cons in Hpos as [Hpos_e Hpos_rest].
    pose proof (refs_nonneg (send_msgs f) a rest Hpos_rest) as Hnn.
    assert (Hbud_a : bytes_sent msg + iov_len e + refs (send_msgs f) a rest <= msg_total c msg).
    { specialize (Hbud a msg Hmsg). simpl in Hbud.
      destruct (decide _) as [_|Hne]; [lia | congruence]. }
    destruct (Z.geb_spec (rem - iov_len e) 0) as [Hcov|Hpart].
    + (* the entry was written whole *)
      set (msg' := advance e msg (iov_len e)) in *.
      assert (Hbud' : budget c (send_msgs f) (<[a := msg']> h) rest).
      { intros a' m' Ha'. destruct (decide (a' = a)) as [->|Hne].
        - rewrite lookup_insert_eq in Ha'. injection Ha' as <-.
          unfold msg', msg_total. simpl. unfold msg_total in Hbud_a. lia.
        - rewrite lookup_insert_ne in Ha' by congruence.
          specialize (Hbud a' m' Ha'). simpl in Hbud.
          destruct (decide _) as [Heq|_]; [congruence | lia]. }
      assert (Hstep : forall hh dd tt vv dn tdn,
        walk c f rest (S vi) (rem - iov_len e) (<[a := msg']> h) dn tdn = Some (hh, dd, tt, vv) ->
        (forall a0 m, h !! a0 = Some m -> exists m', hh !! a0 = Some m' /\ msg_step c m m') /\
        (forall a0, h !! a0 = None -> hh !! a0 = None) /\
        (forall p a0, a0 ∈ dd p -> a0 ∈ dn p \/
           exists m', hh !! a0 = Some m' /\ msg_total c m' <= bytes_sent m')).
      { intros hh dd tt vv dn tdn Hw'.
        destruct (IH _ _ _ _ _ _ _ _ _ Hw' Hcov Hpos_rest Hbud') as (H1 & H2 & H3).
        split; [|split].
        - intros a0 m Ha0. destruct (decide (a0 = a)) as [->|Hne].
          + assert (m = msg) by congruence. subst m.
            destruct (H1 a msg') as (m'' & Hm'' & Hh & Hn & Hb); [apply lookup_insert_eq|].
            exists m''. split; [exact Hm''|]. unfold msg_step.
            unfold msg' in Hh, Hn, Hb. simpl in Hh, Hn, Hb. repeat split; try congruence; lia.
          + apply H1. rewrite lookup_insert_ne by congruence. exact Ha0.
        - intros a0 Ha0. apply H2. rewrite lookup_insert_ne; [exact Ha0|]. congruence.
        - exact H3. }
      match type of Hw with (if ?b then _ else _) = _ => destruct b eqn:Hdone end.
      * apply Z.geb_le in Hdone.
        destruct (Hstep _ _ _ _ _ _ Hw) as (H1 & H2 & H3).
        split; [exact H1|]. split; [exact H2|].
        intros p a0 Hin. destruct (H3 p a0 Hin) as [Hd|Hd]; [|right; exact Hd].
        destruct (Z.eqb_spec p (ix_priority e)) as [Ep|Ep]; [|left; exact Hd].
        apply elem_of_app in Hd as [Hd|Hd]; [left; exact Hd|].
        apply list_elem_of_singleton in Hd. subst a0. right.
        destruct (H1 a msg Hmsg) as (m'' & Hm'' & Hh & _ & Hb).
        exists m''. split; [exact Hm''|].
        destruct (IH _ _ _ _ _ _ _ _ _ Hw Hcov Hpos_rest Hbud') as (H1' & _ & _).
        destruct (H1' a msg') as (m3 & Hm3 & Hh3 & _ & Hb3); [apply lookup_insert_eq|].
        assert (m3 = m'') by congruence. subst m3.
        change (bytes_sent msg') with (bytes_sent msg + iov_len e) in Hb3.
        unfold msg_total in Hdone |- *. rewrite Hh3. lia.
      * exact (Hstep _ _ _ _ _ _ Hw).
    + (* the write ended inside this entry *)
      injection Hw as <- <- <- <-.
      split; [|split].
      * intros a0 m Ha0. destruct (decide (a0 = a)) as [->|Hne].
        -- assert (m = msg) by congruence. subst m.
           eexists. split; [apply lookup_insert_eq|].
           unfold msg_step, msg_total in *. simpl. repeat split; lia.
        -- exists m. split; [rewrite lookup_insert_ne by congruence; exact Ha0|].
           specialize (Hbud a0 m Ha0).
           pose proof (refs_nonneg (send_msgs f) a0 (e :: rest)) as Hnn0.
           unfold msg_step. repeat split; try lia.
           assert (0 <= refs (send_msgs f) a0 (e :: rest)); [|lia].
           apply Hnn0. constructor; assumption.
      * intros a0 Ha0. rewrite lookup_insert_ne; [exact Ha0|]. congruence.
      * auto.
Qed.

(** *** Unlinking and releasing *)

Lemma unlink_done_frame s d i s' :
  unlink_done s d i = Some s' -> heap s' = heap s /\ released s' = released s.
Proof.
  unfold unlink_done. destruct (last (d i)); [|intros H; injection H as <-; auto].
  destruct (heap s !! p); simpl; [|discriminate]. intros H; injection H as <-. auto.
Qed.

Lemma release_done_spec now l :
  forall s s', release_done now s l = Some s' ->
  exists rel,
    released s' = released s ++ rel /\
    (forall a m, (a, m) ∈ rel -> a ∈ l /\ heap s !! a = Some m) /\
    (forall a, a ∈ l -> heap s' !! a = None /\ exists m, (a, m) ∈ rel) /\
    (forall a, a ∉ l -> heap s' !! a = heap s !! a).
Proof.
  induction l as [|a l IH]; intros s s' H; simpl in H.
  - injection H as <-. exists []. rewrite app_nil_r.
    split; [reflexivity|]. split; [intros ? ? Hin; inversion Hin|].
    split; [intros ? Hin; inversion Hin | auto].
  - destruct (heap s !! a) as [m|] eqn:Ha; simpl in H; [|discriminate].
    destruct (IH _ _ H) as (rel & Hrel & Hin & Hgone & Hkeep). simpl in *.
    exists ((a, m) :: rel).
    split; [rewrite Hrel, <- app_assoc; reflexivity|].
    split; [|split].
    + intros a0 m0 H0. apply elem_of_cons in H0 as [H0|H0].
      * injection H0 as -> ->. split; [apply elem_of_cons; left; reflexivity | exact Ha].
      * destruct (Hin a0 m0 H0) as [Hl Hd]. split; [apply elem_of_cons; right; exact Hl|].
        destruct (decide (a0 = a)) as [->|Hne].
        -- rewrite lookup_delete_eq in Hd. discriminate.
        -- rewrite lookup_delete_ne in Hd by congruence. exact Hd.
    + intros a0 H0. destruct (decide (a0 ∈ l)) as [Hl|Hl].
      * destruct (Hgone a0 Hl) as [Hn (m0 & Hm0)].
        split; [exact Hn|]. exists m0. apply elem_of_cons. right. exact Hm0.
      * apply elem_of_cons in H0 as [->|H0]; [|contradiction].
        split; [rewrite (Hkeep a Hl); apply lookup_delete_eq|].
        exists m. apply elem_of_cons. left. reflexivity.
    + intros a0 H0. apply not_elem_of_cons in H0 as [Hne Hl].
      rewrite (Hkeep a0 Hl). apply lookup_delete_ne. congruence.
Qed.

Lemma finish_spec now s d td r ret s' :
  finish now s d td r = Some (ret, s') ->
  exists rel,
    released s' = released s ++ rel /\
    (forall a m, (a, m) ∈ rel ->
       (exists p, 0 <= p < PRIORITY_COUNT /\ a ∈ d p) /\ heap s !! a = Some m) /\
    (forall a, heap s' !! a = heap s !! a \/
               (heap s' !! a = None /\ exists m, (a, m) ∈ rel)).
Proof.
  unfold finish. intros H.
  destruct (unlink_done _ d 0) as [s1|] eqn:H1; simpl in H; [|discriminate].
  destruct (unlink_done s1 d 1) as [s2|] eqn:H2; simpl in H; [|discriminate].
  destruct (unlink_done s2 d 2) as [s3|] eqn:H3; simpl in H; [|discriminate].
  destruct (release_done now s3 (d 0)) as [s4|] eqn:H4; simpl in H; [|discriminate].
  destruct (release_done now s4 (d 1)) as [s5|] eqn:H5; simpl in H; [|discriminate].
  destruct (release_done now s5 (d 2)) as [s6|] eqn:H6; simpl in H; [|discriminate].
  injection H as _ <-.
  apply unlink_done_frame in H1 as [Hh1 Hr1]. simpl in Hh1, Hr1.
  apply unlink_done_frame in H2 as [Hh2 Hr2].
  apply unlink_done_frame in H3 as [Hh3 Hr3].
  assert (Hh : heap s3 = heap s) by congruence.
  assert (Hr : released s3 = released s) by congruence.
  destruct (release_done_spec _ _ _ _ H4) as (r4 & Hrel4 & Hin4 & Hgone4 & Hkeep4).
  destruct (release_done_spec _ _ _ _ H5) as (r5 & Hrel5 & Hin5 & Hgone5 & Hkeep5).
  destruct (release_done_spec _ _ _ _ H6) as (r6 & Hrel6 & Hin6 & Hgone6 & Hkeep6).
  rewrite Hh in *. rewrite Hr in *.
  assert (Hmono5 : forall a, heap s4 !! a = None -> heap s5 !! a = None).
  { intros a Hn. destruct (decide (a ∈ d 1)) as [Hl|Hl];
      [apply Hgone5, Hl | rewrite (Hkeep5 a Hl); exact Hn]. }
  assert (Hmono6 : forall a, heap s5 !! a = None -> heap s6 !! a = None).
  { intros a Hn. destruct (decide (a ∈ d 2)) as [Hl|Hl];
      [apply Hgone6, Hl | rewrite (Hkeep6 a Hl); exact Hn]. }
  assert (Hsome5 : forall a m, heap s4 !! a = Some m -> heap s !! a = Some m).
  { intros a m Hm. destruct (decide (a ∈ d 0)) as [Hl|Hl].
    - destruct (Hgone4 a Hl) as [Hn _]. congruence.
    - rewrite <- (Hkeep4 a Hl). exact Hm. }
  assert (Hsome6 : forall a m, heap s5 !! a = Some m -> heap s !! a = Some m).
  { intros a m Hm. apply Hsome5. destruct (decide (a ∈ d 1)) as [Hl|Hl].
    - destruct (Hgone5 a Hl) as [Hn _]. congruence.
    - rewrite <- (Hkeep5 a Hl). exact Hm. }
  exists (r4 ++ r5 ++ r6).
  split; [rewrite Hrel6, Hrel5, Hrel4, <- !app_assoc; reflexivity|].
  split.
  - intros a m Hin. apply elem_of_app in Hin as [Hin|Hin];
      [|apply elem_of_app in Hin as [Hin|Hin]].
    + destruct (Hin4 a m Hin). split; [exists 0; split; [unfold PRIORITY_COUNT; lia|]|]; auto.
    + destruct (Hin5 a m Hin). split; [exists 1; split; [unfold PRIORITY_COUNT; lia|]|]; auto.
    + destruct (Hin6 a m Hin). split; [exists 2; split; [unfold PRIORITY_COUNT; lia|]|]; auto.
  - intros a.
    destruct (decide (a ∈ d 0)) as [Hl0|Hl0].
    { right. destruct (Hgone4 a Hl0) as [Hn (m & Hm)].
      split; [apply Hmono6, Hmono5, Hn|]. exists m. apply elem_of_app. left. exact Hm. }
    destruct (decide (a ∈ d 1)) as [Hl1|Hl1].
    { right. destruct (Hgone5 a Hl1) as [Hn (m & Hm)].
      split; [apply Hmono6, Hn|]. exists m.
      apply elem_of_app. right. apply elem_of_app. left. exact Hm. }
    destruct (decide (a ∈ d 2)) as [Hl2|Hl2].
    { right. destruct (Hgone6 a Hl2) as [Hn (m & Hm)].
      split; [exact Hn|]. exists m.
      apply elem_of_app. right. apply elem_of_app. right. exact Hm. }
    left. rewrite (Hkeep6 a Hl2), (Hkeep5 a Hl1), (Hkeep4 a Hl0). reflexivity.
Qed.

Lemma msg_step_refl c m : msg_wf c m -> msg_step c m m.
Proof. intros [H _]. unfold msg_step. repeat split; lia. Qed.

Lemma unchanged_ok c (f : Fetch) write_bytes s s0 :
  (forall a m, heap s !! a = Some m -> msg_wf c m) ->
  heap s0 = heap s -> released s0 = released s ->
  exists rel,
    Some f = Some f /\
    released s0 = released s ++ rel /\
    (forall a m, heap s !! a = Some m ->
       (exists m', heap s0 !! a = Some m' /\ msg_step c m m') \/
       (heap s0 !! a = None /\ exists m', (a, m') ∈ rel)) /\
    (forall a m', (a, m') ∈ rel ->
       exists m, heap s !! a = Some m /\ msg_step c m m' /\
         (bytes_sent m' = msg_total c m' \/
          (write_bytes = total_bytes f /\ last_msg_complete f = true /\ m' = m))).
Proof.
  intros Hmsg Hh Hr. exists []. rewrite app_nil_r.
  split; [reflexivity|]. split; [exact Hr|].
  split; [|intros ? ? Hin; inversion Hin].
  intros a m Ha. left. exists m. rewrite Hh. split; [exact Ha|].
  apply msg_step_refl, (Hmsg a m Ha).
Qed.

(** What one call that returns does to the messages: the partial form of
    the accounting statement. *)
Lemma deal_write_event_accounting c now write_bytes errno s ret s' :
  state_wf c s ->
  deal_write_event c now write_bytes errno s = Some (ret, s') ->
  exists f rel,
    fetch c s = Some f /\
    released s' = released s ++ rel /\
    (forall a m, heap s !! a = Some m ->
       (exists m', heap s' !! a = Some m' /\ msg_step c m m') \/
       (heap s' !! a = None /\ exists m', (a, m') ∈ rel)) /\
    (forall a m', (a, m') ∈ rel ->
       exists m, heap s !! a = Some m /\ msg_step c m m' /\
         (bytes_sent m' = msg_total c m' \/
          (write_bytes = total_bytes f /\ last_msg_complete f = true /\ m' = m))).
Proof.
  intros Hwf H. pose proof Hwf as (_ & Hmsg & _).
  unfold deal_write_event in H.
  destruct (fetch c s) as [f|] eqn:Hf; simpl in H; [|discriminate].
  pose proof (fetch_inv_fetch c s f Hwf Hf) as (Hvec & Hbud & _).
  exists f.
  destruct (vec_count f =? 0);
    [injection H as <- <-; apply unchanged_ok; auto|].
  destruct (write_bytes =? 0);
    [injection H as <- <-; apply unchanged_ok; auto|].
  destruct (Z.ltb_spec write_bytes 0) as [Hneg|Hpos].
  { destruct ((errno =? EAGAIN) || (errno =? EWOULDBLOCK));
      [injection H as <- <-; apply unchanged_ok; auto|].
    destruct (errno =? EINTR); injection H as <- <-; apply unchanged_ok; auto. }
  destruct ((write_bytes =? total_bytes f) && last_msg_complete f) eqn:Hall.
  - (* the whole batch was written *)
    apply andb_true_iff in Hall as [Hwb Hcomplete]. apply Z.eqb_eq in Hwb.
    destruct (finish_spec _ _ _ _ _ _ _ H) as (rel & Hrel & Hin & Hheap). simpl in *.
    exists rel. split; [reflexivity|]. split; [exact Hrel|]. split.
    + intros a m Ha. destruct (Hheap a) as [Hk|[Hn Hr]].
      * left. exists m. rewrite Hk. split; [exact Ha | apply msg_step_refl, (Hmsg a m Ha)].
      * right. auto.
    + intros a m' Hr. destruct (Hin a m' Hr) as [_ Ha].
      exists m'. split; [exact Ha|]. split; [apply msg_step_refl, (Hmsg a m' Ha)|].
      right. auto.
  - (* the accounting walk *)
    destruct (walk c f (write_vec f) 0 write_bytes _ _ 0) as [[[[h dm] td] vi]|] eqn:Hw;
      simpl in H; [|discriminate].
    match type of H with (?x ≫= _) = _ => destruct x as [e|] end; simpl in H; [|discriminate].
    destruct (walk_spec c f _ _ _ _ _ _ _ _ _ _ Hw) as (Hstep & Hnone & Hdone); [lia | | exact Hbud |].
    { eapply Forall_impl; [exact Hvec|]. intros ? [? _]. assumption. }
    simpl in Hstep, Hnone.
    destruct (td =? 0).
    + injection H as _ <-. simpl. exists []. rewrite app_nil_r.
      split; [reflexivity|]. split; [reflexivity|].
      split; [|intros ? ? Hin; inversion Hin].
      intros a m Ha. left. apply Hstep, Ha.
    + destruct (finish_spec _ _ _ _ _ _ _ H) as (rel & Hrel & Hin & Hheap). simpl in *.
      exists rel. split; [reflexivity|]. split; [exact Hrel|]. split.
      * intros a m Ha. destruct (Hstep a m Ha) as (m' & Hm' & Hst).
        destruct (Hheap a) as [Hk|[Hn Hr]].
        -- left. exists m'. rewrite Hk. auto.
        -- right. auto.
      * intros a m' Hr. destruct (Hin a m' Hr) as [(p & _ & Hp) Ha].
        destruct (heap s !! a) as [m|] eqn:Hsa.
        2:{ rewrite (Hnone a Hsa) in Ha. discriminate. }
        destruct (Hstep a m Hsa) as (m1 & Hm1 & Hst).
        assert (m1 = m') by congruence. subst m1.
        exists m. split; [reflexivity|]. split; [exact Hst|]. left.
        destruct (Hdone p a Hp) as [Hbad|(m2 & Hm2 & Hge)]; [inversion Hbad|].
        assert (m2 = m') by congruence. subst m2.
        destruct Hst as (_ & _ & Hb). lia.
Qed.

(** *** The call returns *)

Lemma fetch_msg_count c p a m f :
  total_msg_count (fetch_msg c p a m f) = total_msg_count f + 1.
Proof.
  destruct (fetch_msg_ext c p a m f) as (f2 & new & -> & _ & _ & Hc & _).
  simpl. lia.
Qed.

Lemma fetch_queue_total c h i p :
  forall fuel l msg f,
    lseg h msg l ->
    total_msg_count f < WRITEV_ITEM_ONCE c ->
    WRITEV_ITEM_ONCE c <= total_msg_count f + Z.of_nat fuel ->
    exists f', fetch_queue c h fuel i p msg f = Some f' /\
               total_msg_count f <= total_msg_count f' /\
               (fetch_done f' = true \/ total_msg_count f' < WRITEV_ITEM_ONCE c).
Proof.
  induction fuel as [|fuel IH]; intros l msg f Hl Hlt Hfuel.
  - lia.
  - destruct msg as [a|]; [|rewrite fetch_queue_null; eexists; split; [reflexivity|]; split; [lia | auto]].
    destruct (lseg_cons_inv _ _ _ Hl) as (m & l' & -> & Ha & Hl').
    rewrite fetch_queue_S, Ha. cbn [mbind option_bind].
    pose proof (fetch_msg_count c p a m f) as Hc.
    destruct (fetch_stop c (fetch_msg c p a m f)) eqn:Hstop.
    { eexists. split; [reflexivity|]. split; [unfold set_fetch_done; cbn [total_msg_count]; lia | left; reflexivity]. }
    unfold fetch_stop in Hstop.
    apply orb_false_iff in Hstop as [Hstop _].
    apply orb_false_iff in Hstop as [Hstop _].
    apply Z.eqb_neq in Hstop.
    destruct (i =? 0).
    { eexists. split; [reflexivity|]. split; [lia | right; lia]. }
    destruct (IH l' (next m) (fetch_msg c p a m f) Hl') as (f' & Hf' & Hle & Hor); [lia | lia|].
    exists f'. split; [exact Hf'|]. split; [lia | exact Hor].
Qed.

Lemma loop_msg s L i :
  (forall p, 0 <= p < PRIORITY_COUNT -> lseg (heap s) (head (send_queues s p)) (L p)) ->
  0 <= i - 1 < PRIORITY_COUNT ->
  exists msg,
    (if (queue_index s >? 0) && (i =? queue_index s + 1) then
       match head (send_queues s (i - 1)) with
       | Some a => m ← heap s !! a; Some (next m)
       | None => Some None
       end
     else Some (head (send_queues s (i - 1)))) = Some msg /\
    lseg (heap s) msg (rest_of s L (i - 1)).
Proof.
  intros HL Hp. specialize (HL (i - 1) Hp). unfold rest_of.
  destruct (Z.gtb_spec (queue_index s) 0) as [Hq|Hq]; cbn [andb].
  - destruct (Z.eqb_spec i (queue_index s + 1)) as [E|E].
    + destruct (Z.eqb_spec (i - 1) (queue_index s)) as [_|?]; [|lia].
      destruct (head (send_queues s (i - 1))) as [a|].
      * destruct (lseg_cons_inv _ _ _ HL) as (m & l' & HLp & Ha & Hl').
        rewrite Ha. cbn [mbind option_bind]. eexists. split; [reflexivity|].
        rewrite HLp. simpl. rewrite drop_0. exact Hl'.
      * eexists. split; [reflexivity|].
        apply lseg_nil_inv in HL. rewrite HL. constructor.
    + destruct (Z.eqb_spec (i - 1) (queue_index s)) as [?|_]; [lia|].
      eexists. split; [reflexivity | exact HL].
  - eexists. split; [reflexivity | exact HL].
Qed.

Lemma fetch_loop_total c s L :
  (forall p, 0 <= p < PRIORITY_COUNT -> lseg (heap s) (head (send_queues s p)) (L p)) ->
  forall n i f,
    1 <= i ->
    i - 1 + Z.of_nat n <= PRIORITY_COUNT ->
    0 <= total_msg_count f < WRITEV_ITEM_ONCE c ->
    exists f', fetch_loop c s n i (i - 1) f = Some f'.
Proof.
  intros HL. induction n as [|n IH]; intros i f Hi Hn Hlt.
  - eexists. reflexivity.
  - rewrite fetch_loop_S. unfold send_queue_at.
    destruct (Z.leb_spec 0 (i - 1)) as [_|?]; [|lia].
    destruct (Z.ltb_spec (i - 1) PRIORITY_COUNT) as [Hhi|?]; [|lia].
    cbn [andb mbind option_bind].
    destruct (loop_msg s L i HL) as (msg & -> & Hlseg); [lia|].
    cbn [mbind option_bind].
    destruct (fetch_queue_total c (heap s) i (i - 1) (Z.to_nat (WRITEV_ITEM_ONCE c))
                _ msg f Hlseg) as (f1 & -> & Hle & Hf1); [lia | lia|].
    cbn [mbind option_bind].
    destruct (fetch_done f1) eqn:Hd; [eauto|].
    destruct Hf1 as [?|Hf1]; [congruence|].
    destruct (Z.eqb_spec i 0) as [?|_]; [lia|].
    replace (i - 1 + 1) with (i + 1 - 1) by lia.
    apply IH; lia.
Qed.

(** On well-formed queues the fetch loop ends within its fuel. *)
Lemma fetch_total c s :
  state_wf c s -> 1 <= WRITEV_ITEM_ONCE c -> exists f, fetch c s = Some f.
Proof.
  intros (Hqi & _ & L & HL & _) Hitem. unfold fetch.
  destruct (Z.eqb_spec (queue_index s) 0) as [Hq|Hq].
  - rewrite Hq.
    change (exists f, fetch_loop c s 3 1 (1 - 1) fetch_init = Some f).
    apply (fetch_loop_total c s L HL); simpl; unfold PRIORITY_COUNT; lia.
  - change (Z.to_nat (PRIORITY_COUNT - 0 + 1)) with 4%nat.
    rewrite fetch_loop_S. unfold send_queue_at.
    destruct (Z.leb_spec 0 (queue_index s)) as [_|?]; [|lia].
    destruct (Z.ltb_spec (queue_index s) PRIORITY_COUNT) as [_|?]; [|lia].
    destruct (Z.eqb_spec 0 (queue_index s + 1)) as [?|_]; [lia|].
    rewrite andb_false_r. cbn [andb mbind option_bind].
    destruct (fetch_queue_total c (heap s) 0 (queue_index s) (Z.to_nat (WRITEV_ITEM_ONCE c))
                _ _ fetch_init (HL _ Hqi)) as (f1 & -> & Hle & Hf1); [simpl; lia | simpl; lia|].
    simpl in Hle.
    cbn [mbind option_bind].
    destruct (fetch_done f1) eqn:Hd; [eauto|].
    destruct Hf1 as [?|Hf1]; [congruence|].
    change (exists f, fetch_loop c s 3 1 (1 - 1) f1 = Some f).
    apply (fetch_loop_total c s L HL); simpl; unfold PRIORITY_COUNT; lia.
Qed.

Lemma refs_none sm a vec :
  Forall (fun e => 0 < iov_len e) vec ->
  refs sm a vec <= 0 ->
  forall e, e ∈ vec -> sm (ix_priority e) !! ix_index e <> Some a.
Proof.
  induction 1 as [|e0 vec He0 Hpos IH]; intros Hz e Hin; [inversion Hin|].
  simpl in Hz. pose proof (refs_nonneg sm a vec Hpos) as Hnn.
  destruct (decide (sm (ix_priority e0) !! ix_index e0 = Some a)) as [E|E]; [lia|].
  apply elem_of_cons in Hin as [->|Hin]; [exact E|].
  apply IH; [lia | exact Hin].
Qed.

(** The walk finds every message it looks up, and no message is marked
    done twice. *)
Lemma walk_total c f vec :
  forall vi rem h done td,
    Forall (fun e => 0 < iov_len e) vec ->
    budget c (send_msgs f) h vec ->
    (forall e, e ∈ vec ->
       exists a, send_msgs f (ix_priority e) !! ix_index e = Some a /\ is_Some (h !! a)) ->
    distinct done ->
    (forall p a, a ∈ done p ->
       is_Some (h !! a) /\
       forall e, e ∈ vec -> send_msgs f (ix_priority e) !! ix_index e <> Some a) ->
    exists h' done' td' vi',
      walk c f vec vi rem h done td = Some (h', done', td', vi') /\
      (vi <= vi' <= vi + length vec)%nat /\
      distinct done' /\
      (forall p a, a ∈ done' p -> is_Some (h' !! a)).
Proof.
  induction vec as [|e rest IH]; intros vi rem h done td Hpos Hbud Hslots Hdist Hdone.
  - simpl. eexists _, _, _, _. split; [reflexivity|]. split; [lia|].
    split; [exact Hdist|]. intros p a Hin. apply (Hdone p a Hin).
  - destruct (Hslots e) as (a & Hslot & [msg Hmsg]); [apply elem_of_cons; left; reflexivity|].
    cbn [walk]. rewrite Hslot. cbn [mbind option_bind]. rewrite Hmsg. cbn [mbind option_bind].
    apply Forall_cons in Hpos as [Hpos_e Hpos_rest].
    pose proof (refs_nonneg (send_msgs f) a rest Hpos_rest) as Hnn.
    assert (Hbud_a : bytes_sent msg + iov_len e + refs (send_msgs f) a rest <= msg_total c msg).
    { specialize (Hbud a msg Hmsg). simpl in Hbud.
      destruct (decide _) as [_|Hne]; [lia | congruence]. }
    destruct (Z.geb_spec (rem - iov_len e) 0) as [Hcov|Hpart].
    + set (msg' := advance e msg (iov_len e)) in *.
      assert (Hbud' : budget c (send_msgs f) (<[a := msg']> h) rest).
      { intros a' m' Ha'. destruct (decide (a' = a)) as [->|Hne].
        - rewrite lookup_insert_eq in Ha'. injection Ha' as <-.
          unfold msg', msg_total. simpl. unfold msg_total in Hbud_a. lia.
        - rewrite lookup_insert_ne in Ha' by congruence.
          specialize (Hbud a' m' Ha'). simpl in Hbud.
          destruct (decide _) as [Heq|_]; [congruence | lia]. }
      assert (Hkeep : forall x, is_Some (h !! x) -> is_Some (<[a := msg']> h !! x)).
      { intros x Hx. destruct (decide (x = a)) as [->|Hne].
        - rewrite lookup_insert_eq. eauto.
        - rewrite lookup_insert_ne by congruence. exact Hx. }
      assert (Hslots' : forall e0, e0 ∈ rest ->
                exists a0, send_msgs f (ix_priority e0) !! ix_index e0 = Some a0 /\
                           is_Some (<[a := msg']> h !! a0)).
      { intros e0 Hin. destruct (Hslots e0) as (a0 & H0 & H1);
          [apply elem_of_cons; right; exact Hin|]. exists a0. split; [exact H0 | apply Hkeep, H1]. }
      assert (Hdone' : forall p a0, a0 ∈ done p ->
                is_Some (<[a := msg']> h !! a0) /\
                forall e0, e0 ∈ rest -> send_msgs f (ix_priority e0) !! ix_index e0 <> Some a0).
      { intros p a0 Hin. destruct (Hdone p a0 Hin) as [H0 H1].
        split; [apply Hkeep, H0|]. intros e0 He0. apply H1, elem_of_cons. right. exact He0. }
      assert (Hext : forall h' done' td' vi' dn tdn,
                walk c f rest (S vi) (rem - iov_len e) (<[a := msg']> h) dn tdn
                  = Some (h', done', td', vi') /\
                (S vi <= vi' <= S vi + length rest)%nat /\ distinct done' /\
                (forall p a0, a0 ∈ done' p -> is_Some (h' !! a0)) ->
                walk c f rest (S vi) (rem - iov_len e) (<[a := msg']> h) dn tdn
                  = Some (h', done', td', vi') /\
                (vi <= vi' <= vi + length (e :: rest))%nat /\ distinct done' /\
                (forall p a0, a0 ∈ done' p -> is_Some (h' !! a0))).
      { intros ? ? ? ? ? ? (H0 & H1 & H2 & H3).
        split; [exact H0|]. split; [simpl; lia|]. split; assumption. }
      destruct (bytes_sent msg' >=? msg_total c msg') eqn:Hfull.
      * apply Z.geb_le in Hfull.
        assert (Hnone : forall e0, e0 ∈ rest ->
                  send_msgs f (ix_priority e0) !! ix_index e0 <> Some a).
        { apply refs_none; [exact Hpos_rest|].
          change (bytes_sent msg') with (bytes_sent msg + iov_len e) in Hfull.
          change (msg_total c msg') with (msg_total c msg) in Hfull. lia. }
        assert (Hfresh : forall p', a ∉ done p').
        { intros p' Hin. destruct (Hdone p' a Hin) as [_ H1].
          apply (H1 e); [apply elem_of_cons; left; reflexivity | exact Hslot]. }
        edestruct (IH (S vi) (rem - iov_len e) (<[a := msg']> h)) as (h' & d' & t' & v' & Hres);
          [exact Hpos_rest | exact Hbud' | exact Hslots' | apply (distinct_add done (ix_priority e) a Hdist Hfresh) | | ].
        2:{ exists h', d', t', v'. apply Hext. exact Hres. }
        intros p a0 Hin. cbn beta in Hin.
        destruct (Z.eqb_spec p (ix_priority e)) as [Ep|Ep]; [|apply (Hdone' p a0 Hin)].
        apply elem_of_app in Hin as [Hin|Hin]; [apply (Hdone' p a0 Hin)|].
        apply list_elem_of_singleton in Hin. subst a0.
        split; [rewrite lookup_insert_eq; eauto | exact Hnone].
      * edestruct (IH (S vi) (rem - iov_len e) (<[a := msg']> h)) as (h' & d' & t' & v' & Hres);
          [exact Hpos_rest | exact Hbud' | exact Hslots' | exact Hdist | exact Hdone' | ].
        exists h', d', t', v'. apply Hext. exact Hres.
    + eexists _, _, _, _. split; [reflexivity|]. split; [simpl; lia|].
      split; [exact Hdist|]. intros p a0 Hin. destruct (Hdone p a0 Hin) as [H0 _].
      destruct (decide (a0 = a)) as [->|Hne].
      * rewrite lookup_insert_eq. eauto.
      * rewrite lookup_insert_ne by congruence. exact H0.
Qed.

Lemma release_done_total now l :
  forall s, NoDup l -> (forall a, a ∈ l -> is_Some (heap s !! a)) ->
  exists s', release_done now s l = Some s'.
Proof.
  induction l as [|a l IH]; intros s Hnd Hal; [simpl; eauto|].
  apply NoDup_cons in Hnd as [Hnot Hnd].
  destruct (Hal a) as [m Hm]; [apply elem_of_cons; left; reflexivity|].
  simpl. rewrite Hm. cbn [mbind option_bind].
  apply IH; [exact Hnd|].
  intros a' Hin. simpl. rewrite lookup_delete_ne by (intros ->; contradiction).
  apply Hal, elem_of_cons. right. exact Hin.
Qed.

Lemma unlink_done_total s d i :
  (forall a, a ∈ d i -> is_Some (heap s !! a)) ->
  exists s', unlink_done s d i = Some s'.
Proof.
  intros Hal. unfold unlink_done.
  destruct (last (d i)) as [a|] eqn:Hlast; [|eauto].
  destruct (Hal a) as [m Hm].
  { apply last_Some in Hlast as [l' ->]. apply elem_of_app. right.
    apply list_elem_of_singleton. reflexivity. }
  rewrite Hm. simpl. eauto.
Qed.

Lemma finish_total now s d td r :
  distinct d ->
  (forall p a, a ∈ d p -> is_Some (heap s !! a)) ->
  exists s', finish now s d td r = Some (r, s').
Proof.
  intros [Hnd Hdisj] Hal. unfold finish.
  destruct (unlink_done_total (set_stats s (count_done td (stats s))) d 0) as [s1 H1];
    [intros a Hin; apply (Hal 0 a Hin)|].
  pose proof (unlink_done_frame _ _ _ _ H1) as [Hh1 _]. simpl in Hh1.
  rewrite H1. cbn [mbind option_bind].
  destruct (unlink_done_total s1 d 1) as [s2 H2];
    [intros a Hin; rewrite Hh1; apply (Hal 1 a Hin)|].
  pose proof (unlink_done_frame _ _ _ _ H2) as [Hh2 _].
  rewrite H2. cbn [mbind option_bind].
  destruct (unlink_done_total s2 d 2) as [s3 H3];
    [intros a Hin; rewrite Hh2, Hh1; apply (Hal 2 a Hin)|].
  pose proof (unlink_done_frame _ _ _ _ H3) as [Hh3 _].
  rewrite H3. cbn [mbind option_bind].
  assert (Hh : heap s3 = heap s) by congruence.
  destruct (release_done_total now (d 0) s3 (Hnd 0)) as [s4 H4];
    [intros a Hin; rewrite Hh; apply (Hal 0 a Hin)|].
  destruct (release_done_spec _ _ _ _ H4) as (_ & _ & _ & _ & Hkeep4).
  rewrite H4. cbn [mbind option_bind].
  destruct (release_done_total now (d 1) s4 (Hnd 1)) as [s5 H5].
  { intros a Hin. rewrite Hkeep4, Hh; [apply (Hal 1 a Hin)|].
    intros Hin0. apply (Hdisj 1 0 a); [lia | exact Hin | exact Hin0]. }
  destruct (release_done_spec _ _ _ _ H5) as (_ & _ & _ & _ & Hkeep5).
  rewrite H5. cbn [mbind option_bind].
  destruct (release_done_total now (d 2) s5 (Hnd 2)) as [s6 H6].
  { intros a Hin. rewrite Hkeep5, Hkeep4, Hh; [apply (Hal 2 a Hin)| |].
    - intros Hin0. apply (Hdisj 2 0 a); [lia | exact Hin | exact Hin0].
    - intros Hin1. apply (Hdisj 2 1 a); [lia | exact Hin | exact Hin1]. }
  rewrite H6. cbn [mbind option_bind]. eauto.
Qed.

(** On well-formed queues [deal_write_event] returns. *)
Lemma deal_write_event_total c now write_bytes errno s :
  state_wf c s -> 1 <= WRITEV_ITEM_ONCE c ->
  exists ret s', deal_write_event c now write_bytes errno s = Some (ret, s').
Proof.
  intros Hwf Hitem.
  destruct (fetch_total c s Hwf Hitem) as [f Hf].
  pose proof (fetch_inv_fetch c s f Hwf Hf) as (Hvec & Hbud & Halloc & Hdist & _).
  unfold deal_write_event. rewrite Hf. cbn [mbind option_bind].
  destruct (Z.eqb_spec (vec_count f) 0) as [Hvc|Hvc]; [eauto|].
  destruct (write_bytes =? 0); [eauto|].
  destruct (write_bytes <? 0).
  { destruct ((errno =? EAGAIN) || (errno =? EWOULDBLOCK)); [eauto|].
    destruct (errno =? EINTR); eauto. }
  destruct ((write_bytes =? total_bytes f) && last_msg_complete f).
  - destruct (finish_total now
                (set_queue_index
                   (set_stats (set_stats s (count_writev (total_msg_count f) (stats s)))
                      (count_sent write_bytes
                         (stats (set_stats s (count_writev (total_msg_count f) (stats s))))))
                   0)
                (send_msgs f) (total_msg_count f)
                (if (write_bytes =? total_bytes f) && fetch_done f then 0 else EAGAIN) Hdist)
      as [s' Hs'].
    { intros p a Hin. simpl. apply Halloc. exists p. exact Hin. }
    eauto.
  - assert (Hpos : Forall (fun e => 0 < iov_len e) (write_vec f)).
    { eapply Forall_impl; [exact Hvec|]. intros ? [? _]. assumption. }
    destruct (walk_total c f (write_vec f) 0 write_bytes (heap s) (fun _ => []) 0 Hpos Hbud)
      as (h & dm & td & vi & Hw & Hvi & Hdist' & Hal').
    { intros e Hin. eapply Forall_forall in Hvec; [|exact Hin].
      destruct Hvec as [_ Hlt]. apply lookup_lt_is_Some in Hlt as [a Ha].
      exists a. split; [exact Ha|]. apply Halloc. exists (ix_priority e).
      eapply list_elem_of_lookup_2. exact Ha. }
    { split; [intros p; apply NoDup_nil_2 | intros p p' a _ Hin; inversion Hin]. }
    { intros p a Hin. inversion Hin. }
    match goal with |- context [walk c f (write_vec f) 0 write_bytes ?hh _ 0] =>
      change hh with (heap s) end.
    rewrite Hw. cbn [mbind option_bind].
    assert (He : exists e, (if Z.of_nat vi <? vec_count f then write_vec f !! vi
                            else write_vec f !! (vi - 1)%nat) = Some e).
    { unfold vec_count in *. destruct (Z.ltb_spec (Z.of_nat vi) (Z.of_nat (length (write_vec f)))).
      - apply lookup_lt_is_Some. lia.
      - apply lookup_lt_is_Some. lia. }
    destruct He as [e ->]. cbn [mbind option_bind].
    destruct (td =? 0); [eauto|].
    match goal with |- context [finish now ?s0 dm td ?r] =>
      destruct (finish_total now s0 dm td r Hdist') as [s' Hs'] end.
    { intros p a Hin. simpl. apply (Hal' p a Hin). }
    eauto.
Qed.

(** *** Array bounds *)

Lemma get_iovec_length bl n : (length (get_iovec bl n) <= n)%nat.
Proof.
  revert n. induction bl as [|a bl IH]; intros n; simpl; [destruct n; simpl; lia|].
  destruct n; [simpl; lia|].
  destruct (a >? 0); simpl; [specialize (IH n); lia | apply IH].
Qed.

Lemma fetch_msg_vec_count c p a m f :
  vec_count f <= WRITEV_ARRAY_SIZE c - 3 ->
  vec_count (fetch_msg c p a m f) <= WRITEV_ARRAY_SIZE c.
Proof.
  intros Hvc. unfold fetch_msg.
  destruct (Z.ltb_spec (bytes_sent m) (MSG_HEADER_LENGTH c)) as [Hh|Hh].
  - match goal with |- context [get_iovec ?b ?n] =>
      pose proof (get_iovec_length b n) as Hlen;
      remember (get_iovec b n) as iov eqn:Hiov end.
    clear Hiov.
    repeat (first [destr_cond | destr_dt | progress simpl]).
    all: unfold vec_count in *; simpl in *;
      rewrite ?write_vec_foldl_push; simpl;
      rewrite ?length_app, ?length_map in *; simpl in *; lia.
  - match goal with |- context [get_iovec ?b ?n] =>
      pose proof (get_iovec_length b n) as Hlen;
      remember (get_iovec b n) as iov eqn:Hiov end.
    clear Hiov.
    repeat (first [destr_cond | destr_dt | progress simpl]).
    all: unfold vec_count in *; simpl in *;
      rewrite ?write_vec_foldl_push; simpl;
      rewrite ?length_app, ?length_map in *; simpl in *; lia.
Qed.

Lemma fetch_msg_send_msgs_length c p a m f p' :
  (length (send_msgs (fetch_msg c p a m f) p') <= length (send_msgs f p') + 1)%nat.
Proof.
  destruct (fetch_msg_ext c p a m f) as (f2 & new & -> & _ & Hsm & _).
  simpl. rewrite Hsm. destruct (p' =? p); [rewrite length_app; simpl|]; lia.
Qed.

Lemma fetch_room_bounded c f : fetch_room c f -> fetch_bounded c f.
Proof. intros (H1 & H2 & H3). unfold fetch_bounded. repeat split; [lia | lia | exact H3]. Qed.

Lemma fetch_msg_bounds c p a m f :
  fetch_room c f ->
  fetch_bounded c (fetch_msg c p a m f) /\
  (fetch_stop c (fetch_msg c p a m f) = false -> fetch_room c (fetch_msg c p a m f)).
Proof.
  intros (Hc & Hv & Hl).
  pose proof (fetch_msg_count c p a m f) as Hcount.
  pose proof (fetch_msg_vec_count c p a m f Hv) as Hvec.
  assert (Hlen : forall p', Z.of_nat (length (send_msgs (fetch_msg c p a m f) p'))
                            <= total_msg_count (fetch_msg c p a m f)).
  { intros p'. pose proof (fetch_msg_send_msgs_length c p a m f p'). specialize (Hl p'). lia. }
  split; [unfold fetch_bounded; repeat split; [lia | exact Hvec | exact Hlen]|].
  intros Hstop. unfold fetch_stop in Hstop.
  apply orb_false_iff in Hstop as [Hstop _].
  apply orb_false_iff in Hstop as [H1 H2].
  apply Z.eqb_neq in H1.
  destruct (Z.geb_spec (vec_count (fetch_msg c p a m f)) (WRITEV_ARRAY_SIZE c - 2)) as [?|H2'];
    [discriminate|].
  unfold fetch_room. repeat split; [lia | lia | exact Hlen].
Qed.

Lemma fetch_queue_bounds c h i p :
  forall fuel msg f f',
    fetch_queue c h fuel i p msg f = Some f' ->
    fetch_room c f ->
    fetch_bounded c f' /\ (fetch_done f' = true \/ fetch_room c f').
Proof.
  induction fuel as [|fuel IH]; intros msg f f' Hq Hroom.
  - destruct msg; [rewrite fetch_queue_O in Hq; discriminate|].
    rewrite fetch_queue_null in Hq. injection Hq as <-.
    split; [apply fetch_room_bounded, Hroom | right; exact Hroom].
  - destruct msg as [a|].
    2:{ rewrite fetch_queue_null in Hq. injection Hq as <-.
        split; [apply fetch_room_bounded, Hroom | right; exact Hroom]. }
    rewrite fetch_queue_S in Hq.
    destruct (h !! a) as [m|]; cbn [mbind option_bind] in Hq; [|discriminate].
    destruct (fetch_msg_bounds c p a m f Hroom) as [Hb Hr].
    destruct (fetch_stop c (fetch_msg c p a m f)).
    { injection Hq as <-. split; [exact Hb | left; reflexivity]. }
    specialize (Hr eq_refl).
    destruct (i =? 0).
    { injection Hq as <-. split; [exact Hb | right; exact Hr]. }
    exact (IH _ _ _ Hq Hr).
Qed.

Lemma fetch_loop_bounds c s :
  forall n i p f f',
    fetch_loop c s n i p f = Some f' ->
    fetch_room c f ->
    fetch_bounded c f'.
Proof.
  induction n as [|n IH]; intros i p f f' Hloop Hroom.
  - injection Hloop as <-. apply fetch_room_bounded, Hroom.
  - rewrite fetch_loop_S in Hloop.
    destruct (send_queue_at s p) as [q|]; cbn [mbind option_bind] in Hloop; [|discriminate].
    match type of Hloop with (?x ≫= _) = _ => destruct x as [msg|] end;
      cbn [mbind option_bind] in Hloop; [|discriminate].
    match type of Hloop with (?x ≫= _) = _ => destruct x as [f1|] eqn:Hq1 end;
      cbn [mbind option_bind] in Hloop; [|discriminate].
    destruct (fetch_queue_bounds c (heap s) i p _ _ _ _ Hq1 Hroom) as [Hb Hor].
    destruct (fetch_done f1); [injection Hloop as <-; exact Hb|].
    destruct Hor as [?|Hr]; [discriminate|].
    exact (IH _ _ _ _ Hloop Hr).
Qed.

(** X13.  The fetch loop of [deal_write_event] stays within its arrays,
    whatever the queues hold: it stores at most WRITEV_ARRAY_SIZE entries
    in [write_vec] and [msg_indexes] and at most WRITEV_ITEM_ONCE messages
    in the [send_msgs] of a priority. *)
Lemma fetch_bounds c s f :
  1 <= WRITEV_ITEM_ONCE c -> 3 <= WRITEV_ARRAY_SIZE c ->
  fetch c s = Some f -> fetch_bounded c f.
Proof.
  intros Hitem Hsize Hf. unfold fetch in Hf.
  apply (fetch_loop_bounds c s _ _ _ _ _ Hf).
  unfold fetch_room, vec_count. simpl. repeat split; lia.
Qed.

(** *** The queues stay well-formed *)

Lemma own_cons_eq sm a e rest :
  sm (ix_priority e) !! ix_index e = Some a ->
  own sm a (e :: rest) = e :: own sm a rest.
Proof. intros H. unfold own. rewrite filter_cons_True by exact H. reflexivity. Qed.

Lemma own_cons_ne sm a a' e rest :
  sm (ix_priority e) !! ix_index e = Some a -> a' <> a ->
  own sm a' (e :: rest) = own sm a' rest.
Proof. intros H Hne. unfold own. rewrite filter_cons_False by congruence. reflexivity. Qed.

(** The walk leaves every message well-formed, and the last message it
    marks done in a priority is the latest of them in [send_msgs]. *)
Lemma walk_wf c f vec :
  forall vi rem h done td h' done' td' vi',
    walk c f vec vi rem h done td = Some (h', done', td', vi') ->
    0 <= rem ->
    ordered vec ->
    (forall a m, h !! a = Some m -> entries_fit c m (own (send_msgs f) a vec)) ->
    (forall p x, x ∈ done p ->
       exists i, send_msgs f p !! i = Some x /\
         Forall (fun e => ix_priority e = p -> (i <= ix_index e)%nat) vec) ->
    (forall p, latest (send_msgs f) done p) ->
    (forall a m', h' !! a = Some m' -> msg_wf c m') /\
    (forall p, latest (send_msgs f) done' p).
Proof.
  induction vec as [|e rest IH];
    intros vi rem h done td h' done' td' vi' Hw Hrem Hord Hfit Hbefore Hlatest.
  - simpl in Hw. injection Hw as <- <- <- <-.
    split; [|exact Hlatest].
    intros a m Ha. eapply entries_fit_wf. apply Hfit, Ha.
  - simpl in Hw.
    destruct (send_msgs f (ix_priority e) !! ix_index e) as [a|] eqn:Hslot;
      simpl in Hw; [|discriminate].
    destruct (h !! a) as [msg|] eqn:Hmsg; simpl in Hw; [|discriminate].
    destruct Hord as [Hord_e Hord].
    pose proof (Hfit a msg Hmsg) as Hfa. rewrite (own_cons_eq _ _ _ _ Hslot) in Hfa.
    destruct Hfa as (Hwf_a & Hpart & Hfull).
    destruct (Z.geb_spec (rem - iov_len e) 0) as [Hcov|Hpart'].
    + set (msg' := advance e msg (iov_len e)) in *.
      assert (Hfit' : forall a0 m, <[a := msg']> h !! a0 = Some m ->
                entries_fit c m (own (send_msgs f) a0 rest)).
      { intros a0 m Ha0. destruct (decide (a0 = a)) as [->|Hne].
        - rewrite lookup_insert_eq in Ha0. injection Ha0 as <-. exact Hfull.
        - rewrite lookup_insert_ne in Ha0 by congruence.
          rewrite <- (own_cons_ne _ a a0 e rest Hslot Hne). apply Hfit, Ha0. }
      assert (Hbefore' : forall p x, x ∈ done p ->
                exists i, send_msgs f p !! i = Some x /\
                  Forall (fun e => ix_priority e = p -> (i <= ix_index e)%nat) rest).
      { intros p x Hin. destruct (Hbefore p x Hin) as (i & Hi & Hall).
        apply Forall_cons in Hall as [_ Hall]. eauto. }
      match type of Hw with (if ?b then _ else _) = _ => destruct b end.
      * apply (IH _ _ _ _ _ _ _ _ _ Hw); auto.
        -- intros p x Hin. cbn beta in Hin.
           destruct (Z.eqb_spec p (ix_priority e)) as [->|Hne]; [|apply Hbefore', Hin].
           apply elem_of_app in Hin as [Hin|Hin]; [apply Hbefore', Hin|].
           apply list_elem_of_singleton in Hin. subst x.
           exists (ix_index e). split; [exact Hslot|].
           eapply Forall_impl; [exact Hord_e|]. intros e2 H2 Hp2. apply H2, Hp2.
        -- intros p b Hlast. cbn beta in Hlast |- *.
           destruct (Z.eqb_spec p (ix_priority e)) as [->|Hne]; [|apply Hlatest, Hlast].
           rewrite last_snoc in Hlast. injection Hlast as <-.
           exists (ix_index e). split; [exact Hslot|].
           intros x Hin. apply elem_of_app in Hin as [Hin|Hin].
           ++ destruct (Hbefore _ x Hin) as (i & Hi & Hall).
              apply Forall_cons in Hall as [He _]. exists i. split; [apply He; reflexivity | exact Hi].
           ++ apply list_elem_of_singleton in Hin. subst x.
              exists (ix_index e). split; [lia | exact Hslot].
      * apply (IH _ _ _ _ _ _ _ _ _ Hw); auto.
    + injection Hw as <- <- <- <-.
      split; [|exact Hlatest].
      intros a0 m' Ha0. destruct (decide (a0 = a)) as [->|Hne].
      * rewrite lookup_insert_eq in Ha0. injection Ha0 as <-. apply Hpart. lia.
      * rewrite lookup_insert_ne in Ha0 by congruence.
        eapply entries_fit_wf. apply Hfit, Ha0.
Qed.

Lemma fetch_msg_send_msgs c p a m f :
  send_msgs (fetch_msg c p a m f)
  = fun p' => if p' =? p then send_msgs f p' ++ [a] else send_msgs f p'.
Proof.
  destruct (fetch_msg_ext c p a m f) as (f2 & new & -> & _ & Hsm & _).
  simpl. rewrite Hsm. reflexivity.
Qed.

Lemma fetch_queue_prefix c h i p :
  forall fuel l msg f f',
    fetch_queue c h fuel i p msg f = Some f' ->
    lseg h msg l ->
    exists l1 l2,
      l = l1 ++ l2 /\
      send_msgs f' p = send_msgs f p ++ l1 /\
      (forall p', p' <> p -> send_msgs f' p' = send_msgs f p') /\
      (i = 0 -> l2 = drop 1 l).
Proof.
  induction fuel as [|fuel IH]; intros l msg f f' Hq Hl.
  - destruct msg; [rewrite fetch_queue_O in Hq; discriminate|].
    rewrite fetch_queue_null in Hq. injection Hq as <-.
    apply lseg_nil_inv in Hl as ->. exists [], [].
    simpl. rewrite app_nil_r. repeat split; auto.
  - destruct msg as [a|].
    2:{ rewrite fetch_queue_null in Hq. injection Hq as <-.
        apply lseg_nil_inv in Hl as ->. exists [], []. simpl. rewrite app_nil_r. repeat split; auto. }
    destruct (lseg_cons_inv _ _ _ Hl) as (m & l' & -> & Ha & Hl').
    rewrite fetch_queue_S, Ha in Hq. cbn [mbind option_bind] in Hq.
    assert (Hone : send_msgs (fetch_msg c p a m f) p = send_msgs f p ++ [a] /\
                   forall p', p' <> p -> send_msgs (fetch_msg c p a m f) p' = send_msgs f p').
    { rewrite fetch_msg_send_msgs. rewrite Z.eqb_refl. split; [reflexivity|].
      intros p' Hne. destruct (Z.eqb_spec p' p); [contradiction | reflexivity]. }
    destruct Hone as [Hp Hother].
    destruct (fetch_stop c (fetch_msg c p a m f)).
    { injection Hq as <-. exists [a], l'. simpl. rewrite drop_0. repeat split; auto. }
    destruct (Z.eqb_spec i 0) as [Hi|Hi].
    { injection Hq as <-. exists [a], l'. simpl. rewrite drop_0. repeat split; auto. }
    destruct (IH _ _ _ _ Hq Hl') as (l1 & l2 & -> & Hsm & Hoth & _).
    exists (a :: l1), l2. split; [reflexivity|]. split.
    + rewrite Hsm, Hp, <- app_assoc. reflexivity.
    + split; [|intros; contradiction].
      intros p' Hne. rewrite (Hoth p' Hne). apply Hother, Hne.
Qed.

Lemma fetch_loop_prefix c s L :
  (forall p, 0 <= p < PRIORITY_COUNT -> lseg (heap s) (head (send_queues s p)) (L p)) ->
  forall n i f f',
    1 <= i ->
    fetch_loop c s n i (i - 1) f = Some f' ->
    prefixes s L f i ->
    forall p, 0 <= p < PRIORITY_COUNT -> exists l, send_msgs f' p ++ l = L p.
Proof.
  intros HL. induction n as [|n IH]; intros i f f' Hi Hloop Hpre.
  - injection Hloop as <-. intros p Hp. destruct (Hpre p Hp) as (l & Hl & _). eauto.
  - rewrite fetch_loop_S in Hloop. unfold send_queue_at in Hloop.
    destruct (Z.leb_spec 0 (i - 1)) as [Hlo|?];
      destruct (Z.ltb_spec (i - 1) PRIORITY_COUNT) as [Hhi|?];
      cbn [andb] in Hloop; try discriminate.
    assert (Hp : 0 <= i - 1 < PRIORITY_COUNT) by lia.
    cbn [mbind option_bind] in Hloop.
    destruct (loop_msg s L i HL Hp) as (msg & Hmsg & Hlseg).
    rewrite Hmsg in Hloop. cbn [mbind option_bind] in Hloop.
    match type of Hloop with (?x ≫= _) = _ => destruct x as [f1|] eqn:Hq1 end;
      cbn [mbind option_bind] in Hloop; [|discriminate].
    destruct (fetch_queue_prefix c (heap s) i (i - 1) _ _ _ _ _ Hq1 Hlseg)
      as (l1 & l2 & Hsplit & Hsm & Hoth & _).
    assert (Hf1 : forall p, 0 <= p < PRIORITY_COUNT ->
              exists l, send_msgs f1 p ++ l = L p /\ (i <= p -> l = rest_of s L p)).
    { intros p Hpr. destruct (Hpre p Hpr) as (l & Hl & Hrest).
      destruct (Z.eq_dec p (i - 1)) as [->|Hne].
      - exists l2. split; [|lia].
        rewrite Hsm, <- app_assoc, <- Hsplit, <- (Hrest ltac:(lia)). exact Hl.
      - exists l. rewrite (Hoth p Hne). split; [exact Hl|]. intros. apply Hrest. lia. }
    destruct (fetch_done f1).
    { injection Hloop as <-. intros p Hpr. destruct (Hf1 p Hpr) as (l & Hl & _). eauto. }
    destruct (Z.eqb_spec i 0) as [?|_]; [lia|].
    replace (i - 1 + 1) with (i + 1 - 1) in Hloop by lia.
    apply (IH (i + 1) f1 f'); [lia | exact Hloop|].
    intros p Hpr. destruct (Hf1 p Hpr) as (l & Hl & Hrest).
    exists l. split; [exact Hl|]. intros. apply Hrest. lia.
Qed.

(** [send_msgs[p]] is a prefix of queue [p]. *)
Lemma fetch_prefix c s L f :
  (forall p, 0 <= p < PRIORITY_COUNT -> lseg (heap s) (head (send_queues s p)) (L p)) ->
  0 <= queue_index s < PRIORITY_COUNT ->
  fetch c s = Some f ->
  forall p, 0 <= p < PRIORITY_COUNT -> exists l, send_msgs f p ++ l = L p.
Proof.
  intros HL Hqi Hf. unfold fetch in Hf.
  destruct (Z.eqb_spec (queue_index s) 0) as [Hq|Hq].
  - rewrite Hq in Hf.
    change (fetch_loop c s (Z.to_nat (PRIORITY_COUNT - 1 + 1)) 1 (1 - 1) fetch_init = Some f) in Hf.
    eapply (fetch_loop_prefix c s L HL _ 1 fetch_init f); [lia | exact Hf|].
    intros p Hp. exists (L p). split; [reflexivity|]. intros _. unfold rest_of.
    destruct (Z.gtb_spec (queue_index s) 0); [lia | reflexivity].
  - change (Z.to_nat (PRIORITY_COUNT - 0 + 1)) with 4%nat in Hf.
    rewrite fetch_loop_S in Hf. unfold send_queue_at in Hf.
    destruct (Z.leb_spec 0 (queue_index s)) as [_|?]; [|lia].
    destruct (Z.ltb_spec (queue_index s) PRIORITY_COUNT) as [_|?]; [|lia].
    destruct (Z.eqb_spec 0 (queue_index s + 1)) as [?|_]; [lia|].
    rewrite andb_false_r in Hf. cbn [andb mbind option_bind] in Hf.
    match type of Hf with (?x ≫= _) = _ => destruct x as [f1|] eqn:Hq1 end;
      cbn [mbind option_bind] in Hf; [|discriminate].
    destruct (fetch_queue_prefix c (heap s) 0 (queue_index s) _ _ _ _ _ Hq1 (HL _ Hqi))
      as (l1 & l2 & Hsplit & Hsm & Hoth & Hdrop).
    specialize (Hdrop eq_refl). simpl in Hsm.
    assert (Hf1 : prefixes s L f1 1).
    { intros p Hp. destruct (Z.eq_dec p (queue_index s)) as [->|Hne].
      - exists l2. rewrite Hsm. split; [symmetry; exact Hsplit|]. intros _.
        unfold rest_of. destruct (Z.gtb_spec (queue_index s) 0); [|lia].
        rewrite Z.eqb_refl. exact Hdrop.
      - exists (L p). rewrite (Hoth p Hne). split; [reflexivity|]. intros _.
        unfold rest_of. destruct (Z.eqb_spec p (queue_index s)); [contradiction|].
        rewrite andb_false_r. reflexivity. }
    destruct (fetch_done f1).
    { injection Hf as <-. intros p Hp. destruct (Hf1 p Hp) as (l & Hl & _). eauto. }
    change (fetch_loop c s 3 1 (1 - 1) f1 = Some f) in Hf.
    eapply (fetch_loop_prefix c s L HL _ 1 f1 f); [lia | exact Hf | exact Hf1].
Qed.

Lemma after_middle a l1 l2 : a ∉ l1 -> after a (l1 ++ a :: l2) = l2.
Proof.
  induction l1 as [|x l1 IH]; intros Hnot; simpl.
  - destruct (decide (a = a)); [reflexivity | contradiction].
  - apply not_elem_of_cons in Hnot as [Hne Hnot].
    destruct (decide (x = a)); [congruence | apply IH, Hnot].
Qed.

Lemma lseg_alloc h p l : lseg h p l -> forall x, x ∈ l -> is_Some (h !! x).
Proof.
  induction 1 as [|a m l Ha Hl IH]; intros x Hin; [inversion Hin|].
  apply elem_of_cons in Hin as [->|Hin]; eauto.
Qed.

Lemma lseg_ext h h' p l :
  lseg h p l ->
  (forall x m, x ∈ l -> h !! x = Some m -> exists m', h' !! x = Some m' /\ next m' = next m) ->
  lseg h' p l.
Proof.
  induction 1 as [|a m l Ha Hl IH]; intros Hsame; [constructor|].
  destruct (Hsame a m) as (m' & Hm' & Hn); [apply elem_of_cons; left; reflexivity | exact Ha|].
  econstructor; [exact Hm'|]. rewrite Hn. apply IH.
  intros x mx Hin. apply Hsame, elem_of_cons. right. exact Hin.
Qed.

Lemma lseg_middle h p l1 a l2 :
  lseg h p (l1 ++ a :: l2) ->
  (a ∉ l1) /\ exists m, h !! a = Some m /\ lseg h (next m) l2.
Proof.
  intros Hl. pose proof (lseg_NoDup _ _ _ Hl) as Hnd.
  apply NoDup_app in Hnd as (_ & Hcross & _).
  split.
  { intros Hin. apply (Hcross a Hin). apply elem_of_cons. left. reflexivity. }
  clear Hcross. revert p Hl. induction l1 as [|x l1 IH]; intros p Hl; simpl in Hl.
  - inversion Hl; subst. eauto.
  - inversion Hl; subst. eapply IH. eassumption.
Qed.

Lemma unlink_done_spec s d i s' :
  unlink_done s d i = Some s' ->
  heap s' = heap s /\ queue_index s' = queue_index s /\
  (forall p, p <> i -> send_queues s' p = send_queues s p) /\
  match last (d i) with
  | Some a => exists m, heap s !! a = Some m /\ head (send_queues s' i) = next m
  | None => send_queues s' i = send_queues s i
  end.
Proof.
  unfold unlink_done. destruct (last (d i)) as [a|].
  - destruct (heap s !! a) as [m|]; simpl; [|discriminate].
    intros H. injection H as <-. simpl. rewrite Z.eqb_refl. simpl.
    split; [reflexivity|]. split; [reflexivity|]. split; [|eauto].
    intros p Hne. destruct (Z.eqb_spec p i); [contradiction | reflexivity].
  - intros H. injection H as <-. auto.
Qed.

Lemma release_done_frame now l :
  forall s s', release_done now s l = Some s' ->
  send_queues s' = send_queues s /\ queue_index s' = queue_index s.
Proof.
  induction l as [|a l IH]; intros s s' H; simpl in H.
  - injection H as <-. auto.
  - destruct (heap s !! a) as [m|]; simpl in H; [|discriminate].
    destruct (IH _ _ H) as [H1 H2]. simpl in H1, H2. auto.
Qed.

Lemma finish_queues now s d td r ret s' :
  finish now s d td r = Some (ret, s') ->
  queue_index s' = queue_index s /\
  forall p, 0 <= p < PRIORITY_COUNT ->
    match last (d p) with
    | Some a => exists m, heap s !! a = Some m /\ head (send_queues s' p) = next m
    | None => send_queues s' p = send_queues s p
    end.
Proof.
  unfold finish. intros H.
  destruct (unlink_done _ d 0) as [s1|] eqn:H1; simpl in H; [|discriminate].
  destruct (unlink_done s1 d 1) as [s2|] eqn:H2; simpl in H; [|discriminate].
  destruct (unlink_done s2 d 2) as [s3|] eqn:H3; simpl in H; [|discriminate].
  destruct (release_done now s3 (d 0)) as [s4|] eqn:H4; simpl in H; [|discriminate].
  destruct (release_done now s4 (d 1)) as [s5|] eqn:H5; simpl in H; [|discriminate].
  destruct (release_done now s5 (d 2)) as [s6|] eqn:H6; simpl in H; [|discriminate].
  injection H as _ <-.
  apply unlink_done_spec in H1 as (Hh1 & Hq1 & Ho1 & Hl1). simpl in Hh1, Hq1, Ho1, Hl1.
  apply unlink_done_spec in H2 as (Hh2 & Hq2 & Ho2 & Hl2).
  apply unlink_done_spec in H3 as (Hh3 & Hq3 & Ho3 & Hl3).
  apply release_done_frame in H4 as [Hs4 Hq4].
  apply release_done_frame in H5 as [Hs5 Hq5].
  apply release_done_frame in H6 as [Hs6 Hq6].
  split; [congruence|].
  intros p Hp. unfold PRIORITY_COUNT in Hp.
  rewrite Hs6, Hs5, Hs4.
  assert (Hcases : p = 0 \/ p = 1 \/ p = 2) by lia.
  destruct Hcases as [->|[->| ->]].
  - rewrite (Ho3 0), (Ho2 0) by lia. exact Hl1.
  - rewrite (Ho3 1) by lia. rewrite Hh1 in Hl2.
    destruct (last (d 1)); [exact Hl2|]. rewrite Hl2. apply Ho1. lia.
  - rewrite Hh2, Hh1 in Hl3.
    destruct (last (d 2)); [exact Hl3|]. rewrite Hl3, (Ho2 2), (Ho1 2) by lia. reflexivity.
Qed.

(** Unlinking and releasing the messages [d], which lie at the front of
    their queues, leaves well-formed queues. *)
Lemma finish_wf c now s d td r ret s' L :
  finish now s d td r = Some (ret, s') ->
  0 <= queue_index s < PRIORITY_COUNT ->
  (forall a m, heap s !! a = Some m -> msg_wf c m) ->
  (forall p, 0 <= p < PRIORITY_COUNT -> lseg (heap s) (head (send_queues s p)) (L p)) ->
  (forall p p' a, 0 <= p < PRIORITY_COUNT -> 0 <= p' < PRIORITY_COUNT ->
     p <> p' -> a ∈ L p -> a ∉ L p') ->
  (forall p, 0 <= p < PRIORITY_COUNT -> selects L d p) ->
  state_wf c s'.
Proof.
  intros Hfin Hqi Hmsg HL Hdisj Hsel.
  destruct (finish_spec _ _ _ _ _ _ _ Hfin) as (rel & _ & Hin & Hheap).
  destruct (finish_queues _ _ _ _ _ _ _ Hfin) as [Hq Hqueues].
  assert (Hsub : forall p x, 0 <= p < PRIORITY_COUNT -> x ∈ unlinked L d p -> x ∈ L p).
  { intros p x Hp. unfold unlinked. destruct (last (d p)) as [a|] eqn:Hlast; [|auto].
    destruct (Hsel p Hp a Hlast) as (l1 & l2 & HLp & _).
    destruct (lseg_middle (heap s) (head (send_queues s p)) l1 a l2) as [Hnot _];
      [rewrite <- HLp; apply HL, Hp|].
    rewrite HLp, (after_middle a l1 l2 Hnot). intros Hx.
    apply elem_of_app. right. apply elem_of_cons. right. exact Hx. }
  assert (Hin_d : forall p x, 0 <= p < PRIORITY_COUNT -> x ∈ d p -> x ∈ L p).
  { intros p x Hp Hx. destruct (last (d p)) as [a|] eqn:Hlast.
    - destruct (Hsel p Hp a Hlast) as (l1 & l2 & HLp & Hd).
      rewrite HLp. specialize (Hd x Hx). apply elem_of_app in Hd as [Hd|Hd].
      + apply elem_of_app. left. exact Hd.
      + apply list_elem_of_singleton in Hd. subst x.
        apply elem_of_app. right. apply elem_of_cons. left. reflexivity.
    - apply last_None in Hlast. rewrite Hlast in Hx. inversion Hx. }
  assert (Hkeep : forall p x, 0 <= p < PRIORITY_COUNT -> x ∈ unlinked L d p ->
                    heap s' !! x = heap s !! x).
  { intros p x Hp Hx. destruct (Hheap x) as [Hk|[_ (m & Hrel)]]; [exact Hk|]. exfalso.
    destruct (Hin x m Hrel) as [(p' & Hp' & Hxd) _].
    destruct (Z.eq_dec p' p) as [->|Hne].
    - unfold unlinked in Hx. destruct (last (d p)) as [a|] eqn:Hlast.
      + destruct (Hsel p Hp a Hlast) as (l1 & l2 & HLp & Hd).
        pose proof (HL p Hp) as Hlp. rewrite HLp in Hlp.
        pose proof (lseg_NoDup _ _ _ Hlp) as Hnd.
        destruct (lseg_middle _ _ _ _ _ Hlp) as [Hnot _].
        rewrite HLp, (after_middle a l1 l2 Hnot) in Hx.
        specialize (Hd x Hxd).
        replace (l1 ++ a :: l2) with ((l1 ++ [a]) ++ l2) in Hnd
          by (rewrite <- app_assoc; reflexivity).
        apply NoDup_app in Hnd as (_ & Hcross & _). exact (Hcross x Hd Hx).
      + apply last_None in Hlast. rewrite Hlast in Hxd. inversion Hxd.
    - apply (Hdisj p' p x Hp' Hp Hne); [apply Hin_d; assumption | apply Hsub; assumption]. }
  split; [rewrite Hq; exact Hqi|]. split.
  - intros a m Ha. destruct (Hheap a) as [Hk|[Hn _]]; [|congruence].
    apply (Hmsg a). rewrite <- Hk. exact Ha.
  - exists (unlinked L d). split.
    + intros p Hp. specialize (Hqueues p Hp). pose proof (HL p Hp) as Hlp.
      assert (Hold : lseg (heap s) (head (send_queues s' p)) (unlinked L d p)).
      { unfold unlinked. destruct (last (d p)) as [a|] eqn:Hlast.
        - destruct Hqueues as (m & Hm & ->).
          destruct (Hsel p Hp a Hlast) as (l1 & l2 & HLp & _).
          rewrite HLp in Hlp |- *.
          destruct (lseg_middle _ _ _ _ _ Hlp) as [Hnot (m0 & Hm0 & Hl2)].
          rewrite (after_middle a l1 l2 Hnot).
          assert (m0 = m) by congruence. subst m0. exact Hl2.
        - rewrite Hqueues. exact Hlp. }
      apply (lseg_ext (heap s)); [exact Hold|].
      intros x m Hx Hm. exists m. split; [|reflexivity].
      rewrite (Hkeep p x Hp Hx). exact Hm.
    + intros p p' a Hp Hp' Hne Ha Ha'.
      apply (Hdisj p p' a Hp Hp' Hne); apply Hsub; assumption.
Qed.

Lemma prefix_selects sm L p : (exists l, sm p ++ l = L p) -> selects L sm p.
Proof.
  intros [l Hl] a Hlast. apply last_Some in Hlast as [l1 Hl1].
  exists l1, l. split.
  - rewrite <- Hl, Hl1, <- app_assoc. reflexivity.
  - intros x Hx. rewrite <- Hl1. exact Hx.
Qed.

Lemma latest_selects sm d L p :
  (exists l, sm p ++ l = L p) -> latest sm d p -> selects L d p.
Proof.
  intros [l Hl] Hlat a Hlast. destruct (Hlat a Hlast) as (j & Hj & Hall).
  assert (HLj : L p !! j = Some a).
  { rewrite <- Hl. apply lookup_app_l_Some. exact Hj. }
  exists (take j (L p)), (drop (S j) (L p)). split.
  - symmetry. apply take_drop_middle. exact HLj.
  - intros x Hx. destruct (Hall x Hx) as (i & Hi & Hxi).
    assert (HLi : L p !! i = Some x).
    { rewrite <- Hl. apply lookup_app_l_Some. exact Hxi. }
    rewrite <- (take_S_r _ _ _ HLj).
    apply (list_elem_of_lookup_2 _ i). rewrite lookup_take_lt by lia. exact HLi.
Qed.

Lemma state_wf_stats c s st : state_wf c s -> state_wf c (set_stats s st).
Proof. intros H. exact H. Qed.

(** One call of [deal_write_event] keeps the queues well-formed. *)
Lemma deal_write_event_wf c now write_bytes errno s ret s' :
  state_wf c s ->
  deal_write_event c now write_bytes errno s = Some (ret, s') ->
  state_wf c s'.
Proof.
  intros Hwf H. pose proof Hwf as (Hqi & Hmsg & L & HL & Hdisj).
  unfold deal_write_event in H.
  destruct (fetch c s) as [f|] eqn:Hf; simpl in H; [|discriminate].
  pose proof (fetch_inv_fetch c s f Hwf Hf) as (Hvec & Hbud & Halloc & Hdist & Hprio & Hfit & Hord).
  pose proof (fetch_prefix c s L f HL Hqi Hf) as Hpre.
  destruct (vec_count f =? 0); [injection H as <- <-; exact Hwf|].
  destruct (write_bytes =? 0); [injection H as <- <-; exact Hwf|].
  destruct (Z.ltb_spec write_bytes 0) as [Hneg|Hpos].
  { destruct ((errno =? EAGAIN) || (errno =? EWOULDBLOCK));
      [injection H as <- <-; exact Hwf|].
    destruct (errno =? EINTR); injection H as <- <-; exact Hwf. }
  destruct ((write_bytes =? total_bytes f) && last_msg_complete f).
  - apply (finish_wf c _ _ _ _ _ _ _ L H); simpl; auto.
    + unfold PRIORITY_COUNT. lia.
    + intros p Hp. apply prefix_selects, Hpre, Hp.
  - destruct (walk c f (write_vec f) 0 write_bytes _ _ 0) as [[[[h dm] td] vi]|] eqn:Hw;
      simpl in H; [|discriminate].
    match type of H with (?x ≫= _) = _ => destruct x as [e|] eqn:He end;
      simpl in H; [|discriminate].
    assert (Hpos_all : Forall (fun e => 0 < iov_len e) (write_vec f)).
    { eapply Forall_impl; [exact Hvec|]. intros ? [? _]. assumption. }
    destruct (walk_spec c f _ _ _ _ _ _ _ _ _ _ Hw) as (Hstep & Hnone & _);
      [lia | exact Hpos_all | exact Hbud|].
    destruct (walk_wf c f _ _ _ _ _ _ _ _ _ _ Hw) as (Hwf' & Hlatest);
      [lia | exact Hord | exact Hfit | intros p x Hin; inversion Hin
       | intros p a Hlast; discriminate |].
    simpl in Hstep, Hnone.
    assert (He_prio : 0 <= ix_priority e < PRIORITY_COUNT).
    { assert (Hin : e ∈ write_vec f).
      { destruct (Z.of_nat vi <? vec_count f); eapply list_elem_of_lookup_2; exact He. }
      eapply Forall_forall in Hprio; [exact Hprio | exact Hin]. }
    assert (HL' : forall p, 0 <= p < PRIORITY_COUNT ->
              lseg h (head (send_queues s p)) (L p)).
    { intros p Hp. apply (lseg_ext (heap s)); [apply HL, Hp|].
      intros x m _ Hm. destruct (Hstep x m Hm) as (m' & Hm' & _ & Hn & _). eauto. }
    destruct (td =? 0).
    + injection H as _ <-. split; [exact He_prio|]. split; [exact Hwf'|].
      exists L. split; [exact HL' | exact Hdisj].
    + apply (finish_wf c _ _ _ _ _ _ _ L H); simpl; auto.
      intros p Hp. apply (latest_selects (send_msgs f)); [apply Hpre, Hp | apply Hlatest].
Qed.

(** *** Any number of calls *)

Lemma msg_step_trans c m1 m2 m3 : msg_step c m1 m2 -> msg_step c m2 m3 -> msg_step c m1 m3.
Proof.
  unfold msg_step, msg_total. intros (H1 & H2 & H3) (H4 & H5 & H6).
  rewrite H4, H1 in *. repeat split; try congruence; lia.
Qed.

Lemma deal_write_event_none c now write_bytes errno s ret s' :
  state_wf c s ->
  deal_write_event c now write_bytes errno s = Some (ret, s') ->
  forall a, heap s !! a = None -> heap s' !! a = None.
Proof.
  intros Hwf H a Ha.
  destruct (deal_write_event_accounting c now write_bytes errno s ret s' Hwf H)
    as (f & rel & _ & _ & _ & Hrel).
  destruct (heap s' !! a) as [m'|] eqn:Hs'; [|reflexivity]. exfalso.
  unfold deal_write_event in H.
  destruct (fetch c s) as [f0|] eqn:Hf; simpl in H; [|discriminate].
  pose proof (fetch_inv_fetch c s f0 Hwf Hf) as (Hvec & Hbud & _).
  destruct (vec_count f0 =? 0); [injection H as <- <-; simpl in Hs'; congruence|].
  destruct (write_bytes =? 0); [injection H as <- <-; simpl in Hs'; congruence|].
  destruct (Z.ltb_spec write_bytes 0) as [?|Hpos].
  { destruct ((errno =? EAGAIN) || (errno =? EWOULDBLOCK));
      [injection H as <- <-; simpl in Hs'; congruence|].
    destruct (errno =? EINTR); injection H as <- <-; simpl in Hs'; congruence. }
  destruct ((write_bytes =? total_bytes f0) && last_msg_complete f0).
  - destruct (finish_spec _ _ _ _ _ _ _ H) as (rel' & _ & _ & Hheap). simpl in Hheap.
    destruct (Hheap a) as [Hk|[Hn _]]; congruence.
  - destruct (walk c f0 (write_vec f0) 0 write_bytes _ _ 0) as [[[[h dm] td] vi]|] eqn:Hw;
      simpl in H; [|discriminate].
    match type of H with (?x ≫= _) = _ => destruct x as [e|] end; simpl in H; [|discriminate].
    destruct (walk_spec c f0 _ _ _ _ _ _ _ _ _ _ Hw) as (_ & Hnone & _); [lia | | exact Hbud |].
    { eapply Forall_impl; [exact Hvec|]. intros ? [? _]. assumption. }
    simpl in Hnone. specialize (Hnone a Ha).
    destruct (td =? 0).
    + injection H as _ <-. simpl in Hs'. congruence.
    + destruct (finish_spec _ _ _ _ _ _ _ H) as (rel' & _ & _ & Hheap). simpl in Hheap.
      destruct (Hheap a) as [Hk|[Hn _]]; congruence.
Qed.

(** X14.  Any number of calls of [deal_write_event], whatever [writev]
    answers each time: every call returns, the queues stay well-formed,
    no message appears, and every message either is still allocated, with
    the same header and a [bytes_sent] that did not decrease and is
    within the frame, or was released in that condition. *)
Lemma run_bytes_sent c :
  1 <= WRITEV_ITEM_ONCE c ->
  forall calls s,
    state_wf c s ->
    exists s' rel,
      run c calls s = Some s' /\
      state_wf c s' /\
      released s' = released s ++ rel /\
      (forall a, heap s !! a = None -> heap s' !! a = None) /\
      (forall a m, heap s !! a = Some m ->
         (exists m', heap s' !! a = Some m' /\ msg_step c m m') \/
         (heap s' !! a = None /\ exists m', (a, m') ∈ rel /\ msg_step c m m')).
Proof.
  intros Hitem. induction calls as [|[[now wb] errno] calls IH]; intros s Hwf.
  - exists s, []. rewrite app_nil_r. simpl.
    split; [reflexivity|]. split; [exact Hwf|]. split; [reflexivity|]. split; [auto|].
    intros a m Ha. left. exists m. split; [exact Ha|].
    apply msg_step_refl. destruct Hwf as (_ & Hmsg & _). apply (Hmsg a m Ha).
  - destruct (deal_write_event_total c now wb errno s Hwf Hitem) as (ret & s1 & H1).
    pose proof (deal_write_event_wf c now wb errno s ret s1 Hwf H1) as Hwf1.
    pose proof (deal_write_event_none c now wb errno s ret s1 Hwf H1) as Hnone1.
    destruct (deal_write_event_accounting c now wb errno s ret s1 Hwf H1)
      as (f & rel1 & _ & Hrel1 & Hkeep1 & Hgone1).
    destruct (IH s1 Hwf1) as (s' & rel2 & Hrun & Hwf' & Hrel2 & Hnone2 & Hkeep2).
    exists s', (rel1 ++ rel2).
    split; [simpl; rewrite H1; exact Hrun|].
    split; [exact Hwf'|].
    split; [rewrite Hrel2, Hrel1, <- app_assoc; reflexivity|].
    split; [intros a Ha; apply Hnone2, Hnone1, Ha|].
    intros a m Ha. destruct (Hkeep1 a m Ha) as [(m1 & Hm1 & Hst1)|[Hn1 (m1 & Hr1)]].
    + destruct (Hkeep2 a m1 Hm1) as [(m2 & Hm2 & Hst2)|[Hn2 (m2 & Hr2 & Hst2)]].
      * left. exists m2. split; [exact Hm2 | eapply msg_step_trans; eassumption].
      * right. split; [exact Hn2|]. exists m2.
        split; [apply elem_of_app; right; exact Hr2 | eapply msg_step_trans; eassumption].
    + right. split; [apply Hnone2, Hn1|]. exists m1.
      split; [apply elem_of_app; left; exact Hr1|].
      destruct (Hgone1 a m1 Hr1) as (m0 & Hm0 & Hst & _).
      assert (m0 = m) by congruence. subst m0. exact Hst.
Qed.

(** *** The statements of C4 and C2 *)

Lemma sample_one_wf : forall c bs, MSG_HEADER_LENGTH c = 32 -> 0 <= bs <= 32 ->
  state_wf c
    (mkState {[ 1%positive := mkOutMessage (sample_header 0) DATA_TYPE_BUFFER [] bs 0 None ]}
       5 0 0
       (fun p => if p =? 0 then mkQueue (Some 1%positive) (Some 1%positive) else no_queue)
       zero_stats []).
Proof.
  intros c bs Hc Hbs. split; [unfold PRIORITY_COUNT; simpl; lia|]. split.
  - intros a m Ha. simpl in Ha. apply lookup_singleton_Some in Ha.
    destruct Ha as [_ Hm]. subst m.
    unfold msg_wf, msg_total. rewrite Hc.
    split; [change (0 <= bs <= 32 + 0); lia|].
    split; [vm_compute; split; discriminate | discriminate].
  - exists (fun p => if p =? 0 then [1%positive] else []). split.
    + intros p _. simpl. destruct (p =? 0); simpl.
      * econstructor; [reflexivity|]. constructor.
      * constructor.
    + intros p p' a _ _ Hne Hin Hin'.
      destruct (Z.eqb_spec p 0) as [->|?]; [|inversion Hin].
      destruct (Z.eqb_spec p' 0) as [->|?]; [congruence | inversion Hin'].
Qed.

(** *** What a call does, exactly *)

Lemma written_bounds sm a vec :
  Forall (fun e => 0 < iov_len e) vec ->
  forall n, 0 <= n -> 0 <= written sm a vec n <= refs sm a vec.
Proof.
  induction 1 as [|e r He Hr IH]; intros n Hn; simpl; [lia|].
  pose proof (refs_nonneg sm a r Hr) as Hnn.
  destruct (Z.geb_spec (n - iov_len e) 0) as [Hcov|Hpart].
  - specialize (IH (n - iov_len e) Hcov). destruct (decide _); lia.
  - destruct (decide _); lia.
Qed.

(** What the walk does, exactly. *)
Lemma walk_exact c f vec :
  forall vi rem h done td h' done' td' vi',
    walk c f vec vi rem h done td = Some (h', done', td', vi') ->
    0 <= rem ->
    Forall (fun e => 0 < iov_len e) vec ->
    budget c (send_msgs f) h vec ->
    (forall a m, h !! a = Some m ->
       exists m', h' !! a = Some m' /\
         bytes_sent m' = bytes_sent m + written (send_msgs f) a vec rem) /\
    (forall p a, a ∈ done' p ->
       a ∈ done p \/
       ((exists e, e ∈ vec /\ ix_priority e = p) /\
        exists m', h' !! a = Some m' /\ 0 < written (send_msgs f) a vec rem /\
          bytes_sent m' = msg_total c m')) /\
    (forall p a, a ∈ done p -> a ∈ done' p) /\
    (forall a m', h' !! a = Some m' -> 0 < written (send_msgs f) a vec rem ->
       bytes_sent m' = msg_total c m' -> exists p, a ∈ done' p) /\
    td <= td' /\ (td' = td -> forall p, done' p = done p).
Proof.
  induction vec as [|e rest IH]; intros vi rem h done td h' done' td' vi' Hw Hrem Hpos Hbud.
  - simpl in Hw. injection Hw as <- <- <- <-.
    split; [intros a m Ha; exists m; split; [exact Ha | simpl; lia]|].
    split; [auto|]. split; [auto|].
    split; [intros a m' _ Hlt; simpl in Hlt; lia|]. split; [lia | auto].
  - simpl in Hw.
    destruct (send_msgs f (ix_priority e) !! ix_index e) as [a0|] eqn:Hslot;
      simpl in Hw; [|discriminate].
    destruct (h !! a0) as [msg|] eqn:Hmsg; simpl in Hw; [|discriminate].
    apply Forall_cons in Hpos as [Hpos_e Hpos_rest].
    pose proof (refs_nonneg (send_msgs f) a0 rest Hpos_rest) as Hnn.
    assert (Hbud_a : bytes_sent msg + iov_len e + refs (send_msgs f) a0 rest
                     <= msg_total c msg).
    { specialize (Hbud a0 msg Hmsg). simpl in Hbud.
      destruct (decide _) as [_|Hne]; [lia | congruence]. }
    cbn [written]. rewrite Hslot.
    destruct (Z.geb_spec (rem - iov_len e) 0) as [Hcov|Hpart].
    + set (msg' := advance e msg (iov_len e)) in *.
      assert (Hbud' : budget c (send_msgs f) (<[a0 := msg']> h) rest).
      { intros a' m' Ha'. destruct (decide (a' = a0)) as [->|Hne].
        - rewrite lookup_insert_eq in Ha'. injection Ha' as <-.
          unfold msg', msg_total. simpl. unfold msg_total in Hbud_a. lia.
        - rewrite lookup_insert_ne in Ha' by congruence.
          specialize (Hbud a' m' Ha'). simpl in Hbud.
          destruct (decide _) as [Heq|_]; [congruence | lia]. }
      assert (Hown : forall a, (if decide (Some a0 = Some a) then iov_len e else 0)
                               = (if decide (a = a0) then iov_len e else 0)).
      { intros a. destruct (decide (Some a0 = Some a)), (decide (a = a0)); congruence. }
      assert (Hgen : forall dn tdn,
        walk c f rest (S vi) (rem - iov_len e) (<[a0 := msg']> h) dn tdn
          = Some (h', done', td', vi') ->
        (forall a m, h !! a = Some m ->
           exists m', h' !! a = Some m' /\
             bytes_sent m' = bytes_sent m +
               ((if decide (Some a0 = Some a) then iov_len e else 0)
                + written (send_msgs f) a rest (rem - iov_len e))) /\
        (forall p a, a ∈ done' p ->
           a ∈ dn p \/
           ((exists e0, e0 ∈ rest /\ ix_priority e0 = p) /\
            exists m', h' !! a = Some m' /\
              0 < written (send_msgs f) a rest (rem - iov_len e) /\
              bytes_sent m' = msg_total c m')) /\
        (forall p a, a ∈ dn p -> a ∈ done' p) /\
        (forall a m', h' !! a = Some m' ->
           0 < written (send_msgs f) a rest (rem - iov_len e) ->
           bytes_sent m' = msg_total c m' -> exists p, a ∈ done' p) /\
        tdn <= td' /\ (td' = tdn -> forall p, done' p = dn p)).
      { intros dn tdn Hw'.
        destruct (IH _ _ _ _ _ _ _ _ _ Hw' Hcov Hpos_rest Hbud')
          as (H1 & H2 & H3 & H4 & H5 & H6).
        split; [|auto 10].
        intros a m Ha. rewrite Hown. destruct (decide (a = a0)) as [->|Hne].
        - assert (m = msg) by congruence. subst m.
          destruct (H1 a0 msg') as (m'' & Hm'' & Hb); [apply lookup_insert_eq|].
          exists m''. split; [exact Hm''|]. rewrite Hb. unfold msg'. simpl. lia.
        - destruct (H1 a m) as (m'' & Hm'' & Hb);
            [rewrite lookup_insert_ne by congruence; exact Ha|].
          exists m''. split; [exact Hm''|]. lia. }
      assert (Hfinal : exists m'', h' !! a0 = Some m'' /\
                bytes_sent m'' = bytes_sent msg + iov_len e
                                 + written (send_msgs f) a0 rest (rem - iov_len e) /\
                msg_total c m'' = msg_total c msg).
      { assert (Hex : exists dn tdn,
          walk c f rest (S vi) (rem - iov_len e) (<[a0 := msg']> h) dn tdn
            = Some (h', done', td', vi')).
        { match type of Hw with (if ?b then _ else _) = _ => destruct b end;
            eexists _, _; exact Hw. }
        destruct Hex as (dn & tdn & Hw').
        destruct (walk_spec c f _ _ _ _ _ _ _ _ _ _ Hw' Hcov Hpos_rest Hbud')
          as (S1 & _ & _).
        destruct (S1 a0 msg') as (m'' & Hm'' & Hh & _ & _); [apply lookup_insert_eq|].
        destruct (Hgen dn tdn Hw') as (H1 & _).
        destruct (H1 a0 msg Hmsg) as (m3 & Hm3 & Hb3).
        assert (m3 = m'') by congruence. subst m3.
        exists m''. split; [exact Hm''|]. split.
        - rewrite Hb3. destruct (decide (Some a0 = Some a0)); [lia | congruence].
        - unfold msg_total. rewrite Hh. reflexivity. }
      destruct Hfinal as (mf & Hmf & Hbf & Htf).
      pose proof (written_bounds (send_msgs f) a0 rest Hpos_rest (rem - iov_len e) Hcov)
        as Hwb.
      match type of Hw with (if ?b then _ else _) = _ => destruct b eqn:Hdone end.
      * apply Z.geb_le in Hdone.
        change (bytes_sent msg') with (bytes_sent msg + iov_len e) in Hdone.
        change (msg_total c msg') with (msg_total c msg) in Hdone.
        destruct (Hgen _ _ Hw) as (H1 & H2 & H3 & H4 & H5 & H6).
        split; [exact H1|]. split; [|split; [|split; [|split]]].
        -- intros p a Hin. destruct (H2 p a Hin) as [Hd|((e0 & He0 & Hp0) & m' & Hm' & Hlt & Hb)].
           ++ destruct (Z.eqb_spec p (ix_priority e)) as [Ep|Ep]; [|left; exact Hd].
              apply elem_of_app in Hd as [Hd|Hd]; [left; exact Hd|].
              apply list_elem_of_singleton in Hd. subst a0. right.
              split; [exists e; split; [left | congruence]|].
              exists mf. split; [exact Hmf|].
              destruct (decide (Some a = Some a)); [|congruence]. split; lia.
           ++ right. split; [exists e0; split; [right; exact He0 | exact Hp0]|].
              exists m'. split; [exact Hm'|]. split; [|exact Hb].
              destruct (decide _); lia.
        -- intros p a Hin. apply H3.
           destruct (p =? ix_priority e); [apply elem_of_app; left|]; exact Hin.
        -- intros a m' Hm' Hlt Hb. destruct (decide (Some a0 = Some a)) as [E|E].
           ++ injection E as <-. exists (ix_priority e). apply H3.
              rewrite Z.eqb_refl. apply elem_of_app. right. left.
           ++ apply (H4 a m' Hm'); [lia | exact Hb].
        -- lia.
        -- intros E. lia.
      * rewrite Z.geb_leb in Hdone. apply Z.leb_gt in Hdone.
        change (bytes_sent msg') with (bytes_sent msg + iov_len e) in Hdone.
        change (msg_total c msg') with (msg_total c msg) in Hdone.
        destruct (Hgen _ _ Hw) as (H1 & H2 & H3 & H4 & H5 & H6).
        split; [exact H1|]. split; [|split; [|split; [|split]]].
        -- intros p a Hin. destruct (H2 p a Hin) as [Hd|((e0 & He0 & Hp0) & m' & Hm' & Hlt & Hb)];
             [left; exact Hd|].
           right. split; [exists e0; split; [right; exact He0 | exact Hp0]|].
           exists m'. split; [exact Hm'|]. split; [|exact Hb]. destruct (decide _); lia.
        -- exact H3.
        -- intros a m' Hm' Hlt Hb. destruct (decide (Some a0 = Some a)) as [E|E].
           ++ injection E as <-. assert (m' = mf) by congruence. subst m'.
              apply (H4 a0 mf Hmf); [lia | exact Hb].
           ++ apply (H4 a m' Hm'); [lia | exact Hb].
        -- exact H5.
        -- exact H6.
    + injection Hw as <- <- <- <-.
      split; [|split; [|split; [|split; [|split]]]].
      * intros a m Ha. destruct (decide (Some a0 = Some a)) as [E|E].
        -- injection E as <-. assert (m = msg) by congruence. subst m.
           eexists. split; [apply lookup_insert_eq|]. simpl. lia.
        -- exists m. split; [rewrite lookup_insert_ne by congruence; exact Ha | lia].
      * auto.
      * auto.
      * intros a m' Hm' Hlt Hb. exfalso.
        destruct (decide (Some a0 = Some a)) as [E|E]; [|lia].
        injection E as <-. rewrite lookup_insert_eq in Hm'. injection Hm' as <-.
        unfold msg_total in *. simpl in Hb. lia.
      * lia.
      * auto.
Qed.

(** What [finish] releases, exactly: the messages of [d]. *)
Lemma finish_exact now s d td r ret s' :
  finish now s d td r = Some (ret, s') ->
  exists rel,
    released s' = released s ++ rel /\
    (forall a m, (a, m) ∈ rel ->
       (exists p, 0 <= p < PRIORITY_COUNT /\ a ∈ d p) /\ heap s !! a = Some m) /\
    (forall a, (exists p, 0 <= p < PRIORITY_COUNT /\ a ∈ d p) ->
       heap s' !! a = None /\ exists m, (a, m) ∈ rel) /\
    (forall a, ~ (exists p, 0 <= p < PRIORITY_COUNT /\ a ∈ d p) ->
       heap s' !! a = heap s !! a).
Proof.
  unfold finish. intros H.
  destruct (unlink_done _ d 0) as [s1|] eqn:H1; simpl in H; [|discriminate].
  destruct (unlink_done s1 d 1) as [s2|] eqn:H2; simpl in H; [|discriminate].
  destruct (unlink_done s2 d 2) as [s3|] eqn:H3; simpl in H; [|discriminate].
  destruct (release_done now s3 (d 0)) as [s4|] eqn:H4; simpl in H; [|discriminate].
  destruct (release_done now s4 (d 1)) as [s5|] eqn:H5; simpl in H; [|discriminate].
  destruct (release_done now s5 (d 2)) as [s6|] eqn:H6; simpl in H; [|discriminate].
  injection H as _ <-.
  apply unlink_done_frame in H1 as [Hh1 Hr1]. simpl in Hh1, Hr1.
  apply unlink_done_frame in H2 as [Hh2 Hr2].
  apply unlink_done_frame in H3 as [Hh3 Hr3].
  assert (Hh : heap s3 = heap s) by congruence.
  assert (Hr : released s3 = released s) by congruence.
  destruct (release_done_spec _ _ _ _ H4) as (r4 & Hrel4 & Hin4 & Hgone4 & Hkeep4).
  destruct (release_done_spec _ _ _ _ H5) as (r5 & Hrel5 & Hin5 & Hgone5 & Hkeep5).
  destruct (release_done_spec _ _ _ _ H6) as (r6 & Hrel6 & Hin6 & Hgone6 & Hkeep6).
  rewrite Hh in *. rewrite Hr in *.
  assert (Hmono5 : forall a, heap s4 !! a = None -> heap s5 !! a = None).
  { intros a Hn. destruct (decide (a ∈ d 1)) as [Hl|Hl];
      [apply Hgone5, Hl | rewrite (Hkeep5 a Hl); exact Hn]. }
  assert (Hmono6 : forall a, heap s5 !! a = None -> heap s6 !! a = None).
  { intros a Hn. destruct (decide (a ∈ d 2)) as [Hl|Hl];
      [apply Hgone6, Hl | rewrite (Hkeep6 a Hl); exact Hn]. }
  assert (Hsome5 : forall a m, heap s4 !! a = Some m -> heap s !! a = Some m).
  { intros a m Hm. destruct (decide (a ∈ d 0)) as [Hl|Hl].
    - destruct (Hgone4 a Hl) as [Hn _]. congruence.
    - rewrite <- (Hkeep4 a Hl). exact Hm. }
  assert (Hsome6 : forall a m, heap s5 !! a = Some m -> heap s !! a = Some m).
  { intros a m Hm. apply Hsome5. destruct (decide (a ∈ d 1)) as [Hl|Hl].
    - destruct (Hgone5 a Hl) as [Hn _]. congruence.
    - rewrite <- (Hkeep5 a Hl). exact Hm. }
  assert (Hcases : forall a,
    (a ∈ d 0 /\ heap s6 !! a = None /\ exists m, (a, m) ∈ r4 ++ r5 ++ r6) \/
    (a ∈ d 1 /\ heap s6 !! a = None /\ exists m, (a, m) ∈ r4 ++ r5 ++ r6) \/
    (a ∈ d 2 /\ heap s6 !! a = None /\ exists m, (a, m) ∈ r4 ++ r5 ++ r6) \/
    ((a ∉ d 0) /\ (a ∉ d 1) /\ (a ∉ d 2) /\ heap s6 !! a = heap s !! a)).
  { intros a.
    destruct (decide (a ∈ d 0)) as [Hl0|Hl0].
    { left. destruct (Hgone4 a Hl0) as [Hn (m & Hm)].
      split; [exact Hl0|]. split; [apply Hmono6, Hmono5, Hn|].
      exists m. apply elem_of_app. left. exact Hm. }
    destruct (decide (a ∈ d 1)) as [Hl1|Hl1].
    { right. left. destruct (Hgone5 a Hl1) as [Hn (m & Hm)].
      split; [exact Hl1|]. split; [apply Hmono6, Hn|]. exists m.
      apply elem_of_app. right. apply elem_of_app. left. exact Hm. }
    destruct (decide (a ∈ d 2)) as [Hl2|Hl2].
    { right. right. left. destruct (Hgone6 a Hl2) as [Hn (m & Hm)].
      split; [exact Hl2|]. split; [exact Hn|]. exists m.
      apply elem_of_app. right. apply elem_of_app. right. exact Hm. }
    right. right. right. repeat split; try assumption.
    rewrite (Hkeep6 a Hl2), (Hkeep5 a Hl1), (Hkeep4 a Hl0). reflexivity. }
  exists (r4 ++ r5 ++ r6).
  split; [rewrite Hrel6, Hrel5, Hrel4, <- !app_assoc; reflexivity|].
  split; [|split].
  - intros a m Hin. apply elem_of_app in Hin as [Hin|Hin];
      [|apply elem_of_app in Hin as [Hin|Hin]].
    + destruct (Hin4 a m Hin). split; [exists 0; split; [unfold PRIORITY_COUNT; lia|]|]; auto.
    + destruct (Hin5 a m Hin). split; [exists 1; split; [unfold PRIORITY_COUNT; lia|]|]; auto.
    + destruct (Hin6 a m Hin). split; [exists 2; split; [unfold PRIORITY_COUNT; lia|]|]; auto.
  - intros a (p & Hp & Hin).
    destruct (Hcases a) as [(_ & Hn & Hm)|[(_ & Hn & Hm)|[(_ & Hn & Hm)|(N0 & N1 & N2 & _)]]];
      auto.
    exfalso. unfold PRIORITY_COUNT in Hp.
    assert (p = 0 \/ p = 1 \/ p = 2) as [-> | [-> | ->]] by lia; contradiction.
  - intros a Hnot.
    destruct (Hcases a) as [(Hl & _)|[(Hl & _)|[(Hl & _)|(_ & _ & _ & Hk)]]];
      [exfalso; apply Hnot; eexists; split; [|exact Hl]; unfold PRIORITY_COUNT; lia.. | exact Hk].
Qed.

Lemma vec_count_zero f : (vec_count f =? 0) = true <-> write_vec f = [].
Proof.
  unfold vec_count. rewrite Z.eqb_eq. destruct (write_vec f); simpl; split; intros; try lia;
    congruence.
Qed.

(** What one call that returns does, path by path. *)
Lemma deal_write_event_exact c now write_bytes errno s ret s' f rel :
  state_wf c s ->
  deal_write_event c now write_bytes errno s = Some (ret, s') ->
  fetch c s = Some f ->
  released s' = released s ++ rel ->
  (write_vec f = [] \/ write_bytes <= 0 -> heap s' = heap s /\ rel = []) /\
  (write_vec f <> [] -> 0 < write_bytes ->
   write_bytes = total_bytes f -> last_msg_complete f = true ->
   forall a,
     (in_batch f a ->
      exists m, heap s !! a = Some m /\ heap s' !! a = None /\ (a, m) ∈ rel) /\
     (~ in_batch f a -> heap s' !! a = heap s !! a)) /\
  (write_vec f <> [] -> 0 < write_bytes ->
   ~ (write_bytes = total_bytes f /\ last_msg_complete f = true) ->
   forall a m, heap s !! a = Some m ->
     exists m', left_as s' rel a m' /\
       bytes_sent m' = bytes_sent m + written (send_msgs f) a (write_vec f) write_bytes /\
       (heap s' !! a = None <->
        0 < written (send_msgs f) a (write_vec f) write_bytes /\
        bytes_sent m' = msg_total c m')).
Proof.
  intros Hwf H Hf Hrel. pose proof Hwf as (_ & Hmsg & _).
  unfold deal_write_event in H. rewrite Hf in H. cbn [mbind option_bind] in H.
  pose proof (fetch_inv_fetch c s f Hwf Hf) as (Hvec & Hbud & Halloc & Hdist & Hprio & _).
  assert (Hsame : forall s0, heap s0 = heap s -> released s0 = released s -> s' = s0 ->
            heap s' = heap s /\ rel = []).
  { intros s0 Hh Hr ->. split; [exact Hh|]. rewrite Hr in Hrel.
    rewrite <- (app_nil_r (released s)) in Hrel at 1.
    apply app_inv_head in Hrel. congruence. }
  destruct (vec_count f =? 0) eqn:Hvc.
  { apply vec_count_zero in Hvc. injection H as <- <-.
    split; [intros _; apply (Hsame s); reflexivity|].
    split; intros Hne; contradiction. }
  assert (Hne : write_vec f <> []).
  { intros E. apply vec_count_zero in E. congruence. }
  destruct (Z.eqb_spec write_bytes 0) as [Hz|Hnz].
  { injection H as <- <-.
    split; [intros _; apply (Hsame (set_stats s (count_writev (total_msg_count f) (stats s))));
            reflexivity|].
    split; intros _ Hpos; lia. }
  destruct (Z.ltb_spec write_bytes 0) as [Hneg|Hpos].
  { split.
    - intros _.
      destruct ((errno =? EAGAIN) || (errno =? EWOULDBLOCK));
        [injection H as <- <-;
         apply (Hsame (set_stats s (count_writev (total_msg_count f) (stats s)))); reflexivity|].
      destruct (errno =? EINTR); injection H as <- <-;
        apply (Hsame (set_stats s (count_writev (total_msg_count f) (stats s)))); reflexivity.
    - split; intros _ Hp; lia. }
  split; [intros [E|E]; [contradiction | lia]|].
  destruct ((write_bytes =? total_bytes f) && last_msg_complete f) eqn:Hall.
  - apply andb_true_iff in Hall as [Hwb Hcomplete]. apply Z.eqb_eq in Hwb.
    split; [|intros _ _ Hnot; exfalso; apply Hnot; auto].
    intros _ _ _ _ a.
    destruct (finish_exact _ _ _ _ _ _ _ H) as (rel' & Hrel' & Hin & Hgone & Hkeep).
    cbn [heap released set_queue_index set_stats] in Hrel', Hin, Hgone, Hkeep.
    assert (rel' = rel) by (rewrite Hrel in Hrel'; apply app_inv_head in Hrel'; congruence).
    subst rel'. split.
    + intros Hb. destruct (Hgone a Hb) as [Hn (m & Hm)].
      exists m. destruct (Hin a m Hm) as [_ Ha]. auto.
    + intros Hb. apply Hkeep. exact Hb.
  - split.
    { intros _ _ Hwb Hc. rewrite Hwb, Z.eqb_refl, Hc in Hall. discriminate. }
    intros _ _ _ a m Ha.
    destruct (walk c f (write_vec f) 0 write_bytes _ _ 0) as [[[[h dm] td] vi]|] eqn:Hw;
      cbn [mbind option_bind] in H; [|discriminate].
    match type of H with (?x ≫= _) = _ => destruct x as [e|] end;
      cbn [mbind option_bind] in H; [|discriminate].
    assert (Hpos_all : Forall (fun e => 0 < iov_len e) (write_vec f)).
    { eapply Forall_impl; [exact Hvec|]. intros ? [? _]. assumption. }
    cbn [heap set_stats] in Hw.
    destruct (walk_exact c f _ _ _ _ _ _ _ _ _ _ Hw) as (E1 & E2 & _ & E4 & E5 & E6);
      [lia | exact Hpos_all | exact Hbud |].
    destruct (E1 a m Ha) as (m' & Hm' & Hb).
    exists m'.
    assert (Hdm : forall p x, x ∈ dm p -> 0 <= p < PRIORITY_COUNT).
    { intros p x Hx. destruct (E2 p x Hx) as [Hbad|((e0 & He0 & <-) & _)]; [inversion Hbad|].
      eapply Forall_forall in Hprio; [exact Hprio | exact He0]. }
    destruct (Z.eqb_spec td 0) as [Htd|Htd].
    + injection H as _ <-. cbn [heap set_queue_index set_heap].
      split; [left; exact Hm'|]. split; [exact Hb|].
      split; [intros Hn; congruence|].
      intros [Hlt Htot]. exfalso.
      destruct (E4 a m' Hm' Hlt Htot) as [p Hp].
      rewrite (E6 Htd p) in Hp. inversion Hp.
    + destruct (finish_exact _ _ _ _ _ _ _ H) as (rel' & Hrel' & Hin & Hgone & Hkeep).
      cbn [heap released set_queue_index set_heap set_stats] in Hrel', Hin, Hgone, Hkeep.
      assert (rel' = rel) by (rewrite Hrel in Hrel'; apply app_inv_head in Hrel'; congruence).
      subst rel'.
      assert (Hdec : (exists p, a ∈ dm p) \/ ~ (exists p, a ∈ dm p)).
      { destruct (decide (a ∈ dm 0)) as [?|N0]; [left; eauto|].
        destruct (decide (a ∈ dm 1)) as [?|N1]; [left; eauto|].
        destruct (decide (a ∈ dm 2)) as [?|N2]; [left; eauto|].
        right. intros (p & Hp). pose proof (Hdm p a Hp) as Hr. unfold PRIORITY_COUNT in Hr.
        assert (p = 0 \/ p = 1 \/ p = 2) as [-> | [-> | ->]] by lia; contradiction. }
      destruct Hdec as [(p & Hp)|Hnotin].
      * destruct (Hgone a) as [Hn (m1 & Hm1)]; [exists p; split; [eapply Hdm; exact Hp | exact Hp]|].
        destruct (Hin a m1 Hm1) as [_ Ha1].
        assert (m1 = m') by congruence. subst m1.
        split; [right; auto|]. split; [exact Hb|].
        split; [|intros _; exact Hn].
        intros _. destruct (E2 p a Hp) as [Hbad|(_ & m2 & Hm2 & Hlt & Htot)]; [inversion Hbad|].
        assert (m2 = m') by congruence. subst m2. auto.
      * assert (Hk : heap s' !! a = Some m').
        { rewrite Hkeep; [exact Hm'|]. intros (p & _ & Hp). apply Hnotin. eauto. }
        split; [left; exact Hk|]. split; [exact Hb|].
        split; [intros Hn; congruence|].
        intros [Hlt Htot]. exfalso. apply Hnotin. apply (E4 a m' Hm' Hlt Htot).
Qed.

(** C4, as the code has it.  One call of [deal_write_event] on well-formed
    queues returns, whatever [writev] answered, and leaves the queues
    well-formed, so that the same holds for the next call.  Every allocated
    message either stays allocated with the same header and a [bytes_sent]
    that did not decrease and does not exceed
    MSG_HEADER_LENGTH + aligned_data_len, or is released.  A released
    message was allocated, its [bytes_sent] did not decrease, and either it
    equals MSG_HEADER_LENGTH + aligned_data_len (the accounting walk
    released it) or [writev] wrote the whole batch with the last message
    complete, and the message was released as it was.  Path by path:
    when there is nothing to send or [writev] wrote nothing, no message
    changes and none is released; when [writev] wrote the whole batch and
    its last message was complete, every message of the batch is released
    as it was, without the walk, and the other messages stay as they
    were; otherwise the walk adds to the [bytes_sent] of every message
    the bytes that [writev] wrote of it, and releases the message exactly
    when bytes of it were written and [bytes_sent] has reached
    MSG_HEADER_LENGTH + aligned_data_len. *)
Theorem deal_write_event_bytes_sent c now write_bytes errno s :
  state_wf c s ->
  1 <= WRITEV_ITEM_ONCE c ->
  exists ret s' f rel,
    deal_write_event c now write_bytes errno s = Some (ret, s') /\
    state_wf c s' /\
    fetch c s = Some f /\
    released s' = released s ++ rel /\
    (forall a m, heap s !! a = Some m ->
       (exists m', heap s' !! a = Some m' /\ msg_step c m m') \/
       (heap s' !! a = None /\ exists m', (a, m') ∈ rel)) /\
    (forall a m', (a, m') ∈ rel ->
       exists m, heap s !! a = Some m /\ msg_step c m m' /\
         (bytes_sent m' = msg_total c m' \/
          (write_bytes = total_bytes f /\ last_msg_complete f = true /\ m' = m))) /\
    (write_vec f = [] \/ write_bytes <= 0 -> heap s' = heap s /\ rel = []) /\
    (write_vec f <> [] -> 0 < write_bytes ->
     write_bytes = total_bytes f -> last_msg_complete f = true ->
     forall a,
       (in_batch f a ->
        exists m, heap s !! a = Some m /\ heap s' !! a = None /\ (a, m) ∈ rel) /\
       (~ in_batch f a -> heap s' !! a = heap s !! a)) /\
    (write_vec f <> [] -> 0 < write_bytes ->
     ~ (write_bytes = total_bytes f /\ last_msg_complete f = true) ->
     forall a m, heap s !! a = Some m ->
       exists m', left_as s' rel a m' /\
         bytes_sent m' = bytes_sent m + written (send_msgs f) a (write_vec f) write_bytes /\
         (heap s' !! a = None <->
          0 < written (send_msgs f) a (write_vec f) write_bytes /\
          bytes_sent m' = msg_total c m')).
Proof.
  intros Hwf Hitem.
  destruct (deal_write_event_total c now write_bytes errno s Hwf Hitem) as (ret & s' & H).
  destruct (deal_write_event_accounting c now write_bytes errno s ret s' Hwf H)
    as (f & rel & Hf & Hrel & Hkept & Hgone).
  exists ret, s', f, rel. split; [exact H|].
  split; [exact (deal_write_event_wf c now write_bytes errno s ret s' Hwf H)|].
  split; [exact Hf|]. split; [exact Hrel|]. split; [exact Hkept|]. split; [exact Hgone|].
  exact (deal_write_event_exact c now write_bytes errno s ret s' f rel Hwf H Hf Hrel).
Qed.

(** C4, the claim as stated fails.  Call 1: [writev] takes one byte of the
    32-byte sample message, the accounting walk sets [bytes_sent = 1].
    Call 2: [writev] takes the other 31 bytes, the whole batch is written
    and the message is released without the walk, its [bytes_sent] still 1,
    not MSG_HEADER_LENGTH + aligned_data_len = 32. *)
Lemma released_with_stale_bytes_sent :
  exists s1 s2 m1 m2,
    deal_write_event sample_config 0 1 0 sample_one = Some (EAGAIN, s1) /\
    heap s1 !! 1%positive = Some m1 /\ bytes_sent m1 = 1 /\
    deal_write_event sample_config 0 31 0 s1 = Some (EAGAIN, s2) /\
    released s2 = [(1%positive, m2)] /\
    bytes_sent m2 = 1 /\
    msg_total sample_config m2 = 32 /\
    bytes_sent m2 <> msg_total sample_config m2.
Proof.
  eexists _, _, _, _.
  split; [vm_compute; reflexivity|].
  split; [vm_compute; reflexivity|].
  split; [reflexivity|].
  split; [vm_compute; reflexivity|].
  split; [vm_compute; reflexivity|].
  split; [reflexivity|].
  split; [reflexivity|].
  vm_compute. discriminate.
Qed.

(** The second call of the scenario above, through the theorem: the
    message of which one byte was sent before. *)
Lemma deal_write_event_bytes_sent_witness :
  exists ret s' f rel,
    deal_write_event sample_config 0 31 0 sample_half = Some (ret, s') /\
    state_wf sample_config s' /\
    fetch sample_config sample_half = Some f /\
    released s' = released sample_half ++ rel /\
    (forall a m, heap sample_half !! a = Some m ->
       (exists m', heap s' !! a = Some m' /\ msg_step sample_config m m') \/
       (heap s' !! a = None /\ exists m', (a, m') ∈ rel)) /\
    (forall a m', (a, m') ∈ rel ->
       exists m, heap sample_half !! a = Some m /\ msg_step sample_config m m' /\
         (bytes_sent m' = msg_total sample_config m' \/
          (31 = total_bytes f /\ last_msg_complete f = true /\ m' = m))) /\
    (write_vec f = [] \/ 31 <= 0 -> heap s' = heap sample_half /\ rel = []) /\
    (write_vec f <> [] -> 0 < 31 ->
     31 = total_bytes f -> last_msg_complete f = true ->
     forall a,
       (in_batch f a ->
        exists m, heap sample_half !! a = Some m /\ heap s' !! a = None /\ (a, m) ∈ rel) /\
       (~ in_batch f a -> heap s' !! a = heap sample_half !! a)) /\
    (write_vec f <> [] -> 0 < 31 ->
     ~ (31 = total_bytes f /\ last_msg_complete f = true) ->
     forall a m, heap sample_half !! a = Some m ->
       exists m', left_as s' rel a m' /\
         bytes_sent m' = bytes_sent m + written (send_msgs f) a (write_vec f) 31 /\
         (heap s' !! a = None <->
          0 < written (send_msgs f) a (write_vec f) 31 /\
          bytes_sent m' = msg_total sample_config m')).
Proof.
  apply (deal_write_event_bytes_sent sample_config 0 31 0 sample_half).
  - apply (sample_one_wf sample_config 1); [reflexivity | lia].
  - simpl. lia.
Defined.

(** C2, as the code has it.  On well-formed queues [deal_write_event]
    returns, and it returns 0 exactly when it assembled a batch and either
    [writev] failed with EINTR or [writev] wrote the whole batch while a stop
    condition had ended the fetch; every other return value is EAGAIN,
    ECONNRESET (nothing written) or the errno of the failed [writev] (EIO if
    that is 0). *)
Theorem deal_write_event_returns_zero_iff c now write_bytes errno s :
  state_wf c s ->
  1 <= WRITEV_ITEM_ONCE c ->
  exists f ret s',
    fetch c s = Some f /\
    deal_write_event c now write_bytes errno s = Some (ret, s') /\
    (ret = 0 <->
     write_vec f <> [] /\
     ((write_bytes < 0 /\ errno = EINTR) \/
      (0 < write_bytes /\ write_bytes = total_bytes f /\ fetch_done f = true))) /\
    (ret <> 0 ->
     ret = EAGAIN \/
     (write_bytes = 0 /\ ret = ECONNRESET) \/
     (write_bytes < 0 /\ ret = (if errno =? 0 then EIO else errno))).
Proof.
  intros Hwf Hitem.
  destruct (fetch_total c s Hwf Hitem) as [f Hf].
  destruct (deal_write_event_total c now write_bytes errno s Hwf Hitem) as (ret & s' & H).
  exists f, ret, s'. split; [exact Hf|]. split; [exact H|].
  exact (deal_write_event_result_cases c now write_bytes errno s f ret s' Hf H).
Qed.

(** One message a batch (WRITEV_ITEM_ONCE = 1): the 32 header bytes of the
    sample message are written at once and the function returns 0. *)
Lemma deal_write_event_returns_zero_iff_witness :
  exists f ret s',
    fetch (mkNioConfig 32 16 1 65536) sample_one = Some f /\
    deal_write_event (mkNioConfig 32 16 1 65536) 0 32 0 sample_one = Some (ret, s') /\
    ret = 0 /\
    (ret = 0 <->
     write_vec f <> [] /\
     ((32 < 0 /\ 0 = EINTR) \/
      (0 < 32 /\ 32 = total_bytes f /\ fetch_done f = true))).
Proof.
  destruct (deal_write_event_returns_zero_iff (mkNioConfig 32 16 1 65536) 0 32 0 sample_one)
    as (f & ret & s' & Hf & Hd & Hiff & _).
  - apply (sample_one_wf _ 0); [reflexivity | lia].
  - simpl. lia.
  - exists f, ret, s'. split; [exact Hf|]. split; [exact Hd|]. split; [|exact Hiff].
    vm_compute in Hd. congruence.
Defined.

(** The batch of [sample_one] within the arrays of [sample_config]. *)
Lemma fetch_bounds_witness :
  match fetch sample_config sample_one with
  | Some f => fetch_bounded sample_config f
  | None => False
  end.
Proof.
  destruct (fetch sample_config sample_one) as [f|] eqn:Hf.
  - apply (fetch_bounds sample_config sample_one f); [simpl; lia | simpl; lia | exact Hf].
  - vm_compute in Hf. discriminate.
Defined.

(** Three calls on [sample_one]: a short write, an interrupted one and one
    that [writev] refuses. *)
Lemma run_bytes_sent_witness :
  exists s' rel,
    run sample_config [(0, 1, 0); (1, -1, EINTR); (2, -1, EAGAIN)] sample_one = Some s' /\
    state_wf sample_config s' /\
    released s' = released sample_one ++ rel /\
    (forall a, heap sample_one !! a = None -> heap s' !! a = None) /\
    (forall a m, heap sample_one !! a = Some m ->
       (exists m', heap s' !! a = Some m' /\ msg_step sample_config m m') \/
       (heap s' !! a = None /\ exists m', (a, m') ∈ rel /\ msg_step sample_config m m')).
Proof.
  apply (run_bytes_sent sample_config).
  - simpl. lia.
  - apply (sample_one_wf sample_config 0); [reflexivity | lia].
Defined.

End AccountingFacts.

(** ** [deal_read_event]: frames that must fit one buffer *)
Module ReaderFacts.
Import Reader.

Lemma read_loop_S c peek fuel result w :
  read_loop c peek (S fuel) result w =
  (t ← read_turn c (peek (frame_no w)) result w;
   match t with
   | Again w' => read_loop c peek fuel result w'
   | _ => Some t
   end).
Proof. reflexivity. Qed.

(** One turn on a frame with [func_id < 0] that is too long for the
    buffer.  Once the header is complete, a wrong magic number or an
    aligned length above MAX_MSG_LENGTH ends the call with EINVAL or
    ENOSPC.  Otherwise the turn returns [result], and the reader is again
    on the first block of the same frame, with the same bytes of it. *)
Lemma read_turn_too_long c (h : WireHeader) result w :
  0 < MSG_HEADER_LENGTH c ->
  too_long c h ->
  on_first_block c w ->
  exists ret w',
    read_turn c h result w = Some (Return ret w') /\
    frame_no w' = frame_no w /\ delivered w' = delivered w /\
    match (if MSG_HEADER_LENGTH c <=? frame_bytes w then refusal c h else None) with
    | Some r => ret = r
    | None =>
      ret = result /\ on_first_block c w' /\ frame_bytes w' = frame_bytes w /\
      (frame_bytes w = read_buffer_size c -> read_request w' = 0)
    end.
Proof.
  intros Hh (Hneg & Hbig & Hdl) (Hbl & Hbuf & Hoff & Hcur & Hend).
  unfold read_turn, frame_bytes, refusal, bad_magic. rewrite Hbl.
  destruct (decide (p_buf (msg_header (reader w)) = buffer (reader w))) as [_|?];
    [|contradiction].
  cbn [mbind option_bind andb].
  set (msg_bytes := current (reader w) - p_off (msg_header (reader w))).
  assert (Hmb : 0 <= msg_bytes <= read_buffer_size c) by (unfold msg_bytes; lia).
  destruct (Z.ltb_spec msg_bytes (MSG_HEADER_LENGTH c)) as [Hshort|Hlong].
  - destruct (Z.leb_spec (MSG_HEADER_LENGTH c) msg_bytes) as [?|_]; [lia|].
    destruct (Z.ltb_spec (buff_end (reader w) - current (reader w)) (4 * 1024)).
    + destruct (Z.gtb_spec msg_bytes 0).
      * eexists _, _. split; [reflexivity|]. split; [reflexivity|]. split; [reflexivity|].
        split; [reflexivity|].
        unfold on_first_block, read_request. simpl. rewrite Hbl.
        fold msg_bytes. repeat split; try lia.
      * eexists _, _. split; [reflexivity|]. split; [reflexivity|]. split; [reflexivity|].
        split; [reflexivity|].
        unfold on_first_block, read_request. simpl. rewrite Hbl.
        repeat split; try lia.
    + eexists _, _. split; [reflexivity|]. split; [reflexivity|]. split; [reflexivity|].
      split; [reflexivity|].
      unfold on_first_block, read_request. fold msg_bytes.
      repeat split; auto; lia.
  - destruct (Z.leb_spec (MSG_HEADER_LENGTH c) msg_bytes) as [_|?]; [|lia].
    destruct (CHECK_MAGIC_NUMBER c && negb (magic h =? MAGIC_NUMBER c)).
    { eexists _, _. repeat split; reflexivity. }
    destruct (Z.gtb_spec (aligned_data_len h) (MAX_MSG_LENGTH c)) as [?|_].
    { eexists _, _. repeat split; reflexivity. }
    destruct (Z.ltb_spec (msg_bytes - MSG_HEADER_LENGTH c) (aligned_data_len h)) as [_|?];
      [|lia].
    destruct (Z.geb_spec (msg_bytes - MSG_HEADER_LENGTH c
                          + (buff_end (reader w) - current (reader w)))
                (aligned_data_len h)) as [?|_]; [unfold msg_bytes in *; lia|].
    destruct (Z.ltb_spec (func_id h) 0) as [_|?]; [|lia].
    cbn [negb]. eexists _, _. split; [reflexivity|]. split; [reflexivity|].
    split; [reflexivity|]. split; [reflexivity|].
    unfold on_first_block, read_request. simpl. rewrite Hbl. fold msg_bytes.
    repeat split; try lia.
Qed.

(** A read that brings bytes of such a frame. *)
Lemma deal_read_event_too_long c (peek : nat -> WireHeader) fuel read_bytes errno w :
  0 < MSG_HEADER_LENGTH c ->
  too_long c (peek (frame_no w)) ->
  on_first_block c w ->
  0 < read_bytes <= read_request w ->
  exists ret w',
    deal_read_event c peek (S fuel) read_bytes errno w = Some (Return ret w') /\
    frame_no w' = frame_no w /\ delivered w' = delivered w /\
    match (if MSG_HEADER_LENGTH c <=? frame_bytes w + read_bytes
           then refusal c (peek (frame_no w)) else None) with
    | Some r => ret = r
    | None =>
      (ret = 0 \/ ret = EAGAIN) /\ on_first_block c w' /\
      frame_bytes w' = frame_bytes w + read_bytes /\
      (frame_bytes w' = read_buffer_size c -> ret = 0 /\ read_request w' = 0)
    end.
Proof.
  intros Hh Hlong (Hbl & Hbuf & Hoff & Hcur & Hend) Hread.
  unfold read_request in Hread. unfold deal_read_event.
  destruct (Z.eqb_spec read_bytes 0) as [?|_]; [lia|].
  destruct (Z.ltb_spec read_bytes 0) as [?|_]; [lia|].
  rewrite read_loop_S. cbn [frame_no reader].
  match goal with
  | |- context [read_turn c _ ?res ?w1] =>
    destruct (read_turn_too_long c (peek (frame_no w)) res w1 Hh Hlong)
      as (ret & w' & Hturn & Hfn & Hdel & Hcase)
  end.
  { unfold on_first_block. simpl. repeat split; try assumption; lia. }
  rewrite Hturn. cbn [mbind option_bind].
  exists ret, w'. split; [reflexivity|]. split; [exact Hfn|]. split; [exact Hdel|].
  unfold frame_bytes in *. cbn [reader current msg_header] in Hcase.
  replace (current (reader w) + read_bytes - p_off (msg_header (reader w)))
    with (current (reader w) - p_off (msg_header (reader w)) + read_bytes) in Hcase by lia.
  destruct (if MSG_HEADER_LENGTH c <=? _ then _ else _) as [r|]; [exact Hcase|].
  destruct Hcase as (Hret & Hfirst & Hfb & Hfull).
  split.
  { rewrite Hret. match goal with |- context [if ?b then 0 else EAGAIN] => destruct b end; auto. }
  split; [exact Hfirst|]. split; [exact Hfb|].
  intros Hall. rewrite Hfb in Hall. split; [|apply Hfull; exact Hall].
  rewrite Hret.
  match goal with |- context [if ?b then 0 else EAGAIN] => destruct b eqn:Hb end;
    [reflexivity|].
  apply Z.eqb_neq in Hb. simpl in Hb. lia.
Qed.


(** X17.  Any read that brings bytes while a frame with [func_id < 0] is in
    progress that does not fit the buffer delivers nothing and stays with
    the frame.  In a build with CHECK_MAGIC_NUMBER a frame whose magic
    number is wrong is refused with EINVAL once its header is complete.
    For every other such frame the call returns 0 or EAGAIN and leaves the
    reader on the first block of the same frame, so the same holds for the
    next read: the frame is never delivered and never refused. *)
Lemma deal_read_event_oversized c (peek : nat -> WireHeader) fuel read_bytes errno w :
  0 < MSG_HEADER_LENGTH c ->
  oversized_negative c (peek (frame_no w)) ->
  on_first_block c w ->
  0 < read_bytes <= read_request w ->
  exists ret w',
    deal_read_event c peek (S fuel) read_bytes errno w = Some (Return ret w') /\
    frame_no w' = frame_no w /\ delivered w' = delivered w /\
    if bad_magic c (peek (frame_no w))
       && (MSG_HEADER_LENGTH c <=? frame_bytes w + read_bytes)
    then ret = EINVAL
    else (ret = 0 \/ ret = EAGAIN) /\ on_first_block c w'.
Proof.
  intros Hh (Hneg & Hbig & Hdl & Hmax) Hfirst Hread.
  destruct (deal_read_event_too_long c peek fuel read_bytes errno w Hh
              (conj Hneg (conj Hbig Hdl)) Hfirst Hread)
    as (ret & w' & Hcall & Hfn & Hdel & Hcase).
  exists ret, w'. split; [exact Hcall|]. split; [exact Hfn|]. split; [exact Hdel|].
  unfold refusal in Hcase.
  destruct (Z.gtb_spec (aligned_data_len (peek (frame_no w))) (MAX_MSG_LENGTH c)) as [?|_];
    [lia|].
  destruct (bad_magic c (peek (frame_no w)));
    destruct (MSG_HEADER_LENGTH c <=? frame_bytes w + read_bytes); cbn [andb];
    first [exact Hcase | destruct Hcase as (Hret & Hon & _); auto].
Qed.



(** A read of 100 bytes into a fresh reader while the stream starts with
    an oversized frame whose [func_id] is -1. *)
Lemma deal_read_event_oversized_witness :
  exists ret w',
    deal_read_event sample_config (fun _ : nat => sample_frame) 1 100 0
      (fresh_world sample_config)
    = Some (Return ret w') /\
    frame_no w' = 0%nat /\ delivered w' = [] /\
    (ret = 0 \/ ret = EAGAIN) /\ on_first_block sample_config w'.
Proof.
  apply (deal_read_event_oversized sample_config (fun _ : nat => sample_frame) 0 100 0
           (fresh_world sample_config)).
  - simpl. lia.
  - unfold oversized_negative. simpl. lia.
  - unfold on_first_block. simpl. repeat split; lia.
  - unfold read_request. simpl. lia.
Defined.

(** *** Every call returns *)

Lemma read_turn_total c (h : WireHeader) result w :
  0 < MSG_HEADER_LENGTH c ->
  0 <= aligned_data_len h ->
  reader_ok c h (reader w) ->
  exists t,
    read_turn c h result w = Some t /\
    match t with
    | Return ret w' =>
      frame_no w' = frame_no w /\ reader_ok c h (reader w') /\
      (ret = result \/ ret = ENOSPC \/ (ret = EINVAL /\ bad_magic c h = true))
    | Again w' =>
      frame_no w' = S (frame_no w) /\ (forall h', reader_ok c h' (reader w')) /\
      (frames_left (reader w') < frames_left (reader w))%nat /\
      current (reader w') = current (reader w) /\
      buff_end (reader w') = buff_end (reader w)
    | Aborted => current (reader w) = buff_end (reader w)
    end.
Proof.
  intros Hh Hal (Hcur & Hend & Hb).
  unfold read_turn, append_to_blocks, bad_magic.
  destruct (blocks (reader w)) as [|b bs] eqn:Hbl.
  - destruct Hb as [Hbuf Hoff].
    destruct (decide (p_buf (msg_header (reader w)) = buffer (reader w))) as [_|?];
      [|contradiction].
    cbn [mbind option_bind andb].
    destruct (CHECK_MAGIC_NUMBER c && negb (magic h =? MAGIC_NUMBER c)) eqn:Hmagic;
      repeat match goal with
             | |- context [Z.ltb ?a ?b] => destruct (Z.ltb_spec a b)
             | |- context [Z.gtb ?a ?b] => destruct (Z.gtb_spec a b)
             | |- context [Z.geb ?a ?b] => destruct (Z.geb_spec a b)
             | |- context [negb (Z.eqb ?a ?b)] => destruct (Z.eqb_spec a b)
             end; cbn [negb andb mbind option_bind];
      try (exfalso; lia);
      (eexists; split; [reflexivity|]);
      unfold reader_ok, frames_left; simpl; rewrite ?Hbl; simpl;
      try (repeat split; auto; lia).
  - destruct Hb as [Hfunc Hrecv].
    cbn [mbind option_bind andb].
    destruct (CHECK_MAGIC_NUMBER c && negb (magic h =? MAGIC_NUMBER c)) eqn:Hmagic;
      repeat match goal with
             | |- context [Z.ltb ?a ?b] => destruct (Z.ltb_spec a b)
             | |- context [Z.gtb ?a ?b] => destruct (Z.gtb_spec a b)
             | |- context [Z.geb ?a ?b] => destruct (Z.geb_spec a b)
             | |- context [negb (Z.eqb ?a ?b)] => destruct (Z.eqb_spec a b)
             end; cbn [negb andb mbind option_bind];
      try (exfalso; lia);
      (eexists; split; [reflexivity|]);
      unfold reader_ok, frames_left; simpl; rewrite ?Hbl; simpl;
      try (repeat split; auto; lia).
Qed.

Lemma read_loop_total c (peek : nat -> WireHeader) result :
  0 < MSG_HEADER_LENGTH c ->
  (forall k, 0 <= aligned_data_len (peek k)) ->
  forall fuel w,
    reader_ok c (peek (frame_no w)) (reader w) ->
    (frames_left (reader w) < fuel)%nat ->
    exists t,
      read_loop c peek fuel result w = Some t /\
      match t with
      | Return ret w' =>
        reader_ok c (peek (frame_no w')) (reader w') /\
        (ret = result \/ ret = ENOSPC \/
         (ret = EINVAL /\ bad_magic c (peek (frame_no w')) = true))
      | Again _ => False
      | Aborted => current (reader w) = buff_end (reader w)
      end.
Proof.
  intros Hh Hal. induction fuel as [|fuel IH]; intros w Hok Hfuel; [lia|].
  rewrite read_loop_S.
  destruct (read_turn_total c (peek (frame_no w)) result w Hh (Hal _) Hok) as (t & Ht & Hcase).
  rewrite Ht. cbn [mbind option_bind].
  destruct t as [ret w'|w'|].
  - exists (Return ret w'). split; [reflexivity|].
    destruct Hcase as (Hfn & Hok' & Hret). rewrite Hfn. auto.
  - destruct Hcase as (Hfn & Hok' & Hless & Hc & He).
    destruct (IH w' (Hok' _)) as (t & Hloop & Ht'); [lia|].
    exists t. split; [exact Hloop|].
    destruct t; [exact Ht' | exact Ht' | congruence].
  - exists Aborted. split; [reflexivity | exact Hcase].
Qed.

(** X16.  The answer EINVAL of [deal_read_event] stands for a wrong magic
    number and for nothing else: the branch that refuses a frame with
    [func_id < 0] past its first block (line 1305) is never taken, because
    the chain of blocks is only built for frames whose [func_id] is not
    negative.  From a reader as INIT_READER and the calls leave it, on a
    stream whose aligned lengths are not negative, a call whose [read]
    brought bytes returns (given fuel for the frames that the bytes can
    hold) 0, EAGAIN or ENOSPC, or EINVAL in a build with
    CHECK_MAGIC_NUMBER for a header whose magic number is wrong, and
    leaves the reader as the calls leave it; or it stops at the assertion
    of line 1343, which takes a [read] that filled the buffer. *)
Theorem deal_read_event_einval_only_for_magic c (peek : nat -> WireHeader) fuel
    read_bytes errno w :
  0 < MSG_HEADER_LENGTH c ->
  (forall k, 0 <= aligned_data_len (peek k)) ->
  reader_ok c (peek (frame_no w)) (reader w) ->
  0 < read_bytes <= read_request w ->
  (S (Z.to_nat (current (reader w) + read_bytes)) < fuel)%nat ->
  exists t,
    deal_read_event c peek fuel read_bytes errno w = Some t /\
    match t with
    | Return ret w' =>
      reader_ok c (peek (frame_no w')) (reader w') /\
      (ret = 0 \/ ret = EAGAIN \/ ret = ENOSPC \/
       (ret = EINVAL /\ bad_magic c (peek (frame_no w')) = true))
    | Again _ => False
    | Aborted => read_bytes = read_request w
    end.
Proof.
  intros Hh Hal (Hcur & Hend & Hb) Hread Hfuel. unfold read_request in *.
  unfold deal_read_event.
  destruct (Z.eqb_spec read_bytes 0) as [?|_]; [lia|].
  destruct (Z.ltb_spec read_bytes 0) as [?|_]; [lia|].
  match goal with
  | |- context [read_loop c peek fuel ?res ?w1] =>
    destruct (read_loop_total c peek res Hh Hal fuel w1) as (t & Hloop & Ht)
  end.
  { unfold reader_ok. cbn [reader frame_no current buff_end blocks msg_header recv_body_bytes].
    split; [lia|]. split; [exact Hend|].
    destruct (blocks (reader w)); [destruct Hb; split; [assumption | lia] | exact Hb]. }
  { unfold frames_left. cbn [reader current blocks msg_header].
    unfold reader_ok in Hb. destruct (blocks (reader w)); [destruct Hb|]; lia. }
  exists t. split; [exact Hloop|].
  destruct t as [ret w'|w'|]; [|exact Ht|cbn [reader current buff_end] in Ht; lia].
  destruct Ht as (Hok & Hret). split; [exact Hok|].
  destruct Hret as [->|[->|Hm]]; [|auto|auto].
  match goal with |- context [if ?b then 0 else EAGAIN] => destruct b end; auto.
Qed.

Lemma fresh_world_ok c h : 0 <= read_buffer_size c -> reader_ok c h (reader (fresh_world c)).
Proof. intros H. unfold reader_ok. simpl. repeat split; lia. Qed.

(** A read of 100 bytes into a fresh reader while the stream starts with
    an oversized frame whose [func_id] is -1. *)
Lemma deal_read_event_einval_only_for_magic_witness :
  exists t,
    deal_read_event sample_config (fun _ : nat => sample_frame) 102 100 0
      (fresh_world sample_config) = Some t /\
    match t with
    | Return ret w' =>
      reader_ok sample_config sample_frame (reader w') /\
      (ret = 0 \/ ret = EAGAIN \/ ret = ENOSPC \/
       (ret = EINVAL /\ bad_magic sample_config sample_frame = true))
    | Again _ => False
    | Aborted => 100 = read_request (fresh_world sample_config)
    end.
Proof.
  apply (deal_read_event_einval_only_for_magic sample_config (fun _ : nat => sample_frame)
           102 100 0 (fresh_world sample_config)).
  - simpl. lia.
  - intros _. simpl. lia.
  - apply fresh_world_ok. simpl. lia.
  - unfold read_request. simpl. lia.
  - simpl. lia.
Defined.







End ReaderFacts.

(** ** The per-machine socket tables *)
Module MachineFacts.
Import Machines.

Lemma at_index_Some {A} (l : list A) i x :
  at_index l i = Some x <-> 0 <= i /\ l !! Z.to_nat i = Some x.
Proof.
  unfold at_index. destruct (Z.ltb_spec i 0); split.
  - discriminate.
  - intros [? _]. lia.
  - intros H'. split; [lia | exact H'].
  - intros [_ H']. exact H'.
Qed.

Lemma at_index_in_range {A} (l : list A) i :
  0 <= i < Z.of_nat (length l) -> exists x, at_index l i = Some x.
Proof.
  intros Hi. destruct (lookup_lt_is_Some_2 l (Z.to_nat i)) as [x Hx]; [lia|].
  exists x. apply at_index_Some. split; [lia | exact Hx].
Qed.

Lemma at_index_lt {A} (l : list A) i x :
  at_index l i = Some x -> 0 <= i < Z.of_nat (length l).
Proof.
  intros H. apply at_index_Some in H as [H0 H]. apply lookup_lt_Some in H. lia.
Qed.

Lemma store_Some {A} (l : list A) i x :
  0 <= i < Z.of_nat (length l) -> store l i x = Some (<[Z.to_nat i := x]> l).
Proof.
  intros Hi. unfold store.
  destruct (Z.leb_spec 0 i); [|lia].
  destruct (Z.ltb_spec i (Z.of_nat (length l))); [reflexivity | lia].
Qed.

Lemma store_inv {A} (l l' : list A) i x :
  store l i x = Some l' ->
  0 <= i < Z.of_nat (length l) /\ l' = <[Z.to_nat i := x]> l.
Proof.
  unfold store. destruct (Z.leb_spec 0 i); simpl; [|discriminate].
  destruct (Z.ltb_spec i (Z.of_nat (length l))); [|discriminate].
  intros [= <-]. split; [lia | reflexivity].
Qed.

Lemma at_index_insert {A} (l : list A) i j x :
  0 <= i < Z.of_nat (length l) -> 0 <= j ->
  at_index (<[Z.to_nat i := x]> l) j = if decide (j = i) then Some x else at_index l j.
Proof.
  intros Hi Hj. unfold at_index. destruct (Z.ltb_spec j 0); [lia|].
  destruct (decide (j = i)) as [->|Hne].
  - apply list_lookup_insert_eq. lia.
  - apply list_lookup_insert_ne. lia.
Qed.

(** *** The probe *)

(** The probe depends on the table only through the comparisons with
    [want]. *)
Lemma probe_ext N t t' want id :
  (forall i, match at_index t i, at_index t' i with
             | Some s, Some s' => (ip s =? want) = (ip s' =? want)
             | None, None => True
             | _, _ => False
             end) ->
  forall fuel count, probe N t want id count fuel = probe N t' want id count fuel.
Proof.
  intros Hext. induction fuel as [|fuel IH]; intros count; simpl; [reflexivity|].
  destruct (count <=? N); [|reflexivity].
  specialize (Hext (Z.rem (id + count) N)).
  destruct (at_index t _) as [s|], (at_index t' _) as [s'|]; simpl; try contradiction;
    [|reflexivity].
  rewrite Hext. destruct (ip s' =? want); [reflexivity | apply IH].
Qed.

(** From [count] on the probe visits the slots [(id + j) mod N] for
    [j = count .. N] in turn, and answers with the first that holds
    [want]. *)
Lemma probe_spec N t want id :
  0 < N -> Z.of_nat (length t) = N -> 0 <= id < N ->
  forall fuel count,
    1 <= count -> (Z.to_nat (N - count + 1) < fuel)%nat ->
    exists r, probe N t want id count fuel = Some r /\
      ((r = -1 /\
        forall j, count <= j <= N ->
          forall s, at_index t ((id + j) mod N) = Some s -> ip s <> want) \/
       (0 <= r < N /\ exists s, at_index t r = Some s /\ ip s = want)).
Proof.
  intros HN Hlen Hid. induction fuel as [|fuel IH]; intros count Hc Hfuel; [lia|].
  simpl. destruct (Z.leb_spec count N) as [Hle|Hgt].
  - rewrite Z.rem_mod_nonneg by lia.
    assert (Hr : 0 <= (id + count) mod N < N) by (apply Z.mod_pos_bound; lia).
    destruct (at_index_in_range t ((id + count) mod N)) as [s Hs]; [lia|].
    rewrite Hs. simpl.
    destruct (Z.eqb_spec (ip s) want) as [Heq|Hne].
    + eexists. split; [reflexivity|]. right. split; [exact Hr|]. eauto.
    + destruct (IH (count + 1)) as (r & Hp & Hres); [lia | lia |].
      exists r. split; [exact Hp|].
      destruct Hres as [[-> Hall]|Hfound]; [left | right; exact Hfound].
      split; [reflexivity|]. intros j Hj s' Hs'.
      destruct (decide (j = count)) as [->|Hjc].
      * congruence.
      * apply (Hall j); [lia | exact Hs'].
  - eexists. split; [reflexivity|]. left. split; [reflexivity|]. intros; lia.
Qed.

(** Every slot is one of the probed ones. *)
Lemma probe_covers N id i :
  0 < N -> 0 <= id < N -> 0 <= i < N ->
  exists j, 1 <= j <= N /\ (id + j) mod N = i.
Proof.
  intros HN Hid Hi.
  destruct (decide (i = id)) as [->|Hne].
  - exists N. split; [lia|].
    rewrite <- (Z.mul_1_l N) at 1. rewrite Z.mod_add by lia. apply Z.mod_small. lia.
  - exists ((i - id) mod N).
    assert (Hm : 0 <= (i - id) mod N < N) by (apply Z.mod_pos_bound; lia).
    assert (Hz : (i - id) mod N <> 0).
    { intros Hz. destruct (Z_lt_le_dec i id).
      - assert (Hx : (i - id) mod N = i - id + N).
        { symmetry. apply (Z.mod_unique (i - id) N (-1)); lia. }
        lia.
      - rewrite Z.mod_small in Hz by lia. lia. }
    split; [lia|].
    rewrite Zplus_mod_idemp_r. replace (id + (i - id)) with i by lia.
    apply Z.mod_small. lia.
Qed.

(** The search of a table for the value [want], from the slot of [key]:
    the common content of [get_machine_index] and [alloc_machine_index]. *)
Lemma search_spec N t want key :
  0 < N -> Z.of_nat (length t) = N ->
  exists r,
    (s ← at_index t (key mod N);
     if ip s =? want then Some (key mod N)
     else probe N t want (key mod N) 1 (S (Z.to_nat N))) = Some r /\
    ((r = -1 /\ forall s, s ∈ t -> ip s <> want) \/
     (0 <= r < N /\ exists s, at_index t r = Some s /\ ip s = want)).
Proof.
  intros HN Hlen.
  assert (Hid : 0 <= key mod N < N) by (apply Z.mod_pos_bound; lia).
  destruct (at_index_in_range t (key mod N)) as [s Hs]; [lia|].
  rewrite Hs. simpl.
  destruct (Z.eqb_spec (ip s) want) as [Heq|Hne].
  - eexists. split; [reflexivity|]. right. split; [exact Hid|]. eauto.
  - destruct (probe_spec N t want (key mod N) HN Hlen Hid (S (Z.to_nat N)) 1)
      as (r & Hp & Hres); [lia | lia |].
    exists r. split; [exact Hp|].
    destruct Hres as [[-> Hall]|Hfound]; [left | right; exact Hfound].
    split; [reflexivity|]. intros s' Hin.
    apply list_elem_of_lookup_1 in Hin as [i Hi].
    pose proof (lookup_lt_Some _ _ _ Hi) as Hlt.
    destruct (probe_covers N (key mod N) (Z.of_nat i)) as (j & Hj & Hji); [lia..|].
    apply (Hall j Hj). rewrite Hji. apply at_index_Some.
    rewrite Nat2Z.id. split; [lia | exact Hi].
Qed.

Lemma get_machine_index_total N t ip_ :
  0 < N -> Z.of_nat (length t) = N ->
  exists r,
    get_machine_index N t ip_ = Some r /\
    ((r = -1 /\ forall s, s ∈ t -> ip s <> ip_) \/
     (0 <= r < N /\ exists s, at_index t r = Some s /\ ip s = ip_)).
Proof. intros HN Hlen. exact (search_spec N t ip_ ip_ HN Hlen). Qed.

Lemma alloc_machine_index_total N t ip_ :
  0 < N -> Z.of_nat (length t) = N ->
  exists r,
    alloc_machine_index N t ip_ = Some r /\
    ((r = -1 /\ forall s, s ∈ t -> ip s <> 0) \/
     (0 <= r < N /\ exists s, at_index t r = Some s /\ ip s = 0)).
Proof. intros HN Hlen. exact (search_spec N t 0 ip_ HN Hlen). Qed.

Lemma get_machine_index_ext N t t' ip_ :
  (forall i, match at_index t i, at_index t' i with
             | Some s, Some s' => (ip s =? ip_) = (ip s' =? ip_)
             | None, None => True
             | _, _ => False
             end) ->
  get_machine_index N t' ip_ = get_machine_index N t ip_.
Proof.
  intros Hext. unfold get_machine_index.
  pose proof (Hext (ip_ mod N)) as H0.
  destruct (at_index t _) as [s|], (at_index t' _) as [s'|];
    cbn [mbind option_bind]; try contradiction; [|reflexivity].
  rewrite H0. destruct (ip s' =? ip_); [reflexivity|].
  symmetry. apply probe_ext. exact Hext.
Qed.

Lemma set_ip_same s : set_ip s (ip s) = s.
Proof. destruct s; reflexivity. Qed.

(** The slot of a machine: the one that holds its ip, else the free slot
    that the probe finds, which then holds it; none if the table is full
    of other machines. *)
Lemma machine_slot_spec N t ip_ :
  0 < N -> Z.of_nat (length t) = N ->
  exists r, machine_slot N t ip_ = Some r /\
    match r with
    | None => forall s, s ∈ t -> ip s <> ip_ /\ ip s <> 0
    | Some (i, t') =>
      0 <= i < N /\
      get_machine_index N t' ip_ = Some i /\
      exists s, at_index t i = Some s /\
        (ip s = ip_ \/ (ip s = 0 /\ forall s', s' ∈ t -> ip s' <> ip_)) /\
        t' = <[Z.to_nat i := set_ip s ip_]> t
    end.
Proof.
  intros HN Hlen. unfold machine_slot.
  destruct (get_machine_index_total N t ip_ HN Hlen) as (r & Hget & Hres).
  rewrite Hget. cbn [mbind option_bind].
  destruct Hres as [[-> Hnone]|(Hr & s & Hs & Hip)].
  - destruct (Z.ltb_spec (-1) 0); [|lia].
    destruct (alloc_machine_index_total N t ip_ HN Hlen) as (j & Halloc & Hres).
    rewrite Halloc. cbn [mbind option_bind].
    destruct Hres as [[-> Hfull]|(Hj & s & Hs & Hip)].
    + destruct (Z.ltb_spec (-1) 0); [|lia].
      eexists. split; [reflexivity|]. intros s Hin. split; auto.
    + destruct (Z.ltb_spec j 0); [lia|].
      rewrite Hs. cbn [mbind option_bind].
      rewrite store_Some by lia. cbn [mbind option_bind].
      eexists. split; [reflexivity|]. split; [exact Hj|].
      split.
      * destruct (get_machine_index_total N (<[Z.to_nat j := set_ip s ip_]> t) ip_ HN)
          as (r' & Hget' & Hres'); [rewrite length_insert; exact Hlen|].
        rewrite Hget'. f_equal.
        destruct Hres' as [[-> Hnone']|(Hr' & s' & Hs' & Hip')].
        -- exfalso. apply (Hnone' (set_ip s ip_)); [|reflexivity].
           apply (list_elem_of_lookup_2 _ (Z.to_nat j)).
           apply list_lookup_insert_eq. lia.
        -- rewrite at_index_insert in Hs' by lia.
           destruct (decide (r' = j)) as [->|Hne]; [reflexivity|].
           exfalso. apply at_index_Some in Hs' as [_ Hs'].
           apply (Hnone s'); [|exact Hip'].
           apply (list_elem_of_lookup_2 _ _ _ Hs').
      * exists s. split; [exact Hs|]. split; [right; split; [exact Hip | exact Hnone]|].
        reflexivity.
  - destruct (Z.ltb_spec r 0); [lia|].
    eexists. split; [reflexivity|]. split; [exact Hr|]. split; [exact Hget|].
    exists s. split; [exact Hs|]. split; [left; exact Hip|].
    rewrite <- Hip, set_ip_same. symmetry. apply list_insert_id.
    apply at_index_Some in Hs as [_ Hs]. exact Hs.
Qed.

(** Claiming a slot for [ip_] leaves the index of every other machine as it
    was. *)
Lemma machine_slot_stable N t ip_ i t' ip' :
  0 < N -> Z.of_nat (length t) = N ->
  machine_slot N t ip_ = Some (Some (i, t')) ->
  ip' <> 0 -> ip' <> ip_ ->
  get_machine_index N t' ip' = get_machine_index N t ip'.
Proof.
  intros HN Hlen Hslot H0 Hne.
  destruct (machine_slot_spec N t ip_ HN Hlen) as (r & Hr & Hres).
  rewrite Hslot in Hr. injection Hr as <-.
  destruct Hres as (Hi & _ & s & Hs & Hip & ->).
  apply get_machine_index_ext. intros k.
  destruct (Z.ltb_spec k 0) as [Hk|Hk].
  { unfold at_index. destruct (Z.ltb_spec k 0); [exact I | lia]. }
  rewrite at_index_insert by lia.
  destruct (decide (k = i)) as [->|Hki].
  - rewrite Hs. simpl.
    destruct Hip as [Hip|[Hip _]]; rewrite Hip.
    + reflexivity.
    + destruct (Z.eqb_spec 0 ip'), (Z.eqb_spec ip_ ip'); congruence.
  - destruct (at_index t k); [reflexivity | exact I].
Qed.

Lemma set_free_list_same ty s : set_free_list ty s (free_list ty s) = s.
Proof. destruct ty, s; reflexivity. Qed.

Lemma free_list_set ty s v : free_list ty (set_free_list ty s v) = v.
Proof. destruct ty; reflexivity. Qed.

Lemma ip_set_free_list ty s v : ip (set_free_list ty s v) = ip s.
Proof. destruct ty; reflexivity. Qed.

Lemma set_free_list_twice ty s v v' :
  set_free_list ty (set_free_list ty s v) v' = set_free_list ty s v'.
Proof. destruct ty; reflexivity. Qed.

Lemma alloc_sock_context_spec ty N w machine_ip :
  0 < N -> Z.of_nat (length (machine_sockets w)) = N ->
  heads_in_pool ty w ->
  exists r w',
    alloc_sock_context ty N w machine_ip = Some (r, w') /\
    socket_contexts_pool w' = socket_contexts_pool w /\
    match machine_slot N (machine_sockets w) machine_ip with
    | Some None => r = None /\ w' = w
    | Some (Some (i, t1)) =>
      exists s1, at_index t1 i = Some s1 /\ r = free_list ty s1 /\
        machine_sockets w' =
          <[Z.to_nat i := set_free_list ty s1
                            (p ← r; c ← socket_contexts_pool w !! p; next c)]> t1
    | None => False
    end.
Proof.
  intros HN Hlen Hheads. unfold alloc_sock_context.
  destruct (machine_slot_spec N (machine_sockets w) machine_ip HN Hlen) as (r0 & Hslot & Hres).
  rewrite Hslot. cbn [mbind option_bind].
  destruct r0 as [[i t1]|].
  - destruct Hres as (Hi & _ & s & Hs & Hip & ->).
    rewrite at_index_insert by lia.
    destruct (decide (i = i)); [|contradiction].
    cbn [mbind option_bind].
    assert (Hfl : free_list ty (set_ip s machine_ip) = free_list ty s)
      by (destruct ty; reflexivity).
    destruct (free_list ty (set_ip s machine_ip)) as [p|] eqn:Hp.
    + destruct (Hheads s p) as [c Hc].
      { apply at_index_Some in Hs as [_ Hs]. apply (list_elem_of_lookup_2 _ _ _ Hs). }
      { congruence. }
      rewrite Hc. cbn [mbind option_bind].
      rewrite store_Some by (rewrite length_insert; lia).
      cbn [mbind option_bind].
      eexists _, _. split; [reflexivity|]. split; [reflexivity|].
      eexists. split; [reflexivity|]. split; [symmetry; exact Hp|].
      cbn [mbind option_bind machine_sockets]. rewrite Hc. reflexivity.
    + eexists _, _. split; [reflexivity|]. split; [reflexivity|].
      eexists. split; [reflexivity|]. split; [symmetry; exact Hp|].
      cbn [mbind option_bind machine_sockets].
      assert (Hsame : set_free_list ty (set_ip s machine_ip) None = set_ip s machine_ip)
        by (rewrite <- Hp; apply set_free_list_same).
      rewrite Hsame, list_insert_insert_eq. reflexivity.
  - eexists _, _. split; [reflexivity|]. split; [reflexivity|]. split; reflexivity.
Qed.

(** X2.  Asking for a context of a machine registers the machine: unless
    the table is full of other machines, [get_machine_index] finds it
    afterwards, in the slot whose free list the context was taken from;
    the slots of the other machines stay where they were. *)
Theorem alloc_sock_context_registers ty N w machine_ip :
  0 < N -> Z.of_nat (length (machine_sockets w)) = N ->
  heads_in_pool ty w ->
  exists r w',
    alloc_sock_context ty N w machine_ip = Some (r, w') /\
    (forall ip', ip' <> 0 -> ip' <> machine_ip ->
       get_machine_index N (machine_sockets w') ip'
       = get_machine_index N (machine_sockets w) ip') /\
    ((r = None /\ w' = w /\
      forall s, s ∈ machine_sockets w -> ip s <> machine_ip /\ ip s <> 0) \/
     (exists i s,
        0 <= i < N /\
        get_machine_index N (machine_sockets w') machine_ip = Some i /\
        at_index (machine_sockets w) i = Some s /\
        (ip s = machine_ip \/ ip s = 0) /\
        r = free_list ty s)).
Proof.
  intros HN Hlen Hheads.
  destruct (alloc_sock_context_spec ty N w machine_ip HN Hlen Hheads)
    as (r & w' & Halloc & Hpool & Hres).
  exists r, w'. split; [exact Halloc|].
  destruct (machine_slot_spec N (machine_sockets w) machine_ip HN Hlen) as (r0 & Hslot & Hres0).
  rewrite Hslot in Hres.
  destruct r0 as [[i t1]|].
  - destruct Hres as (s1 & Hs1 & Hr & Hw').
    destruct Hres0 as (Hi & Hget & s & Hs & Hip & Ht1).
    assert (Hlen1 : Z.of_nat (length t1) = N) by (subst t1; rewrite length_insert; exact Hlen).
    assert (Hs1' : s1 = set_ip s machine_ip).
    { subst t1. rewrite at_index_insert in Hs1 by lia.
      destruct (decide (i = i)); [congruence | contradiction]. }
    assert (Hsame : forall ip', get_machine_index N (machine_sockets w') ip'
                                = get_machine_index N t1 ip').
    { intros ip'. apply get_machine_index_ext. intros k. rewrite Hw'.
      destruct (Z.ltb_spec k 0) as [Hk|Hk].
      { unfold at_index. destruct (Z.ltb_spec k 0); [exact I | lia]. }
      rewrite at_index_insert by lia.
      destruct (decide (k = i)) as [->|Hki].
      - rewrite Hs1. rewrite ip_set_free_list. reflexivity.
      - destruct (at_index t1 k); [reflexivity | exact I]. }
    split.
    + intros ip' H0 Hne. rewrite Hsame.
      apply (machine_slot_stable N _ machine_ip i t1 ip' HN Hlen Hslot H0 Hne).
    + right. exists i, s. split; [exact Hi|]. split; [rewrite Hsame; exact Hget|].
      split; [exact Hs|]. split; [tauto|].
      rewrite Hr, Hs1'. destruct ty; reflexivity.
  - destruct Hres as [-> ->]. split; [reflexivity|]. left. auto.
Qed.

(** X3.  A context that is given back is the next one handed out for its
    machine and role, and the table is then as it was before it was given
    back. *)
Theorem free_then_alloc_sock_context ty N w p c machine_ip i :
  0 < N -> Z.of_nat (length (machine_sockets w)) = N ->
  socket_contexts_pool w !! p = Some c ->
  machine c = Some machine_ip ->
  get_machine_index N (machine_sockets w) machine_ip = Some i -> 0 <= i ->
  exists w1 w2 s,
    free_sock_context ty N w p = Some w1 /\
    alloc_sock_context ty N w1 machine_ip = Some (Some p, w2) /\
    machine_sockets w2 = machine_sockets w /\
    at_index (machine_sockets w) i = Some s /\
    socket_contexts_pool w2 = <[p := set_next c (free_list ty s)]> (socket_contexts_pool w).
Proof.
  intros HN Hlen Hc Hm Hget Hi0.
  destruct (get_machine_index_total N (machine_sockets w) machine_ip HN Hlen)
    as (r & Hget' & Hres).
  rewrite Hget in Hget'. injection Hget' as <-.
  destruct Hres as [[-> _]|(Hi & s & Hs & Hip)]; [lia|].
  unfold free_sock_context. rewrite Hc. cbn [mbind option_bind]. rewrite Hm.
  cbn [mbind option_bind]. rewrite Hget. cbn [mbind option_bind].
  destruct (Z.ltb_spec i 0); [lia|].
  rewrite Hs. cbn [mbind option_bind].
  rewrite store_Some by lia. cbn [mbind option_bind].
  eexists _, _, s. split; [reflexivity|].
  set (t1 := <[Z.to_nat i := set_free_list ty s (Some p)]> (machine_sockets w)).
  set (pool1 := <[p := set_next c (free_list ty s)]> (socket_contexts_pool w)).
  assert (Hget1 : get_machine_index N t1 machine_ip = Some i).
  { rewrite <- Hget. apply get_machine_index_ext. intros k. unfold t1.
    destruct (Z.ltb_spec k 0) as [Hk|Hk].
    { unfold at_index. destruct (Z.ltb_spec k 0); [exact I | lia]. }
    rewrite at_index_insert by lia.
    destruct (decide (k = i)) as [->|Hki].
    - rewrite Hs. rewrite ip_set_free_list. reflexivity.
    - destruct (at_index (machine_sockets w) k); [reflexivity | exact I]. }
  unfold alloc_sock_context, machine_slot. cbn [machine_sockets socket_contexts_pool].
  rewrite Hget1. cbn [mbind option_bind].
  destruct (Z.ltb_spec i 0); [lia|]. cbn [mbind option_bind].
  assert (Hat1 : at_index t1 i = Some (set_free_list ty s (Some p))).
  { unfold t1. rewrite at_index_insert by lia.
    destruct (decide (i = i)); [reflexivity | contradiction]. }
  rewrite Hat1. cbn [mbind option_bind].
  rewrite free_list_set.
  assert (Hp1 : pool1 !! p = Some (set_next c (free_list ty s))).
  { unfold pool1. apply list_lookup_insert_eq. apply lookup_lt_Some in Hc. exact Hc. }
  rewrite Hp1. cbn [mbind option_bind].
  rewrite store_Some by (unfold t1; rewrite length_insert; lia).
  cbn [mbind option_bind]. split.
  - reflexivity.
  - cbn [machine_sockets socket_contexts_pool next set_next].
    split; [|split; reflexivity].
    unfold t1. rewrite list_insert_insert_eq, set_free_list_twice, set_free_list_same.
    apply list_insert_id. apply at_index_Some in Hs as [_ Hs]. exact Hs.
Qed.

(** *** Shifting an array left by one *)

Lemma shift_left_spec {A} turns :
  forall (l : list A) j, (S j + turns <= length l)%nat ->
    shift_left l (S j) turns
    = Some (take j l ++ take turns (drop (S j) l) ++ drop (j + turns) l).
Proof.
  induction turns as [|k IH]; intros l0 j Hlen.
  - simpl. rewrite Nat.add_0_r, take_drop. reflexivity.
  - cbn [shift_left].
    destruct (lookup_lt_is_Some_2 l0 (S j)) as [x Hx]; [lia|].
    rewrite Hx. cbn [mbind option_bind].
    replace (S j - 1)%nat with j by lia.
    rewrite IH by (rewrite length_insert; lia).
    f_equal.
    rewrite (take_S_r (<[j:=x]> l0) j x) by (apply list_lookup_insert_eq; lia).
    rewrite take_insert_ge by lia.
    rewrite drop_insert_lt by lia.
    rewrite drop_insert_lt by lia.
    rewrite (drop_S l0 x (S j) Hx).
    cbn [take]. rewrite <- app_assoc. simpl.
    replace (j + S k)%nat with (S (j + k))%nat by lia. reflexivity.
Qed.

Lemma find_context_spec l p turns :
  forall found, (found + turns <= length l)%nat ->
    exists r, find_context l p found turns = Some r /\
      (found <= r <= found + turns)%nat /\
      (forall j, (found <= j < r)%nat -> l !! j <> Some (Some p)) /\
      ((r < found + turns)%nat -> l !! r = Some (Some p)).
Proof.
  induction turns as [|k IH]; intros found Hlen.
  - exists found. simpl. split; [reflexivity|]. split; [lia|]. split; intros; lia.
  - cbn [find_context].
    destruct (lookup_lt_is_Some_2 l found) as [x Hx]; [lia|].
    rewrite Hx. cbn [mbind option_bind].
    destruct (decide (x = Some p)) as [->|Hne].
    + exists found. split; [reflexivity|]. split; [lia|]. split; [intros; lia|]. auto.
    + destruct (IH (S found)) as (r & Hr & Hrange & Hbefore & Hat); [lia|].
      exists r. split; [exact Hr|]. split; [lia|]. split.
      * intros j Hj. destruct (decide (j = found)) as [->|?].
        -- rewrite Hx. congruence.
        -- apply Hbefore. lia.
      * intros Hlt. apply Hat. lia.
Qed.

(** *** The array of connected contexts *)

Lemma array_add_spec a p :
  array_ok a ->
  exists a',
    array_add a p None = Some (0, a') /\
    array_ok a' /\
    live a' = live a ++ [Some p] /\
    count a' = count a + 1 /\
    index a' = index a /\
    alloc_size a' =
      (if count a <? alloc_size a then alloc_size a
       else if alloc_size a =? 0 then 64 else alloc_size a * 2).
Proof.
  intros [Hc Hlen]. unfold array_add, live.
  destruct (Z.geb_spec (count a) (alloc_size a)) as [Hfull|Hroom].
  - assert (Hca : count a = alloc_size a) by lia.
    destruct (Z.ltb_spec (count a) (alloc_size a)); [lia|].
    set (sz := if alloc_size a =? 0 then 64 else alloc_size a * 2).
    assert (Hsz : count a < sz).
    { unfold sz. destruct (Z.eqb_spec (alloc_size a) 0); lia. }
    assert (Hcopied : exists copied,
      (if count a >? 0 then
         if count a <=? Z.of_nat (length (contexts a))
         then Some (take (Z.to_nat (count a)) (contexts a)) else None
       else Some []) = Some copied /\
      copied = take (Z.to_nat (count a)) (contexts a) /\
      length copied = Z.to_nat (count a)).
    { destruct (Z.gtb_spec (count a) 0).
      - destruct (Z.leb_spec (count a) (Z.of_nat (length (contexts a)))); [|lia].
        eexists. split; [reflexivity|]. split; [reflexivity|].
        rewrite length_take. lia.
      - exists []. split; [reflexivity|].
        replace (Z.to_nat (count a)) with 0%nat by lia. split; reflexivity. }
    destruct Hcopied as (copied & -> & Hcop & Hcl).
    cbn [mbind option_bind].
    rewrite store_Some by (rewrite length_app, length_replicate; lia).
    cbn [mbind option_bind].
    eexists. split; [reflexivity|]. unfold array_ok, live.
    cbn [contexts count alloc_size index].
    split.
    { split; [lia|]. rewrite length_insert, length_app, length_replicate.
      lia. }
    split; [|auto].
    replace (Z.to_nat (count a + 1)) with (S (Z.to_nat (count a))) by lia.
    rewrite <- Hcl at 2.
    rewrite insert_app_r_alt by lia.
    rewrite Hcl, Nat.sub_diag.
    destruct (Z.to_nat sz - Z.to_nat (count a))%nat as [|k] eqn:Hk; [lia|].
    cbn [replicate]. simpl.
    rewrite <- Hcl. replace (S (length copied)) with (length copied + 1)%nat by lia.
    rewrite (take_app_add' copied _ (length copied) 1) by reflexivity.
    simpl. rewrite Hcop at 1. rewrite Hcl. reflexivity.
  - destruct (Z.ltb_spec (count a) (alloc_size a)); [|lia].
    rewrite store_Some by lia. cbn [mbind option_bind].
    eexists. split; [reflexivity|]. unfold array_ok, live.
    cbn [contexts count alloc_size index].
    split.
    { split; [lia|]. rewrite length_insert. exact Hlen. }
    split; [|auto].
    replace (Z.to_nat (count a + 1)) with (S (Z.to_nat (count a))) by lia.
    rewrite (take_S_r _ _ (Some p)) by (apply list_lookup_insert_eq; lia).
    rewrite take_insert_ge by lia. reflexivity.
Qed.

Lemma array_remove_spec a p :
  array_ok a ->
  ((Some p ∉ live a) /\ array_remove a p = Some (ENOENT, a)) \/
  (exists a' l1 l2,
     array_remove a p = Some (0, a') /\
     live a = l1 ++ Some p :: l2 /\ (Some p ∉ l1) /\
     live a' = l1 ++ l2 /\
     array_ok a' /\
     count a' = count a - 1 /\ alloc_size a' = alloc_size a /\ index a' = index a).
Proof.
  intros [Hc Hlen]. unfold array_remove, live.
  destruct (Z.eqb_spec (count a) 0) as [H0|H0].
  { left. split; [|reflexivity]. rewrite H0. simpl. apply not_elem_of_nil. }
  destruct (Z.ltb_spec (count a) 0); [lia|].
  set (n := Z.to_nat (count a)).
  destruct (find_context_spec (contexts a) p n 0) as (found & Hfind & Hrange & Hbefore & Hat);
    [lia|].
  rewrite Hfind. cbn [mbind option_bind].
  simpl in Hrange, Hat.
  destruct (decide (found = n)) as [->|Hne].
  - left. split; [|reflexivity].
    intros Hin. apply list_elem_of_lookup_1 in Hin as [j Hj].
    pose proof (lookup_lt_Some _ _ _ Hj) as Hlt. rewrite length_take in Hlt.
    rewrite lookup_take_lt in Hj by lia.
    apply (Hbefore j); [lia | exact Hj].
  - right.
    assert (Hf : (found < n)%nat) by lia. specialize (Hat Hf).
    rewrite shift_left_spec by lia. cbn [mbind option_bind].
    set (c := take found (contexts a)
              ++ take (n - S found) (drop (S found) (contexts a))
              ++ drop (found + (n - S found)) (contexts a)).
    assert (Hcl : length c = length (contexts a)).
    { unfold c. rewrite !length_app, !length_take, !length_drop. lia. }
    rewrite store_Some by lia. cbn [mbind option_bind].
    eexists _, (take found (contexts a)), (take (n - S found) (drop (S found) (contexts a))).
    split; [reflexivity|]. unfold array_ok, live. cbn [contexts count alloc_size index].
    assert (Hl1 : length (take found (contexts a)) = found)
      by (rewrite length_take; lia).
    assert (Hl2 : length (take (n - S found) (drop (S found) (contexts a)))
                  = (n - S found)%nat)
      by (rewrite length_take, length_drop; lia).
    split.
    { transitivity (take (found + (n - found)) (contexts a)); [f_equal; lia|].
      rewrite <- take_take_drop. f_equal.
      rewrite (drop_S _ _ _ Hat).
      replace (n - found)%nat with (S (n - S found)) by lia. reflexivity. }
    split.
    { intros Hin. apply list_elem_of_lookup_1 in Hin as [j Hj].
      pose proof (lookup_lt_Some _ _ _ Hj) as Hlt. rewrite Hl1 in Hlt.
      rewrite lookup_take_lt in Hj by lia.
      apply (Hbefore j); [lia | exact Hj]. }
    split.
    { replace (Z.to_nat (count a - 1)) with (n - 1)%nat by lia.
      rewrite take_insert_ge by lia.
      unfold c. rewrite app_assoc. apply take_app_length'.
      rewrite length_app, Hl1, Hl2. lia. }
    split.
    { split; [lia|]. rewrite length_insert, Hcl. exact Hlen. }
    auto.
Qed.

Lemma set_connected_list_same s : set_connected_list s (connected_list s) = s.
Proof. destruct s; reflexivity. Qed.

Lemma add_machine_sock_context_spec N w p i s :
  connected_at N w p i s ->
  array_ok (connected_list s) ->
  exists a',
    add_machine_sock_context N w p None
    = Some (0, mkTables (<[Z.to_nat i := set_connected_list s a']> (machine_sockets w))
                 (socket_contexts_pool w)) /\
    array_add (connected_list s) p None = Some (0, a').
Proof.
  intros (c & mip & Hc & Hm & Hget & Hi & Hs) Hok.
  destruct (array_add_spec (connected_list s) p Hok) as (a' & Hadd & _).
  exists a'. split; [|exact Hadd].
  unfold add_machine_sock_context.
  rewrite Hc. cbn [mbind option_bind]. rewrite Hm. cbn [mbind option_bind].
  rewrite Hget. cbn [mbind option_bind].
  destruct (Z.ltb_spec i 0); [lia|].
  rewrite Hs. cbn [mbind option_bind]. rewrite Hadd. cbn [mbind option_bind].
  rewrite store_Some by (apply at_index_lt in Hs; lia).
  reflexivity.
Qed.

Lemma remove_machine_sock_context_spec N w p i s :
  connected_at N w p i s ->
  array_ok (connected_list s) ->
  exists r a',
    remove_machine_sock_context N w p
    = Some (r, mkTables (<[Z.to_nat i := set_connected_list s a']> (machine_sockets w))
                 (socket_contexts_pool w)) /\
    array_remove (connected_list s) p = Some (r, a').
Proof.
  intros (c & mip & Hc & Hm & Hget & Hi & Hs) Hok.
  assert (Hrem : exists r a', array_remove (connected_list s) p = Some (r, a')).
  { destruct (array_remove_spec (connected_list s) p Hok)
      as [[_ H]|(a' & l1 & l2 & H & _)]; eauto. }
  destruct Hrem as (r & a' & Hrem).
  exists r, a'. split; [|exact Hrem].
  unfold remove_machine_sock_context.
  rewrite Hc. cbn [mbind option_bind]. rewrite Hm. cbn [mbind option_bind].
  rewrite Hget. cbn [mbind option_bind].
  destruct (Z.ltb_spec i 0); [lia|].
  rewrite Hs. cbn [mbind option_bind]. rewrite Hrem. cbn [mbind option_bind].
  rewrite store_Some by (apply at_index_lt in Hs; lia).
  reflexivity.
Qed.

Lemma machine_at_update N w ip_ i s a' :
  machine_at N w ip_ i s ->
  machine_at N
    (mkTables (<[Z.to_nat i := set_connected_list s a']> (machine_sockets w))
       (socket_contexts_pool w)) ip_ i (set_connected_list s a').
Proof.
  intros (Hget & Hi & Hs).
  pose proof (at_index_lt _ _ _ Hs) as Hlt.
  unfold machine_at. cbn [machine_sockets socket_contexts_pool].
  split; [|split; [exact Hi|]].
  - rewrite <- Hget. apply get_machine_index_ext. intros k.
    destruct (Z.ltb_spec k 0) as [Hk|Hk].
    { unfold at_index. destruct (Z.ltb_spec k 0); [exact I | lia]. }
    rewrite at_index_insert by lia.
    destruct (decide (k = i)) as [->|Hki].
    + rewrite Hs. reflexivity.
    + destruct (at_index (machine_sockets w) k); [reflexivity | exact I].
  - rewrite at_index_insert by lia.
    destruct (decide (i = i)); [reflexivity | contradiction].
Qed.

Lemma connected_at_update N w p i s a' :
  connected_at N w p i s ->
  connected_at N
    (mkTables (<[Z.to_nat i := set_connected_list s a']> (machine_sockets w))
       (socket_contexts_pool w)) p i (set_connected_list s a').
Proof.
  intros (c & mip & Hc & Hm & Hat).
  exists c, mip. split; [exact Hc|]. split; [exact Hm|].
  apply machine_at_update. exact Hat.
Qed.

(** X6.  Registering a connected context appends it to the contexts of its
    machine; the array grows to 64 slots at first and doubles when it is
    full.  Removing the context again gives back the same contexts in the
    same order. *)
Theorem add_then_remove_machine_sock_context N w p i s :
  connected_at N w p i s ->
  array_ok (connected_list s) ->
  Some p ∉ live (connected_list s) ->
  exists w1 s1 w2 s2,
    add_machine_sock_context N w p None = Some (0, w1) /\
    connected_at N w1 p i s1 /\
    live (connected_list s1) = live (connected_list s) ++ [Some p] /\
    array_ok (connected_list s1) /\
    alloc_size (connected_list s1) =
      (if count (connected_list s) <? alloc_size (connected_list s)
       then alloc_size (connected_list s)
       else if alloc_size (connected_list s) =? 0 then 64
            else alloc_size (connected_list s) * 2) /\
    remove_machine_sock_context N w1 p = Some (0, w2) /\
    connected_at N w2 p i s2 /\
    live (connected_list s2) = live (connected_list s) /\
    array_ok (connected_list s2).
Proof.
  intros Hat Hok Hnew.
  destruct (add_machine_sock_context_spec N w p i s Hat Hok) as (a1 & Hadd & Ha1).
  destruct (array_add_spec (connected_list s) p Hok)
    as (a1' & Ha1' & Hok1 & Hlive1 & _ & _ & Hsz).
  rewrite Ha1 in Ha1'. injection Ha1' as <-.
  pose proof (connected_at_update N w p i s a1 Hat) as Hat1.
  set (s1 := set_connected_list s a1) in *.
  set (w1 := mkTables _ _) in *.
  assert (Hc1 : connected_list s1 = a1) by reflexivity.
  destruct (remove_machine_sock_context_spec N w1 p i s1 Hat1) as (r & a2 & Hrem & Ha2);
    [rewrite Hc1; exact Hok1|].
  rewrite Hc1 in Ha2.
  destruct (array_remove_spec a1 p Hok1) as [[Habs _]|(a2' & l1 & l2 & Ha2' & Hl & Hl1 & Hl' & Hok2 & _)].
  { exfalso. apply Habs. rewrite Hlive1. apply elem_of_app. right. apply list_elem_of_singleton.
    reflexivity. }
  rewrite Ha2 in Ha2'. injection Ha2' as -> <-.
  pose proof (connected_at_update N w1 p i s1 a2 Hat1) as Hat2.
  eexists w1, s1, _, _.
  split; [exact Hadd|]. split; [exact Hat1|]. split; [exact Hlive1|].
  split; [exact Hok1|]. split; [exact Hsz|].
  split; [exact Hrem|]. split; [exact Hat2|].
  split; [|exact Hok2].
  cbn [connected_list set_connected_list]. rewrite Hl'.
  (* the first occurrence of [p] in [live s ++ [p]] is the last entry *)
  rewrite Hlive1 in Hl.
  assert (Hl2 : l2 = []).
  { destruct l2 as [|y l2] using rev_ind; [reflexivity|]. exfalso.
    rewrite app_comm_cons, app_assoc in Hl.
    apply app_inj_tail in Hl as [Hl _].
    apply Hnew. rewrite Hl. apply elem_of_app. right. left. }
  subst l2. rewrite app_nil_r.
  apply app_inj_tail in Hl as [Hl _]. symmetry. exact Hl.
Qed.

(** X7.  Removing a context that is not among the connected contexts of its
    machine answers ENOENT and changes nothing; otherwise its first
    occurrence is taken out and the contexts behind it move up, in their
    order. *)
Theorem remove_machine_sock_context_first N w p i s :
  connected_at N w p i s ->
  array_ok (connected_list s) ->
  exists r w' s',
    remove_machine_sock_context N w p = Some (r, w') /\
    connected_at N w' p i s' /\
    array_ok (connected_list s') /\
    ((r = ENOENT /\ (Some p ∉ live (connected_list s)) /\ w' = w) \/
     (r = 0 /\ exists l1 l2,
        live (connected_list s) = l1 ++ Some p :: l2 /\ (Some p ∉ l1) /\
        live (connected_list s') = l1 ++ l2)).
Proof.
  intros Hat Hok.
  destruct (remove_machine_sock_context_spec N w p i s Hat Hok) as (r & a' & Hrem & Ha').
  pose proof (connected_at_update N w p i s a' Hat) as Hat'.
  eexists r, _, _. split; [exact Hrem|]. split; [exact Hat'|].
  cbn [connected_list set_connected_list].
  destruct (array_remove_spec (connected_list s) p Hok)
    as [[Habs Hr]|(a2 & l1 & l2 & Hr & Hl & Hl1 & Hl' & Hok' & _)];
    rewrite Hr in Ha'; injection Ha' as <- <-.
  - split; [exact Hok|]. left. split; [reflexivity|]. split; [exact Habs|].
    rewrite set_connected_list_same.
    destruct Hat as (c & mip & _ & _ & _ & _ & Hs).
    apply at_index_Some in Hs as [_ Hs].
    rewrite list_insert_id by exact Hs. destruct w; reflexivity.
  - split; [exact Hok'|]. right. split; [reflexivity|]. eauto.
Qed.

Lemma counter_is_ok sg v : counter_ok sg (counter sg v).
Proof.
  unfold counter_ok, counter. pose proof (HelloFacts.wrap32_range v) as H.
  destruct sg; [|exact H]. unfold to_int.
  destruct (Z.ltb_spec (wrap32 v) (2 ^ 31)); lia.
Qed.

Lemma counter_small sg v : counter_ok sg v -> counter sg v = v.
Proof.
  unfold counter_ok, counter, to_int, wrap32. destruct sg; intros H.
  - destruct (Z.ltb_spec (v mod 2 ^ 32) (2 ^ 31)) as [Hlt|Hge].
    + destruct (Z.ltb_spec v 0) as [Hn|Hp].
      * replace v with (v + 2 ^ 32 - 1 * 2 ^ 32) in Hlt by lia.
        rewrite Zminus_mod, Z_mod_mult, Z.sub_0_r, Z.mod_mod in Hlt by lia.
        rewrite Z.mod_small in Hlt by lia. lia.
      * apply Z.mod_small. lia.
    + destruct (Z.ltb_spec v 0) as [Hn|Hp].
      * replace v with (v + 2 ^ 32 - 1 * 2 ^ 32) at 1 by lia.
        rewrite Zminus_mod, Z_mod_mult, Z.sub_0_r, Z.mod_mod by lia.
        rewrite Z.mod_small by lia. lia.
      * rewrite Z.mod_small in Hge by lia. lia.
  - apply Z.mod_small. exact H.
Qed.

Lemma wrap32_counter_add sg v k : wrap32 (counter sg v + k) = wrap32 (v + k).
Proof.
  unfold counter, to_int, wrap32. destruct sg.
  - destruct (Z.ltb_spec (v mod 2 ^ 32) (2 ^ 31)).
    + apply Zplus_mod_idemp_l.
    + replace (v mod 2 ^ 32 - 2 ^ 32 + k) with (v mod 2 ^ 32 + k - 1 * 2 ^ 32) by lia.
      rewrite Zminus_mod, Z_mod_mult, Z.sub_0_r, Z.mod_mod by lia.
      apply Zplus_mod_idemp_l.
  - apply Zplus_mod_idemp_l.
Qed.

Lemma counter_add sg v k : counter sg (counter sg v + k) = counter sg (v + k).
Proof.
  unfold counter at 1 3. rewrite wrap32_counter_add. reflexivity.
Qed.

Lemma get_socket_context_step sg N w ip_ i s :
  machine_at N w ip_ i s ->
  array_ok (connected_list s) ->
  0 < count (connected_list s) ->
  0 <= index (connected_list s) < 2 ^ 32 ->
  (sg = true -> index (connected_list s) < 2 ^ 31) ->
  exists x,
    get_socket_context sg N w ip_
    = Some (x, mkTables (<[Z.to_nat i := set_connected_list s (bump sg (connected_list s) 1)]>
                           (machine_sockets w)) (socket_contexts_pool w)) /\
    live (connected_list s)
      !! Z.to_nat (wrap32 (index (connected_list s)) mod count (connected_list s)) = Some x.
Proof.
  intros (Hget & Hi & Hs) [Hc Hlen] Hpos Hidx Hsg.
  set (a := connected_list s) in *.
  rewrite (HelloFacts.wrap32_small (index a)) by exact Hidx.
  assert (Hm : 0 <= index a mod count a < count a) by (apply Z.mod_pos_bound; lia).
  assert (Hle : index a mod count a <= index a) by (apply Z.mod_le; lia).
  destruct (at_index_in_range (contexts a) (index a mod count a)) as [x Hx]; [lia|].
  exists x. split.
  - unfold get_socket_context. rewrite Hget. cbn [mbind option_bind].
    destruct (Z.ltb_spec i 0); [lia|].
    rewrite Hs. cbn [mbind option_bind]. fold a.
    destruct (Z.leb_spec (count a) 0); [lia|].
    rewrite Z.rem_mod_nonneg by lia.
    replace (if sg then wrap32 (index a mod count a) else index a mod count a)
      with (index a mod count a)
      by (destruct sg; [rewrite HelloFacts.wrap32_small by lia|]; reflexivity).
    rewrite Hx. cbn [mbind option_bind].
    rewrite store_Some by (apply at_index_lt in Hs; lia).
    reflexivity.
  - unfold live. rewrite lookup_take_lt by lia.
    apply at_index_Some in Hx as [_ Hx]. exact Hx.
Qed.

Lemma get_socket_contexts_spec sg N ip_ i k :
  forall w s,
    machine_at N w ip_ i s ->
    array_ok (connected_list s) ->
    0 < count (connected_list s) ->
    counter_ok sg (index (connected_list s)) ->
    (sg = true -> (0 < k)%nat ->
       0 <= index (connected_list s) /\
       index (connected_list s) + Z.of_nat k <= 2 ^ 31) ->
    exists xs w',
      get_socket_contexts sg N k w ip_ = Some (xs, w') /\
      machine_at N w' ip_ i
        (set_connected_list s (bump sg (connected_list s) (Z.of_nat k))) /\
      socket_contexts_pool w' = socket_contexts_pool w /\
      length xs = k /\
      forall j, (j < k)%nat ->
        xs !! j =
        live (connected_list s)
          !! Z.to_nat (wrap32 (index (connected_list s) + Z.of_nat j)
                       mod count (connected_list s)).
Proof.
  induction k as [|k IH]; intros w s Hat Hok Hpos Hcnt Hidx.
  - exists [], w. split; [reflexivity|]. split.
    + replace (set_connected_list s (bump sg (connected_list s) (Z.of_nat 0))) with s;
        [exact Hat|].
      destruct s as [? ? ? []]. unfold bump, set_connected_list. simpl in *.
      rewrite Z.add_0_r, counter_small by exact Hcnt. reflexivity.
    + split; [reflexivity|]. split; [reflexivity|]. intros; lia.
  - assert (Hrange : 0 <= index (connected_list s) < 2 ^ 32).
    { unfold counter_ok in Hcnt. destruct sg; [|exact Hcnt].
      destruct (Hidx eq_refl) as [? ?]; lia. }
    destruct (get_socket_context_step sg N w ip_ i s Hat Hok Hpos Hrange)
      as (x & Hstep & Hx).
    { intros E. destruct (Hidx E) as [? ?]; lia. }
    pose proof (machine_at_update N w ip_ i s (bump sg (connected_list s) 1) Hat) as Hat1.
    set (s1 := set_connected_list s (bump sg (connected_list s) 1)) in *.
    set (w1 := mkTables _ _) in *.
    destruct (IH w1 s1 Hat1) as (xs & w' & Hrun & Hat' & Hpool & Hlen & Hxs).
    { exact Hok. } { exact Hpos. }
    { simpl. apply counter_is_ok. }
    { intros Es Hk. simpl. destruct (Hidx Es) as [Hnn Hle]; [lia|].
      rewrite counter_small by (unfold counter_ok; rewrite Es; lia). lia. }
    exists (x :: xs), w'. split.
    { cbn [get_socket_contexts]. rewrite Hstep. cbn [mbind option_bind].
      rewrite Hrun. reflexivity. }
    split.
    { replace (set_connected_list s (bump sg (connected_list s) (Z.of_nat (S k))))
        with (set_connected_list s1 (bump sg (connected_list s1) (Z.of_nat k))); [exact Hat'|].
      unfold s1, set_connected_list, bump. simpl. f_equal. f_equal.
      rewrite counter_add. f_equal. lia. }
    split; [rewrite Hpool; reflexivity|].
    split; [simpl; lia|].
    intros [|j] Hj.
    + simpl. rewrite Z.add_0_r, Hx. reflexivity.
    + simpl. rewrite Hxs by lia. simpl. rewrite wrap32_counter_add.
      f_equal. f_equal. f_equal. f_equal. lia.
Qed.

(** *** The free lists that [init_socket_contexts] builds *)

Lemma chain_ext pool pool' hd l :
  chain pool hd l ->
  (forall x, x ∈ l -> pool' !! x = pool !! x) ->
  chain pool' hd l.
Proof.
  induction 1 as [|p c l Hp Hch IH]; intros Hsame; [constructor|].
  econstructor.
  - rewrite Hsame by left. exact Hp.
  - apply IH. intros x Hx. apply Hsame. right. exact Hx.
Qed.

Lemma chain_head pool hd l : chain pool hd l -> hd = head l.
Proof. destruct 1; reflexivity. Qed.

Lemma push_loop_spec ty mi nt k :
  forall w p ti s l,
    at_index (machine_sockets w) mi = Some s ->
    chain (socket_contexts_pool w) (free_list ty s) l ->
    (forall x, x ∈ l -> (x < p)%nat) ->
    (p + k <= length (socket_contexts_pool w))%nat ->
    exists w' s',
      push_loop ty k w mi p ti nt = Some (w', (p + k)%nat, ti + Z.of_nat k) /\
      machine_sockets w' = <[Z.to_nat mi := s']> (machine_sockets w) /\
      s' = set_free_list ty s (free_list ty s') /\
      chain (socket_contexts_pool w') (free_list ty s') (reverse (seq p k) ++ l) /\
      length (socket_contexts_pool w') = length (socket_contexts_pool w) /\
      (forall j, (j < p \/ p + k <= j)%nat ->
         socket_contexts_pool w' !! j = socket_contexts_pool w !! j) /\
      (forall j, (p <= j < p + k)%nat ->
         exists c c', socket_contexts_pool w !! j = Some c /\
           socket_contexts_pool w' !! j = Some c' /\
           connect_type c' = Some ty /\
           thread_context c' = Z.rem (ti + Z.of_nat (j - p)) nt /\
           sock c' = sock c /\ machine c' = machine c).
Proof.
  induction k as [|k IH]; intros w p ti s l Hs Hch Hlt Hlen.
  - exists w, s. cbn [push_loop]. rewrite Nat.add_0_r, Z.add_0_r.
    split; [reflexivity|].
    split. { symmetry. apply list_insert_id. apply at_index_Some in Hs as [_ Hs]. exact Hs. }
    split; [symmetry; apply set_free_list_same|].
    split; [exact Hch|]. split; [reflexivity|]. split; [reflexivity|].
    intros; lia.
  - cbn [push_loop]. unfold push_free.
    destruct (lookup_lt_is_Some_2 (socket_contexts_pool w) p) as [c Hc]; [lia|].
    rewrite Hc. cbn [mbind option_bind]. rewrite Hs. cbn [mbind option_bind].
    pose proof (at_index_lt _ _ _ Hs) as Hmi.
    rewrite store_Some by lia. cbn [mbind option_bind].
    set (c1 := mkSocketContext (sock c) (Some ty) (machine c) (free_list ty s)
                 (Z.rem ti nt)).
    set (w1 := mkTables _ _).
    set (s1 := set_free_list ty s (Some p)).
    assert (Hs1 : at_index (machine_sockets w1) mi = Some s1).
    { unfold w1. cbn [machine_sockets]. rewrite at_index_insert by lia.
      destruct (decide (mi = mi)); [reflexivity | contradiction]. }
    assert (Hch1 : chain (socket_contexts_pool w1) (free_list ty s1) (p :: l)).
    { unfold s1. rewrite free_list_set. econstructor.
      - unfold w1. cbn [socket_contexts_pool]. apply list_lookup_insert_eq. lia.
      - cbn [next c1]. apply (chain_ext _ _ _ _ Hch). intros x Hx.
        unfold w1. cbn [socket_contexts_pool]. apply list_lookup_insert_ne.
        specialize (Hlt x Hx). lia. }
    destruct (IH w1 (S p) (ti + 1) s1 (p :: l) Hs1 Hch1) as
      (w' & s' & Hloop & Hms & Hs' & Hch' & Hlen' & Hout & Hin).
    { intros x Hx. apply elem_of_cons in Hx as [->|Hx]; [lia|]. specialize (Hlt x Hx). lia. }
    { unfold w1. cbn [socket_contexts_pool]. rewrite length_insert. lia. }
    exists w', s'.
    split. { rewrite Hloop. f_equal. f_equal; [f_equal; lia | lia]. }
    split. { rewrite Hms. unfold w1. cbn [machine_sockets].
             apply list_insert_insert_eq. }
    split. { rewrite Hs' at 1. unfold s1. apply set_free_list_twice. }
    split. { replace (reverse (seq p (S k)) ++ l) with (reverse (seq (S p) k) ++ p :: l);
               [exact Hch'|].
             cbn [seq]. rewrite reverse_cons, <- app_assoc. reflexivity. }
    split. { rewrite Hlen'. unfold w1. cbn [socket_contexts_pool]. apply length_insert. }
    split.
    + intros j Hj. rewrite Hout by lia. unfold w1. cbn [socket_contexts_pool].
      apply list_lookup_insert_ne. lia.
    + intros j Hj. destruct (decide (j = p)) as [->|Hne].
      * exists c, c1. split; [exact Hc|]. split.
        { rewrite Hout by lia. unfold w1. cbn [socket_contexts_pool].
          apply list_lookup_insert_eq. lia. }
        rewrite Nat.sub_diag, Z.add_0_r. repeat split; reflexivity.
      * destruct (Hin j) as (c0 & c' & Hc0 & Hc' & Hty & Hth & Hso & Hma); [lia|].
        unfold w1 in Hc0. cbn [socket_contexts_pool] in Hc0.
        rewrite list_lookup_insert_ne in Hc0 by lia.
        exists c0, c'. split; [exact Hc0|]. split; [exact Hc'|]. split; [exact Hty|].
        split; [|split; assumption].
        rewrite Hth. f_equal. lia.
Qed.

Lemma elem_of_pushed a h x : x ∈ pushed a h <-> (a <= x < a + h)%nat.
Proof. unfold pushed. rewrite elem_of_reverse, elem_of_seq. reflexivity. Qed.

Lemma slot_done_ext h pool pool' i s :
  slot_done h pool i s ->
  (forall x, (block h i <= x < block h i + 2 * h)%nat -> pool' !! x = pool !! x) ->
  slot_done h pool' i s.
Proof.
  intros (Hip & Hcl & Ha & Hc & Hta & Htc) Hsame.
  split; [exact Hip|]. split; [exact Hcl|].
  split. { apply (chain_ext _ _ _ _ Ha). intros x Hx. apply Hsame.
           apply elem_of_pushed in Hx. lia. }
  split. { apply (chain_ext _ _ _ _ Hc). intros x Hx. apply Hsame.
           apply elem_of_pushed in Hx. lia. }
  split.
  - intros x Hx. rewrite Hsame by (apply elem_of_pushed in Hx; lia). apply Hta, Hx.
  - intros x Hx. rewrite Hsame by (apply elem_of_pushed in Hx; lia). apply Htc, Hx.
Qed.

Lemma machine_loop_spec h nt n :
  forall w mi,
    init_inv h nt w mi ->
    (mi + n = length (machine_sockets w))%nat ->
    (block h (mi + n) <= length (socket_contexts_pool w))%nat ->
    exists w',
      machine_loop n h w (Z.of_nat mi) (block h mi) (Z.of_nat (2 * h * mi)) nt = Some w' /\
      init_inv h nt w' (mi + n) /\
      length (machine_sockets w') = length (machine_sockets w) /\
      length (socket_contexts_pool w') = length (socket_contexts_pool w).
Proof.
  induction n as [|n IH]; intros w mi Hinv Hn Hpool.
  - exists w. rewrite Nat.add_0_r. split; [reflexivity|]. auto.
  - destruct Hinv as (Hdone & Hrest & Hzero & Hthr).
    cbn [machine_loop].
    destruct (lookup_lt_is_Some_2 (machine_sockets w) mi) as [s Hs]; [lia|].
    pose proof (Hrest mi s (Nat.le_refl _) Hs) as ->.
    assert (Hat : at_index (machine_sockets w) (Z.of_nat mi) = Some zero_slot).
    { apply at_index_Some. rewrite Nat2Z.id. split; [lia | exact Hs]. }
    assert (Hb : (block h (mi + S n) = block h mi + 2 * h + 2 * h * (mi + n) - 2 * h * mi)%nat)
      by (unfold block; nia).
    assert (Hb' : (block h mi + 2 * h <= length (socket_contexts_pool w))%nat)
      by (unfold block in *; nia).
    (* the accept list *)
    destruct (push_loop_spec CONNECT_TYPE_SERVER (Z.of_nat mi) nt h w (block h mi)
                (Z.of_nat (2 * h * mi)) zero_slot [] Hat)
      as (w1 & s1 & Hl1 & Hms1 & Hs1 & Hch1 & Hlen1 & Hout1 & Hin1).
    { constructor. } { intros x Hx. inversion Hx. } { lia. }
    rewrite Hl1. cbn [mbind option_bind].
    rewrite app_nil_r in Hch1.
    assert (Hat1 : at_index (machine_sockets w1) (Z.of_nat mi) = Some s1).
    { rewrite Hms1, at_index_insert by (apply at_index_lt in Hat; lia).
      destruct (decide (Z.of_nat mi = Z.of_nat mi)); [reflexivity | contradiction]. }
    assert (Hc1 : connect_free_list s1 = None) by (rewrite Hs1; reflexivity).
    (* the connect list *)
    destruct (push_loop_spec CONNECT_TYPE_CLIENT (Z.of_nat mi) nt h w1 (block h mi + h)
                (Z.of_nat (2 * h * mi) + Z.of_nat h) s1 [] Hat1)
      as (w2 & s2 & Hl2 & Hms2 & Hs2 & Hch2 & Hlen2 & Hout2 & Hin2).
    { cbn [free_list]. rewrite Hc1. constructor. } { intros x Hx. inversion Hx. } { lia. }
    rewrite Hl2. cbn [mbind option_bind].
    rewrite app_nil_r in Hch2.
    assert (Hms : machine_sockets w2 = <[mi := s2]> (machine_sockets w)).
    { rewrite Hms2, Hms1, Nat2Z.id. apply list_insert_insert_eq. }
    assert (Hinv2 : init_inv h nt w2 (S mi)).
    { split; [|split; [|split]].
      - intros i s Hi Hsi. rewrite Hms in Hsi.
        destruct (decide (i = mi)) as [->|Hne].
        + rewrite list_lookup_insert_eq in Hsi by lia. injection Hsi as <-.
          split; [rewrite Hs2, Hs1; reflexivity|].
          split; [rewrite Hs2, Hs1; reflexivity|].
          split.
          { replace (accept_free_list s2) with (free_list CONNECT_TYPE_SERVER s1)
              by (rewrite Hs2; reflexivity).
            apply (chain_ext _ _ _ _ Hch1). intros x Hx.
            apply elem_of_pushed in Hx. apply Hout2. lia. }
          split; [exact Hch2|].
          split.
          * intros x Hx. apply elem_of_pushed in Hx.
            destruct (Hin1 x) as (c0 & c' & _ & Hc' & Hty & _); [lia|].
            exists c'. split; [|exact Hty]. rewrite Hout2 by lia. exact Hc'.
          * intros x Hx. apply elem_of_pushed in Hx.
            destruct (Hin2 x) as (c0 & c' & _ & Hc' & Hty & _); [lia|].
            exists c'. split; [exact Hc' | exact Hty].
        + rewrite list_lookup_insert_ne in Hsi by lia.
          apply (slot_done_ext h (socket_contexts_pool w)); [apply Hdone; [lia | exact Hsi]|].
          intros x Hx. rewrite Hout2, Hout1; [reflexivity | |];
            left; unfold block in *; nia.
      - intros i s Hi Hsi. rewrite Hms in Hsi.
        rewrite list_lookup_insert_ne in Hsi by lia. apply (Hrest i s); [lia | exact Hsi].
      - intros j c Hj Hc. apply (Hzero j c).
        + unfold block in *. destruct Hj as [->|Hj]; [left; reflexivity | right; nia].
        + rewrite <- Hc. rewrite Hout2, Hout1; [reflexivity | |];
            unfold block in *; destruct Hj as [->|Hj]; solve [left; lia | right; nia].
      - intros j Hj.
        destruct (Nat.lt_ge_cases j (block h mi)) as [Hlo|Hhi].
        + destruct (Hthr j) as (c & Hc & Hth); [lia|].
          exists c. split; [|exact Hth].
          rewrite Hout2, Hout1; [exact Hc | left; lia | left; lia].
        + assert (Hj' : (j < block h mi + 2 * h)%nat) by (unfold block in *; nia).
          assert (Hz0 : forall c0, socket_contexts_pool w !! j = Some c0 ->
                          sock c0 = 0 /\ machine c0 = None).
          { intros c0 Hc0. rewrite (Hzero j c0); [split; reflexivity | right; lia | exact Hc0]. }
          destruct (Nat.lt_ge_cases j (block h mi + h)) as [Hsv|Hcl].
          * destruct (Hin1 j) as (c0 & c' & Hc0 & Hc' & _ & Hth & Hso & Hma); [lia|].
            exists c'. split; [rewrite Hout2 by lia; exact Hc'|].
            destruct (Hz0 c0 Hc0) as [Hz1 Hz2].
            split; [|split; congruence].
            rewrite Hth. f_equal. unfold block in *. lia.
          * destruct (Hin2 j) as (c0 & c' & Hc0 & Hc' & _ & Hth & Hso & Hma); [lia|].
            exists c'. split; [exact Hc'|].
            rewrite Hout1 in Hc0 by lia.
            destruct (Hz0 c0 Hc0) as [Hz1 Hz2].
            split; [|split; congruence].
            rewrite Hth. f_equal. unfold block in *. lia. }
    destruct (IH w2 (S mi) Hinv2) as (w' & Hloop & Hinv' & Hlm & Hlp).
    { rewrite Hms, length_insert. lia. }
    { rewrite Hlen2, Hlen1. replace (S mi + n)%nat with (mi + S n)%nat by lia. exact Hpool. }
    exists w'. split.
    { rewrite <- Hloop. f_equal.
      - lia.
      - unfold block. lia.
      - lia. }
    split; [replace (mi + S n)%nat with (S mi + n)%nat by lia; exact Hinv'|].
    split; [rewrite Hlm, Hms, length_insert; reflexivity|].
    rewrite Hlp, Hlen2, Hlen1. reflexivity.
Qed.

Lemma chain_cons_inv pool hd p l :
  chain pool hd (p :: l) ->
  hd = Some p /\ exists c, pool !! p = Some c /\ chain pool (next c) l.
Proof. inversion 1; subst; eauto. Qed.

Lemma get_machine_index_free_list ty N t i s v ip_ :
  at_index t i = Some s ->
  get_machine_index N (<[Z.to_nat i := set_free_list ty s v]> t) ip_
  = get_machine_index N t ip_.
Proof.
  intros Hs. pose proof (at_index_lt _ _ _ Hs) as Hlt.
  apply get_machine_index_ext. intros k.
  destruct (Z.ltb_spec k 0) as [Hk|Hk].
  { unfold at_index. destruct (Z.ltb_spec k 0); [exact I | lia]. }
  rewrite at_index_insert by lia.
  destruct (decide (k = i)) as [->|Hki].
  - rewrite Hs, ip_set_free_list. reflexivity.
  - destruct (at_index t k); [reflexivity | exact I].
Qed.

(** One request pops the free list of the machine's slot. *)
Lemma alloc_sock_context_pop ty N w ip_ i t1 s1 l :
  machine_slot N (machine_sockets w) ip_ = Some (Some (i, t1)) ->
  at_index t1 i = Some s1 ->
  chain (socket_contexts_pool w) (free_list ty s1) l ->
  alloc_sock_context ty N w ip_
  = Some (head l,
          mkTables (<[Z.to_nat i := set_free_list ty s1 (head (tail l))]> t1)
            (socket_contexts_pool w)).
Proof.
  intros Hslot Hs1 Hch. unfold alloc_sock_context.
  rewrite Hslot. cbn [mbind option_bind]. rewrite Hs1. cbn [mbind option_bind].
  pose proof (at_index_lt _ _ _ Hs1) as Hlt.
  destruct (free_list ty s1) as [p|] eqn:Hfl.
  - inversion Hch as [|p' c l' Hp Hch']; subst.
    rewrite Hp. cbn [mbind option_bind head tail].
    rewrite store_Some by lia. cbn [mbind option_bind].
    rewrite (chain_head _ _ _ Hch'). reflexivity.
  - inversion Hch; subst. cbn [head tail].
    rewrite <- Hfl, set_free_list_same.
    rewrite list_insert_id by (apply at_index_Some in Hs1 as [_ Hs1]; exact Hs1).
    reflexivity.
Qed.

Lemma alloc_sock_contexts_drain ty N ip_ i l :
  forall w s,
    0 < N -> Z.of_nat (length (machine_sockets w)) = N ->
    get_machine_index N (machine_sockets w) ip_ = Some i -> 0 <= i ->
    at_index (machine_sockets w) i = Some s ->
    chain (socket_contexts_pool w) (free_list ty s) l ->
    exists w',
      alloc_sock_contexts ty N (S (length l)) w ip_ = Some ((Some <$> l) ++ [None], w') /\
      socket_contexts_pool w' = socket_contexts_pool w /\
      machine_sockets w' = <[Z.to_nat i := set_free_list ty s None]> (machine_sockets w).
Proof.
  induction l as [|p l IH]; intros w s HN Hlen Hget Hi Hs Hch;
    pose proof (at_index_lt _ _ _ Hs) as Hlt;
    assert (Hslot : machine_slot N (machine_sockets w) ip_
                    = Some (Some (i, machine_sockets w)))
      by (unfold machine_slot; rewrite Hget; cbn [mbind option_bind];
          destruct (Z.ltb_spec i 0); [lia | reflexivity]).
  - cbn [alloc_sock_contexts length].
    rewrite (alloc_sock_context_pop ty N w ip_ i _ s [] Hslot Hs Hch).
    cbn [mbind option_bind head tail fmap list_fmap app].
    eexists. split; [reflexivity|]. split; reflexivity.
  - cbn [alloc_sock_contexts length].
    rewrite (alloc_sock_context_pop ty N w ip_ i _ s (p :: l) Hslot Hs Hch).
    cbn [mbind option_bind head tail].
    set (s1 := set_free_list ty s (head l)).
    set (w1 := mkTables _ _).
    destruct (chain_cons_inv _ _ _ _ Hch) as (Hhd & c & Hp & Hch').
    destruct (IH w1 s1 HN) as (w' & Hrun & Hpool & Hms).
    { unfold w1. cbn [machine_sockets]. rewrite length_insert. exact Hlen. }
    { unfold w1, s1. cbn [machine_sockets].
      rewrite get_machine_index_free_list by exact Hs. exact Hget. }
    { exact Hi. }
    { unfold w1. cbn [machine_sockets]. rewrite at_index_insert by lia.
      destruct (decide (i = i)); [reflexivity | contradiction]. }
    { unfold s1, w1. cbn [socket_contexts_pool]. rewrite free_list_set.
      rewrite <- (chain_head _ _ _ Hch'). exact Hch'. }
    cbn [alloc_sock_contexts] in Hrun. rewrite Hrun. cbn [mbind option_bind].
    eexists. split; [reflexivity|]. split; [exact Hpool|].
    rewrite Hms. unfold w1, s1. cbn [machine_sockets].
    rewrite list_insert_insert_eq, set_free_list_twice. reflexivity.
Qed.

Lemma replicate_at {A} n (x : A) i :
  0 <= i < Z.of_nat n -> at_index (replicate n x) i = Some x.
Proof.
  intros Hi. apply at_index_Some. split; [lia|]. apply lookup_replicate_2. lia.
Qed.

(** [init_socket_contexts] on the zeroed table. *)
Lemma init_socket_contexts_spec N num nt :
  0 < N -> 0 <= num ->
  exists w,
    init_socket_contexts N num nt (replicate (Z.to_nat N) zero_slot) = Some w /\
    length (machine_sockets w) = Z.to_nat N /\
    Z.of_nat (length (socket_contexts_pool w)) = num * N + 1 /\
    init_inv (Z.to_nat (Z.quot num 2)) nt w (Z.to_nat N).
Proof.
  intros HN Hnum. unfold init_socket_contexts.
  set (h := Z.to_nat (Z.quot num 2)).
  set (w0 := mkTables _ _).
  assert (Hh : 2 * Z.of_nat h <= num).
  { unfold h. assert (H2 : 0 < 2) by lia.
    pose proof (Z.quot_pos num 2 Hnum H2).
    pose proof (Z.quot_rem' num 2). pose proof (Z.rem_bound_pos num 2 Hnum H2). lia. }
  destruct (machine_loop_spec h nt (Z.to_nat N) w0 0) as (w & Hloop & Hinv & Hlm & Hlp).
  - split; [intros; lia|]. split; [|split].
    + intros i s _ Hs. unfold w0 in Hs. cbn [machine_sockets] in Hs.
      apply lookup_replicate in Hs as [-> _]. reflexivity.
    + intros j c _ Hc. unfold w0 in Hc. cbn [socket_contexts_pool] in Hc.
      apply lookup_replicate in Hc as [-> _]. reflexivity.
    + intros j Hj. unfold block in Hj. lia.
  - unfold w0. cbn [machine_sockets]. rewrite length_replicate. lia.
  - unfold w0. cbn [socket_contexts_pool]. rewrite length_replicate. unfold block. nia.
  - exists w. split.
    { rewrite <- Hloop. f_equal; unfold block; lia. }
    split; [rewrite Hlm; unfold w0; cbn [machine_sockets]; apply length_replicate|].
    split; [rewrite Hlp; unfold w0; cbn [socket_contexts_pool];
            rewrite length_replicate; nia|].
    exact Hinv.
Qed.

Lemma alloc_sock_contexts_serves ty N ip_ i t1 s1 l w :
  0 < N -> Z.of_nat (length (machine_sockets w)) = N ->
  machine_slot N (machine_sockets w) ip_ = Some (Some (i, t1)) ->
  at_index t1 i = Some s1 ->
  chain (socket_contexts_pool w) (free_list ty s1) l ->
  exists w',
    alloc_sock_contexts ty N (S (length l)) w ip_ = Some ((Some <$> l) ++ [None], w') /\
    socket_contexts_pool w' = socket_contexts_pool w /\
    machine_sockets w' = <[Z.to_nat i := set_free_list ty s1 None]> t1.
Proof.
  intros HN Hlen Hslot Hs1 Hch.
  pose proof (at_index_lt _ _ _ Hs1) as Hlt.
  destruct (machine_slot_spec N (machine_sockets w) ip_ HN Hlen) as (r & Hr & Hres).
  rewrite Hslot in Hr. injection Hr as <-.
  destruct Hres as (Hi & Hget & s & Hs & _ & Ht1).
  assert (Hlen1 : Z.of_nat (length t1) = N) by (subst t1; rewrite length_insert; exact Hlen).
  destruct l as [|p l].
  - cbn [alloc_sock_contexts length].
    rewrite (alloc_sock_context_pop ty N w ip_ i t1 s1 [] Hslot Hs1 Hch).
    cbn [mbind option_bind head tail fmap list_fmap app].
    eexists. split; [reflexivity|]. split; reflexivity.
  - change (S (length (p :: l))) with (S (S (length l))).
    remember (S (length l)) as k eqn:Hk. cbn [alloc_sock_contexts].
    rewrite (alloc_sock_context_pop ty N w ip_ i t1 s1 (p :: l) Hslot Hs1 Hch).
    cbn [mbind option_bind head tail].
    destruct (chain_cons_inv _ _ _ _ Hch) as (Hhd & c & Hp & Hch').
    set (s2 := set_free_list ty s1 (head l)).
    set (w1 := mkTables _ _).
    destruct (alloc_sock_contexts_drain ty N ip_ i l w1 s2 HN) as (w' & Hrun & Hpool & Hms).
    { unfold w1. cbn [machine_sockets]. rewrite length_insert. exact Hlen1. }
    { unfold w1, s2. cbn [machine_sockets].
      rewrite get_machine_index_free_list by exact Hs1. exact Hget. }
    { lia. }
    { unfold w1. cbn [machine_sockets]. rewrite at_index_insert by lia.
      destruct (decide (i = i)); [reflexivity | contradiction]. }
    { unfold s2, w1. cbn [socket_contexts_pool]. rewrite free_list_set.
      rewrite <- (chain_head _ _ _ Hch'). exact Hch'. }
    subst k. rewrite Hrun. cbn [mbind option_bind].
    eexists. split; [reflexivity|]. split; [exact Hpool|].
    rewrite Hms. unfold w1, s2. cbn [machine_sockets].
    rewrite list_insert_insert_eq, set_free_list_twice. reflexivity.
Qed.

(** In a table without machines the slot of [ip_] is [ip_ mod N]. *)
Lemma machine_slot_fresh N t ip_ :
  0 < N -> Z.of_nat (length t) = N ->
  (forall s, s ∈ t -> ip s = 0) ->
  exists s,
    at_index t (ip_ mod N) = Some s /\
    machine_slot N t ip_
    = Some (Some (ip_ mod N, <[Z.to_nat (ip_ mod N) := set_ip s ip_]> t)).
Proof.
  intros HN Hlen Hzero.
  assert (Hid : 0 <= ip_ mod N < N) by (apply Z.mod_pos_bound; lia).
  destruct (at_index_in_range t (ip_ mod N)) as [s Hs]; [lia|].
  assert (Hips : ip s = 0).
  { apply Hzero. apply at_index_Some in Hs as [_ Hs]. apply (list_elem_of_lookup_2 _ _ _ Hs). }
  exists s. split; [exact Hs|].
  unfold machine_slot.
  destruct (Z.eq_dec ip_ 0) as [->|Hne].
  - unfold get_machine_index. rewrite Hs. cbn [mbind option_bind].
    rewrite Hips. cbn [Z.eqb mbind option_bind].
    destruct (Z.ltb_spec (0 mod N) 0); [lia|].
    assert (Hsame : set_ip s 0 = s) by (rewrite <- Hips; apply set_ip_same).
    rewrite Hsame, list_insert_id; [reflexivity|].
    apply at_index_Some in Hs as [_ Hs]. exact Hs.
  - destruct (get_machine_index_total N t ip_ HN Hlen) as (r & Hget & Hres).
    rewrite Hget. cbn [mbind option_bind].
    destruct Hres as [[-> _]|(_ & s' & Hs' & Hip')].
    + destruct (Z.ltb_spec (-1) 0); [|lia].
      unfold alloc_machine_index. rewrite Hs. cbn [mbind option_bind].
      rewrite Hips. cbn [Z.eqb mbind option_bind].
      destruct (Z.ltb_spec (ip_ mod N) 0); [lia|].
      rewrite Hs. cbn [mbind option_bind].
      rewrite store_Some by lia. reflexivity.
    + exfalso. apply Hne. rewrite <- Hip'. apply Hzero.
      apply at_index_Some in Hs' as [_ Hs']. apply (list_elem_of_lookup_2 _ _ _ Hs').
Qed.

(** *** The statements *)

(** X1.  [get_machine_index] always answers: with -1 exactly when no slot
    of the table holds the ip, and otherwise with the index of a slot that
    holds it.  The probe visits every slot, so a machine that is in the
    table is found wherever the collisions put it. *)
Theorem get_machine_index_finds N t ip_ :
  0 < N -> Z.of_nat (length t) = N ->
  exists r,
    get_machine_index N t ip_ = Some r /\
    ((r = -1 /\ forall s, s ∈ t -> ip s <> ip_) \/
     (0 <= r < N /\ exists s, at_index t r = Some s /\ ip s = ip_)).
Proof. intros HN Hlen. exact (get_machine_index_total N t ip_ HN Hlen). Qed.

(** Machine 7 collided with machine 4 and is found one slot further. *)
Lemma get_machine_index_finds_witness :
  exists r,
    get_machine_index 3 (machine_sockets sample_tables) 7 = Some r /\
    ((r = -1 /\ forall s, s ∈ machine_sockets sample_tables -> ip s <> 7) \/
     (0 <= r < 3 /\ exists s, at_index (machine_sockets sample_tables) r = Some s /\ ip s = 7)).
Proof. apply (get_machine_index_finds 3); [lia | reflexivity]. Defined.

Lemma sample_heads ty : heads_in_pool ty sample_tables.
Proof.
  intros s p Hs Hp. simpl in Hs.
  repeat (apply elem_of_cons in Hs as [->|Hs]); [| | |inversion Hs];
    destruct ty; simpl in Hp; try discriminate.
  injection Hp as <-. eexists. reflexivity.
Qed.

(** A client context is asked for machine 9, which is not in the table
    yet. *)
Lemma alloc_sock_context_registers_witness :
  exists r w',
    alloc_sock_context CONNECT_TYPE_CLIENT 3 sample_tables 9 = Some (r, w') /\
    (forall ip', ip' <> 0 -> ip' <> 9 ->
       get_machine_index 3 (machine_sockets w') ip'
       = get_machine_index 3 (machine_sockets sample_tables) ip') /\
    ((r = None /\ w' = sample_tables /\
      forall s, s ∈ machine_sockets sample_tables -> ip s <> 9 /\ ip s <> 0) \/
     (exists i s,
        0 <= i < 3 /\
        get_machine_index 3 (machine_sockets w') 9 = Some i /\
        at_index (machine_sockets sample_tables) i = Some s /\
        (ip s = 9 \/ ip s = 0) /\
        r = free_list CONNECT_TYPE_CLIENT s)).
Proof.
  apply (alloc_sock_context_registers CONNECT_TYPE_CLIENT 3 sample_tables 9);
    [lia | reflexivity | apply sample_heads].
Defined.

(** Context 3 of machine 4 is given back and asked for again. *)
Lemma free_then_alloc_sock_context_witness :
  exists w1 w2 s,
    free_sock_context CONNECT_TYPE_CLIENT 3 sample_tables 3 = Some w1 /\
    alloc_sock_context CONNECT_TYPE_CLIENT 3 w1 4 = Some (Some 3%nat, w2) /\
    machine_sockets w2 = machine_sockets sample_tables /\
    at_index (machine_sockets sample_tables) 1 = Some s /\
    socket_contexts_pool w2
    = <[3%nat := set_next (mkSocketContext (-1) (Some CONNECT_TYPE_CLIENT) (Some 4) None 0)
                   (free_list CONNECT_TYPE_CLIENT s)]> (socket_contexts_pool sample_tables).
Proof.
  apply (free_then_alloc_sock_context CONNECT_TYPE_CLIENT 3 sample_tables 3 _ 4 1);
    [lia | reflexivity | reflexivity | reflexivity | reflexivity | lia].
Defined.

(** X4.  [init_socket_contexts] on the zeroed table stays within the pool
    of [num_of_cluster_connections * MAX_MACHINE_COUNT + 1] contexts and
    leaves context 0 untouched.  Every machine slot [i] gets
    [num_of_cluster_connections / 2] server contexts on its accept free
    list and as many client contexts on its connect free list, taken from
    the pool in this order, and context [j] belongs to the worker thread
    [(j - 1) % num_of_cluster_threads]. *)
Theorem init_socket_contexts_layout N num nt :
  0 < N -> 0 <= num -> 0 < nt ->
  exists w,
    init_socket_contexts N num nt (replicate (Z.to_nat N) zero_slot) = Some w /\
    length (machine_sockets w) = Z.to_nat N /\
    Z.of_nat (length (socket_contexts_pool w)) = num * N + 1 /\
    socket_contexts_pool w !! 0%nat = Some zero_context /\
    (forall i s, machine_sockets w !! i = Some s ->
       slot_done (Z.to_nat (Z.quot num 2)) (socket_contexts_pool w) i s) /\
    (forall j, (1 <= j < block (Z.to_nat (Z.quot num 2)) (Z.to_nat N))%nat ->
       exists c, socket_contexts_pool w !! j = Some c /\
         thread_context c = Z.of_nat (j - 1) mod nt).
Proof.
  intros HN Hnum Hnt.
  destruct (init_socket_contexts_spec N num nt HN Hnum)
    as (w & Hinit & Hlm & Hlp & Hdone & _ & Hzero & Hthr).
  exists w. split; [exact Hinit|]. split; [exact Hlm|]. split; [exact Hlp|].
  split.
  { destruct (lookup_lt_is_Some_2 (socket_contexts_pool w) 0) as [c Hc]; [lia|].
    rewrite Hc. f_equal. apply (Hzero 0%nat c); [left; reflexivity | exact Hc]. }
  split.
  { intros i s Hs. apply (Hdone i s); [|exact Hs].
    apply lookup_lt_Some in Hs. lia. }
  intros j Hj. destruct (Hthr j Hj) as (c & Hc & Hth & _).
  exists c. split; [exact Hc|]. rewrite Hth. apply Z.rem_mod_nonneg; lia.
Qed.

(** Two machines, four connections a machine, three worker threads. *)
Lemma init_socket_contexts_layout_witness :
  exists w,
    init_socket_contexts 2 4 3 (replicate (Z.to_nat 2) zero_slot) = Some w /\
    length (machine_sockets w) = Z.to_nat 2 /\
    Z.of_nat (length (socket_contexts_pool w)) = 4 * 2 + 1 /\
    socket_contexts_pool w !! 0%nat = Some zero_context /\
    (forall i s, machine_sockets w !! i = Some s ->
       slot_done (Z.to_nat (Z.quot 4 2)) (socket_contexts_pool w) i s) /\
    (forall j, (1 <= j < block (Z.to_nat (Z.quot 4 2)) (Z.to_nat 2))%nat ->
       exists c, socket_contexts_pool w !! j = Some c /\
         thread_context c = Z.of_nat (j - 1) mod 3).
Proof. apply (init_socket_contexts_layout 2 4 3); lia. Defined.

(** X5.  After [init_socket_contexts] a machine is served
    [num_of_cluster_connections / 2] contexts of a role and no more: the
    requests are answered with the contexts of the block of slot
    [ip % MAX_MACHINE_COUNT], the last one of the block first, and the
    request after them with NULL. *)
Theorem init_then_alloc_sock_contexts ty N num nt ip_ :
  0 < N -> 0 <= num ->
  exists w w',
    init_socket_contexts N num nt (replicate (Z.to_nat N) zero_slot) = Some w /\
    let h := Z.to_nat (Z.quot num 2) in
    let first := (block h (Z.to_nat (ip_ mod N))
                  + match ty with
                    | CONNECT_TYPE_SERVER => 0
                    | CONNECT_TYPE_CLIENT => h
                    end)%nat in
    alloc_sock_contexts ty N (S h) w ip_ = Some ((Some <$> pushed first h) ++ [None], w') /\
    forall x, x ∈ pushed first h ->
      (1 <= x < length (socket_contexts_pool w))%nat /\
      exists c, socket_contexts_pool w !! x = Some c /\ connect_type c = Some ty.
Proof.
  intros HN Hnum.
  destruct (init_socket_contexts_spec N num nt HN Hnum)
    as (w & Hinit & Hlm & Hlp & Hdone & _ & _ & _).
  set (h := Z.to_nat (Z.quot num 2)) in *.
  assert (Hid : 0 <= ip_ mod N < N) by (apply Z.mod_pos_bound; lia).
  assert (HlenN : Z.of_nat (length (machine_sockets w)) = N) by lia.
  assert (Hzero : forall s, s ∈ machine_sockets w -> ip s = 0).
  { intros s Hs. apply list_elem_of_lookup_1 in Hs as [i Hi].
    pose proof (lookup_lt_Some _ _ _ Hi).
    destruct (Hdone i s) as (Hip & _); [lia | exact Hi | exact Hip]. }
  destruct (machine_slot_fresh N (machine_sockets w) ip_ HN HlenN Hzero) as (s & Hs & Hslot).
  apply at_index_Some in Hs as Hs'. destruct Hs' as [_ Hs'].
  destruct (Hdone (Z.to_nat (ip_ mod N)) s) as (_ & _ & Hacc & Hcon & Htya & Htyc);
    [lia | exact Hs'|].
  set (first := (block h (Z.to_nat (ip_ mod N))
                 + match ty with
                   | CONNECT_TYPE_SERVER => 0
                   | CONNECT_TYPE_CLIENT => h
                   end)%nat).
  assert (Hch : chain (socket_contexts_pool w) (free_list ty (set_ip s ip_)) (pushed first h)).
  { unfold first. destruct ty; cbn [free_list set_ip connect_free_list accept_free_list].
    - exact Hcon.
    - rewrite Nat.add_0_r. exact Hacc. }
  destruct (alloc_sock_contexts_serves ty N ip_ (ip_ mod N) _ (set_ip s ip_)
              (pushed first h) w HN HlenN Hslot) as (w' & Hrun & _).
  { rewrite at_index_insert by lia.
    destruct (decide (ip_ mod N = ip_ mod N)); [reflexivity | contradiction]. }
  { exact Hch. }
  assert (Hlp' : length (pushed first h) = h)
    by (unfold pushed; rewrite length_reverse, length_seq; reflexivity).
  rewrite Hlp' in Hrun.
  exists w, w'. split; [exact Hinit|]. split; [exact Hrun|].
  intros x Hx.
  assert (Hty : exists c, socket_contexts_pool w !! x = Some c /\ connect_type c = Some ty).
  { unfold first in Hx. destruct ty.
    - apply Htyc, Hx.
    - rewrite Nat.add_0_r in Hx. apply Htya, Hx. }
  split; [|exact Hty].
  destruct Hty as (c & Hc & _). apply lookup_lt_Some in Hc.
  apply elem_of_pushed in Hx. unfold first, block in Hx. lia.
Qed.

(** Machine 5 asks for client contexts; it gets the two of slot 1. *)
Lemma init_then_alloc_sock_contexts_witness :
  exists w w',
    init_socket_contexts 2 4 3 (replicate (Z.to_nat 2) zero_slot) = Some w /\
    alloc_sock_contexts CONNECT_TYPE_CLIENT 2 3 w 5
    = Some ([Some 8%nat; Some 7%nat; None], w') /\
    forall x, x ∈ [8%nat; 7%nat] ->
      (1 <= x < length (socket_contexts_pool w))%nat /\
      exists c, socket_contexts_pool w !! x = Some c /\
        connect_type c = Some CONNECT_TYPE_CLIENT.
Proof.
  apply (init_then_alloc_sock_contexts CONNECT_TYPE_CLIENT 2 4 3 5); lia.
Defined.

Lemma sample_connected_at :
  connected_at 3 sample_tables 3 1
    (mkSlot 4 (Some 5%nat) None (mkArray [Some 7%nat; Some 8%nat; None; None] 2 4 0)).
Proof.
  eexists _, 4. split; [reflexivity|]. split; [reflexivity|].
  split; [reflexivity|]. split; [lia | reflexivity].
Qed.

Lemma sample_array_ok : array_ok (mkArray [Some 7%nat; Some 8%nat; None; None] 2 4 0).
Proof. split; simpl; lia. Qed.

(** Context 3 of machine 4 connects and disconnects again. *)
Lemma add_then_remove_machine_sock_context_witness :
  exists w1 s1 w2 s2,
    add_machine_sock_context 3 sample_tables 3 None = Some (0, w1) /\
    connected_at 3 w1 3 1 s1 /\
    live (connected_list s1) = [Some 7%nat; Some 8%nat] ++ [Some 3%nat] /\
    array_ok (connected_list s1) /\
    alloc_size (connected_list s1) = 4 /\
    remove_machine_sock_context 3 w1 3 = Some (0, w2) /\
    connected_at 3 w2 3 1 s2 /\
    live (connected_list s2) = [Some 7%nat; Some 8%nat] /\
    array_ok (connected_list s2).
Proof.
  apply (add_then_remove_machine_sock_context 3 sample_tables 3 1 _
           sample_connected_at sample_array_ok).
  simpl. intros Hin.
  repeat (apply elem_of_cons in Hin as [Hin|Hin]; [discriminate|]). inversion Hin.
Defined.

(** Context 8 of machine 4 disconnects. *)
Lemma remove_machine_sock_context_first_witness :
  exists r w' s',
    remove_machine_sock_context 3
      (mkTables (machine_sockets sample_tables)
         (<[8%nat := mkSocketContext 5 (Some CONNECT_TYPE_CLIENT) (Some 4) None 0]>
            sample_pool)) 8 = Some (r, w') /\
    connected_at 3 w' 8 1 s' /\
    array_ok (connected_list s') /\
    ((r = ENOENT /\ (Some 8%nat ∉ [Some 7%nat; Some 8%nat]) /\
      w' = mkTables (machine_sockets sample_tables)
             (<[8%nat := mkSocketContext 5 (Some CONNECT_TYPE_CLIENT) (Some 4) None 0]>
                sample_pool)) \/
     (r = 0 /\ exists l1 l2,
        [Some 7%nat; Some 8%nat] = l1 ++ Some 8%nat :: l2 /\ (Some 8%nat ∉ l1) /\
        live (connected_list s') = l1 ++ l2)).
Proof.
  apply (remove_machine_sock_context_first 3 _ 8 1
           (mkSlot 4 (Some 5%nat) None (mkArray [Some 7%nat; Some 8%nat; None; None] 2 4 0))).
  - eexists _, 4. split; [reflexivity|]. split; [reflexivity|].
    split; [reflexivity|]. split; [lia | reflexivity].
  - exact sample_array_ok.
Defined.

(** X8.  [get_socket_context] goes round the connected contexts of the
    machine.  The counter is a 32-bit integer that wraps around: the
    [j]-th of [k] calls in a row answers with the context at position
    [((index + j) mod 2^32) % count], for an [unsigned int] counter
    whatever [k] is, for an [int] counter as long as the calls do not
    take it past [2^31 - 1].  So [count] calls in a row answer with every
    connected context once unless the counter wraps among them, and an
    [unsigned int] counter that wraps starts again at position 0.  The
    calls change nothing but the counter. *)
Theorem get_socket_context_round_robin sg N ip_ i k w s :
  machine_at N w ip_ i s ->
  array_ok (connected_list s) ->
  0 < count (connected_list s) ->
  counter_ok sg (index (connected_list s)) ->
  (sg = true ->
     0 <= index (connected_list s) /\
     index (connected_list s) + Z.of_nat k <= 2 ^ 31) ->
  exists xs w',
    get_socket_contexts sg N k w ip_ = Some (xs, w') /\
    machine_at N w' ip_ i
      (set_connected_list s (bump sg (connected_list s) (Z.of_nat k))) /\
    socket_contexts_pool w' = socket_contexts_pool w /\
    length xs = k /\
    forall j, (j < k)%nat ->
      xs !! j =
      live (connected_list s)
        !! Z.to_nat (wrap32 (index (connected_list s) + Z.of_nat j)
                     mod count (connected_list s)).
Proof.
  intros Hat Hok Hpos Hcnt Hidx.
  destruct (get_socket_contexts_spec sg N ip_ i k w s Hat Hok Hpos Hcnt)
    as (xs & w' & Hrun & Hat' & Hpool & Hlen & Hxs).
  { intros E _. exact (Hidx E). }
  exists xs, w'. auto.
Qed.

(** Five calls for machine 4, which has the contexts 7 and 8 connected
    and an [unsigned int] counter one short of its highest value: the
    second call finds the counter at [2^32 - 1], the third at 0. *)
Lemma get_socket_context_round_robin_witness :
  exists xs w',
    get_socket_contexts false 3 5 sample_wrap_tables 4 = Some (xs, w') /\
    machine_at 3 w' 4 1
      (mkSlot 4 (Some 5%nat) None (mkArray [Some 7%nat; Some 8%nat; None; None] 2 4 3)) /\
    socket_contexts_pool w' = socket_contexts_pool sample_wrap_tables /\
    length xs = 5%nat /\
    forall j, (j < 5)%nat ->
      xs !! j = [Some 7%nat; Some 8%nat]
                  !! Z.to_nat (wrap32 (2 ^ 32 - 2 + Z.of_nat j) mod 2).
Proof.
  apply (get_socket_context_round_robin false 3 4 1 5 sample_wrap_tables
           (mkSlot 4 (Some 5%nat) None
              (mkArray [Some 7%nat; Some 8%nat; None; None] 2 4 (2 ^ 32 - 2)))).
  - split; [reflexivity|]. split; [lia | reflexivity].
  - split; simpl; lia.
  - simpl. lia.
  - unfold counter_ok. simpl. lia.
  - discriminate.
Defined.

End MachineFacts.

(** ** The connections in progress *)
Module ConnectionFacts.
Import Connections.
Import MachineFacts.

Lemma listed_lookup t i :
  (i < Z.to_nat (connection_count t))%nat -> listed t !! i = connections t !! i.
Proof. intros Hi. unfold listed. apply lookup_take_lt. exact Hi. Qed.

Lemma thread_ok_entry t i :
  thread_ok t -> (i < Z.to_nat (connection_count t))%nat ->
  exists p e, connections t !! i = Some (Some p) /\ connections_buffer t !! p = Some e.
Proof.
  intros (Hc & Hlen & Hbuf & Hall) Hi.
  destruct (lookup_lt_is_Some_2 (connections t) i) as [x Hx]; [lia|].
  destruct (Hall x) as (p & -> & [e He]).
  { apply (list_elem_of_lookup_2 _ i). rewrite listed_lookup by exact Hi. exact Hx. }
  eauto.
Qed.

(** The search stops at the first listed entry that points to [pSock]. *)
Lemma search_first t pSock turns :
  thread_ok t ->
  forall i, (i + turns <= Z.to_nat (connection_count t))%nat ->
    exists r, search t pSock i turns = Some r /\
      (i <= r <= i + turns)%nat /\
      (forall j x, (i <= j < r)%nat -> connections t !! j = Some x ->
         ~ points_to t pSock x) /\
      ((r < i + turns)%nat ->
         exists x, connections t !! r = Some x /\ points_to t pSock x).
Proof.
  intros Hok. induction turns as [|k IH]; intros i Hlen.
  - exists i. simpl. split; [reflexivity|]. split; [lia|]. split; intros; lia.
  - cbn [search].
    destruct (thread_ok_entry t i Hok) as (p & e & Hp & He); [lia|].
    rewrite Hp. cbn [mbind option_bind]. rewrite He. cbn [mbind option_bind].
    destruct (decide (pSockContext e = Some pSock)) as [Heq|Hne].
    + exists i. split; [reflexivity|]. split; [lia|]. split; [intros; lia|].
      intros _. exists (Some p). split; [exact Hp|]. exists p, e. auto.
    + destruct (IH (S i)) as (r & Hr & Hrange & Hbefore & Hat); [lia|].
      exists r. split; [exact Hr|]. split; [lia|]. split.
      * intros j x Hj Hx. destruct (decide (j = i)) as [->|?].
        -- rewrite Hp in Hx. injection Hx as <-.
           intros (p' & e' & Hp' & He' & Hs'). injection Hp' as <-.
           rewrite He in He'. injection He' as <-. contradiction.
        -- apply (Hbefore j x); [lia | exact Hx].
      * intros Hlt. apply Hat. lia.
Qed.

Lemma remove_connection_spec t pSock needLock :
  thread_ok t ->
  exists r t',
    remove_connection t pSock needLock = Some (r, t') /\
    ((r = ENOENT /\
      (forall x, x ∈ listed t -> ~ points_to t pSock x) /\
      t' = set_lock t false) \/
     (r = 0 /\
      exists l1 p e l2,
        listed t = l1 ++ Some p :: l2 /\
        (forall x, x ∈ l1 -> ~ points_to t pSock x) /\
        connections_buffer t !! p = Some e /\ pSockContext e = Some pSock /\
        listed t' = l1 ++ l2 /\
        connections_buffer t' = <[p := unuse e]> (connections_buffer t) /\
        connection_count t' = connection_count t - 1 /\
        alloc_size t' = alloc_size t /\
        length (connections t') = length (connections t) /\
        lock t' = (if needLock then false else lock t))).
Proof.
  intros Hok. pose proof Hok as (Hc & Hlen & Hbuf & Hall).
  unfold remove_connection.
  destruct (Z.ltb_spec (connection_count t) 0); [lia|].
  set (t0 := if needLock then set_lock t true else t).
  assert (Hsame : connections t0 = connections t /\
                  connections_buffer t0 = connections_buffer t /\
                  connection_count t0 = connection_count t /\
                  alloc_size t0 = alloc_size t)
    by (unfold t0; destruct needLock; auto).
  destruct Hsame as (Hs1 & Hs2 & Hs3 & Hs4).
  assert (Hok0 : thread_ok t0) by (unfold t0; destruct needLock; exact Hok).
  set (n := Z.to_nat (connection_count t)).
  rewrite Hs3. fold n.
  destruct (search_first t0 pSock n Hok0 0) as (i & Hi & Hrange & Hbefore & Hat);
    [rewrite Hs3; fold n; lia|].
  rewrite Hi. cbn [mbind option_bind]. simpl in Hrange, Hat.
  assert (Hpt : forall x, points_to t0 pSock x <-> points_to t pSock x).
  { intros x. unfold points_to. rewrite Hs2. reflexivity. }
  destruct (decide (i = n)) as [->|Hne].
  - eexists _, _. split; [reflexivity|]. left. split; [reflexivity|]. split.
    + intros x Hx. apply list_elem_of_lookup_1 in Hx as [j Hj].
      pose proof (lookup_lt_Some _ _ _ Hj) as Hlt. unfold listed in Hlt.
      rewrite length_take in Hlt.
      rewrite listed_lookup in Hj by (fold n; lia).
      rewrite <- Hpt. apply (Hbefore j x); [lia|]. rewrite Hs1. exact Hj.
    + unfold t0. destruct needLock; reflexivity.
  - assert (Hf : (i < n)%nat) by lia.
    destruct (Hat Hf) as (x & Hx & p & e & -> & He & Hps).
    rewrite Hx. cbn [mbind option_bind]. rewrite He. cbn [mbind option_bind].
    rewrite Hs1 in Hx. rewrite Hs2 in He.
    rewrite Hs1. rewrite shift_left_spec by lia. cbn [mbind option_bind].
    eexists _, _. split; [reflexivity|]. right. split; [reflexivity|].
    exists (take i (connections t)), p, e, (take (n - S i) (drop (S i) (connections t))).
    assert (Hl1 : length (take i (connections t)) = i) by (rewrite length_take; lia).
    assert (Hl2 : length (take (n - S i) (drop (S i) (connections t))) = (n - S i)%nat)
      by (rewrite length_take, length_drop; lia).
    split.
    { unfold listed. fold n.
      transitivity (take (i + (n - i)) (connections t)); [f_equal; lia|].
      rewrite <- take_take_drop. f_equal.
      rewrite (drop_S _ _ _ Hx).
      replace (n - i)%nat with (S (n - S i)) by lia. reflexivity. }
    split.
    { intros x Hin. apply list_elem_of_lookup_1 in Hin as [j Hj].
      pose proof (lookup_lt_Some _ _ _ Hj) as Hlt. rewrite Hl1 in Hlt.
      rewrite lookup_take_lt in Hj by lia.
      rewrite <- Hpt. apply (Hbefore j x); [lia|]. rewrite Hs1. exact Hj. }
    split; [exact He|]. split; [exact Hps|].
    assert (Hfin : forall t1 : connection_thread_context,
              connections t1 = take i (connections t)
                ++ take (n - S i) (drop (S i) (connections t))
                ++ drop (i + (n - S i)) (connections t) ->
              connection_count t1 = connection_count t - 1 ->
              listed t1 = take i (connections t)
                          ++ take (n - S i) (drop (S i) (connections t))).
    { intros t1 Hc1 Hn1. unfold listed. rewrite Hc1, Hn1.
      replace (Z.to_nat (connection_count t - 1)) with (n - 1)%nat by lia.
      rewrite app_assoc. apply take_app_length'.
      rewrite length_app, Hl1, Hl2. lia. }
    unfold t0. destruct needLock; cbn [set_lock connections connections_buffer
      connection_count alloc_size lock];
      (split; [apply Hfin; reflexivity|]); rewrite ?Hs2;
      repeat split; try reflexivity;
      rewrite !length_app, !length_take, !length_drop; lia.
Qed.

Lemma first_unused_spec buf turns :
  forall i, (i + turns <= length buf)%nat ->
    exists r, first_unused buf i turns = Some r /\
      (i <= r <= i + turns)%nat /\
      (forall j e, (i <= j < r)%nat -> buf !! j = Some e -> used e = true) /\
      ((r < i + turns)%nat -> exists e, buf !! r = Some e /\ used e = false).
Proof.
  induction turns as [|k IH]; intros i Hlen.
  - exists i. simpl. split; [reflexivity|]. split; [lia|]. split; intros; lia.
  - cbn [first_unused].
    destruct (lookup_lt_is_Some_2 buf i) as [e He]; [lia|].
    rewrite He. cbn [mbind option_bind].
    destruct (used e) eqn:Hu.
    + destruct (IH (S i)) as (r & Hr & Hrange & Hbefore & Hat); [lia|].
      exists r. split; [exact Hr|]. split; [lia|]. split.
      * intros j e' Hj He'. destruct (decide (j = i)) as [->|?]; [congruence|].
        apply (Hbefore j e'); [lia | exact He'].
      * intros Hlt. apply Hat. lia.
    + exists i. split; [reflexivity|]. split; [lia|]. split; [intros; lia|]. eauto.
Qed.

(** A list without repetition that holds the pointers [0 .. n - 1] has at
    least [n] entries. *)
Lemma listed_all_length (l : list (option nat)) n :
  (forall p, (p < n)%nat -> Some p ∈ l) -> (n <= length l)%nat.
Proof.
  intros Hall.
  assert (Hsub : (Some <$> seq 0 n) ⊆+ l).
  { apply NoDup_submseteq.
    - apply NoDup_fmap; [intros ? ? [=]; assumption | apply NoDup_seq].
    - intros x Hx. apply list_elem_of_fmap in Hx as (p & -> & Hp).
      apply elem_of_seq in Hp. apply Hall. lia. }
  apply submseteq_length in Hsub. rewrite length_fmap, length_seq in Hsub. exact Hsub.
Qed.

Lemma remove_connection_keeps t pSock needLock t' :
  thread_ok t ->
  remove_connection t pSock needLock = Some (0, t') ->
  thread_ok t' /\ (pool_listed t -> pool_listed t').
Proof.
  intros Hok Hrem. pose proof Hok as (Hc & Hlen & Hbuf & Hall).
  destruct (remove_connection_spec t pSock needLock Hok) as (r & t1 & Hrem' & Hres).
  rewrite Hrem in Hrem'. injection Hrem' as <- <-.
  destruct Hres as [(Habs & _)|(_ & l1 & p & e & l2 & Hl & Hbefore & He & Hps & Hl' & Hb' &
                                Hn' & Ha' & Hcl & Hlk)]; [discriminate|].
  assert (Hn : 0 < connection_count t).
  { destruct (Z.eq_dec (connection_count t) 0) as [H0|]; [|lia].
    unfold listed in Hl. rewrite H0 in Hl. simpl in Hl. destruct l1; discriminate. }
  split.
  - split; [lia|]. split; [lia|]. split; [rewrite Hb', length_insert; lia|].
    intros x Hx. rewrite Hl' in Hx.
    destruct (Hall x) as (q & -> & Hq).
    { rewrite Hl. apply elem_of_app in Hx as [Hx|Hx]; apply elem_of_app; [left|right; right];
        exact Hx. }
    exists q. split; [reflexivity|]. rewrite Hb'.
    apply lookup_lt_is_Some. rewrite length_insert. apply lookup_lt_is_Some. exact Hq.
  - intros [Hnd Hused]. rewrite Hl in Hnd.
    apply NoDup_app in Hnd as (Hnd1 & Hcross & Hnd2).
    apply NoDup_cons in Hnd2 as [Hp2 Hnd2].
    assert (Hp1 : Some p ∉ l1) by (intros Hin; apply (Hcross _ Hin); left).
    split.
    + rewrite Hl'. apply NoDup_app. split; [exact Hnd1|]. split; [|exact Hnd2].
      intros x Hx1 Hx2. apply (Hcross x Hx1). right. exact Hx2.
    + intros q e' Hq. rewrite Hb' in Hq. rewrite Hl'.
      destruct (decide (q = p)) as [->|Hne].
      * rewrite list_lookup_insert_eq in Hq by (apply lookup_lt_Some in He; exact He).
        injection Hq as <-. simpl. split; [discriminate|].
        intros Hin. apply elem_of_app in Hin as [?|?]; contradiction.
      * rewrite list_lookup_insert_ne in Hq by congruence.
        rewrite (Hused q e' Hq), Hl, !elem_of_app, elem_of_cons.
        split; [intros [?|[?|?]]; [left | congruence | right]; assumption | tauto].
Qed.

Lemma alloc_connect_context_spec hdr t :
  thread_ok t -> pool_listed t ->
  exists r t',
    alloc_connect_context hdr t = Some (r, t') /\
    thread_ok t' /\ pool_listed t' /\ lock t' = false /\
    alloc_size t' = alloc_size t /\
    ((r = None /\ connection_count t = alloc_size t /\
      listed t' = listed t /\ connections_buffer t' = connections_buffer t) \/
     (exists p e,
        r = Some p /\ connection_count t < alloc_size t /\
        connections_buffer t !! p = Some e /\ used e = false /\
        (forall q e', (q < p)%nat -> connections_buffer t !! q = Some e' -> used e' = true) /\
        listed t' = listed t ++ [Some p] /\
        connections_buffer t' = <[p := fresh hdr e]> (connections_buffer t))).
Proof.
  intros Hok [Hnd Hused]. pose proof Hok as (Hc & Hlen & Hbuf & Hall).
  unfold alloc_connect_context.
  destruct (Z.geb_spec (connection_count t) (alloc_size t)) as [Hfull|Hroom].
  - eexists _, _. split; [reflexivity|].
    split; [exact Hok|]. split; [split; assumption|]. split; [reflexivity|].
    split; [reflexivity|]. left. split; [reflexivity|]. split; [lia|]. split; reflexivity.
  - destruct (Z.ltb_spec (alloc_size t) 0); [lia|].
    set (n := Z.to_nat (alloc_size t)).
    destruct (first_unused_spec (connections_buffer t) n 0) as (p & Hp & Hrange & Hbefore & Hat);
      [lia|].
    rewrite Hp. cbn [mbind option_bind]. simpl in Hrange, Hat.
    destruct (decide (p = n)) as [->|Hne].
    { (* every pool entry in use: more entries listed than the count says *)
      exfalso.
      assert (Hlen' : (n <= length (listed t))%nat).
      { apply listed_all_length. intros q Hq.
        destruct (lookup_lt_is_Some_2 (connections_buffer t) q) as [e He]; [lia|].
        apply (Hused q e He). apply (Hbefore q e); [lia | exact He]. }
      unfold listed in Hlen'. rewrite length_take in Hlen'. lia. }
    assert (Hf : (p < n)%nat) by lia.
    destruct (Hat Hf) as (e & He & Hu).
    rewrite He. cbn [mbind option_bind].
    rewrite store_Some by lia. cbn [mbind option_bind].
    assert (Hnew : Some p ∉ listed t).
    { intros Hin. apply (Hused p e He) in Hin. congruence. }
    assert (Hl' : take (Z.to_nat (connection_count t + 1))
                    (<[Z.to_nat (connection_count t) := Some p]> (connections t))
                  = listed t ++ [Some p]).
    { replace (Z.to_nat (connection_count t + 1)) with (S (Z.to_nat (connection_count t)))
        by lia.
      rewrite (take_S_r _ _ (Some p)) by (apply list_lookup_insert_eq; lia).
      rewrite take_insert_ge by lia. reflexivity. }
    eexists _, _. split; [reflexivity|].
    split.
    { split; [cbn; lia|]. split; [cbn; rewrite length_insert; lia|].
      split; [cbn; rewrite length_insert; lia|].
      intros x Hx. unfold listed in Hx. cbn [connections connection_count] in Hx.
      rewrite Hl' in Hx. cbn [connections_buffer].
      assert (Hins : forall q, is_Some (connections_buffer t !! q) ->
                is_Some (<[p := fresh hdr e]> (connections_buffer t) !! q)).
      { intros q Hq. apply lookup_lt_is_Some. rewrite length_insert.
        apply lookup_lt_is_Some. exact Hq. }
      apply elem_of_app in Hx as [Hx|Hx].
      - destruct (Hall x Hx) as (q & -> & Hq). exists q. split; [reflexivity|]. auto.
      - apply list_elem_of_singleton in Hx as ->. exists p. split; [reflexivity|].
        apply Hins. eauto. }
    split.
    { unfold pool_listed, listed. cbn [connections connection_count connections_buffer].
      rewrite Hl'. split.
      - apply NoDup_app. split; [exact Hnd|]. split; [|apply NoDup_singleton].
        intros x Hx Hx'. apply list_elem_of_singleton in Hx' as ->. contradiction.
      - intros q e' Hq. rewrite elem_of_app, list_elem_of_singleton.
        destruct (decide (q = p)) as [->|Hqp].
        + rewrite list_lookup_insert_eq in Hq by (apply lookup_lt_Some in He; exact He).
          injection Hq as <-. simpl. split; auto.
        + rewrite list_lookup_insert_ne in Hq by congruence.
          rewrite (Hused q e' Hq). split; [auto|]. intros [?|?]; [assumption | congruence]. }
    split; [reflexivity|]. split; [reflexivity|].
    right. exists p, e. split; [reflexivity|]. split; [lia|]. split; [exact He|].
    split; [exact Hu|]. split; [|split; [exact Hl' | reflexivity]].
    intros q e' Hq He'. apply (Hbefore q e'); [lia | exact He'].
Qed.

Lemma sample_thread_ok : thread_ok sample_thread.
Proof.
  split; [simpl; lia|]. split; [reflexivity|]. split; [reflexivity|].
  intros x Hx. unfold listed in Hx. simpl in Hx.
  apply elem_of_cons in Hx as [->|Hx]; [exists 0%nat; split; [reflexivity | eexists; reflexivity]|].
  apply elem_of_cons in Hx as [->|Hx]; [exists 1%nat; split; [reflexivity | eexists; reflexivity]|].
  inversion Hx.
Qed.

Lemma sample_pool_listed : pool_listed sample_thread.
Proof.
  split.
  - unfold listed. simpl. apply NoDup_cons. split.
    + intros Hin. apply list_elem_of_singleton in Hin. discriminate.
    + apply NoDup_singleton.
  - intros p e Hp. unfold listed. simpl.
    destruct p as [|[|[|p]]]; simpl in Hp; try discriminate; injection Hp as <-; simpl.
    + split; [intros _; left | reflexivity].
    + split; [intros _; right; left | reflexivity].
    + split; [discriminate|]. intros Hin.
      repeat (apply elem_of_cons in Hin as [Hin|Hin]; [discriminate|]). inversion Hin.
Qed.

(** *** The statements *)

(** X9.  [remove_connection] takes the first listed connect context that
    points to the socket context out of the list: the entry is marked
    unused and loses its socket context, the entries behind it move up in
    their order, and the call returns 0 with the lock as the caller had
    it (released, if the call took it).  If no listed entry points to the
    socket context it returns ENOENT and changes no entry, but leaves the
    lock released even when it was told not to lock.  The list stays
    within its arrays, and stays in step with the pool if it was. *)
Theorem remove_connection_first t pSock needLock :
  thread_ok t ->
  exists r t',
    remove_connection t pSock needLock = Some (r, t') /\
    thread_ok t' /\ (pool_listed t -> pool_listed t') /\
    ((r = ENOENT /\
      (forall x, x ∈ listed t -> ~ points_to t pSock x) /\
      t' = set_lock t false) \/
     (r = 0 /\
      exists l1 p e l2,
        listed t = l1 ++ Some p :: l2 /\
        (forall x, x ∈ l1 -> ~ points_to t pSock x) /\
        connections_buffer t !! p = Some e /\ pSockContext e = Some pSock /\
        listed t' = l1 ++ l2 /\
        connections_buffer t' = <[p := unuse e]> (connections_buffer t) /\
        connection_count t' = connection_count t - 1 /\
        alloc_size t' = alloc_size t /\
        length (connections t') = length (connections t) /\
        lock t' = (if needLock then false else lock t))).
Proof.
  intros Hok.
  destruct (remove_connection_spec t pSock needLock Hok) as (r & t' & Hrem & Hres).
  exists r, t'. split; [exact Hrem|].
  destruct Hres as [(-> & Hnone & ->)|(-> & Hrest)].
  - split; [exact Hok|]. split; [auto|]. left. auto.
  - destruct (remove_connection_keeps t pSock needLock t' Hok Hrem) as [Hok' Hpl].
    split; [exact Hok'|]. split; [exact Hpl|]. right. split; [reflexivity | exact Hrest].
Qed.

(** The connect context of socket context 4 is removed while the caller
    holds the lock. *)
Lemma remove_connection_first_witness :
  exists r t',
    remove_connection sample_thread 4 false = Some (r, t') /\
    thread_ok t' /\ (pool_listed sample_thread -> pool_listed t') /\
    ((r = ENOENT /\
      (forall x, x ∈ listed sample_thread -> ~ points_to sample_thread 4 x) /\
      t' = set_lock sample_thread false) \/
     (r = 0 /\
      exists l1 p e l2,
        listed sample_thread = l1 ++ Some p :: l2 /\
        (forall x, x ∈ l1 -> ~ points_to sample_thread 4 x) /\
        connections_buffer sample_thread !! p = Some e /\ pSockContext e = Some 4%nat /\
        listed t' = l1 ++ l2 /\
        connections_buffer t' = <[p := unuse e]> (connections_buffer sample_thread) /\
        connection_count t' = connection_count sample_thread - 1 /\
        alloc_size t' = alloc_size sample_thread /\
        length (connections t') = length (connections sample_thread) /\
        lock t' = (if false then false else lock sample_thread))).
Proof. apply (remove_connection_first sample_thread 4 false sample_thread_ok). Defined.

(** X10.  As long as the pool entries in use are exactly the listed ones,
    each listed once, [alloc_connect_context] fails only when the list is
    full.  Otherwise it hands out the first pool entry that is not in use,
    which is not listed, appends it to the list with the fields of a new
    connection, and the pool and the list stay in step. *)
Theorem alloc_connect_context_in_step MSG_HEADER_LENGTH t :
  thread_ok t -> pool_listed t ->
  exists r t',
    alloc_connect_context MSG_HEADER_LENGTH t = Some (r, t') /\
    thread_ok t' /\ pool_listed t' /\
    ((r = None /\ connection_count t = alloc_size t /\
      listed t' = listed t /\ connections_buffer t' = connections_buffer t) \/
     (exists p e,
        r = Some p /\ connection_count t < alloc_size t /\
        connections_buffer t !! p = Some e /\ used e = false /\
        (Some p ∉ listed t) /\
        (forall q e', (q < p)%nat -> connections_buffer t !! q = Some e' -> used e' = true) /\
        listed t' = listed t ++ [Some p] /\
        connections_buffer t' = <[p := fresh MSG_HEADER_LENGTH e]> (connections_buffer t))).
Proof.
  intros Hok Hpl.
  destruct (alloc_connect_context_spec MSG_HEADER_LENGTH t Hok Hpl)
    as (r & t' & Halloc & Hok' & Hpl' & _ & _ & Hres).
  exists r, t'. split; [exact Halloc|]. split; [exact Hok'|]. split; [exact Hpl'|].
  destruct Hres as [Hnone|(p & e & Hr & Hroom & He & Hu & Hlow & Hl & Hb)]; [left; exact Hnone|].
  right. exists p, e. split; [exact Hr|]. split; [exact Hroom|]. split; [exact He|].
  split; [exact Hu|]. split; [|auto].
  intros Hin. destruct Hpl as [_ Hused]. apply (Hused p e He) in Hin. congruence.
Qed.

Lemma alloc_connect_context_in_step_witness :
  exists r t',
    alloc_connect_context 32 sample_thread = Some (r, t') /\
    thread_ok t' /\ pool_listed t' /\
    ((r = None /\ connection_count sample_thread = alloc_size sample_thread /\
      listed t' = listed sample_thread /\
      connections_buffer t' = connections_buffer sample_thread) \/
     (exists p e,
        r = Some p /\ connection_count sample_thread < alloc_size sample_thread /\
        connections_buffer sample_thread !! p = Some e /\ used e = false /\
        (Some p ∉ listed sample_thread) /\
        (forall q e', (q < p)%nat ->
           connections_buffer sample_thread !! q = Some e' -> used e' = true) /\
        listed t' = listed sample_thread ++ [Some p] /\
        connections_buffer t' = <[p := fresh 32 e]> (connections_buffer sample_thread))).
Proof.
  apply (alloc_connect_context_in_step 32 sample_thread sample_thread_ok sample_pool_listed).
Defined.

End ConnectionFacts.

(** ** [clear_send_queue] *)
Module PurgeFacts.
Import Nio Purge QueueFacts WriteFacts.

Lemma lseg_delete_notin h p l a :
  lseg h p l -> a ∉ l -> lseg (delete a h) p l.
Proof.
  induction 1 as [|b m l Hb Hl IH]; intros Hnot; [constructor|].
  apply not_elem_of_cons in Hnot as [Hne Hnot].
  econstructor; [rewrite lookup_delete_ne; eauto | auto].
Qed.

Lemma lseg_head_inv h hd a l :
  lseg h hd (a :: l) ->
  hd = Some a /\ exists m, h !! a = Some m /\ lseg h (next m) l.
Proof. inversion 1; subst; eauto. Qed.

Lemma set_send_queue_same s i q : send_queues (set_send_queue s i q) i = q.
Proof. simpl. rewrite Z.eqb_refl. reflexivity. Qed.

Lemma set_send_queue_other s i j q :
  j <> i -> send_queues (set_send_queue s i q) j = send_queues s j.
Proof. intros Hne. simpl. destruct (Z.eqb_spec j i); [contradiction | reflexivity]. Qed.

Lemma frame_bytes_delete c h a l :
  a ∉ l -> frame_bytes c (delete a h) l = frame_bytes c h l.
Proof.
  induction l as [|b l IH]; intros Hnot; [reflexivity|].
  apply not_elem_of_cons in Hnot as [Hne Hnot]. simpl.
  rewrite lookup_delete_ne by congruence. rewrite IH by exact Hnot. reflexivity.
Qed.

Lemma logged_cons h a l :
  logged h (a :: l)
  = match h !! a with
    | Some m => (a, m) :: logged h l
    | None => logged h l
    end.
Proof. unfold logged. simpl. destruct (h !! a); reflexivity. Qed.

Lemma logged_delete h a l :
  a ∉ l -> logged (delete a h) l = logged h l.
Proof.
  induction l as [|b l IH]; intros Hnot; [reflexivity|].
  apply not_elem_of_cons in Hnot as [Hne Hnot].
  rewrite !logged_cons, lookup_delete_ne by congruence.
  rewrite IH by exact Hnot. reflexivity.
Qed.

Lemma frame_bytes_app c h l1 l2 :
  frame_bytes c h (l1 ++ l2) = frame_bytes c h l1 + frame_bytes c h l2.
Proof. induction l1 as [|a l IH]; simpl; [reflexivity|]. rewrite IH. lia. Qed.

Lemma logged_app h l1 l2 : logged h (l1 ++ l2) = logged h l1 ++ logged h l2.
Proof. unfold logged. apply omap_app. Qed.

(** What the [while] loop does with a queue that holds [l]. *)
Lemma drain_spec c i l :
  forall fuel s count drop_bytes,
    lseg (heap s) (head (send_queues s i)) l ->
    (length l <= fuel)%nat ->
    exists s',
      drain c fuel s i count drop_bytes
      = Some (s', count + Z.of_nat (length l), drop_bytes + frame_bytes c (heap s) l) /\
      head (send_queues s' i) = None /\
      tail (send_queues s' i) = tail (send_queues s i) /\
      (forall j, j <> i -> send_queues s' j = send_queues s j) /\
      released s' = released s ++ logged (heap s) l /\
      (forall a, heap s' !! a = if decide (a ∈ l) then None else heap s !! a) /\
      version s' = version s /\ sock s' = sock s /\
      queue_index s' = queue_index s /\ stats s' = stats s.
Proof.
  induction l as [|a l IH]; intros fuel s count drop_bytes Hl Hfuel.
  - inversion Hl as [Hhd|]; subst.
    exists s. destruct fuel; simpl; rewrite <- Hhd;
      (split; [f_equal; f_equal; [f_equal|]; lia|]);
      (split; [reflexivity|]); (split; [reflexivity|]); (split; [reflexivity|]);
      (split; [unfold logged; simpl; rewrite app_nil_r; reflexivity|]);
      (split; [intros b; destruct (decide (b ∈ [])) as [Hin|_];
               [inversion Hin | reflexivity]|]); auto.
  - pose proof (lseg_NoDup _ _ _ Hl) as Hnd. apply NoDup_cons in Hnd as [Hal Hnd].
    destruct (lseg_head_inv _ _ _ _ Hl) as (Hhd & m & Ha & Hl').
    destruct fuel as [|fuel]; [simpl in Hfuel; lia|].
    cbn [drain]. rewrite Hhd. rewrite Ha. cbn [mbind option_bind].
    set (s1 := set_send_queue s i (mkQueue (next m) (tail (send_queues s i)))).
    set (s2 := release_out_message s1 a m).
    destruct (IH fuel s2 (count + 1) (drop_bytes + (MSG_HEADER_LENGTH c + aligned_data_len (header m))))
      as (s' & Hd & Hh & Ht & Ho & Hr & Hp & Hv & Hs & Hq & Hst).
    { unfold s2, s1. cbn [heap release_out_message send_queues set_send_queue].
      rewrite Z.eqb_refl. cbn [head]. apply lseg_delete_notin; assumption. }
    { simpl in Hfuel. lia. }
    exists s'. split.
    { rewrite Hd. f_equal. f_equal; [f_equal|].
      - simpl length. lia.
      - unfold s2, s1. cbn [heap release_out_message set_send_queue frame_bytes].
        rewrite Ha. rewrite frame_bytes_delete by exact Hal.
        unfold msg_total. lia. }
    split; [exact Hh|].
    split. { rewrite Ht. unfold s2, s1. cbn [send_queues release_out_message set_send_queue].
             rewrite Z.eqb_refl. reflexivity. }
    split. { intros j Hj. rewrite (Ho j Hj). unfold s2, s1.
             cbn [send_queues release_out_message set_send_queue].
             destruct (Z.eqb_spec j i); [contradiction | reflexivity]. }
    split. { rewrite Hr. unfold s2, s1. cbn [released heap release_out_message set_send_queue].
             rewrite logged_delete by exact Hal.
             rewrite logged_cons, Ha, <- app_assoc. reflexivity. }
    split.
    { intros b. rewrite Hp. unfold s2, s1. cbn [heap release_out_message set_send_queue].
      destruct (decide (b = a)) as [->|Hne].
      - destruct (decide (a ∈ l)); [contradiction|].
        destruct (decide (a ∈ a :: l)) as [_|Hn]; [|exfalso; apply Hn; left].
        apply lookup_delete_eq.
      - rewrite lookup_delete_ne by congruence.
        destruct (decide (b ∈ l)) as [Hin|Hnin];
          destruct (decide (b ∈ a :: l)) as [Hin'|Hnin']; try reflexivity.
        + exfalso. apply Hnin'. right. exact Hin.
        + exfalso. apply elem_of_cons in Hin' as [?|?]; contradiction. }
    unfold s2, s1 in *. simpl in *. auto.
Qed.

Lemma frame_bytes_ext c h h' l :
  (forall a, a ∈ l -> h' !! a = h !! a) -> frame_bytes c h' l = frame_bytes c h l.
Proof.
  induction l as [|b l IH]; intros Hsame; [reflexivity|]. simpl.
  rewrite Hsame by left. rewrite IH; [reflexivity|].
  intros a Ha. apply Hsame. right. exact Ha.
Qed.

Lemma logged_ext h h' l :
  (forall a, a ∈ l -> h' !! a = h !! a) -> logged h' l = logged h l.
Proof.
  induction l as [|b l IH]; intros Hsame; [reflexivity|].
  rewrite !logged_cons, Hsame by left. rewrite IH; [reflexivity|].
  intros a Ha. apply Hsame. right. exact Ha.
Qed.

Lemma lseg_same h h' p l :
  lseg h p l -> (forall a, a ∈ l -> h' !! a = h !! a) -> lseg h' p l.
Proof.
  intros Hl Hsame. apply (AccountingFacts.lseg_ext h h' p l Hl).
  intros x m Hx Hm. exists m. split; [rewrite Hsame by exact Hx; exact Hm | reflexivity].
Qed.

Lemma clear_queue_spec c i l fuel s count drop_bytes :
  lseg (heap s) (head (send_queues s i)) l ->
  (length l <= fuel)%nat ->
  exists s',
    clear_queue c fuel s i count drop_bytes
    = Some (s', count + Z.of_nat (length l), drop_bytes + frame_bytes c (heap s) l) /\
    send_queues s' i = mkQueue None None /\
    (forall j, j <> i -> send_queues s' j = send_queues s j) /\
    released s' = released s ++ logged (heap s) l /\
    (forall a, heap s' !! a = if decide (a ∈ l) then None else heap s !! a) /\
    version s' = version s + 1 /\ sock s' = sock s /\
    queue_index s' = queue_index s /\ stats s' = stats s.
Proof.
  intros Hl Hfuel. unfold clear_queue.
  destruct (drain_spec c i l fuel (set_version s (version s + 1)) count drop_bytes Hl Hfuel)
    as (s1 & Hd & Hh & Ht & Ho & Hr & Hp & Hv & Hs & Hq & Hst).
  rewrite Hd. cbn [mbind option_bind].
  eexists. split; [reflexivity|].
  split. { rewrite set_send_queue_same, Hh. reflexivity. }
  split. { intros j Hj. rewrite set_send_queue_other by exact Hj. apply Ho, Hj. }
  simpl in *. auto 10.
Qed.

Lemma clear_send_queue_spec c fuel s L :
  queues_hold s L ->
  (forall p, 0 <= p < PRIORITY_COUNT -> (length (L p) <= fuel)%nat) ->
  exists s',
    clear_send_queue c fuel s
    = Some (s', Z.of_nat (length (queued L)), frame_bytes c (heap s) (queued L)) /\
    (forall p, 0 <= p < PRIORITY_COUNT -> send_queues s' p = mkQueue None None) /\
    released s' = released s ++ logged (heap s) (queued L) /\
    (forall a, heap s' !! a = if decide (a ∈ queued L) then None else heap s !! a) /\
    version s' = version s + PRIORITY_COUNT /\ sock s' = sock s /\
    queue_index s' = queue_index s /\ stats s' = stats s.
Proof.
  intros [Hseg Hdisj] Hfuel. unfold PRIORITY_COUNT in *.
  pose proof (Hseg 0 ltac:(lia)) as H0.
  pose proof (Hseg 1 ltac:(lia)) as H1.
  pose proof (Hseg 2 ltac:(lia)) as H2.
  unfold clear_send_queue.
  destruct (clear_queue_spec c 0 (L 0) fuel s 0 0 H0 (Hfuel 0 ltac:(lia)))
    as (s1 & Hc1 & Hq1 & Ho1 & Hr1 & Hp1 & Hv1 & Hs1 & Hi1 & Hst1).
  rewrite Hc1. cbn [mbind option_bind].
  assert (Hsame1 : forall p a, p <> 0 -> 0 <= p < 3 -> a ∈ L p -> heap s1 !! a = heap s !! a).
  { intros p a Hp Hr Ha. rewrite Hp1.
    destruct (decide (a ∈ L 0)) as [Hin|]; [|reflexivity].
    exfalso. apply (Hdisj p 0 a); auto; lia. }
  assert (H1' : lseg (heap s1) (head (send_queues s1 1)) (L 1)).
  { rewrite Ho1 by lia. apply (lseg_same _ _ _ _ H1). intros a Ha.
    apply (Hsame1 1); [lia | lia | exact Ha]. }
  destruct (clear_queue_spec c 1 (L 1) fuel s1 (0 + Z.of_nat (length (L 0)))
              (0 + frame_bytes c (heap s) (L 0)) H1' (Hfuel 1 ltac:(lia)))
    as (s2 & Hc2 & Hq2 & Ho2 & Hr2 & Hp2 & Hv2 & Hs2 & Hi2 & Hst2).
  rewrite Hc2. cbn [mbind option_bind].
  assert (Hsame2 : forall a, a ∈ L 2 -> heap s2 !! a = heap s !! a).
  { intros a Ha. rewrite Hp2.
    destruct (decide (a ∈ L 1)) as [Hin|].
    - exfalso. apply (Hdisj 2 1 a); auto; lia.
    - apply (Hsame1 2); [lia | lia | exact Ha]. }
  assert (H2' : lseg (heap s2) (head (send_queues s2 2)) (L 2)).
  { rewrite Ho2, Ho1 by lia. apply (lseg_same _ _ _ _ H2). exact Hsame2. }
  destruct (clear_queue_spec c 2 (L 2) fuel s2
              (0 + Z.of_nat (length (L 0)) + Z.of_nat (length (L 1)))
              (0 + frame_bytes c (heap s) (L 0) + frame_bytes c (heap s1) (L 1))
              H2' (Hfuel 2 ltac:(lia)))
    as (s3 & Hc3 & Hq3 & Ho3 & Hr3 & Hp3 & Hv3 & Hs3 & Hi3 & Hst3).
  rewrite Hc3.
  exists s3. split.
  { f_equal. f_equal; [f_equal|].
    - unfold queued. rewrite !length_app. lia.
    - unfold queued. rewrite !frame_bytes_app.
      rewrite (frame_bytes_ext c (heap s) (heap s1) (L 1))
        by (intros a Ha; apply (Hsame1 1); [lia | lia | exact Ha]).
      rewrite (frame_bytes_ext c (heap s) (heap s2) (L 2)) by exact Hsame2.
      lia. }
  split.
  { intros p Hp. assert (Hcases : p = 0 \/ p = 1 \/ p = 2) by lia.
    destruct Hcases as [-> | [-> | ->]].
    - rewrite Ho3, Ho2 by lia. exact Hq1.
    - rewrite Ho3 by lia. exact Hq2.
    - exact Hq3. }
  split.
  { rewrite Hr3, Hr2, Hr1. unfold queued. rewrite !logged_app, <- !app_assoc.
    rewrite (logged_ext (heap s) (heap s1) (L 1))
      by (intros a Ha; apply (Hsame1 1); [lia | lia | exact Ha]).
    rewrite (logged_ext (heap s) (heap s2) (L 2)) by exact Hsame2.
    reflexivity. }
  split.
  { intros a. rewrite Hp3, Hp2, Hp1. unfold queued.
    destruct (decide (a ∈ L 0 ++ L 1 ++ L 2)) as [Hin|Hnin].
    - apply elem_of_app in Hin as [Hin|Hin].
      + destruct (decide (a ∈ L 2)); [reflexivity|].
        destruct (decide (a ∈ L 1)); [reflexivity|].
        destruct (decide (a ∈ L 0)); [reflexivity | contradiction].
      + apply elem_of_app in Hin as [Hin|Hin].
        * destruct (decide (a ∈ L 2)); [reflexivity|].
          destruct (decide (a ∈ L 1)); [reflexivity | contradiction].
        * destruct (decide (a ∈ L 2)); [reflexivity | contradiction].
    - destruct (decide (a ∈ L 2)) as [Hin|_];
        [exfalso; apply Hnin; rewrite !elem_of_app; auto|].
      destruct (decide (a ∈ L 1)) as [Hin|_];
        [exfalso; apply Hnin; rewrite !elem_of_app; auto|].
      destruct (decide (a ∈ L 0)) as [Hin|_];
        [exfalso; apply Hnin; rewrite !elem_of_app; auto|].
      reflexivity. }
  split; [lia|]. split; [congruence|]. split; congruence.
Qed.

Lemma nothing_queued c now write_bytes errno s :
  0 <= queue_index s < PRIORITY_COUNT ->
  (forall p, 0 <= p < PRIORITY_COUNT -> head (send_queues s p) = None) ->
  deal_write_event c now write_bytes errno s = Some (EAGAIN, s).
Proof.
  intros Hqi Hempty.
  assert (H0 := Hempty 0). assert (H1 := Hempty 1). assert (H2 := Hempty 2).
  unfold PRIORITY_COUNT in *.
  assert (Hf : fetch c s = Some fetch_init).
  { unfold fetch.
    assert (Hcases : queue_index s = 0 \/ queue_index s = 1 \/ queue_index s = 2) by lia.
    assert (H0' : head (send_queues s 0) = None) by (apply H0; lia).
    assert (H1' : head (send_queues s 1) = None) by (apply H1; lia).
    assert (H2' : head (send_queues s 2) = None) by (apply H2; lia).
    destruct Hcases as [E|[E|E]]; rewrite E; simpl;
      unfold send_queue_at, PRIORITY_COUNT; rewrite ?E; simpl;
      repeat (first [ rewrite H0' | rewrite H1' | rewrite H2'
                    | rewrite fetch_queue_null
                    | progress norm_arith
                    | progress simpl ]);
      reflexivity. }
  unfold deal_write_event. rewrite Hf. reflexivity.
Qed.

Lemma logged_fst h l :
  (forall a, a ∈ l -> is_Some (h !! a)) -> (logged h l).*1 = l.
Proof.
  induction l as [|a l IH]; intros Hall; [reflexivity|].
  rewrite logged_cons. destruct (Hall a) as [m Hm]; [left|].
  rewrite Hm. simpl. f_equal. apply IH. intros b Hb. apply Hall. right. exact Hb.
Qed.

Lemma sample_one_holds : queues_hold sample_one sample_one_queues.
Proof.
  split.
  - intros p _. unfold sample_one_queues. simpl. destruct (p =? 0); simpl.
    + econstructor; [reflexivity|]. constructor.
    + constructor.
  - intros p p' a _ _ Hne Hin Hin'. unfold sample_one_queues in *.
    destruct (Z.eqb_spec p 0) as [->|?]; [|inversion Hin].
    destruct (Z.eqb_spec p' 0) as [->|?]; [congruence | inversion Hin'].
Qed.

Lemma sample_one_fuel p :
  0 <= p < PRIORITY_COUNT -> (length (sample_one_queues p) <= 4)%nat.
Proof. intros _. unfold sample_one_queues. destruct (p =? 0); simpl; lia. Qed.

(** *** The statements *)

(** X11.  [clear_send_queue] empties the three queues: every queued message
    is handed to [release_out_message] once, as it was, high priority
    first and in queue order, and leaves the heap; heads and tails end
    NULL; [version] has grown by PRIORITY_COUNT.  The count and the bytes
    it reports are those of the messages released.  Nothing else of the
    socket changes, and well-formed queues stay well-formed. *)
Theorem clear_send_queue_empties c fuel s L :
  queues_hold s L ->
  (forall p, 0 <= p < PRIORITY_COUNT -> (length (L p) <= fuel)%nat) ->
  exists s',
    clear_send_queue c fuel s
    = Some (s', Z.of_nat (length (queued L)), frame_bytes c (heap s) (queued L)) /\
    (forall p, 0 <= p < PRIORITY_COUNT -> send_queues s' p = mkQueue None None) /\
    released s' = released s ++ logged (heap s) (queued L) /\
    (logged (heap s) (queued L)).*1 = queued L /\
    (forall a, heap s' !! a = if decide (a ∈ queued L) then None else heap s !! a) /\
    version s' = version s + PRIORITY_COUNT /\ sock s' = sock s /\
    queue_index s' = queue_index s /\ stats s' = stats s /\
    (state_wf c s -> state_wf c s').
Proof.
  intros Hhold Hfuel.
  destruct (clear_send_queue_spec c fuel s L Hhold Hfuel)
    as (s' & Hclear & Hq & Hr & Hp & Hv & Hs & Hi & Hst).
  exists s'. split; [exact Hclear|]. split; [exact Hq|]. split; [exact Hr|].
  split.
  { apply logged_fst.
    destruct Hhold as [Hseg _]. unfold PRIORITY_COUNT in Hseg. unfold queued.
    intros a Ha. rewrite !elem_of_app in Ha.
    destruct Ha as [Ha|[Ha|Ha]];
      [apply (AccountingFacts.lseg_alloc _ _ _ (Hseg 0 ltac:(lia)) a Ha)
      |apply (AccountingFacts.lseg_alloc _ _ _ (Hseg 1 ltac:(lia)) a Ha)
      |apply (AccountingFacts.lseg_alloc _ _ _ (Hseg 2 ltac:(lia)) a Ha)]. }
  split; [exact Hp|]. split; [exact Hv|]. split; [exact Hs|]. split; [exact Hi|].
  split; [exact Hst|].
  intros (Hqi & Hwf & _). split; [rewrite Hi; exact Hqi|]. split.
  - intros a m Ha. rewrite Hp in Ha.
    destruct (decide (a ∈ queued L)); [discriminate|]. apply (Hwf a m Ha).
  - exists (fun _ => []). split.
    + intros p Hp'. rewrite (Hq p Hp'). constructor.
    + intros p p' a _ _ _ Hin. inversion Hin.
Qed.

(** The queue of [sample_one] is cleared. *)
Lemma clear_send_queue_empties_witness :
  exists s',
    clear_send_queue sample_config 4 sample_one
    = Some (s', Z.of_nat (length (queued sample_one_queues)),
            frame_bytes sample_config (heap sample_one) (queued sample_one_queues)) /\
    (forall p, 0 <= p < PRIORITY_COUNT -> send_queues s' p = mkQueue None None) /\
    released s' = released sample_one
                  ++ logged (heap sample_one) (queued sample_one_queues) /\
    (logged (heap sample_one) (queued sample_one_queues)).*1 = queued sample_one_queues /\
    (forall a, heap s' !! a
               = if decide (a ∈ queued sample_one_queues) then None
                 else heap sample_one !! a) /\
    version s' = version sample_one + PRIORITY_COUNT /\ sock s' = sock sample_one /\
    queue_index s' = queue_index sample_one /\ stats s' = stats sample_one /\
    (state_wf sample_config sample_one -> state_wf sample_config s').
Proof.
  apply (clear_send_queue_empties sample_config 4 sample_one sample_one_queues
           sample_one_holds sample_one_fuel).
Defined.

(** X12.  Once [clear_send_queue] has run, a message that was prepared for
    the version of the socket before the purge is refused by
    [push_to_send_queue] with EINVAL and counted as failed, and
    [deal_write_event] finds nothing to send and answers EAGAIN without
    changing anything. *)
Theorem clear_send_queue_then c fuel s L :
  queues_hold s L ->
  (forall p, 0 <= p < PRIORITY_COUNT -> (length (L p) <= fuel)%nat) ->
  0 <= queue_index s < PRIORITY_COUNT ->
  exists s' count drop_bytes,
    clear_send_queue c fuel s = Some (s', count, drop_bytes) /\
    (forall pMessage m priority,
       0 <= priority < PRIORITY_COUNT -> heap s' !! pMessage = Some m ->
       push_to_send_queue c s' pMessage priority (version s)
       = Some (EINVAL, set_stats s' (count_fail c m (stats s')))) /\
    (forall now write_bytes errno,
       deal_write_event c now write_bytes errno s' = Some (EAGAIN, s')).
Proof.
  intros Hhold Hfuel Hqi.
  destruct (clear_send_queue_spec c fuel s L Hhold Hfuel)
    as (s' & Hclear & Hq & Hr & Hp & Hv & Hs & Hi & Hst).
  eexists s', _, _. split; [exact Hclear|]. split.
  - intros pMessage m priority Hprio Hm. unfold push_to_send_queue.
    rewrite send_queue_at_in_range by exact Hprio. cbn [mbind option_bind].
    destruct (Z.eqb_spec (version s') (version s)) as [Heq|_];
      [unfold PRIORITY_COUNT in Hv; lia|].
    cbn [negb]. change (negb (EINVAL =? 0)) with true. cbn [mbind option_bind].
    rewrite Hm. reflexivity.
  - intros now write_bytes errno. apply nothing_queued.
    + rewrite Hi. exact Hqi.
    + intros p Hp'. rewrite (Hq p Hp'). reflexivity.
Qed.

Lemma clear_send_queue_then_witness :
  exists s' count drop_bytes,
    clear_send_queue sample_config 4 sample_one = Some (s', count, drop_bytes) /\
    (forall pMessage m priority,
       0 <= priority < PRIORITY_COUNT -> heap s' !! pMessage = Some m ->
       push_to_send_queue sample_config s' pMessage priority (version sample_one)
       = Some (EINVAL, set_stats s' (count_fail sample_config m (stats s')))) /\
    (forall now write_bytes errno,
       deal_write_event sample_config now write_bytes errno s' = Some (EAGAIN, s')).
Proof.
  apply (clear_send_queue_then sample_config 4 sample_one sample_one_queues
           sample_one_holds sample_one_fuel).
  unfold PRIORITY_COUNT. simpl. lia.
Defined.

End PurgeFacts.

(** ** The handshake *)
Module HandshakeFacts.
Import Connections Handshake.

(** [do_send_data] writes [send_bytes] only, and what it returns is 0
    only when all was sent. *)
Lemma do_send_data_spec e a :
  let r := do_send_data e a in
  pSockContext r.2 = pSockContext e /\ recv_bytes r.2 = recv_bytes e /\
  total_bytes r.2 = total_bytes e /\ state r.2 = state e /\
  (r.1 = 0 -> send_bytes r.2 = total_bytes r.2).
Proof.
  unfold do_send_data. destruct (Z.ltb_spec a.1 0).
  - simpl. repeat split. destruct (Z.eqb_spec a.2 0); simpl; unfold EAGAIN; lia.
  - destruct (Z.eqb_spec a.1 0).
    + simpl. repeat split. unfold ECONNRESET. lia.
    + simpl. repeat split.
      destruct (Z.eqb_spec (send_bytes e + a.1) (total_bytes e)); [auto|].
      unfold EAGAIN. lia.
Qed.

Lemma do_recv_data_spec e a :
  let r := do_recv_data e a in
  pSockContext r.2 = pSockContext e /\ send_bytes r.2 = send_bytes e /\
  total_bytes r.2 = total_bytes e /\ state r.2 = state e /\
  (r.1 = 0 -> recv_bytes r.2 = total_bytes r.2).
Proof.
  unfold do_recv_data. destruct (Z.ltb_spec a.1 0).
  - simpl. repeat split. destruct (Z.eqb_spec a.2 0); simpl; unfold EAGAIN; lia.
  - destruct (Z.eqb_spec a.1 0).
    + simpl. repeat split. unfold ECONNRESET. lia.
    + simpl. repeat split.
      destruct (Z.eqb_spec (recv_bytes e + a.1) (total_bytes e)); [auto|].
      unfold EAGAIN. lia.
Qed.

Lemma retry_send answers : forall e r,
  retry do_send_data e answers = Some r ->
  pSockContext r.2 = pSockContext e /\ recv_bytes r.2 = recv_bytes e /\
  total_bytes r.2 = total_bytes e /\ state r.2 = state e /\
  (r.1 = 0 -> send_bytes r.2 = total_bytes r.2).
Proof.
  induction answers as [|a rest IH]; intros e r; simpl; [discriminate|].
  pose proof (do_send_data_spec e a) as (H1 & H2 & H3 & H4 & H5).
  destruct (Z.eqb_spec (do_send_data e a).1 EINTR).
  - intros Hr. destruct (IH _ _ Hr) as (I1 & I2 & I3 & I4 & I5).
    repeat split; [congruence.. | exact I5].
  - intros [= <-]. auto.
Qed.

Lemma retry_recv answers : forall e r,
  retry do_recv_data e answers = Some r ->
  pSockContext r.2 = pSockContext e /\ send_bytes r.2 = send_bytes e /\
  total_bytes r.2 = total_bytes e /\ state r.2 = state e /\
  (r.1 = 0 -> recv_bytes r.2 = total_bytes r.2).
Proof.
  induction answers as [|a rest IH]; intros e r; simpl; [discriminate|].
  pose proof (do_recv_data_spec e a) as (H1 & H2 & H3 & H4 & H5).
  destruct (Z.eqb_spec (do_recv_data e a).1 EINTR).
  - intros Hr. destruct (IH _ _ Hr) as (I1 & I2 & I3 & I4 & I5).
    repeat split; [congruence.. | exact I5].
  - intros [= <-]. auto.
Qed.

Lemma hello_taken_mono c fuel client calls calls' m :
  (forall a, a ∈ calls -> a ∈ calls') ->
  hello_taken c fuel client calls m -> hello_taken c fuel client calls' m.
Proof.
  intros Hsub (a & m0 & hr & Ha & Hd & Hr & Hm). exists a, m0, hr. auto.
Qed.

#[local] Ltac split5 := split; [|split; [|split; [|split]]].

(** The [switch]: it keeps the socket context of the connect context and
    the tables and the list; when it asks for events the exchange is
    under way, and when it asks for none and has [result == 0] both hellos
    went over. *)
Lemma switch_spec c fuel my calls a w sc e result events bNew e1 w1 :
  a ∈ calls ->
  under_way c fuel calls sc w e ->
  switch c fuel my a w sc e = Some (result, events, bNew, e1, w1) ->
  pSockContext e1 = pSockContext e /\
  tables w1 = tables w /\ thread w1 = thread w /\
  (events <> NO_EVENTS ->
   under_way c fuel calls sc w1 e1 /\
   (state e1 = Reconnect.STATE_SEND_DATA \/ state e1 = Reconnect.STATE_RECV_DATA)) /\
  (events = NO_EVENTS -> result = 0 ->
   send_bytes e1 = total_bytes e1 /\ recv_bytes e1 = total_bytes e1 /\
   exists machine_ip, Machines.machine sc = Some machine_ip /\
     hello_taken c fuel (is_client sc) calls (machines w1 machine_ip)).
Proof.
  intros Ha Hway. unfold switch.
  assert (Hconn : forall e0 r ev b e',
    connected c my a (is_client sc) e0 = (r, ev, b, e') ->
    pSockContext e' = pSockContext e0 /\ ev <> NO_EVENTS /\
    under_way c fuel calls sc w e' /\
    (state e' = Reconnect.STATE_SEND_DATA \/ state e' = Reconnect.STATE_RECV_DATA)).
  { intros e0 r ev b e'. unfold connected, under_way.
    destruct (is_client sc) eqn:Hcl; intros [= <- <- <- <-]; simpl;
      (split; [reflexivity|]); (split; [discriminate|]); (split; [congruence | auto]). }
  assert (Hfail : forall r w0 e0, r <> 0 -> pSockContext e0 = pSockContext e ->
    tables w0 = tables w -> thread w0 = thread w ->
    pSockContext e0 = pSockContext e /\
    tables w0 = tables w /\ thread w0 = thread w /\
    (NO_EVENTS <> NO_EVENTS ->
     under_way c fuel calls sc w0 e0 /\
     (state e0 = Reconnect.STATE_SEND_DATA \/ state e0 = Reconnect.STATE_RECV_DATA)) /\
    (NO_EVENTS = NO_EVENTS -> r = 0 ->
     send_bytes e0 = total_bytes e0 /\ recv_bytes e0 = total_bytes e0 /\
     exists machine_ip, Machines.machine sc = Some machine_ip /\
       hello_taken c fuel (is_client sc) calls (machines w0 machine_ip))).
  { intros r w0 e0 Hr He0 Htb Hth. split5; [exact He0 | exact Htb | exact Hth | |].
    - intros H. destruct (H eq_refl).
    - intros _ H. destruct (Hr H). }
  destruct (state e) eqn:Hst.
  - (* STATE_NOT_CONNECT *)
    intros [= <- <- <- <- <-]. apply Hfail; [unfold EINVAL; lia | reflexivity | reflexivity | reflexivity].
  - (* STATE_CONNECTING *)
    destruct (Z.eqb_spec (so_error a) 0) as [Hz|Hnz]; simpl.
    + destruct (connected c my a (is_client sc) (set_state e Reconnect.STATE_CONNECTED))
        as [[[r ev] b] e'] eqn:Hc.
      intros [= <- <- <- <- <-].
      destruct (Hconn _ _ _ _ _ Hc) as (H1 & H2 & H3 & H4).
      split5; [exact H1 | reflexivity | reflexivity | auto |].
      intros Hev. destruct (H2 Hev).
    + intros [= <- <- <- <- <-]. apply Hfail; [exact Hnz | reflexivity | reflexivity | reflexivity].
  - (* STATE_CONNECTED *)
    destruct (connected c my a (is_client sc) e) as [[[r ev] b] e'] eqn:Hc.
    intros [= <- <- <- <- <-].
    destruct (Hconn _ _ _ _ _ Hc) as (H1 & H2 & H3 & H4).
    split5; [exact H1 | reflexivity | reflexivity | auto |].
    intros Hev. destruct (H2 Hev).
  - (* STATE_SEND_DATA *)
    destruct (retry do_send_data e (transfers a)) as [r|] eqn:Hr; [|discriminate].
    cbn [mbind option_bind].
    destruct (retry_send _ _ _ Hr) as (R1 & R2 & R3 & R4 & R5).
    unfold under_way in Hway. rewrite Hst in Hway.
    destruct (Z.eqb_spec r.1 EAGAIN) as [Hag|Hnag].
    { intros [= <- <- <- <- <-].
      split5; [exact R1 | reflexivity | reflexivity | | discriminate].
      intros _. split; [|left; congruence].
      unfold under_way. rewrite R4, Hst, R2, R3. exact Hway. }
    destruct (Z.eqb_spec r.1 0) as [Hz|Hnz]; simpl.
    2:{ intros [= <- <- <- <- <-]. apply Hfail; [exact Hnz | exact R1 | reflexivity | reflexivity]. }
    destruct (is_client sc) eqn:Hcl.
    + intros [= <- <- <- <- <-].
      split5; [exact R1 | reflexivity | reflexivity | | discriminate].
      intros _. split; [|right; reflexivity].
      unfold under_way. simpl. intros _. apply R5. exact Hz.
    + intros [= <- <- <- <- <-].
      destruct (Hway eq_refl) as (Hrecv & ip & Hip & Htaken).
      split5; [exact R1 | reflexivity | reflexivity | |].
      * intros H. destruct (H eq_refl).
      * intros _ _. split; [apply R5; exact Hz|]. split; [congruence|].
        exists ip. split; [exact Hip | exact Htaken].
  - (* STATE_RECV_DATA *)
    destruct (retry do_recv_data e (transfers a)) as [r|] eqn:Hr; [|discriminate].
    cbn [mbind option_bind].
    destruct (retry_recv _ _ _ Hr) as (R1 & R2 & R3 & R4 & R5).
    unfold under_way in Hway. rewrite Hst in Hway.
    destruct (Z.eqb_spec r.1 EAGAIN) as [Hag|Hnag].
    { intros [= <- <- <- <- <-].
      split5; [exact R1 | reflexivity | reflexivity | | discriminate].
      intros _. split; [|right; congruence].
      unfold under_way. rewrite R4, Hst, R2, R3. exact Hway. }
    destruct (Z.eqb_spec r.1 0) as [Hz|Hnz]; simpl.
    2:{ intros [= <- <- <- <- <-]. apply Hfail; [exact Hnz | exact R1 | reflexivity | reflexivity]. }
    destruct (Machines.machine sc) as [ip|] eqn:Hip; [|discriminate].
    cbn [mbind option_bind].
    destruct (Hello.deal_hello_message _ _ _ _ _) as [hr|] eqn:Hd; [|discriminate].
    cbn [mbind option_bind].
    assert (Htaken : Hello.hr_ret hr = 0 ->
      hello_taken c fuel (is_client sc) calls
        (machines (set_machine w ip (Hello.hr_machine hr)) ip)).
    { intros Hret. exists a, (machines w ip), hr. split; [exact Ha|]. split; [exact Hd|].
      split; [exact Hret|]. simpl. rewrite Z.eqb_refl. reflexivity. }
    destruct (is_client sc) eqn:Hcl.
    + intros [= <- <- <- <- <-].
      split5; [exact R1 | reflexivity | reflexivity | |].
      * intros H. destruct (H eq_refl).
      * intros _ Hret. simpl. split; [rewrite R2, R3; apply Hway; reflexivity|].
        split; [apply R5; exact Hz|].
        exists ip. split; [reflexivity | apply Htaken; exact Hret].
    + destruct (Z.eqb_spec (Hello.hr_ret hr) 0) as [Hret|Hret].
      * intros [= <- <- <- <- <-].
        split5; [exact R1 | reflexivity | reflexivity | | discriminate].
        intros _. split; [|left; reflexivity].
        unfold under_way. simpl. intros _. split; [apply R5; exact Hz|].
        exists ip. split; [exact Hip | apply Htaken; exact Hret].
      * intros [= <- <- <- <- <-]. apply Hfail; [exact Hret | exact R1 | reflexivity | reflexivity].
Qed.

Lemma switch_keeps c fuel my a w sc e result events bNew e1 w1 :
  switch c fuel my a w sc e = Some (result, events, bNew, e1, w1) ->
  pSockContext e1 = pSockContext e /\
  tables w1 = tables w /\ thread w1 = thread w /\
  (events <> NO_EVENTS ->
   state e1 = Reconnect.STATE_SEND_DATA \/ state e1 = Reconnect.STATE_RECV_DATA).
Proof.
  assert (Hgoal : forall ev (e0 : ConnectContext) (w0 : World),
    pSockContext e0 = pSockContext e -> tables w0 = tables w -> thread w0 = thread w ->
    (ev <> NO_EVENTS ->
     state e0 = Reconnect.STATE_SEND_DATA \/ state e0 = Reconnect.STATE_RECV_DATA) ->
    pSockContext e0 = pSockContext e /\ tables w0 = tables w /\ thread w0 = thread w /\
    (ev <> NO_EVENTS ->
     state e0 = Reconnect.STATE_SEND_DATA \/ state e0 = Reconnect.STATE_RECV_DATA))
    by (intros; auto).
  unfold switch, connected. intros H.
  destruct (state e) eqn:Hst.
  - injection H as <- <- <- <- <-. apply Hgoal; congruence.
  - repeat case_match; injection H as <- <- <- <- <-;
      (apply Hgoal; [reflexivity..|]); simpl; first [congruence | auto].
  - repeat case_match; injection H as <- <- <- <- <-;
      (apply Hgoal; [reflexivity..|]); simpl; first [congruence | auto].
  - destruct (retry do_send_data e (transfers a)) as [r|] eqn:Hr; [|discriminate].
    cbn [mbind option_bind] in H.
    destruct (retry_send _ _ _ Hr) as (R1 & R2 & R3 & R4 & R5).
    repeat case_match; injection H as <- <- <- <- <-;
      (apply Hgoal; [exact R1 | reflexivity | reflexivity |]); simpl;
      first [congruence | left; congruence | auto].
  - destruct (retry do_recv_data e (transfers a)) as [r|] eqn:Hr; [|discriminate].
    cbn [mbind option_bind] in H.
    destruct (retry_recv _ _ _ Hr) as (R1 & R2 & R3 & R4 & R5).
    destruct (r.1 =? EAGAIN).
    { injection H as <- <- <- <- <-.
      apply Hgoal; [exact R1 | reflexivity | reflexivity |]. right. congruence. }
    destruct (negb (r.1 =? 0)).
    { injection H as <- <- <- <- <-.
      apply Hgoal; [exact R1 | reflexivity | reflexivity | congruence]. }
    destruct (Machines.machine sc) as [ip|]; [|discriminate].
    cbn [mbind option_bind] in H.
    destruct (Hello.deal_hello_message _ _ _ _ _) as [hr|]; [|discriminate].
    cbn [mbind option_bind] in H.
    repeat case_match; injection H as <- <- <- <- <-;
      (apply Hgoal; [exact R1 | reflexivity | reflexivity |]); simpl;
      first [congruence | auto].
Qed.

(** The entries of the pool keep their byte counts when a connection is
    removed from the list. *)
Lemma remove_connection_fields t pSock needLock r :
  remove_connection t pSock needLock = Some r ->
  forall p e, connections_buffer t !! p = Some e ->
    exists e', connections_buffer r.2 !! p = Some e' /\
      send_bytes e' = send_bytes e /\ recv_bytes e' = recv_bytes e /\
      total_bytes e' = total_bytes e.
Proof.
  unfold remove_connection. intros H p e He.
  destruct (connection_count t <? 0); [discriminate|].
  assert (Hbuf : connections_buffer (if needLock then set_lock t true else t)
                 = connections_buffer t) by (destruct needLock; reflexivity).
  destruct (search _ _ _ _) as [i|]; [|discriminate]. cbn [mbind option_bind] in H.
  destruct (decide _).
  - injection H as <-. simpl. rewrite Hbuf. eauto.
  - destruct (connections _ !! i) as [[q|]|]; try discriminate.
    cbn [mbind option_bind] in H. rewrite Hbuf in H.
    destruct (connections_buffer t !! q) as [e0|] eqn:Hq; [|discriminate].
    cbn [mbind option_bind] in H.
    destruct (Machines.shift_left _ _ _); [|discriminate].
    cbn [mbind option_bind] in H. injection H as <-.
    assert (Hb : connections_buffer
                   (if needLock
                    then set_lock
                           (mkThread (alloc_size (if needLock then set_lock t true else t))
                              (lock (if needLock then set_lock t true else t))
                              (<[q := unuse e0]> (connections_buffer t)) l
                              (connection_count (if needLock then set_lock t true else t) - 1))
                           false
                    else mkThread (alloc_size (if needLock then set_lock t true else t))
                           (lock (if needLock then set_lock t true else t))
                           (<[q := unuse e0]> (connections_buffer t)) l
                           (connection_count (if needLock then set_lock t true else t) - 1))
                 = <[q := unuse e0]> (connections_buffer t))
      by (destruct needLock; reflexivity).
    cbn [snd]. rewrite Hb.
    destruct (decide (p = q)) as [->|Hne].
    + rewrite list_lookup_insert_eq by (apply lookup_lt_Some in Hq; exact Hq).
      exists (unuse e0). assert (e0 = e) by congruence. subst e0. auto.
    + rewrite list_lookup_insert_ne by congruence. eauto.
Qed.

(** How the connection leaves: handed on with [result == 0] and a quiet
    detach, given up otherwise; never pending. *)
Lemma leave_spec N a w pSock needLock result o :
  leave N a w pSock needLock result = Some o ->
  exists r,
    remove_connection (thread w) pSock needLock = Some r /\
    ((o = HandOff (mkWorld (tables w) r.2 (machines w)) /\ result = 0) \/
     (exists res w',
        o = Failed res w' /\ res <> 0 /\
        abandon N (mkWorld (tables w) r.2 (machines w)) pSock = Some w')).
Proof.
  unfold leave. intros H.
  destruct (remove_connection _ _ _) as [r|]; [|discriminate].
  cbn [mbind option_bind] in H. exists r. split; [reflexivity|].
  destruct (Z.eqb_spec
              (if (detached a).1 <? 0
               then if negb ((detached a).2 =? 0) then (detached a).2 else ENOMEM
               else result) 0) as [Hz|Hnz].
  - injection H as <-. left. split; [reflexivity|].
    destruct ((detached a).1 <? 0); [|exact Hz].
    destruct (Z.eqb_spec (detached a).2 0); simpl in Hz; [|contradiction].
    discriminate Hz.
  - destruct (abandon _ _ _) as [w'|] eqn:Hg; [|discriminate].
    injection H as <-. right. eauto.
Qed.

(** One call of [connection_handler]. *)
Lemma connection_handler_spec c fuel my N calls a w p needLock o e pSock sc :
  connections_buffer (thread w) !! p = Some e ->
  pSockContext e = Some pSock ->
  Machines.socket_contexts_pool (tables w) !! pSock = Some sc ->
  connection_handler c fuel my N a w p needLock = Some o ->
  exists result e1 w1,
    pSockContext e1 = Some pSock /\ tables w1 = tables w /\ thread w1 = thread w /\
    ((o = Pending (set_entry w1 p e1) /\
      (state e1 = Reconnect.STATE_SEND_DATA \/ state e1 = Reconnect.STATE_RECV_DATA) /\
      (a ∈ calls -> under_way c fuel calls sc w e -> under_way c fuel calls sc w1 e1)) \/
     (leave N a (set_entry w1 p e1) pSock needLock result = Some o /\
      (a ∈ calls -> under_way c fuel calls sc w e -> result = 0 ->
       send_bytes e1 = total_bytes e1 /\ recv_bytes e1 = total_bytes e1 /\
       exists machine_ip, Machines.machine sc = Some machine_ip /\
         hello_taken c fuel (is_client sc) calls (machines w1 machine_ip)))).
Proof.
  intros He Hps Hsc. unfold connection_handler.
  rewrite He. cbn [mbind option_bind]. rewrite Hps. cbn [mbind option_bind].
  rewrite Hsc. cbn [mbind option_bind].
  destruct (switch c fuel my a w sc e) as [[[[[result events] bNew] e1] w1]|] eqn:Hsw;
    [|discriminate].
  cbn [mbind option_bind].
  destruct (switch_keeps _ _ _ _ _ _ _ _ _ _ _ _ Hsw) as (K1 & K2 & K3 & K4).
  assert (Hsem : a ∈ calls -> under_way c fuel calls sc w e ->
    (events <> NO_EVENTS -> under_way c fuel calls sc w1 e1) /\
    (events = NO_EVENTS -> result = 0 ->
     send_bytes e1 = total_bytes e1 /\ recv_bytes e1 = total_bytes e1 /\
     exists machine_ip, Machines.machine sc = Some machine_ip /\
       hello_taken c fuel (is_client sc) calls (machines w1 machine_ip))).
  { intros Ha Hway.
    destruct (switch_spec _ _ _ calls _ _ _ _ _ _ _ _ _ Ha Hway Hsw) as (_ & _ & _ & S4 & S5).
    split; [intros Hev; apply S4; exact Hev | exact S5]. }
  assert (Hctl : forall ev, ev <> NO_EVENTS -> events = ev ->
    (if (control a).1 >=? 0 then Some (Pending (set_entry w1 p e1))
     else leave N a (set_entry w1 p e1) pSock needLock
            (if negb ((control a).2 =? 0) then (control a).2 else ENOMEM)) = Some o ->
    exists result e1' w1',
      pSockContext e1' = Some pSock /\ tables w1' = tables w /\ thread w1' = thread w /\
      ((o = Pending (set_entry w1' p e1') /\
        (state e1' = Reconnect.STATE_SEND_DATA \/ state e1' = Reconnect.STATE_RECV_DATA) /\
        (a ∈ calls -> under_way c fuel calls sc w e -> under_way c fuel calls sc w1' e1')) \/
       (leave N a (set_entry w1' p e1') pSock needLock result = Some o /\
        (a ∈ calls -> under_way c fuel calls sc w e -> result = 0 ->
         send_bytes e1' = total_bytes e1' /\ recv_bytes e1' = total_bytes e1' /\
         exists machine_ip, Machines.machine sc = Some machine_ip /\
           hello_taken c fuel (is_client sc) calls (machines w1' machine_ip))))).
  { intros ev Hev -> H.
    destruct ((control a).1 >=? 0).
    - injection H as <-. exists result, e1, w1.
      split; [congruence|]. split; [exact K2|]. split; [exact K3|]. left.
      split; [reflexivity|]. split; [apply K4; exact Hev|].
      intros Ha Hway. apply (Hsem Ha Hway). exact Hev.
    - eexists _, e1, w1.
      split; [congruence|]. split; [exact K2|]. split; [exact K3|]. right.
      split; [exact H|]. intros _ _ Hz.
      destruct (Z.eqb_spec (control a).2 0); simpl in Hz; [discriminate Hz | contradiction]. }
  destruct events.
  - intros H. exists result, e1, w1.
    split; [congruence|]. split; [exact K2|]. split; [exact K3|]. right.
    split; [exact H|]. intros Ha Hway. apply (Hsem Ha Hway). reflexivity.
  - apply (Hctl EVENTIO_READ); [discriminate | reflexivity].
  - apply (Hctl EVENTIO_WRITE); [discriminate | reflexivity].
Qed.

(** The handler on a connect context that is connected: it asks the poll
    for the socket, and leaves when the poll refuses. *)
Lemma connected_handler c fuel my N a w p needLock e pSock sc :
  connections_buffer (thread w) !! p = Some e ->
  pSockContext e = Some pSock ->
  Machines.socket_contexts_pool (tables w) !! pSock = Some sc ->
  state e = Reconnect.STATE_CONNECTED ->
  connection_handler c fuel my N a w p needLock =
    let e1 := (connected c my a (is_client sc) e).2 in
    if (control a).1 >=? 0 then Some (Pending (set_entry w p e1))
    else leave N a (set_entry w p e1) pSock needLock
           (if negb ((control a).2 =? 0) then (control a).2 else ENOMEM).
Proof.
  intros He Hps Hsc Hst. unfold connection_handler.
  rewrite He. cbn [mbind option_bind]. rewrite Hps. cbn [mbind option_bind].
  rewrite Hsc. cbn [mbind option_bind].
  unfold switch. rewrite Hst. unfold connected. destruct (is_client sc); reflexivity.
Qed.

Lemma handshake_hand_off c fuel my N calls pSock sc p w' : forall rest w e,
  (forall a, a ∈ rest -> a ∈ calls) ->
  connections_buffer (thread w) !! p = Some e ->
  pSockContext e = Some pSock ->
  Machines.socket_contexts_pool (tables w) !! pSock = Some sc ->
  under_way c fuel calls sc w e ->
  handshake c fuel my N rest w p = Some (HandOff w') ->
  exchanged c fuel calls sc w' p /\ tables w' = tables w.
Proof.
  induction rest as [|a rest IH]; intros w e Hsub He Hps Hsc Hway; simpl; [discriminate|].
  destruct (connection_handler c fuel my N a w p true) as [o|] eqn:Hh; [|discriminate].
  cbn [mbind option_bind].
  assert (Ha : a ∈ calls) by (apply Hsub; left).
  destruct (connection_handler_spec _ _ _ _ calls _ _ _ _ _ _ _ _ He Hps Hsc Hh)
    as (result & e1 & w1 & Hps1 & Htb & Hth & [(-> & Hst & Hway1)|(Hleave & Hdone)]).
  - intros Hrun.
    destruct (IH (set_entry w1 p e1) e1) as [Hex Htb']; auto.
    + intros a' Ha'. apply Hsub. right. exact Ha'.
    + simpl. rewrite Hth. apply list_lookup_insert_eq.
      apply lookup_lt_Some in He. exact He.
    + simpl. rewrite Htb. exact Hsc.
    + split; [exact Hex|]. rewrite Htb'. exact Htb.
  - destruct (leave_spec _ _ _ _ _ _ _ Hleave)
      as (r & Hrem & [[-> Hz]|(res & w2 & -> & _)]).
    2:{ discriminate. }
    intros [= <-]. split; [|exact Htb].
    destruct (Hdone Ha Hway Hz) as (Hs & Hr & ip & Hip & Htaken).
    assert (He1 : connections_buffer (thread (set_entry w1 p e1)) !! p = Some e1).
    { simpl. rewrite Hth. apply list_lookup_insert_eq.
      apply lookup_lt_Some in He. exact He. }
    destruct (remove_connection_fields _ _ _ _ Hrem p e1 He1) as (e' & He' & F1 & F2 & F3).
    exists e', ip. split; [exact He'|]. split; [congruence|]. split; [congruence|].
    split; [exact Hip | exact Htaken].
Qed.

Lemma set_entry_in_progress w p pSock e1 :
  in_progress (thread w) p pSock -> pSockContext e1 = Some pSock ->
  in_progress (thread (set_entry w p e1)) p pSock /\
  connections_buffer (thread (set_entry w p e1)) !! p = Some e1.
Proof.
  intros (Hok & Hnd & Hin & Hpt & Huniq) Hps1.
  destruct Hpt as (p' & e & [= <-] & He & Hps).
  assert (Hlt : (p < length (connections_buffer (thread w)))%nat)
    by (apply lookup_lt_Some in He; exact He).
  assert (Hpts : forall x, points_to (thread (set_entry w p e1)) pSock x <->
                           points_to (thread w) pSock x).
  { intros x. split.
    - intros (q & e' & -> & Hq & Hp'). simpl in Hq.
      destruct (decide (q = p)) as [->|Hne].
      + exists p, e. auto.
      + rewrite list_lookup_insert_ne in Hq by congruence. exists q, e'. auto.
    - intros (q & e' & -> & Hq & Hp').
      destruct (decide (q = p)) as [->|Hne].
      + exists p, e1. split; [reflexivity|]. split; [|exact Hps1].
        simpl. apply list_lookup_insert_eq. exact Hlt.
      + exists q, e'. split; [reflexivity|]. split; [|exact Hp'].
        simpl. rewrite list_lookup_insert_ne by congruence. exact Hq. }
  split; [|simpl; apply list_lookup_insert_eq; exact Hlt].
  split.
  { destruct Hok as (H1 & H2 & H3 & H4). split; [exact H1|]. split; [exact H2|].
    split; [simpl; rewrite length_insert; exact H3|].
    intros x Hx. destruct (H4 x Hx) as (q & -> & [e' Hq]). exists q.
    split; [reflexivity|]. simpl.
    destruct (decide (q = p)) as [->|Hne].
    - exists e1. apply list_lookup_insert_eq. exact Hlt.
    - exists e'. rewrite list_lookup_insert_ne by congruence. exact Hq. }
  split; [exact Hnd|]. split; [exact Hin|].
  split; [apply Hpts; exists p, e; auto|].
  intros x Hx Hp'. apply Huniq; [exact Hx | apply Hpts; exact Hp'].
Qed.

Lemma remove_in_progress t p pSock needLock r :
  in_progress t p pSock ->
  remove_connection t pSock needLock = Some r ->
  left_list r.2 p /\ connection_count r.2 = connection_count t - 1.
Proof.
  intros (Hok & Hnd & Hin & Hpt & Huniq) Hrem.
  destruct (ConnectionFacts.remove_connection_spec t pSock needLock Hok)
    as (r0 & t' & Hrem' & Hres).
  rewrite Hrem in Hrem'. injection Hrem' as ->.
  destruct Hres as [(_ & Hnone & _)|(-> & l1 & q & e & l2 & Hl & Hbefore & He & Hps & Hl' & Hb' &
                                      Hn' & _)].
  { destruct (Hnone _ Hin Hpt). }
  assert (Hq : Some q = Some p).
  { apply Huniq.
    - rewrite Hl. apply elem_of_app. right. left.
    - exists q, e. auto. }
  injection Hq as ->.
  destruct (ConnectionFacts.remove_connection_keeps t pSock needLock t' Hok Hrem) as [Hok' _].
  cbn [snd]. split; [|exact Hn'].
  split; [exact Hok'|]. split.
  - rewrite Hl'. rewrite Hl in Hnd. apply NoDup_app in Hnd as (_ & Hdisj & Hnd2).
    apply NoDup_cons in Hnd2 as [Hnot2 _].
    intros Hin'. apply elem_of_app in Hin' as [Hin1|Hin2]; [|exact (Hnot2 Hin2)].
    apply (Hdisj _ Hin1). left.
  - exists (unuse e). rewrite Hb'. split; [|split; reflexivity].
    apply list_lookup_insert_eq. apply lookup_lt_Some in He. exact He.
Qed.

Lemma left_list_lock t p b : left_list t p -> left_list (set_lock t b) p.
Proof. intros H. exact H. Qed.

Lemma close_connection_spec tb pSock sc tb' :
  Machines.socket_contexts_pool tb !! pSock = Some sc ->
  close_connection tb pSock = Some tb' ->
  Machines.machine_sockets tb' = Machines.machine_sockets tb /\
  length (Machines.socket_contexts_pool tb') = length (Machines.socket_contexts_pool tb) /\
  exists sc',
    Machines.socket_contexts_pool tb' !! pSock = Some sc' /\ Machines.sock sc' < 0 /\
    Machines.connect_type sc' = Machines.connect_type sc /\
    Machines.machine sc' = Machines.machine sc /\
    Machines.next sc' = Machines.next sc.
Proof.
  intros Hsc. unfold close_connection. rewrite Hsc. cbn [mbind option_bind].
  destruct (Z.geb_spec (Machines.sock sc) 0); intros [= <-]; simpl.
  - split; [reflexivity|]. split; [apply length_insert|].
    exists (set_sock sc (-1)). split; [|simpl; repeat split; lia].
    apply list_lookup_insert_eq. apply lookup_lt_Some in Hsc. exact Hsc.
  - split; [reflexivity|]. split; [reflexivity|]. exists sc. repeat split; [exact Hsc | lia].
Qed.

Lemma abandon_spec N w pSock sc w' :
  Machines.socket_contexts_pool (tables w) !! pSock = Some sc ->
  abandon N w pSock = Some w' ->
  given_up N (tables w) (tables w') pSock sc /\
  (thread w' = thread w \/ thread w' = set_lock (thread w) false).
Proof.
  intros Hsc. unfold abandon.
  destruct (close_connection (tables w) pSock) as [tb|] eqn:Hclose; [|discriminate].
  cbn [mbind option_bind].
  destruct (close_connection_spec _ _ _ _ Hsc Hclose)
    as (Hms & Hlen & sc' & Hsc' & Hsock & Hty & Hm & Hnx).
  rewrite Hsc'. cbn [mbind option_bind].
  assert (Hsv : is_server sc' = is_server sc) by (unfold is_server; rewrite Hty; reflexivity).
  rewrite Hsv. unfold given_up. destruct (is_server sc) eqn:Hserver.
  - unfold free_accept_sock_context. cbn [tables thread machines].
    rewrite Hsc'. cbn [mbind option_bind]. rewrite Hm.
    destruct (Machines.machine sc) as [ip|] eqn:Hip; [|discriminate].
    cbn [mbind option_bind]. rewrite Hms.
    destruct (Machines.get_machine_index N (Machines.machine_sockets (tables w)) ip)
      as [i|] eqn:Hidx; [|discriminate].
    cbn [mbind option_bind].
    unfold Machines.free_accept_sock_context, Machines.free_sock_context.
    rewrite Hsc'. cbn [mbind option_bind]. rewrite Hm. cbn [mbind option_bind].
    rewrite Hms, Hidx. cbn [mbind option_bind].
    destruct (Z.ltb_spec i 0) as [Hneg|Hpos].
    + intros [= <-]. cbn [tables thread]. split; [|left; reflexivity].
      exists sc'. split; [exact Hsc'|]. split; [exact Hsock|]. split; [exact Hty|].
      split; [exact Hm|]. intros ip' i' [= <-] Hi2 Hi'.
      rewrite Hidx in Hi2. injection Hi2 as <-. lia.
    + destruct (Machines.at_index (Machines.machine_sockets (tables w)) i) as [s|] eqn:Hs;
        [|discriminate].
      cbn [mbind option_bind].
      destruct (Machines.store _ _ _) as [t'|] eqn:Hstore; [|discriminate].
      cbn [mbind option_bind]. intros [= <-]. cbn [tables thread].
      split; [|right; reflexivity].
      apply MachineFacts.store_inv in Hstore as [Hrange ->].
      exists (Machines.set_next sc' (Machines.free_list CONNECT_TYPE_SERVER s)).
      split; [simpl; apply list_lookup_insert_eq; apply lookup_lt_Some in Hsc'; exact Hsc'|].
      split; [exact Hsock|]. split; [exact Hty|]. split; [exact Hm|].
      intros ip' i' [= <-] Hi2 _. rewrite Hidx in Hi2. injection Hi2 as <-.
      exists s, (Machines.set_free_list CONNECT_TYPE_SERVER s (Some pSock)).
      split; [exact Hs|]. split.
      { simpl. rewrite MachineFacts.at_index_insert by lia.
        destruct (decide (i = i)); [reflexivity | contradiction]. }
      split; [reflexivity|]. split; reflexivity.
  - intros [= <-]. cbn [tables thread]. split; [|left; reflexivity].
    exists sc'. split; [exact Hsc'|]. split; [exact Hsock|]. split; [exact Hty|].
    split; [exact Hm|]. split; [exact Hms | exact Hnx].
Qed.

(** X19. The calls of [connection_handler] for a connect context that
    starts connecting or connected reach the hand-over to
    machine_add_connection only after both hellos went over the
    connection: all the bytes of this node's hello were written, all the
    bytes of the peer's were read, [deal_hello_message] returned 0 on what
    was read and the machine record holds the peer's version.  The socket
    tables are as they were. *)
Theorem handshake_hands_off_after_hellos c fuel my_machine_ip MAX_MACHINE_COUNT calls
    w p e pSock sc w' :
  connections_buffer (thread w) !! p = Some e ->
  pSockContext e = Some pSock ->
  Machines.socket_contexts_pool (tables w) !! pSock = Some sc ->
  state e = Reconnect.STATE_CONNECTING \/ state e = Reconnect.STATE_CONNECTED ->
  handshake c fuel my_machine_ip MAX_MACHINE_COUNT calls w p = Some (HandOff w') ->
  exchanged c fuel calls sc w' p /\ tables w' = tables w.
Proof.
  intros He Hps Hsc Hst Hrun.
  apply (handshake_hand_off c fuel my_machine_ip MAX_MACHINE_COUNT calls pSock sc p w'
           calls w e); auto.
  unfold under_way. destruct Hst as [-> | ->]; exact I.
Qed.

(** How a call of [connection_handler] that returns leaves the
    controller. *)
Lemma connection_handler_ends c fuel my_machine_ip MAX_MACHINE_COUNT a w p needLock
    pSock sc o :
  in_progress (thread w) p pSock ->
  Machines.socket_contexts_pool (tables w) !! pSock = Some sc ->
  connection_handler c fuel my_machine_ip MAX_MACHINE_COUNT a w p needLock = Some o ->
  match o with
  | Pending w' =>
    tables w' = tables w /\ listed (thread w') = listed (thread w) /\
    in_progress (thread w') p pSock /\
    exists e', connections_buffer (thread w') !! p = Some e' /\
      (state e' = Reconnect.STATE_SEND_DATA \/ state e' = Reconnect.STATE_RECV_DATA)
  | HandOff w' =>
    tables w' = tables w /\ left_list (thread w') p /\
    connection_count (thread w') = connection_count (thread w) - 1
  | Failed result w' =>
    result <> 0 /\ left_list (thread w') p /\
    connection_count (thread w') = connection_count (thread w) - 1 /\
    given_up MAX_MACHINE_COUNT (tables w) (tables w') pSock sc
  end.
Proof.
  intros Hin Hsc Hh.
  pose proof Hin as (_ & _ & _ & (p' & e & [= <-] & He & Hps) & _).
  destruct (connection_handler_spec _ _ _ _ [a] _ _ _ _ _ _ _ _ He Hps Hsc Hh)
    as (result & e1 & w1 & Hps1 & Htb & Hth & [(-> & Hst & _)|(Hleave & _)]).
  - assert (Hin1 : in_progress (thread w1) p pSock) by (rewrite Hth; exact Hin).
    destruct (set_entry_in_progress w1 p pSock e1 Hin1 Hps1) as [Hin2 He1].
    split; [exact Htb|]. split; [unfold listed; simpl; rewrite Hth; reflexivity|].
    split; [exact Hin2|]. exists e1. split; [exact He1 | exact Hst].
  - assert (Hin1 : in_progress (thread w1) p pSock) by (rewrite Hth; exact Hin).
    destruct (set_entry_in_progress w1 p pSock e1 Hin1 Hps1) as [Hin2 He1].
    destruct (leave_spec _ _ _ _ _ _ _ Hleave)
      as (r & Hrem & [[-> Hz]|(res & w2 & -> & Hres & Hgive)]).
    + destruct (remove_in_progress _ _ _ _ _ Hin2 Hrem) as [Hleft Hn].
      split; [exact Htb|]. split; [exact Hleft|].
      cbn [thread]. rewrite Hn. simpl. rewrite Hth. reflexivity.
    + destruct (remove_in_progress _ _ _ _ _ Hin2 Hrem) as [Hleft Hn].
      assert (Hsc1 : Machines.socket_contexts_pool
                       (tables (mkWorld (tables (set_entry w1 p e1)) r.2
                                  (machines (set_entry w1 p e1)))) !! pSock = Some sc).
      { simpl. rewrite Htb. exact Hsc. }
      destruct (abandon_spec _ _ _ _ _ Hsc1 Hgive) as [Hgiven Hthread].
      split; [exact Hres|].
      assert (Hcount : connection_count r.2 = connection_count (thread w) - 1).
      { rewrite Hn. simpl. rewrite Hth. reflexivity. }
      cbn [tables thread] in Hgiven, Hthread. simpl in Hgiven. rewrite Htb in Hgiven.
      destruct Hthread as [-> | ->].
      * split; [exact Hleft|]. split; [exact Hcount | exact Hgiven].
      * split; [apply left_list_lock; exact Hleft|]. split; [exact Hcount | exact Hgiven].
Qed.

(** *** The call returns *)

Lemma hello_loop_returns c n :
  forall fuel major min_major pm,
    0 < min_major -> 0 <= major < 2 ^ 32 ->
    n = Z.to_nat (major - min_major + 1) ->
    (n < fuel)%nat ->
    is_Some (Hello.hello_loop c fuel major min_major pm).
Proof.
  induction n as [|n IH]; intros fuel major min_major pm Hmin Hmaj Hn Hfuel;
    (destruct fuel as [|fuel]; [lia|]); simpl.
  - destruct (Z.geb_spec major min_major) as [Hge|Hlt]; [lia | eexists; reflexivity].
  - destruct (Z.geb_spec major min_major) as [Hge|Hlt]; [|eexists; reflexivity].
    assert (Hw : wrap32 (major - 1) = major - 1) by (apply HelloFacts.wrap32_small; lia).
    rewrite Hw. apply (IH fuel (major - 1) min_major); lia.
Qed.

Lemma deal_hello_message_returns c fuel ct m data :
  hello_ends fuel data.2 ->
  is_Some (Hello.deal_hello_message c fuel ct m data).
Proof.
  intros (Hmin & Hmaj & Hfuel). unfold Hello.deal_hello_message.
  destruct (negb (data_len data.1 =? Hello.sizeof_HelloMessage)); [eexists; reflexivity|].
  destruct (negb (func_id data.1 =? _)); [eexists; reflexivity|].
  destruct (hello_loop_returns c _ fuel (Hello.major data.2) (Hello.min_major data.2) (-1)
              Hmin Hmaj eq_refl Hfuel) as [pm ->].
  cbn [mbind option_bind]. destruct (pm >? 0); eexists; reflexivity.
Qed.

Lemma send_interrupted e x :
  (do_send_data e x).1 = EINTR -> x.1 < 0 /\ x.2 = EINTR.
Proof.
  unfold do_send_data. destruct (Z.ltb_spec x.1 0).
  - simpl. destruct (Z.eqb_spec x.2 0); simpl; unfold EAGAIN, EINTR; [lia|]. intros ->. lia.
  - destruct (Z.eqb_spec x.1 0); simpl; [unfold ECONNRESET, EINTR; lia|].
    destruct (_ =? _); unfold EAGAIN, EINTR; lia.
Qed.

Lemma recv_interrupted e x :
  (do_recv_data e x).1 = EINTR -> x.1 < 0 /\ x.2 = EINTR.
Proof.
  unfold do_recv_data. destruct (Z.ltb_spec x.1 0).
  - simpl. destruct (Z.eqb_spec x.2 0); simpl; unfold EAGAIN, EINTR; [lia|]. intros ->. lia.
  - destruct (Z.eqb_spec x.1 0); simpl; [unfold ECONNRESET, EINTR; lia|].
    destruct (_ =? _); unfold EAGAIN, EINTR; lia.
Qed.

Lemma retry_returns step answers :
  (forall e x, (step e x).1 = EINTR -> x.1 < 0 /\ x.2 = EINTR) ->
  answered answers -> forall e, is_Some (retry step e answers).
Proof.
  intros Hstep (x & Hx & Hnot).
  induction answers as [|a rest IH]; intros e; [inversion Hx|].
  simpl. destruct (Z.eqb_spec (step e a).1 EINTR) as [E|_]; [|eexists; reflexivity].
  apply elem_of_cons in Hx as [->|Hx]; [destruct (Hnot (Hstep _ _ E))|].
  apply IH. exact Hx.
Qed.

Lemma switch_returns c fuel my a w sc e machine_ip :
  Machines.machine sc = Some machine_ip ->
  (state e = Reconnect.STATE_SEND_DATA \/ state e = Reconnect.STATE_RECV_DATA ->
   answered (transfers a)) ->
  (state e = Reconnect.STATE_RECV_DATA -> hello_ends fuel (received a).2) ->
  is_Some (switch c fuel my a w sc e).
Proof.
  intros Hm Hans Hhello. unfold switch. destruct (state e) eqn:Hst.
  - eexists; reflexivity.
  - destruct (negb (so_error a =? 0)); eexists; reflexivity.
  - eexists; reflexivity.
  - destruct (retry_returns do_send_data (transfers a) send_interrupted
                (Hans (or_introl eq_refl)) e) as [r ->].
    cbn [mbind option_bind].
    destruct (r.1 =? EAGAIN); [eexists; reflexivity|].
    destruct (negb (r.1 =? 0)); [eexists; reflexivity|].
    destruct (is_client sc); eexists; reflexivity.
  - destruct (retry_returns do_recv_data (transfers a) recv_interrupted
                (Hans (or_intror eq_refl)) e) as [r ->].
    cbn [mbind option_bind].
    destruct (r.1 =? EAGAIN); [eexists; reflexivity|].
    destruct (negb (r.1 =? 0)); [eexists; reflexivity|].
    rewrite Hm. cbn [mbind option_bind].
    destruct (deal_hello_message_returns c fuel
                (if is_client sc then CONNECT_TYPE_CLIENT else CONNECT_TYPE_SERVER)
                (machines w machine_ip) (buff (set_buff r.2 (received a)))) as [hr ->].
    { exact (Hhello eq_refl). }
    cbn [mbind option_bind].
    destruct (is_client sc); [eexists; reflexivity|].
    destruct (Hello.hr_ret hr =? 0); eexists; reflexivity.
Qed.

Lemma abandon_returns N w pSock sc machine_ip :
  0 < N -> Z.of_nat (length (Machines.machine_sockets (tables w))) = N ->
  Machines.socket_contexts_pool (tables w) !! pSock = Some sc ->
  Machines.machine sc = Some machine_ip ->
  is_Some (abandon N w pSock).
Proof.
  intros HN Hlen Hsc Hm. unfold abandon.
  destruct (close_connection (tables w) pSock) as [tb|] eqn:Hclose.
  2:{ unfold close_connection in Hclose. rewrite Hsc in Hclose.
      cbn [mbind option_bind] in Hclose.
      destruct (Machines.sock sc >=? 0); discriminate. }
  cbn [mbind option_bind].
  destruct (close_connection_spec _ _ _ _ Hsc Hclose)
    as (Hms & Hlenp & sc' & Hsc' & Hsock & Hty & Hm' & Hnx).
  rewrite Hsc'. cbn [mbind option_bind].
  destruct (is_server sc'); [|eexists; reflexivity].
  unfold free_accept_sock_context. cbn [tables thread machines].
  rewrite Hsc'. cbn [mbind option_bind]. rewrite Hm', Hm. cbn [mbind option_bind].
  rewrite Hms.
  destruct (MachineFacts.get_machine_index_total N (Machines.machine_sockets (tables w))
              machine_ip HN Hlen) as (i & Hidx & Hcase).
  rewrite Hidx. cbn [mbind option_bind].
  unfold Machines.free_accept_sock_context, Machines.free_sock_context.
  rewrite Hsc'. cbn [mbind option_bind]. rewrite Hm', Hm. cbn [mbind option_bind].
  rewrite Hms, Hidx. cbn [mbind option_bind].
  destruct (Z.ltb_spec i 0) as [Hneg|Hpos]; [eexists; reflexivity|].
  destruct Hcase as [[-> _]|(Hi & s & Hs & _)]; [lia|].
  rewrite Hs. cbn [mbind option_bind].
  rewrite MachineFacts.store_Some by lia.
  cbn [mbind option_bind]. eexists; reflexivity.
Qed.

Lemma leave_returns N a w pSock needLock result sc machine_ip :
  thread_ok (thread w) ->
  0 < N -> Z.of_nat (length (Machines.machine_sockets (tables w))) = N ->
  Machines.socket_contexts_pool (tables w) !! pSock = Some sc ->
  Machines.machine sc = Some machine_ip ->
  is_Some (leave N a w pSock needLock result).
Proof.
  intros Hok HN Hlen Hsc Hm. unfold leave.
  destruct (ConnectionFacts.remove_connection_spec (thread w) pSock needLock Hok)
    as (r & t' & -> & _).
  cbn [mbind option_bind].
  destruct (_ =? 0); [eexists; reflexivity|].
  destruct (abandon_returns N (mkWorld (tables w) (r, t').2 (machines w)) pSock sc machine_ip
              HN Hlen Hsc Hm) as [w' ->].
  cbn [mbind option_bind]. eexists; reflexivity.
Qed.

Lemma connection_handler_returns c fuel my N a w p needLock pSock sc e machine_ip :
  in_progress (thread w) p pSock ->
  connections_buffer (thread w) !! p = Some e ->
  Machines.socket_contexts_pool (tables w) !! pSock = Some sc ->
  Machines.machine sc = Some machine_ip ->
  0 < N -> Z.of_nat (length (Machines.machine_sockets (tables w))) = N ->
  (state e = Reconnect.STATE_SEND_DATA \/ state e = Reconnect.STATE_RECV_DATA ->
   answered (transfers a)) ->
  (state e = Reconnect.STATE_RECV_DATA -> hello_ends fuel (received a).2) ->
  is_Some (connection_handler c fuel my N a w p needLock).
Proof.
  intros Hin He Hsc Hm HN Hlen Hans Hhello.
  pose proof Hin as (Hok & _ & _ & (p' & e0 & [= <-] & He0 & Hps) & _).
  rewrite He in He0. injection He0 as <-.
  unfold connection_handler. rewrite He. cbn [mbind option_bind].
  rewrite Hps. cbn [mbind option_bind]. rewrite Hsc. cbn [mbind option_bind].
  destruct (switch_returns c fuel my a w sc e machine_ip Hm Hans Hhello)
    as [[[[[result events] bNew] e1] w1] Hsw].
  rewrite Hsw. cbn [mbind option_bind].
  destruct (switch_keeps _ _ _ _ _ _ _ _ _ _ _ _ Hsw) as (K1 & K2 & K3 & K4).
  assert (Hin1 : in_progress (thread w1) p pSock) by (rewrite K3; exact Hin).
  destruct (set_entry_in_progress w1 p pSock e1 Hin1) as [[Hok2 _] _]; [congruence|].
  assert (Hleave : forall res,
    is_Some (leave N a (set_entry w1 p e1) pSock needLock res)).
  { intros res. apply (leave_returns N a _ pSock needLock res sc machine_ip).
    - exact Hok2.
    - exact HN.
    - simpl. rewrite K2. exact Hlen.
    - simpl. rewrite K2. exact Hsc.
    - exact Hm. }
  destruct events; [apply Hleave| |];
    (destruct ((control a).1 >=? 0); [eexists; reflexivity | apply Hleave]).
Qed.

(** X20. How one call of [connection_handler] leaves the controller, for
    a connect context that is listed for its socket context alone, whose
    socket context has its machine, with a table of MAX_MACHINE_COUNT
    machines.  The call returns, provided that a sending or receiving
    context meets a [write] or [read] that is not interrupted and that the
    hello which a receiving context takes has [min_major > 0] (with
    [min_major = 0] the loop of [deal_hello_message] does not end).  When
    the call waits for the next event, the list and the socket tables are
    as before and the context sends or receives.  When it comes to the
    hand-over, the connect context is off the list and free and the socket
    tables are as before.  When it fails, the result is not 0, the connect
    context is off the list and free, the socket is closed, and a server
    socket context is back at the head of the accept free list of its
    machine, while a client socket context is kept. *)
Theorem connection_handler_outcome c fuel my_machine_ip MAX_MACHINE_COUNT a w p needLock
    pSock sc e machine_ip :
  in_progress (thread w) p pSock ->
  connections_buffer (thread w) !! p = Some e ->
  Machines.socket_contexts_pool (tables w) !! pSock = Some sc ->
  Machines.machine sc = Some machine_ip ->
  0 < MAX_MACHINE_COUNT ->
  Z.of_nat (length (Machines.machine_sockets (tables w))) = MAX_MACHINE_COUNT ->
  (state e = Reconnect.STATE_SEND_DATA \/ state e = Reconnect.STATE_RECV_DATA ->
   answered (transfers a)) ->
  (state e = Reconnect.STATE_RECV_DATA -> hello_ends fuel (received a).2) ->
  exists o,
    connection_handler c fuel my_machine_ip MAX_MACHINE_COUNT a w p needLock = Some o /\
    match o with
    | Pending w' =>
      tables w' = tables w /\ listed (thread w') = listed (thread w) /\
      in_progress (thread w') p pSock /\
      exists e', connections_buffer (thread w') !! p = Some e' /\
        (state e' = Reconnect.STATE_SEND_DATA \/ state e' = Reconnect.STATE_RECV_DATA)
    | HandOff w' =>
      tables w' = tables w /\ left_list (thread w') p /\
      connection_count (thread w') = connection_count (thread w) - 1
    | Failed result w' =>
      result <> 0 /\ left_list (thread w') p /\
      connection_count (thread w') = connection_count (thread w) - 1 /\
      given_up MAX_MACHINE_COUNT (tables w) (tables w') pSock sc
    end.
Proof.
  intros Hin He Hsc Hm HN Hlen Hans Hhello.
  destruct (connection_handler_returns c fuel my_machine_ip MAX_MACHINE_COUNT a w p needLock
              pSock sc e machine_ip Hin He Hsc Hm HN Hlen Hans Hhello) as [o Ho].
  exists o. split; [exact Ho|].
  exact (connection_handler_ends c fuel my_machine_ip MAX_MACHINE_COUNT a w p needLock
           pSock sc o Hin Hsc Ho).
Qed.

Lemma sample_in_progress ty st : in_progress (thread (sample_world ty st)) 1 4.
Proof.
  assert (Hlisted : listed (thread (sample_world ty st)) = [Some 0%nat; Some 1%nat])
    by reflexivity.
  unfold in_progress. rewrite Hlisted.
  split.
  { split; [simpl; lia|]. split; [reflexivity|]. split; [reflexivity|].
    rewrite Hlisted. intros x Hx.
    apply elem_of_cons in Hx as [->|Hx]; [exists 0%nat; split; [reflexivity | eexists; reflexivity]|].
    apply list_elem_of_singleton in Hx as ->.
    exists 1%nat. split; [reflexivity | eexists; reflexivity]. }
  split.
  { apply NoDup_cons. split; [|apply NoDup_singleton].
    intros H. apply list_elem_of_singleton in H. discriminate. }
  split; [right; left|].
  split; [eexists 1%nat, _; split; [reflexivity|]; split; reflexivity|].
  intros x Hx (q & e & -> & He & Hps).
  apply elem_of_cons in Hx as [Hx|Hx].
  - injection Hx as ->. simpl in He. injection He as <-. discriminate Hps.
  - apply list_elem_of_singleton in Hx. exact Hx.
Qed.

(** A client that finds its connection established sends its hello in two
    parts and reads the response: the fourth call hands the connection
    over. *)
Lemma handshake_hands_off_after_hellos_witness :
  match handshake sample_config 4 9 3 sample_calls
          (sample_world CONNECT_TYPE_CLIENT Reconnect.STATE_CONNECTING) 1 with
  | Some (HandOff w') =>
    exchanged sample_config 4 sample_calls
      (Machines.mkSocketContext 9 (Some CONNECT_TYPE_CLIENT) (Some 4) None 0) w' 1 /\
    tables w' = tables (sample_world CONNECT_TYPE_CLIENT Reconnect.STATE_CONNECTING)
  | _ => False
  end.
Proof.
  destruct (handshake sample_config 4 9 3 sample_calls
              (sample_world CONNECT_TYPE_CLIENT Reconnect.STATE_CONNECTING) 1)
    as [[w'|w'|r w']|] eqn:H; try (vm_compute in H; discriminate H).
  apply (handshake_hands_off_after_hellos sample_config 4 9 3 sample_calls
           (sample_world CONNECT_TYPE_CLIENT Reconnect.STATE_CONNECTING) 1
           (set_state (sample_entry (Some 4%nat) true) Reconnect.STATE_CONNECTING) 4
           (Machines.mkSocketContext 9 (Some CONNECT_TYPE_CLIENT) (Some 4) None 0) w');
    [reflexivity | reflexivity | reflexivity | left; reflexivity | exact H].
Defined.

(** A client that awaits the response reads it after an interrupted
    [read]: the call returns and hands the connection over. *)
Lemma connection_handler_outcome_witness :
  exists o,
    connection_handler sample_config 4 9 3 (sample_answers [(-1, 4); (48, 0)] 62)
      (sample_world CONNECT_TYPE_CLIENT Reconnect.STATE_RECV_DATA) 1 true = Some o /\
    match o with
    | Pending w' =>
      tables w' = tables (sample_world CONNECT_TYPE_CLIENT Reconnect.STATE_RECV_DATA) /\
      listed (thread w')
      = listed (thread (sample_world CONNECT_TYPE_CLIENT Reconnect.STATE_RECV_DATA)) /\
      in_progress (thread w') 1 4 /\
      exists e', connections_buffer (thread w') !! 1%nat = Some e' /\
        (state e' = Reconnect.STATE_SEND_DATA \/ state e' = Reconnect.STATE_RECV_DATA)
    | HandOff w' =>
      tables w' = tables (sample_world CONNECT_TYPE_CLIENT Reconnect.STATE_RECV_DATA) /\
      left_list (thread w') 1 /\
      connection_count (thread w') = 2 - 1
    | Failed result w' =>
      result <> 0 /\ left_list (thread w') 1 /\
      connection_count (thread w') = 2 - 1 /\
      given_up 3 (tables (sample_world CONNECT_TYPE_CLIENT Reconnect.STATE_RECV_DATA))
        (tables w') 4 (Machines.mkSocketContext 9 (Some CONNECT_TYPE_CLIENT) (Some 4) None 0)
    end.
Proof.
  apply (connection_handler_outcome sample_config 4 9 3
           (sample_answers [(-1, 4); (48, 0)] 62)
           (sample_world CONNECT_TYPE_CLIENT Reconnect.STATE_RECV_DATA) 1 true 4
           (Machines.mkSocketContext 9 (Some CONNECT_TYPE_CLIENT) (Some 4) None 0)
           (set_state (sample_entry (Some 4%nat) true) Reconnect.STATE_RECV_DATA) 4).
  - exact (sample_in_progress CONNECT_TYPE_CLIENT Reconnect.STATE_RECV_DATA).
  - reflexivity.
  - reflexivity.
  - reflexivity.
  - lia.
  - reflexivity.
  - intros _. exists (48, 0). split; [right; left|]. simpl. lia.
  - intros _. split; [simpl; lia|]. split; [simpl; lia|]. simpl. lia.
Defined.

End HandshakeFacts.

(** ** Connecting to a machine *)
Module DialingFacts.
Import Connections Handshake Dialing.

Lemma find_connection_spec t pSock :
  thread_ok t ->
  exists found,
    find_connection t pSock = Some found /\
    match found with
    | None => ~ has_connection t pSock
    | Some _ => has_connection t pSock
    end.
Proof.
  intros Hok. pose proof Hok as (Hc & Hlen & Hbuf & Hall).
  unfold find_connection. destruct (Z.ltb_spec (connection_count t) 0); [lia|].
  set (n := Z.to_nat (connection_count t)).
  destruct (ConnectionFacts.search_first t pSock n Hok 0) as (i & Hi & Hrange & Hbefore & Hat);
    [fold n; lia|].
  rewrite Hi. cbn [mbind option_bind]. simpl in Hrange, Hat.
  destruct (decide (i = n)) as [->|Hne].
  - exists None. split; [reflexivity|]. intros (x & Hx & Hpt).
    apply list_elem_of_lookup_1 in Hx as [j Hj].
    pose proof (lookup_lt_Some _ _ _ Hj) as Hlt. unfold listed in Hlt.
    rewrite length_take in Hlt.
    rewrite ConnectionFacts.listed_lookup in Hj by (fold n; lia).
    apply (Hbefore j x); [lia | exact Hj | exact Hpt].
  - assert (Hf : (i < n)%nat) by lia.
    destruct (Hat Hf) as (x & Hx & Hpt).
    rewrite Hx. cbn [mbind option_bind]. exists x. split; [reflexivity|].
    assert (Hin : x ∈ listed t).
    { apply (list_elem_of_lookup_2 _ i). rewrite ConnectionFacts.listed_lookup by (fold n; lia).
      exact Hx. }
    destruct Hpt as (q & e & -> & He & Hps).
    exists (Some q). split; [exact Hin|]. exists q, e. auto.
Qed.

Lemma points_to_set_entry w p e e' :
  connections_buffer (thread w) !! p = Some e ->
  pSockContext e' = pSockContext e ->
  forall pSock x,
    points_to (thread (set_entry w p e')) pSock x <-> points_to (thread w) pSock x.
Proof.
  intros He Hps pSock x.
  assert (Hlt : (p < length (connections_buffer (thread w)))%nat)
    by (apply lookup_lt_Some in He; exact He).
  split.
  - intros (q & e0 & -> & Hq & Hp'). simpl in Hq.
    destruct (decide (q = p)) as [->|Hne].
    + rewrite list_lookup_insert_eq in Hq by exact Hlt. injection Hq as <-.
      exists p, e. split; [reflexivity|]. split; [exact He | congruence].
    + rewrite list_lookup_insert_ne in Hq by congruence. exists q, e0. auto.
  - intros (q & e0 & -> & Hq & Hp').
    destruct (decide (q = p)) as [->|Hne].
    + exists p, e'. split; [reflexivity|]. split; [|congruence].
      simpl. apply list_lookup_insert_eq. exact Hlt.
    + exists q, e0. split; [reflexivity|]. split; [|exact Hp'].
      simpl. rewrite list_lookup_insert_ne by congruence. exact Hq.
Qed.

(** A write to a pool entry that keeps [used] keeps the list and the pool
    in step. *)
Lemma pool_ok_set_entry w p e e' :
  connections_buffer (thread w) !! p = Some e ->
  used e' = used e ->
  thread_ok (thread w) -> pool_listed (thread w) ->
  thread_ok (thread (set_entry w p e')) /\ pool_listed (thread (set_entry w p e')).
Proof.
  intros He Hu (H1 & H2 & H3 & H4) [Hnd Hused].
  assert (Hlt : (p < length (connections_buffer (thread w)))%nat)
    by (apply lookup_lt_Some in He; exact He).
  split.
  - split; [exact H1|]. split; [exact H2|].
    split; [simpl; rewrite length_insert; exact H3|].
    intros x Hx. destruct (H4 x Hx) as (q & -> & Hq). exists q. split; [reflexivity|].
    simpl. apply lookup_lt_is_Some. rewrite length_insert. apply lookup_lt_is_Some. exact Hq.
  - split; [exact Hnd|]. intros q e0 Hq. simpl in Hq.
    destruct (decide (q = p)) as [->|Hne].
    + rewrite list_lookup_insert_eq in Hq by exact Hlt. injection Hq as <-.
      rewrite Hu. apply (Hused p e He).
    + rewrite list_lookup_insert_ne in Hq by congruence. apply (Hused q e0 Hq).
Qed.

Lemma controller_ok_set_entry w p e e' :
  connections_buffer (thread w) !! p = Some e ->
  pSockContext e' = pSockContext e -> used e' = used e ->
  controller_ok (thread w) -> controller_ok (thread (set_entry w p e')).
Proof.
  intros He Hps Hu (Hok & Hpl & Huniq).
  destruct (pool_ok_set_entry w p e e' He Hu Hok Hpl) as [Hok' Hpl'].
  split; [exact Hok'|]. split; [exact Hpl'|].
  intros x y pSock Hx Hy Hpx Hpy.
  apply (Huniq x y pSock Hx Hy).
  - apply (points_to_set_entry w p e e' He Hps). exact Hpx.
  - apply (points_to_set_entry w p e e' He Hps). exact Hpy.
Qed.

Lemma controller_ok_lock t b : controller_ok t -> controller_ok (set_lock t b).
Proof. intros H. exact H. Qed.

Lemma controller_ok_remove t pSock needLock r :
  controller_ok t -> remove_connection t pSock needLock = Some r -> controller_ok r.2.
Proof.
  intros (Hok & Hpl & Huniq) Hrem.
  destruct (ConnectionFacts.remove_connection_spec t pSock needLock Hok)
    as (r0 & t' & Hrem' & Hres).
  rewrite Hrem in Hrem'. injection Hrem' as ->. cbn [snd].
  destruct Hres as [(_ & _ & ->)|(-> & l1 & q & e & l2 & Hl & Hbefore & He & Hps & Hl' & Hb' &
                                    _)].
  { apply controller_ok_lock. split; [exact Hok|]. split; [exact Hpl | exact Huniq]. }
  destruct (ConnectionFacts.remove_connection_keeps t pSock needLock t' Hok Hrem)
    as [Hok' Hpl'].
  split; [exact Hok'|]. split; [exact (Hpl' Hpl)|].
  assert (Hsub : forall x, x ∈ listed t' -> x ∈ listed t).
  { intros x. rewrite Hl', Hl, !elem_of_app, elem_of_cons. tauto. }
  assert (Hpt : forall ps x, points_to t' ps x -> points_to t ps x).
  { intros ps x (p & e0 & -> & Hp & Hp'). rewrite Hb' in Hp.
    destruct (decide (p = q)) as [->|Hne].
    - rewrite list_lookup_insert_eq in Hp by (apply lookup_lt_Some in He; exact He).
      injection Hp as <-. discriminate Hp'.
    - rewrite list_lookup_insert_ne in Hp by congruence. exists p, e0. auto. }
  intros x y ps Hx Hy Hpx Hpy. apply (Huniq x y ps); auto.
Qed.

(** The entry that [alloc_connect_context] lists, once it is written for
    a socket context that had no connection. *)
Lemma controller_ok_alloc_for hdr w pSock r p (f : ConnectContext -> ConnectContext) :
  (forall e, pSockContext (f e) = Some pSock /\ used (f e) = used e) ->
  controller_ok (thread w) -> ~ has_connection (thread w) pSock ->
  alloc_connect_context hdr (thread w) = Some r -> r.1 = Some p ->
  exists e,
    connections_buffer r.2 !! p = Some e /\
    controller_ok (thread (set_entry (set_thread w r.2) p (f e))) /\
    connections_buffer (thread (set_entry (set_thread w r.2) p (f e))) !! p = Some (f e) /\
    listed r.2 = listed (thread w) ++ [Some p].
Proof.
  intros Hf (Hok & Hpl & Huniq) Hnone Halloc Hr.
  destruct (ConnectionFacts.alloc_connect_context_spec hdr (thread w) Hok Hpl)
    as (r0 & t' & Halloc' & Hok' & Hpl' & _ & _ & Hres).
  rewrite Halloc in Halloc'. injection Halloc' as ->. cbn [fst snd] in *. subst r0.
  destruct Hres as [(Habs & _)|(p' & e & [= <-] & _ & He & Hu & _ & Hl' & Hb')];
    [discriminate|].
  assert (Hlt : (p < length (connections_buffer (thread w)))%nat)
    by (apply lookup_lt_Some in He; exact He).
  assert (He' : connections_buffer t' !! p = Some (fresh hdr e)).
  { rewrite Hb'. apply list_lookup_insert_eq. exact Hlt. }
  exists (fresh hdr e). split; [exact He'|].
  set (e2 := f (fresh hdr e)).
  destruct (Hf (fresh hdr e)) as [Hps2 Hu2]. fold e2 in Hps2, Hu2.
  set (w1 := set_thread w t').
  assert (He1 : connections_buffer (thread w1) !! p = Some (fresh hdr e)) by exact He'.
  destruct (pool_ok_set_entry w1 p (fresh hdr e) e2 He1 Hu2 Hok' Hpl') as [Hok2 Hpl2].
  assert (Hlt' : (p < length (connections_buffer t'))%nat)
    by (apply lookup_lt_Some in He'; exact He').
  split; [|split; [simpl; apply list_lookup_insert_eq; exact Hlt' | exact Hl']].
  split; [exact Hok2|]. split; [exact Hpl2|].
  assert (Hnew : Some p ∉ listed (thread w)).
  { intros Hin. destruct Hpl as [_ Hused]. apply (Hused p e He) in Hin. congruence. }
  assert (Hold : forall ps q, q <> p ->
            points_to (thread (set_entry w1 p e2)) ps (Some q) ->
            points_to (thread w) ps (Some q)).
  { intros ps q Hq (q' & e0 & [= <-] & Hq' & Hp'). simpl in Hq'.
    rewrite list_lookup_insert_ne in Hq' by congruence.
    rewrite Hb' in Hq'. rewrite list_lookup_insert_ne in Hq' by congruence.
    exists q, e0. auto. }
  assert (Hthis : forall ps,
            points_to (thread (set_entry w1 p e2)) ps (Some p) -> ps = pSock).
  { intros ps (q' & e0 & [= <-] & Hq' & Hp'). simpl in Hq'.
    rewrite list_lookup_insert_eq in Hq' by exact Hlt'. injection Hq' as <-.
    congruence. }
  assert (Hlisted : forall x, x ∈ listed (thread (set_entry w1 p e2)) ->
            x = Some p \/ (x ∈ listed (thread w) /\ x <> Some p)).
  { intros x Hx.
    assert (Hx' : x ∈ listed t') by exact Hx.
    rewrite Hl' in Hx'. apply elem_of_app in Hx' as [Hx'|Hx'].
    - right. split; [exact Hx'|]. intros ->. exact (Hnew Hx').
    - left. apply list_elem_of_singleton in Hx'. exact Hx'. }
  assert (Hmixed : forall x ps, x ∈ listed (thread w) -> x <> Some p ->
            points_to (thread (set_entry w1 p e2)) ps x ->
            points_to (thread w) ps x).
  { intros x ps Hx Hne Hpt. pose proof Hpt as (q & e0 & -> & _).
    apply (Hold ps q); [congruence | exact Hpt]. }
  intros x y ps Hx Hy Hpx Hpy.
  destruct (Hlisted x Hx) as [->|[Hx1 Hx2]], (Hlisted y Hy) as [->|[Hy1 Hy2]].
  - reflexivity.
  - exfalso. apply Hnone. exists y. split; [exact Hy1|].
    rewrite <- (Hthis ps Hpx). apply (Hmixed y ps Hy1 Hy2 Hpy).
  - exfalso. apply Hnone. exists x. split; [exact Hx1|].
    rewrite <- (Hthis ps Hpy). apply (Hmixed x ps Hx1 Hx2 Hpx).
  - apply (Huniq x y ps Hx1 Hy1); [apply (Hmixed x ps Hx1 Hx2 Hpx) | apply (Hmixed y ps Hy1 Hy2 Hpy)].
Qed.

(** From STATE_CONNECTED the handler waits for the next event or fails:
    it asks for an event, and gives up when the poll refuses. *)
Lemma connected_not_handed_off c fuel my N a w p needLock e pSock sc :
  controller_ok (thread w) ->
  connections_buffer (thread w) !! p = Some e ->
  pSockContext e = Some pSock ->
  Machines.socket_contexts_pool (tables w) !! pSock = Some sc ->
  is_server sc = false ->
  state e = Reconnect.STATE_CONNECTED ->
  exists o,
    connection_handler c fuel my N a w p needLock = Some o /\
    match o with
    | Pending w' => controller_ok (thread w')
    | HandOff _ => False
    | Failed result w' => result <> 0 /\ controller_ok (thread w')
    end.
Proof.
  intros Hok He Hps Hsc Hserver Hst.
  assert (Hsw : exists ev e1,
    switch c fuel my a w sc e = Some (0, ev, negb (is_client sc), e1, w) /\
    ev <> NO_EVENTS /\ pSockContext e1 = pSockContext e /\ used e1 = used e).
  { unfold switch. rewrite Hst. unfold connected.
    destruct (is_client sc); eexists _, _; (split; [reflexivity|]);
      (split; [discriminate|]); split; reflexivity. }
  destruct Hsw as (ev & e1 & Hsw & Hev & Hps1 & Hu1).
  unfold connection_handler. rewrite He. cbn [mbind option_bind]. rewrite Hps.
  cbn [mbind option_bind]. rewrite Hsc. cbn [mbind option_bind]. rewrite Hsw.
  cbn [mbind option_bind].
  pose proof (controller_ok_set_entry w p e e1 He Hps1 Hu1 Hok) as Hok1.
  assert (Hctl :
    exists o,
      (if (control a).1 >=? 0 then Some (Pending (set_entry w p e1))
       else leave N a (set_entry w p e1) pSock needLock
              (if negb ((control a).2 =? 0) then (control a).2 else ENOMEM)) = Some o /\
      match o with
      | Pending w' => controller_ok (thread w')
      | HandOff _ => False
      | Failed result w' => result <> 0 /\ controller_ok (thread w')
      end).
  { destruct ((control a).1 >=? 0).
    - eexists. split; [reflexivity|]. exact Hok1.
    - unfold leave.
      destruct (ConnectionFacts.remove_connection_spec (thread (set_entry w p e1)) pSock
                  needLock (proj1 Hok1)) as (r0 & t' & Hrem & _).
      rewrite Hrem. cbn [mbind option_bind].
      pose proof (controller_ok_remove _ _ _ _ Hok1 Hrem) as Hok2. cbn [snd] in Hok2.
      set (result := if (detached a).1 <? 0
                     then if negb ((detached a).2 =? 0) then (detached a).2 else ENOMEM
                     else if negb ((control a).2 =? 0) then (control a).2 else ENOMEM).
      assert (Hres : result <> 0).
      { unfold result, ENOMEM.
        destruct ((detached a).1 <? 0);
          [destruct (Z.eqb_spec (detached a).2 0) | destruct (Z.eqb_spec (control a).2 0)];
          simpl; lia. }
      destruct (Z.eqb_spec result 0) as [|_]; [contradiction|].
      unfold abandon, close_connection. cbn [tables thread machines set_entry].
      rewrite Hsc. cbn [mbind option_bind].
      assert (Hlt : (pSock < length (Machines.socket_contexts_pool (tables w)))%nat)
        by (apply lookup_lt_Some in Hsc; exact Hsc).
      destruct (Machines.sock sc >=? 0); cbn [mbind option_bind Machines.socket_contexts_pool].
      + rewrite list_lookup_insert_eq by exact Hlt. cbn [mbind option_bind].
        assert (Hsv : is_server (set_sock sc (-1)) = false) by exact Hserver.
        rewrite Hsv. eexists. split; [reflexivity|]. split; [exact Hres | exact Hok2].
      + rewrite Hsc. cbn [mbind option_bind]. rewrite Hserver.
        eexists. split; [reflexivity|]. split; [exact Hres | exact Hok2]. }
  destruct ev; [contradiction | exact Hctl | exact Hctl].
Qed.

Lemma do_connect_keeps c fuel my N s a w p needLock e pSock sc :
  controller_ok (thread w) ->
  connections_buffer (thread w) !! p = Some e ->
  pSockContext e = Some pSock ->
  Machines.socket_contexts_pool (tables w) !! pSock = Some sc ->
  is_server sc = false -> is_Some (Machines.machine sc) ->
  exists result w',
    do_connect c fuel my N s a w p needLock = Some (result, w') /\
    controller_ok (thread w').
Proof.
  intros Hok He Hps Hsc Hserver [ip Hip].
  unfold do_connect. rewrite He. cbn [mbind option_bind]. rewrite Hps.
  cbn [mbind option_bind]. rewrite Hsc. cbn [mbind option_bind].
  set (fd := (socket_made s).1).
  set (e1 := set_state (set_connect_count e (connect_count e + 1))
               Reconnect.STATE_CONNECTING).
  set (w0 := set_socket w pSock sc fd).
  set (w1 := set_entry w0 p e1).
  assert (Hlt : (pSock < length (Machines.socket_contexts_pool (tables w)))%nat)
    by (apply lookup_lt_Some in Hsc; exact Hsc).
  assert (Hltp : (p < length (connections_buffer (thread w)))%nat)
    by (apply lookup_lt_Some in He; exact He).
  assert (He0 : connections_buffer (thread w0) !! p = Some e) by exact He.
  assert (Hok0 : controller_ok (thread w0)) by exact Hok.
  assert (Hok1 : controller_ok (thread w1))
    by (apply (controller_ok_set_entry w0 p e e1 He0); [reflexivity | reflexivity | exact Hok0]).
  assert (He1 : connections_buffer (thread w1) !! p = Some e1)
    by (simpl; apply list_lookup_insert_eq; exact Hltp).
  assert (Hsc1 : Machines.socket_contexts_pool (tables w1) !! pSock = Some (set_sock sc fd))
    by (simpl; apply list_lookup_insert_eq; exact Hlt).
  assert (Hclose : forall w2, tables w2 = tables w1 ->
            exists tb, close_connection (tables w2) pSock = Some tb).
  { intros w2 ->. unfold close_connection. rewrite Hsc1. cbn [mbind option_bind].
    destruct (Machines.sock (set_sock sc fd) >=? 0); eauto. }
  destruct (Z.ltb_spec fd 0); [eauto|].
  destruct (negb (nonblocking s =? 0)).
  { destruct (Hclose w1 eq_refl) as [tb ->]. cbn [mbind option_bind]. eauto. }
  destruct ((nodelay s).1 <? 0); [eauto|].
  rewrite Hip. cbn [mbind option_bind].
  destruct (aton s =? 0).
  { destruct (Hclose w1 eq_refl) as [tb ->]. cbn [mbind option_bind].
    destruct (ConnectionFacts.remove_connection_spec (thread w1) pSock needLock (proj1 Hok1))
      as (r0 & t' & Hrem & _).
    rewrite Hrem. cbn [mbind option_bind]. eexists _, _. split; [reflexivity|].
    exact (controller_ok_remove _ _ _ _ Hok1 Hrem). }
  set (e2 := set_connect_start_time e1 (start_ms s)).
  destruct ((connect_made s).1 =? 0).
  - set (e3 := set_need_check_timeout (set_state e2 Reconnect.STATE_CONNECTED) true).
    assert (Hok3 : controller_ok (thread (set_entry w1 p e3)))
      by (apply (controller_ok_set_entry w1 p e1 e3 He1); [reflexivity | reflexivity | exact Hok1]).
    assert (He3 : connections_buffer (thread (set_entry w1 p e3)) !! p = Some e3).
    { simpl. apply list_lookup_insert_eq. rewrite length_insert. exact Hltp. }
    destruct (connected_not_handed_off c fuel my N a (set_entry w1 p e3) p needLock e3 pSock
                (set_sock sc fd) Hok3 He3 Hps Hsc1 Hserver eq_refl) as (o & Hh & Ho).
    rewrite Hh. cbn [mbind option_bind].
    destruct o as [w'|w'|r w']; [|contradiction|]; eexists _, _; (split; [reflexivity|]).
    + exact Ho.
    + exact (proj2 Ho).
  - assert (Hok2 : controller_ok (thread (set_entry w1 p e2)))
      by (apply (controller_ok_set_entry w1 p e1 e2 He1); [reflexivity | reflexivity | exact Hok1]).
    assert (He2 : connections_buffer (thread (set_entry w1 p e2)) !! p = Some e2).
    { simpl. apply list_lookup_insert_eq. rewrite length_insert. exact Hltp. }
    destruct (negb (errno_or (connect_made s).2 EINPROGRESS =? EINPROGRESS)).
    { destruct (Hclose (set_entry w1 p e2) eq_refl) as [tb ->]. cbn [mbind option_bind]. eauto. }
    destruct ((attached s).1 <? 0).
    { destruct (Hclose (set_entry w1 p e2) eq_refl) as [tb ->]. cbn [mbind option_bind]. eauto. }
    eexists _, _. split; [reflexivity|].
    apply (controller_ok_set_entry (set_entry w1 p e2) p e2 _ He2); [reflexivity | reflexivity|].
    exact Hok2.
Qed.

(** X21. [make_connection] returns, whatever the system calls answer, for
    a socket context that is not of a server and has its machine; the list
    of the connections in progress stays in order, with no socket context
    listed twice.  When a connect context is listed for the socket context
    already, the call returns EEXIST and changes nothing but the lock;
    when there is none and the list is full, it returns ENOSPC and changes
    nothing but the lock. *)
Theorem make_connection_lists_once MSG_HEADER_LENGTH c fuel my_machine_ip
    MAX_MACHINE_COUNT s a w pSock sc :
  controller_ok (thread w) ->
  Machines.socket_contexts_pool (tables w) !! pSock = Some sc ->
  is_server sc = false -> is_Some (Machines.machine sc) ->
  exists result w',
    make_connection MSG_HEADER_LENGTH c fuel my_machine_ip MAX_MACHINE_COUNT s a w pSock
      = Some (result, w') /\
    controller_ok (thread w') /\
    (has_connection (thread w) pSock ->
     result = EEXIST /\ w' = set_thread w (set_lock (thread w) false)) /\
    (~ has_connection (thread w) pSock ->
     connection_count (thread w) = alloc_size (thread w) ->
     result = ENOSPC /\ w' = set_thread w (set_lock (thread w) false)).
Proof.
  intros Hok Hsc Hserver Hm. pose proof Hok as (Htok & Hpl & Huniq).
  unfold make_connection.
  destruct (find_connection_spec (thread w) pSock Htok) as (found & -> & Hfound).
  cbn [mbind option_bind].
  set (w0 := set_thread w (set_lock (thread w) false)).
  assert (Hok0 : controller_ok (thread w0)) by exact Hok.
  destruct found as [q|].
  { eexists _, _. split; [reflexivity|]. split; [exact Hok0|].
    split; [auto|]. intros Hnone. contradiction. }
  destruct (ConnectionFacts.alloc_connect_context_spec MSG_HEADER_LENGTH (thread w0)
              (proj1 Hok0) (proj1 (proj2 Hok0)))
    as (r & t' & Halloc & Hok' & Hpl' & Hlock & _ & Hres).
  rewrite Halloc. cbn [mbind option_bind fst snd].
  destruct r as [p|].
  - assert (Hnone0 : ~ has_connection (thread w0) pSock) by exact Hfound.
    destruct (controller_ok_alloc_for MSG_HEADER_LENGTH w0 pSock (Some p, t') p
                (fun e => aim e pSock) (fun e => conj eq_refl eq_refl) Hok0 Hnone0 Halloc
                eq_refl) as (e & He & Hok2 & He2 & _).
    cbn [snd] in He, Hok2, He2.
    assert (He' : connections_buffer (thread (set_thread w0 t')) !! p = Some e) by exact He.
    rewrite He'. cbn [mbind option_bind].
    destruct (do_connect_keeps c fuel my_machine_ip MAX_MACHINE_COUNT s a
                (set_entry (set_thread w0 t') p (aim e pSock)) p true (aim e pSock) pSock sc
                Hok2 He2 eq_refl Hsc Hserver Hm) as (result & w' & Hdo & Hok3).
    rewrite Hdo. exists result, w'. split; [reflexivity|]. split; [exact Hok3|].
    split; [intros Hhas; contradiction|].
    intros _ Hfull. exfalso.
    destruct Hres as [(Habs & _)|(p' & e' & _ & Hroom & _)]; [discriminate|].
    change (connection_count (thread w0)) with (connection_count (thread w)) in Hroom.
    change (alloc_size (thread w0)) with (alloc_size (thread w)) in Hroom. lia.
  - destruct Hres as [(_ & Hfull & Hl & Hb)|(p' & e' & Habs & _)]; [|discriminate].
    assert (Ht' : t' = thread w0).
    { unfold alloc_connect_context in Halloc.
      destruct (Z.geb_spec (connection_count (thread w0)) (alloc_size (thread w0)));
        [injection Halloc as <-; reflexivity | lia]. }
    eexists _, _. split; [reflexivity|]. rewrite Ht'.
    split; [exact Hok0|]. split; [intros Hhas; contradiction|].
    intros _ _. split; reflexivity.
Qed.

Lemma sample_controller_ok ty st : controller_ok (thread (sample_world ty st)).
Proof.
  assert (Hlisted : listed (thread (sample_world ty st)) = [Some 0%nat; Some 1%nat])
    by reflexivity.
  split; [exact (proj1 (HandshakeFacts.sample_in_progress ty st))|].
  split.
  - split; [exact (proj1 (proj2 (HandshakeFacts.sample_in_progress ty st)))|].
    intros p e He. rewrite Hlisted.
    destruct p as [|[|[|p]]]; simpl in He; try discriminate; injection He as <-; simpl.
    + split; [intros _; left | reflexivity].
    + split; [intros _; right; left | reflexivity].
    + split; [discriminate|]. intros Hin.
      apply elem_of_cons in Hin as [Hin|Hin]; [discriminate|].
      apply list_elem_of_singleton in Hin. discriminate.
  - intros x y pSock Hx Hy (p & e & -> & He & Hp) (q & e' & -> & He' & Hq).
    rewrite Hlisted in Hx, Hy.
    assert (Hcases : forall n : nat, Some n ∈ [Some 0%nat; Some 1%nat] -> n = 0%nat \/ n = 1%nat).
    { intros n Hn. apply elem_of_cons in Hn as [Hn|Hn]; [left; congruence|].
      apply list_elem_of_singleton in Hn. right. congruence. }
    destruct (Hcases p Hx) as [-> | ->], (Hcases q Hy) as [-> | ->]; try reflexivity;
      simpl in He, He'; injection He as <-; injection He' as <-; simpl in Hp, Hq; congruence.
Qed.

(** A connection to the machine 4 over the socket context 5, which has no
    connection yet. *)
Lemma make_connection_lists_once_witness :
  exists result w',
    make_connection 32 sample_config 4 9 3 sample_syscalls sample_refused
      (sample_world CONNECT_TYPE_CLIENT Reconnect.STATE_CONNECTING) 5
      = Some (result, w') /\
    controller_ok (thread w') /\
    (has_connection (thread (sample_world CONNECT_TYPE_CLIENT Reconnect.STATE_CONNECTING)) 5 ->
     result = EEXIST /\
     w' = set_thread (sample_world CONNECT_TYPE_CLIENT Reconnect.STATE_CONNECTING)
            (set_lock (thread (sample_world CONNECT_TYPE_CLIENT Reconnect.STATE_CONNECTING))
               false)) /\
    (~ has_connection (thread (sample_world CONNECT_TYPE_CLIENT Reconnect.STATE_CONNECTING)) 5 ->
     connection_count (thread (sample_world CONNECT_TYPE_CLIENT Reconnect.STATE_CONNECTING))
     = alloc_size (thread (sample_world CONNECT_TYPE_CLIENT Reconnect.STATE_CONNECTING)) ->
     result = ENOSPC /\
     w' = set_thread (sample_world CONNECT_TYPE_CLIENT Reconnect.STATE_CONNECTING)
            (set_lock (thread (sample_world CONNECT_TYPE_CLIENT Reconnect.STATE_CONNECTING))
               false)).
Proof.
  apply (make_connection_lists_once 32 sample_config 4 9 3 sample_syscalls sample_refused
           (sample_world CONNECT_TYPE_CLIENT Reconnect.STATE_CONNECTING) 5
           (Machines.mkSocketContext 9 (Some CONNECT_TYPE_CLIENT) (Some 4) None 0)).
  - apply sample_controller_ok.
  - reflexivity.
  - reflexivity.
  - eexists. reflexivity.
Defined.

End DialingFacts.

(** ** Taking a connection in *)
Module AcceptingFacts.
Import Connections Handshake Dialing Accepting.
Import DialingFacts.

(** The socket contexts of [pool'] are those of [pool] but for their
    sockets and machines. *)
Lemma pool_kept_refl (pool : list Machines.SocketContext) :
  length pool = length pool /\
  forall q c', pool !! q = Some c' ->
    exists c, pool !! q = Some c /\
      Machines.next c' = Machines.next c /\
      Machines.connect_type c' = Machines.connect_type c /\
      Machines.thread_context c' = Machines.thread_context c.
Proof. split; [reflexivity|]. intros q c' Hq. exists c'. auto. Qed.

Lemma pool_kept_insert (pool pool' : list Machines.SocketContext) p c' cx :
  (length pool' = length pool /\
   forall q c', pool' !! q = Some c' ->
     exists c, pool !! q = Some c /\
       Machines.next c' = Machines.next c /\
       Machines.connect_type c' = Machines.connect_type c /\
       Machines.thread_context c' = Machines.thread_context c) ->
  pool' !! p = Some c' ->
  Machines.next cx = Machines.next c' ->
  Machines.connect_type cx = Machines.connect_type c' ->
  Machines.thread_context cx = Machines.thread_context c' ->
  length (<[p := cx]> pool') = length pool /\
  forall q c', <[p := cx]> pool' !! q = Some c' ->
    exists c, pool !! q = Some c /\
      Machines.next c' = Machines.next c /\
      Machines.connect_type c' = Machines.connect_type c /\
      Machines.thread_context c' = Machines.thread_context c.
Proof.
  intros [Hlen Hrel] Hp Hn Ht Hth. split; [rewrite length_insert; exact Hlen|].
  intros q c0 Hq. destruct (decide (q = p)) as [->|Hne].
  - rewrite list_lookup_insert_eq in Hq by (apply lookup_lt_Some in Hp; exact Hp).
    injection Hq as <-. destruct (Hrel p c' Hp) as (c & Hc & H1 & H2 & H3).
    exists c. split; [exact Hc|]. split; [congruence|]. split; congruence.
  - rewrite list_lookup_insert_ne in Hq by congruence. apply (Hrel q c0 Hq).
Qed.

Lemma same_lists_refl tb : same_lists tb tb.
Proof.
  split; [reflexivity|]. split.
  - intros i s' Hs. exists s'. auto 6.
  - apply pool_kept_refl.
Qed.

(** One slot rewritten with the same lists, over a pool that is kept. *)
Lemma same_lists_slot ms pool pool' i s s' :
  0 <= i -> Machines.at_index ms i = Some s ->
  Machines.accept_free_list s' = Machines.accept_free_list s ->
  Machines.connect_free_list s' = Machines.connect_free_list s ->
  Machines.connected_list s' = Machines.connected_list s ->
  (Machines.ip s' = Machines.ip s \/ Machines.ip s = 0) ->
  (length pool' = length pool /\
   forall q c', pool' !! q = Some c' ->
     exists c, pool !! q = Some c /\
       Machines.next c' = Machines.next c /\
       Machines.connect_type c' = Machines.connect_type c /\
       Machines.thread_context c' = Machines.thread_context c) ->
  same_lists (Machines.mkTables ms pool)
    (Machines.mkTables (<[Z.to_nat i := s']> ms) pool').
Proof.
  intros Hi Hs Ha Hc Hl Hip [Hlen Hrel].
  apply MachineFacts.at_index_Some in Hs as [_ Hs].
  split; [simpl; apply length_insert|]. split; [|split; [exact Hlen | exact Hrel]].
  intros j s0 Hj. simpl in Hj. destruct (decide (j = Z.to_nat i)) as [->|Hne].
  - rewrite list_lookup_insert_eq in Hj by (apply lookup_lt_Some in Hs; exact Hs).
    injection Hj as <-. exists s. auto 6.
  - rewrite list_lookup_insert_ne in Hj by congruence. exists s0. auto 6.
Qed.

(** [alloc_accept_sock_context], with the table that it leaves. *)
Lemma alloc_accept_explicit N tb machine_ip :
  0 < N -> Z.of_nat (length (Machines.machine_sockets tb)) = N ->
  Machines.heads_in_pool CONNECT_TYPE_SERVER tb ->
  exists r tb',
    Machines.alloc_accept_sock_context N tb machine_ip = Some (r, tb') /\
    Machines.socket_contexts_pool tb' = Machines.socket_contexts_pool tb /\
    match r with
    | None => same_lists tb tb'
    | Some pSock =>
      exists i s c,
        0 <= i < N /\
        Machines.at_index (Machines.machine_sockets tb) i = Some s /\
        (Machines.ip s = machine_ip \/ Machines.ip s = 0) /\
        Machines.accept_free_list s = Some pSock /\
        Machines.socket_contexts_pool tb !! pSock = Some c /\
        Machines.machine_sockets tb' =
          <[Z.to_nat i := Machines.set_free_list CONNECT_TYPE_SERVER
                            (Machines.set_ip s machine_ip) (Machines.next c)]>
            (Machines.machine_sockets tb) /\
        Machines.get_machine_index N (Machines.machine_sockets tb') machine_ip = Some i
    end.
Proof.
  intros HN Hlen Hheads.
  destruct (MachineFacts.alloc_sock_context_spec CONNECT_TYPE_SERVER N tb machine_ip HN Hlen
              Hheads) as (r & tb' & Halloc & Hpool & Hres).
  exists r, tb'. split; [exact Halloc|]. split; [exact Hpool|].
  destruct (MachineFacts.machine_slot_spec N (Machines.machine_sockets tb) machine_ip HN Hlen)
    as (r0 & Hslot & Hres0).
  rewrite Hslot in Hres. destruct r0 as [[i t1]|].
  2:{ destruct Hres as [-> ->]. apply same_lists_refl. }
  destruct Hres as (s1 & Hs1 & Hr & Hms').
  destruct Hres0 as (Hi & Hget & s & Hs & Hip & Ht1).
  assert (Hs1' : s1 = Machines.set_ip s machine_ip).
  { subst t1. rewrite MachineFacts.at_index_insert in Hs1 by lia.
    destruct (decide (i = i)); [congruence | contradiction]. }
  subst s1.
  assert (Hfl : Machines.free_list CONNECT_TYPE_SERVER (Machines.set_ip s machine_ip)
                = Machines.accept_free_list s) by reflexivity.
  rewrite Hfl in Hr.
  assert (Hip' : Machines.ip s = machine_ip \/ Machines.ip s = 0) by tauto.
  rewrite Ht1, list_insert_insert_eq in Hms'.
  destruct r as [pSock|].
  - destruct (Hheads s pSock) as [c Hc].
    { apply MachineFacts.at_index_Some in Hs as [_ Hs]. apply (list_elem_of_lookup_2 _ _ _ Hs). }
    { simpl. congruence. }
    cbn [mbind option_bind] in Hms'. rewrite Hc in Hms'. cbn [mbind option_bind] in Hms'.
    exists i, s, c. split; [exact Hi|]. split; [exact Hs|]. split; [exact Hip'|].
    split; [congruence|]. split; [exact Hc|]. split; [exact Hms'|].
    rewrite <- Hget. apply MachineFacts.get_machine_index_ext. intros k.
    rewrite Hms', Ht1.
    destruct (Z.ltb_spec k 0) as [Hk|Hk].
    { unfold Machines.at_index. destruct (Z.ltb_spec k 0); [exact I | lia]. }
    rewrite !MachineFacts.at_index_insert by lia.
    destruct (decide (k = i)) as [->|Hki]; [reflexivity|].
    destruct (Machines.at_index (Machines.machine_sockets tb) k); [reflexivity | exact I].
  - cbn [mbind option_bind] in Hms'. destruct tb as [ms pool], tb' as [ms' pool'].
    simpl in *. subst ms' pool'.
    apply (same_lists_slot ms pool pool i s); [lia | exact Hs | | | | | apply pool_kept_refl].
    + simpl. congruence.
    + reflexivity.
    + reflexivity.
    + simpl. destruct Hip' as [Hip'|Hip']; [left; symmetry; exact Hip' | right; exact Hip'].
Qed.

Lemma free_accept_explicit N w pSock cx machine_ip i s2 :
  0 <= i < N -> Z.of_nat (length (Machines.machine_sockets (tables w))) = N ->
  Machines.socket_contexts_pool (tables w) !! pSock = Some cx ->
  Machines.machine cx = Some machine_ip ->
  Machines.get_machine_index N (Machines.machine_sockets (tables w)) machine_ip = Some i ->
  Machines.at_index (Machines.machine_sockets (tables w)) i = Some s2 ->
  free_accept_sock_context N w pSock
  = Some (mkWorld
            (Machines.mkTables
               (<[Z.to_nat i := Machines.set_free_list CONNECT_TYPE_SERVER s2 (Some pSock)]>
                  (Machines.machine_sockets (tables w)))
               (<[pSock := Machines.set_next cx (Machines.accept_free_list s2)]>
                  (Machines.socket_contexts_pool (tables w))))
            (set_lock (thread w) false) (machines w)).
Proof.
  intros Hi Hlen Hcx Hm Hget Hs2.
  unfold free_accept_sock_context. rewrite Hcx. cbn [mbind option_bind]. rewrite Hm.
  cbn [mbind option_bind]. rewrite Hget. cbn [mbind option_bind].
  unfold Machines.free_accept_sock_context, Machines.free_sock_context.
  rewrite Hcx. cbn [mbind option_bind]. rewrite Hm. cbn [mbind option_bind].
  rewrite Hget. cbn [mbind option_bind].
  destruct (Z.ltb_spec i 0); [lia|].
  rewrite Hs2. cbn [mbind option_bind].
  rewrite MachineFacts.store_Some by lia. reflexivity.
Qed.

(** The context that was taken from the accept free list of a machine goes
    back to it: the lists are then as before it was taken. *)
Lemma give_back N tb0 w pSock cx machine_ip i s c :
  0 <= i < N -> Z.of_nat (length (Machines.machine_sockets tb0)) = N ->
  Machines.at_index (Machines.machine_sockets tb0) i = Some s ->
  (Machines.ip s = machine_ip \/ Machines.ip s = 0) ->
  Machines.accept_free_list s = Some pSock ->
  Machines.socket_contexts_pool tb0 !! pSock = Some c ->
  Machines.machine_sockets (tables w) =
    <[Z.to_nat i := Machines.set_free_list CONNECT_TYPE_SERVER
                      (Machines.set_ip s machine_ip) (Machines.next c)]>
      (Machines.machine_sockets tb0) ->
  Machines.get_machine_index N (Machines.machine_sockets (tables w)) machine_ip = Some i ->
  (length (Machines.socket_contexts_pool (tables w)) = length (Machines.socket_contexts_pool tb0) /\
   forall q c', Machines.socket_contexts_pool (tables w) !! q = Some c' ->
     exists c, Machines.socket_contexts_pool tb0 !! q = Some c /\
       Machines.next c' = Machines.next c /\
       Machines.connect_type c' = Machines.connect_type c /\
       Machines.thread_context c' = Machines.thread_context c) ->
  Machines.socket_contexts_pool (tables w) !! pSock = Some cx ->
  Machines.machine cx = Some machine_ip ->
  exists w',
    free_accept_sock_context N w pSock = Some w' /\
    same_lists tb0 (tables w') /\
    thread w' = set_lock (thread w) false.
Proof.
  intros Hi Hlen Hs Hip Hhead Hc Hms Hget Hkept Hcx Hm.
  assert (Hs2 : Machines.at_index (Machines.machine_sockets (tables w)) i
                = Some (Machines.set_free_list CONNECT_TYPE_SERVER
                          (Machines.set_ip s machine_ip) (Machines.next c))).
  { rewrite Hms. rewrite MachineFacts.at_index_insert by lia.
    destruct (decide (i = i)); [reflexivity | contradiction]. }
  assert (Hlen1 : Z.of_nat (length (Machines.machine_sockets (tables w))) = N)
    by (rewrite Hms, length_insert; exact Hlen).
  rewrite (free_accept_explicit N w pSock cx machine_ip i _ Hi Hlen1 Hcx Hm Hget Hs2).
  eexists. split; [reflexivity|]. split; [|reflexivity].
  cbn [tables]. rewrite Hms, list_insert_insert_eq.
  destruct tb0 as [ms0 pool0]. cbn [Machines.machine_sockets Machines.socket_contexts_pool] in *.
  apply (same_lists_slot ms0 pool0 _ i s); [lia | exact Hs | | | | |].
  - simpl. congruence.
  - reflexivity.
  - reflexivity.
  - simpl. destruct Hip as [Hip|Hip]; [left; symmetry; exact Hip | right; exact Hip].
  - apply (pool_kept_insert pool0 _ pSock cx); [exact Hkept | exact Hcx | | reflexivity | reflexivity].
    simpl. destruct (proj2 Hkept pSock cx Hcx) as (c0 & Hc0 & Hn & _).
    congruence.
Qed.

(** A list without duplicates whose last entry is taken out. *)
Lemma remove_last {A} (l0 l1 l2 : list A) x :
  NoDup (l0 ++ [x]) -> l0 ++ [x] = l1 ++ x :: l2 -> l1 ++ l2 = l0.
Proof.
  intros Hnd Heq. destruct l2 as [|y l2] using rev_ind.
  - rewrite app_nil_r. apply app_inj_tail in Heq as [Heq _]. congruence.
  - exfalso. clear IHl2.
    change (l1 ++ x :: l2 ++ [y]) with (l1 ++ (x :: l2) ++ [y]) in Heq.
    rewrite app_assoc in Heq. apply app_inj_tail in Heq as [Heq ->].
    rewrite Heq in Hnd. apply NoDup_app in Hnd as (_ & Hdisj & _).
    apply (Hdisj y); [|left]. apply elem_of_app. right. left.
Qed.

(** The handler on a connect context of a server that is connected: it
    asks the poll for the socket, and leaves when the poll refuses. *)
Lemma connected_server c fuel my N a w p e pSock sc :
  connections_buffer (thread w) !! p = Some e ->
  pSockContext e = Some pSock ->
  Machines.socket_contexts_pool (tables w) !! pSock = Some sc ->
  is_client sc = false -> state e = Reconnect.STATE_CONNECTED ->
  connection_handler c fuel my N a w p true =
    let e1 := set_server_start_time
                (set_recv_bytes (set_state e Reconnect.STATE_RECV_DATA) 0) (now_ms a) in
    if (control a).1 >=? 0 then Some (Pending (set_entry w p e1))
    else leave N a (set_entry w p e1) pSock true
           (if negb ((control a).2 =? 0) then (control a).2 else ENOMEM).
Proof.
  intros He Hps Hsc Hcl Hst. unfold connection_handler.
  rewrite He. cbn [mbind option_bind]. rewrite Hps. cbn [mbind option_bind].
  rewrite Hsc. cbn [mbind option_bind].
  unfold switch. rewrite Hst. unfold connected. rewrite Hcl. reflexivity.
Qed.

(** X22. [deal_income_connection] returns, whatever the environment
    answers, and keeps the list of the connections in progress in order.
    Either the new connection waits for the hello of its machine, with a
    connect context at the end of the list and its socket in a server
    socket context, and the call returns 0; or nothing is kept: the list
    is as before, and so are the free lists of every machine, the socket
    context that was taken being back at the head of the accept free list
    it came from. *)
Theorem deal_income_connection_gives_back MSG_HEADER_LENGTH c fuel my_machine_ip
    MAX_MACHINE_COUNT inc a w incomesock :
  0 < MAX_MACHINE_COUNT ->
  Z.of_nat (length (Machines.machine_sockets (tables w))) = MAX_MACHINE_COUNT ->
  accept_heads_free w -> controller_ok (thread w) ->
  exists result w',
    deal_income_connection MSG_HEADER_LENGTH c fuel my_machine_ip MAX_MACHINE_COUNT inc a w
      incomesock = Some (result, w') /\
    controller_ok (thread w') /\
    ((exists p machine_ip,
        result = 0 /\ peer_machine inc = Some machine_ip /\
        listed (thread w') = listed (thread w) ++ [Some p] /\
        awaits_hello w' p incomesock machine_ip) \/
     (listed (thread w') = listed (thread w) /\ same_lists (tables w) (tables w'))).
Proof.
  intros HN Hlen Hheads Hok.
  assert (Hnothing : forall r,
    exists result w',
      Some (r, w) = Some (result, w') /\ controller_ok (thread w') /\
      ((exists p machine_ip,
          result = 0 /\ peer_machine inc = Some machine_ip /\
          listed (thread w') = listed (thread w) ++ [Some p] /\
          awaits_hello w' p incomesock machine_ip) \/
       (listed (thread w') = listed (thread w) /\ same_lists (tables w) (tables w')))).
  { intros r. eexists _, _. split; [reflexivity|]. split; [exact Hok|]. right.
    split; [reflexivity | apply same_lists_refl]. }
  unfold deal_income_connection.
  destruct (negb (income_nonblocking inc =? 0)); [apply Hnothing|].
  destruct ((income_nodelay inc).1 <? 0); [apply Hnothing|].
  destruct (peer_machine inc) as [ip|] eqn:Hpeer; [|apply Hnothing].
  clear Hnothing.
  assert (Hhp : Machines.heads_in_pool CONNECT_TYPE_SERVER (tables w)).
  { intros s0 p0 Hs0 Hfl. destruct (Hheads s0 p0 Hs0 Hfl) as [(c0 & Hc0 & _) _]. eauto. }
  destruct (alloc_accept_explicit MAX_MACHINE_COUNT (tables w) ip HN Hlen Hhp)
    as (r & tb1 & Halloc & Hpool1 & Hres).
  rewrite Halloc. cbn [mbind option_bind fst snd].
  destruct r as [pSock|].
  2:{ eexists _, _. split; [reflexivity|].
      split; [apply controller_ok_lock; exact Hok|]. right.
      split; [reflexivity | exact Hres]. }
  destruct Hres as (i & s & c0 & Hi & Hs & Hip & Hhead & Hc0 & Hms1 & Hget1).
  cbn [tables]. rewrite Hpool1, Hc0. cbn [mbind option_bind].
  set (sc := set_income c0 incomesock ip).
  set (t0 := set_lock (thread w) false).
  set (w2 := set_tables (mkWorld tb1 t0 (machines w))
               (Machines.mkTables (Machines.machine_sockets tb1)
                  (<[pSock := sc]> (Machines.socket_contexts_pool (tables w))))).
  assert (Hin_s : s ∈ Machines.machine_sockets (tables w)).
  { apply MachineFacts.at_index_Some in Hs as [_ Hs'].
    apply (list_elem_of_lookup_2 _ _ _ Hs'). }
  destruct (Hheads s pSock Hin_s Hhead) as [(c0' & Hc0' & Hserver0) Hnone].
  rewrite Hc0 in Hc0'. injection Hc0' as <-.
  assert (Hserver : is_server sc = true) by exact Hserver0.
  assert (Hclient : is_client sc = false).
  { unfold is_server in Hserver. unfold is_client.
    destruct (Machines.connect_type sc) as [[|]|]; [discriminate | reflexivity | reflexivity]. }
  assert (Hlt : (pSock < length (Machines.socket_contexts_pool (tables w)))%nat)
    by (apply lookup_lt_Some in Hc0; exact Hc0).
  assert (Hsc2 : Machines.socket_contexts_pool (tables w2) !! pSock = Some sc)
    by (simpl; apply list_lookup_insert_eq; exact Hlt).
  assert (Hkept2 :
    length (Machines.socket_contexts_pool (tables w2))
    = length (Machines.socket_contexts_pool (tables w)) /\
    forall q c', Machines.socket_contexts_pool (tables w2) !! q = Some c' ->
      exists c, Machines.socket_contexts_pool (tables w) !! q = Some c /\
        Machines.next c' = Machines.next c /\
        Machines.connect_type c' = Machines.connect_type c /\
        Machines.thread_context c' = Machines.thread_context c).
  { apply (pool_kept_insert _ _ pSock c0 sc);
      [apply pool_kept_refl | exact Hc0 | reflexivity | reflexivity | reflexivity]. }
  assert (Hok0 : controller_ok (thread w2)) by exact Hok.
  destruct (ConnectionFacts.alloc_connect_context_spec MSG_HEADER_LENGTH (thread w2)
              (proj1 Hok0) (proj1 (proj2 Hok0)))
    as (r' & t' & Halloc' & Hok' & Hpl' & _ & _ & Hres').
  rewrite Halloc'. cbn [mbind option_bind fst snd].
  destruct r' as [p|].
  - (* a connect context for the connection *)
    assert (Hnone2 : ~ has_connection (thread w2) pSock) by exact Hnone.
    destruct (controller_ok_alloc_for MSG_HEADER_LENGTH w2 pSock (Some p, t') p
                (fun e => welcome e pSock) (fun e => conj eq_refl eq_refl) Hok0 Hnone2 Halloc'
                eq_refl) as (e & He & Hok3 & He3 & Hl').
    cbn [snd] in He, Hok3, He3, Hl'.
    assert (He' : connections_buffer (thread (set_thread w2 t')) !! p = Some e) by exact He.
    rewrite He'. cbn [mbind option_bind].
    set (w3 := set_entry (set_thread w2 t') p (welcome e pSock)) in *.
    assert (Hsc3 : Machines.socket_contexts_pool (tables w3) !! pSock = Some sc) by exact Hsc2.
    rewrite (connected_server c fuel my_machine_ip MAX_MACHINE_COUNT a w3 p (welcome e pSock)
               pSock sc He3 eq_refl Hsc3 Hclient eq_refl).
    cbv zeta.
    set (e1 := set_server_start_time
                 (set_recv_bytes (set_state (welcome e pSock) Reconnect.STATE_RECV_DATA) 0)
                 (now_ms a)).
    assert (Hok4 : controller_ok (thread (set_entry w3 p e1)))
      by (apply (controller_ok_set_entry w3 p (welcome e pSock) e1 He3);
          [reflexivity | reflexivity | exact Hok3]).
    assert (Hltp : (p < length (connections_buffer (thread w3)))%nat)
      by (apply lookup_lt_Some in He3; exact He3).
    assert (He4 : connections_buffer (thread (set_entry w3 p e1)) !! p = Some e1)
      by (simpl; apply list_lookup_insert_eq; exact Hltp).
    assert (Hl4 : listed (thread (set_entry w3 p e1)) = listed (thread w) ++ [Some p])
      by exact Hl'.
    destruct ((control a).1 >=? 0).
    + (* the connection waits for the hello *)
      cbn [mbind option_bind].
      eexists _, _. split; [reflexivity|]. split; [exact Hok4|]. left.
      exists p, ip. split; [reflexivity|]. split; [reflexivity|]. split; [exact Hl4|].
      exists e1, pSock, sc. split; [exact He4|]. split; [reflexivity|].
      split; [reflexivity|]. split; [reflexivity|]. split; [exact Hsc3|].
      split; [reflexivity|]. split; [reflexivity | exact Hserver].
    + (* the poll refuses the socket *)
      unfold leave.
      destruct (ConnectionFacts.remove_connection_spec (thread (set_entry w3 p e1)) pSock true
                  (proj1 Hok4)) as (r0 & t2 & Hrem & Hres2).
      rewrite Hrem. cbn [mbind option_bind snd].
      pose proof (controller_ok_remove _ _ _ _ Hok4 Hrem) as Hok5. cbn [snd] in Hok5.
      assert (Hl5 : listed t2 = listed (thread w)).
      { destruct Hres2 as [(_ & Habs & _)|(_ & l1 & q & e0 & l2 & Hl & _ & He0 & Hps0 & Hl2 & _)].
        - exfalso. apply (Habs (Some p)).
          + rewrite Hl4. apply elem_of_app. right. left.
          + exists p, e1. auto.
        - assert (Hq : Some q = Some p).
          { destruct Hok4 as (_ & _ & Huniq4). apply (Huniq4 (Some q) (Some p) pSock).
            - rewrite Hl. apply elem_of_app. right. left.
            - rewrite Hl4. apply elem_of_app. right. left.
            - exists q, e0. auto.
            - exists p, e1. auto. }
          injection Hq as ->. rewrite Hl2.
          apply (remove_last (listed (thread w)) l1 l2 (Some p)).
          + rewrite <- Hl4. exact (proj1 (proj1 (proj2 Hok4))).
          + rewrite <- Hl4. exact Hl. }
      set (result := if (detached a).1 <? 0
                     then if negb ((detached a).2 =? 0) then (detached a).2 else ENOMEM
                     else if negb ((control a).2 =? 0) then (control a).2 else ENOMEM).
      assert (Hresult : result <> 0).
      { unfold result, ENOMEM.
        destruct ((detached a).1 <? 0);
          [destruct (Z.eqb_spec (detached a).2 0) | destruct (Z.eqb_spec (control a).2 0)];
          simpl; lia. }
      destruct (Z.eqb_spec result 0) as [|_]; [contradiction|].
      unfold abandon, close_connection. cbn [tables thread machines set_entry].
      rewrite Hsc3. cbn [mbind option_bind].
      assert (Hback : forall tbx cx,
        Machines.machine_sockets tbx = Machines.machine_sockets tb1 ->
        (length (Machines.socket_contexts_pool tbx)
         = length (Machines.socket_contexts_pool (tables w)) /\
         forall q c', Machines.socket_contexts_pool tbx !! q = Some c' ->
           exists c, Machines.socket_contexts_pool (tables w) !! q = Some c /\
             Machines.next c' = Machines.next c /\
             Machines.connect_type c' = Machines.connect_type c /\
             Machines.thread_context c' = Machines.thread_context c) ->
        Machines.socket_contexts_pool tbx !! pSock = Some cx ->
        Machines.machine cx = Some ip -> is_server cx = true ->
        exists result' w',
          ((Machines.socket_contexts_pool tbx !! pSock
            ≫= λ c, if is_server c
                    then free_accept_sock_context MAX_MACHINE_COUNT
                           (mkWorld tbx t2 (machines w3)) pSock
                    else Some (mkWorld tbx t2 (machines w3)))
           ≫= λ w', Some (Failed result w'))
          ≫= (λ o, match o with
                   | Pending w' => Some (0, w')
                   | HandOff _ => None
                   | Failed _ w' => Some (0, w')
                   end) = Some (result', w') /\
          controller_ok (thread w') /\
          ((exists p machine_ip,
              result' = 0 /\ Some ip = Some machine_ip /\
              listed (thread w') = listed (thread w) ++ [Some p] /\
              awaits_hello w' p incomesock machine_ip) \/
           (listed (thread w') = listed (thread w) /\ same_lists (tables w) (tables w')))).
      { intros tbx cx Hmsx Hkeptx Hcx Hmx Hsvx.
        rewrite Hcx. cbn [mbind option_bind]. rewrite Hsvx.
        destruct (give_back MAX_MACHINE_COUNT (tables w)
                    (mkWorld tbx t2 (machines w3)) pSock cx ip i s c0
                    Hi Hlen Hs Hip Hhead Hc0)
          as (w' & Hfree & Hsame & Hthread).
        - cbn [tables]. rewrite Hmsx. exact Hms1.
        - cbn [tables]. rewrite Hmsx. exact Hget1.
        - exact Hkeptx.
        - exact Hcx.
        - exact Hmx.
        - rewrite Hfree. cbn [mbind option_bind].
          eexists _, _. split; [reflexivity|].
          cbn [thread] in Hthread. rewrite Hthread.
          split; [apply controller_ok_lock; exact Hok5|]. right.
          split; [exact Hl5 | exact Hsame]. }
      destruct (Machines.sock sc >=? 0).
      * cbn [mbind option_bind].
        apply (Hback (Machines.mkTables (Machines.machine_sockets (tables w3))
                        (<[pSock := set_sock sc (-1)]>
                           (Machines.socket_contexts_pool (tables w3))))
                 (set_sock sc (-1))).
        -- reflexivity.
        -- apply (pool_kept_insert _ _ pSock sc); [exact Hkept2 | exact Hsc2 | | |];
             reflexivity.
        -- simpl. apply list_lookup_insert_eq. rewrite length_insert. exact Hlt.
        -- reflexivity.
        -- exact Hserver.
      * cbn [mbind option_bind].
        apply (Hback (tables w3) sc);
          [reflexivity | exact Hkept2 | exact Hsc2 | reflexivity | exact Hserver].
  - (* the list of the connections in progress is full *)
    destruct Hres' as [(_ & Hfull & Hl & Hb)|(p' & e' & Habs & _)]; [|discriminate].
    assert (Ht' : t' = thread w2).
    { unfold alloc_connect_context in Halloc'.
      destruct (Z.geb_spec (connection_count (thread w2)) (alloc_size (thread w2)));
        [injection Halloc' as <-; reflexivity | lia]. }
    destruct (give_back MAX_MACHINE_COUNT (tables w) (set_thread w2 t') pSock sc ip i s c0
                Hi Hlen Hs Hip Hhead Hc0 Hms1 Hget1 Hkept2 Hsc2 eq_refl)
      as (w' & Hfree & Hsame & Hthread).
    rewrite Hfree. cbn [mbind option_bind].
    eexists _, _. split; [reflexivity|].
    cbn [thread set_thread] in Hthread. rewrite Hthread, Ht'.
    split; [apply controller_ok_lock; exact Hok0|]. right.
    split; [reflexivity | exact Hsame].
Qed.

Lemma sample_accept_heads_free : accept_heads_free sample_accept_world.
Proof.
  intros s p Hs Hhead. simpl in Hs.
  apply elem_of_cons in Hs as [->|Hs]; [discriminate|].
  apply elem_of_cons in Hs as [->|Hs].
  2:{ apply list_elem_of_singleton in Hs as ->. discriminate. }
  injection Hhead as <-. split.
  - eexists. split; reflexivity.
  - intros (x & Hx & q & e & -> & He & Hp).
    assert (Hl : listed (thread sample_accept_world) = [Some 0%nat; Some 1%nat]) by reflexivity.
    rewrite Hl in Hx.
    apply elem_of_cons in Hx as [Hx|Hx].
    + injection Hx as ->. simpl in He. injection He as <-. discriminate Hp.
    + apply list_elem_of_singleton in Hx. injection Hx as ->.
      simpl in He. injection He as <-. discriminate Hp.
Qed.

(** A peer of the machine 4 comes in on the socket 15 and the poll takes
    its socket. *)
Lemma deal_income_connection_gives_back_witness :
  exists result w',
    deal_income_connection 32 sample_config 4 9 3 sample_income (sample_answers [] 0)
      sample_accept_world 15 = Some (result, w') /\
    controller_ok (thread w') /\
    ((exists p machine_ip,
        result = 0 /\ peer_machine sample_income = Some machine_ip /\
        listed (thread w') = listed (thread sample_accept_world) ++ [Some p] /\
        awaits_hello w' p 15 machine_ip) \/
     (listed (thread w') = listed (thread sample_accept_world) /\
      same_lists (tables sample_accept_world) (tables w'))).
Proof.
  apply (deal_income_connection_gives_back 32 sample_config 4 9 3 sample_income
           (sample_answers [] 0) sample_accept_world 15).
  - reflexivity.
  - reflexivity.
  - exact sample_accept_heads_free.
  - exact (sample_controller_ok CONNECT_TYPE_SERVER Reconnect.STATE_CONNECTING).
Defined.

End AcceptingFacts.

(** ** The pass over the connections in progress *)
Module ReconnectingFacts.
Import Connections Handshake Dialing Reconnecting.
Import DialingFacts.

Lemma redialled_refl p pSock w : redialled p pSock w w.
Proof.
  split; [reflexivity|]. split; [reflexivity|]. split; [intros sc Hsc; exists sc; auto|].
  split; [reflexivity|]. split; [intros e He; exists e; split; [exact He|]; split;
                                   [reflexivity|]; split; [lia | left; reflexivity]|].
  split; [reflexivity | lia].
Qed.

Lemma redialled_trans p pSock w1 w2 w3 :
  redialled p pSock w1 w2 -> redialled p pSock w2 w3 -> redialled p pSock w1 w3.
Proof.
  intros (A1 & A2 & A3 & A4 & A5 & A6 & A7) (B1 & B2 & B3 & B4 & B5 & B6 & B7).
  split; [congruence|].
  split; [intros q Hq; rewrite (B2 q Hq); apply (A2 q Hq)|].
  split.
  { intros sc Hsc. destruct (A3 sc Hsc) as (sc2 & Hsc2 & T2 & M2).
    destruct (B3 sc2 Hsc2) as (sc3 & Hsc3 & T3 & M3).
    exists sc3. split; [exact Hsc3|]. split; congruence. }
  split; [intros q Hq; rewrite (B4 q Hq); apply (A4 q Hq)|].
  split.
  { intros e He. destruct (A5 e He) as (e2 & He2 & N2 & C2 & P2).
    destruct (B5 e2 He2) as (e3 & He3 & N3 & C3 & P3).
    exists e3. split; [exact He3|]. split; [congruence|]. split; [lia|].
    destruct P3 as [P3|P3]; [|right; exact P3].
    destruct P2 as [P2|P2]; [left | right]; congruence. }
  split; [etrans; [exact B6 | exact A6] | lia].
Qed.

(** A write to the connect context. *)
Lemma redialled_set_entry p pSock w e e' :
  connections_buffer (thread w) !! p = Some e ->
  need_reconnect e' = need_reconnect e -> connect_count e <= connect_count e' ->
  pSockContext e' = pSockContext e ->
  redialled p pSock w (set_entry w p e').
Proof.
  intros He Hn Hc Hp.
  assert (Hlt : (p < length (connections_buffer (thread w)))%nat)
    by (apply lookup_lt_Some in He; exact He).
  split; [reflexivity|]. split; [reflexivity|]. split; [intros sc Hsc; exists sc; auto|].
  split; [intros q Hq; simpl; apply list_lookup_insert_ne; congruence|].
  split.
  { intros e0 He0. rewrite He in He0. injection He0 as <-. exists e'.
    split; [simpl; apply list_lookup_insert_eq; exact Hlt|]. auto. }
  split; [reflexivity | simpl; lia].
Qed.

(** A write to the socket context that keeps its type and its machine. *)
Lemma redialled_pool p pSock w sc sc' :
  Machines.socket_contexts_pool (tables w) !! pSock = Some sc ->
  Machines.connect_type sc' = Machines.connect_type sc ->
  Machines.machine sc' = Machines.machine sc ->
  redialled p pSock w
    (set_tables w
       (Machines.mkTables (Machines.machine_sockets (tables w))
          (<[pSock := sc']> (Machines.socket_contexts_pool (tables w))))).
Proof.
  intros Hsc Ht Hm.
  assert (Hlt : (pSock < length (Machines.socket_contexts_pool (tables w)))%nat)
    by (apply lookup_lt_Some in Hsc; exact Hsc).
  split; [reflexivity|].
  split; [intros q Hq; simpl; apply list_lookup_insert_ne; congruence|].
  split.
  { intros sc0 Hsc0. rewrite Hsc in Hsc0. injection Hsc0 as <-. exists sc'.
    split; [simpl; apply list_lookup_insert_eq; exact Hlt|]. auto. }
  split; [reflexivity|].
  split; [intros e He; exists e; split; [exact He|]; split; [reflexivity|]; split;
            [lia | left; reflexivity]|].
  split; [reflexivity | simpl; lia].
Qed.

(** [close_connection]. *)
Lemma redialled_close p pSock w sc :
  Machines.socket_contexts_pool (tables w) !! pSock = Some sc ->
  exists tb,
    close_connection (tables w) pSock = Some tb /\
    redialled p pSock w (set_tables w tb).
Proof.
  intros Hsc. unfold close_connection. rewrite Hsc. cbn [mbind option_bind].
  destruct (Machines.sock sc >=? 0).
  - eexists. split; [reflexivity|].
    apply (redialled_pool p pSock w sc (set_sock sc (-1)) Hsc); reflexivity.
  - eexists. split; [reflexivity|].
    destruct w as [tb t m]. apply redialled_refl.
Qed.

(** [remove_connection], for the socket context of a listed connect
    context. *)
Lemma redialled_remove p pSock w e needLock :
  controller_ok (thread w) ->
  Some p ∈ listed (thread w) ->
  connections_buffer (thread w) !! p = Some e -> pSockContext e = Some pSock ->
  exists r,
    remove_connection (thread w) pSock needLock = Some r /\
    r.1 = 0 /\
    redialled p pSock w (set_thread w r.2) /\
    controller_ok r.2 /\
    (Some p ∉ listed r.2) /\
    connection_count r.2 = connection_count (thread w) - 1.
Proof.
  intros Hok Hin He Hps. pose proof Hok as (Htok & Hpl & Huniq).
  destruct (ConnectionFacts.remove_connection_spec (thread w) pSock needLock Htok)
    as (r0 & t' & Hrem & Hres).
  exists (r0, t'). split; [exact Hrem|].
  pose proof (controller_ok_remove _ _ _ _ Hok Hrem) as Hok'. cbn [fst snd] in *.
  destruct Hres as [(_ & Hnone & _)|(-> & l1 & q & e0 & l2 & Hl & _ & He0 & Hps0 & Hl' & Hb' &
                                      Hn' & _)].
  { exfalso. apply (Hnone (Some p) Hin). exists p, e. auto. }
  assert (Hq : Some q = Some p).
  { apply (Huniq (Some q) (Some p) pSock).
    - rewrite Hl. apply elem_of_app. right. left.
    - exact Hin.
    - exists q, e0. auto.
    - exists p, e. auto. }
  injection Hq as ->. rewrite He in He0. injection He0 as <-.
  split; [reflexivity|]. split; [|split; [exact Hok'|]; split; [|exact Hn']].
  - split; [reflexivity|]. split; [reflexivity|].
    split; [intros sc Hsc; exists sc; auto|].
    split; [intros q Hq; simpl; rewrite Hb'; apply list_lookup_insert_ne; congruence|].
    split.
    { intros e0 He0. rewrite He in He0. injection He0 as <-. exists (unuse e).
      split; [simpl; rewrite Hb'; apply list_lookup_insert_eq;
              apply lookup_lt_Some in He; exact He|].
      split; [reflexivity|]. split; [simpl; lia | right; reflexivity]. }
    split; [|simpl; lia].
    cbn [thread set_thread]. rewrite Hl', Hl.
    apply sublist_app; [reflexivity | apply sublist_cons; reflexivity].
  - destruct Hpl as [Hnd _]. rewrite Hl in Hnd. rewrite Hl'.
    apply NoDup_app in Hnd as (_ & Hdisj & Hnd2).
    apply NoDup_cons in Hnd2 as [Hnot2 _].
    intros Hin'. apply elem_of_app in Hin' as [Hin1|Hin2]; [|exact (Hnot2 Hin2)].
    apply (Hdisj _ Hin1). left.
Qed.

(** The handler gives up a connection that is not of a server. *)
Lemma leave_client N a w p e pSock sc needLock result0 :
  controller_ok (thread w) ->
  Some p ∈ listed (thread w) ->
  connections_buffer (thread w) !! p = Some e -> pSockContext e = Some pSock ->
  Machines.socket_contexts_pool (tables w) !! pSock = Some sc ->
  is_server sc = false -> result0 <> 0 ->
  exists res w',
    leave N a w pSock needLock result0 = Some (Failed res w') /\
    controller_ok (thread w') /\ redialled p pSock w w'.
Proof.
  intros Hok Hin He Hps Hsc Hserver Hres0. unfold leave.
  destruct (redialled_remove p pSock w e needLock Hok Hin He Hps)
    as (r & Hrem & _ & Hred & Hok' & _ & _).
  rewrite Hrem. cbn [mbind option_bind].
  set (result := if (detached a).1 <? 0
                 then if negb ((detached a).2 =? 0) then (detached a).2 else ENOMEM
                 else result0).
  assert (Hresult : result <> 0).
  { unfold result, ENOMEM.
    destruct ((detached a).1 <? 0); [destruct (Z.eqb_spec (detached a).2 0)|]; simpl; lia. }
  destruct (Z.eqb_spec result 0) as [|_]; [contradiction|].
  unfold abandon.
  assert (Hsc1 : Machines.socket_contexts_pool (tables (set_thread w r.2)) !! pSock = Some sc)
    by exact Hsc.
  destruct (redialled_close p pSock (set_thread w r.2) sc Hsc1) as (tb & Hclose & Hred2).
  change (mkWorld (tables w) r.2 (machines w)) with (set_thread w r.2).
  cbn [tables thread machines].
  rewrite Hclose. cbn [mbind option_bind].
  destruct Hred2 as (R1 & R2 & R3 & R4 & R5 & R6 & R7).
  destruct (R3 sc Hsc1) as (sc' & Hsc' & Hty & Hm).
  cbn [tables set_tables] in Hsc'. rewrite Hsc'. cbn [mbind option_bind].
  assert (Hsv : is_server sc' = false) by (unfold is_server in *; rewrite Hty; exact Hserver).
  rewrite Hsv. eexists _, _. split; [reflexivity|]. split; [exact Hok'|].
  apply (redialled_trans p pSock w (set_thread w r.2)); [exact Hred|].
  split; [exact R1|]. split; [exact R2|]. split; [exact R3|]. split; [exact R4|].
  split; [exact R5|]. split; [exact R6 | exact R7].
Qed.

(** [do_connect] for a listed connect context. *)
Lemma do_connect_effect c fuel my N s a w p needLock e pSock sc :
  controller_ok (thread w) ->
  Some p ∈ listed (thread w) ->
  connections_buffer (thread w) !! p = Some e ->
  pSockContext e = Some pSock ->
  Machines.socket_contexts_pool (tables w) !! pSock = Some sc ->
  is_server sc = false -> is_Some (Machines.machine sc) ->
  exists result w',
    do_connect c fuel my N s a w p needLock = Some (result, w') /\
    controller_ok (thread w') /\ redialled p pSock w w'.
Proof.
  intros Hok Hin He Hps Hsc Hserver [ip Hip].
  unfold do_connect. rewrite He. cbn [mbind option_bind]. rewrite Hps.
  cbn [mbind option_bind]. rewrite Hsc. cbn [mbind option_bind].
  set (fd := (socket_made s).1).
  set (e1 := set_state (set_connect_count e (connect_count e + 1))
               Reconnect.STATE_CONNECTING).
  set (w0 := set_socket w pSock sc fd).
  set (w1 := set_entry w0 p e1).
  assert (Hlt : (pSock < length (Machines.socket_contexts_pool (tables w)))%nat)
    by (apply lookup_lt_Some in Hsc; exact Hsc).
  assert (Hltp : (p < length (connections_buffer (thread w)))%nat)
    by (apply lookup_lt_Some in He; exact He).
  assert (Hred0 : redialled p pSock w w0)
    by (apply (redialled_pool p pSock w sc (set_sock sc fd) Hsc); reflexivity).
  assert (He0 : connections_buffer (thread w0) !! p = Some e) by exact He.
  assert (Hok0 : controller_ok (thread w0)) by exact Hok.
  assert (Hok1 : controller_ok (thread w1))
    by (apply (controller_ok_set_entry w0 p e e1 He0); [reflexivity | reflexivity | exact Hok0]).
  assert (Hred1 : redialled p pSock w w1).
  { apply (redialled_trans p pSock w w0); [exact Hred0|].
    apply (redialled_set_entry p pSock w0 e e1 He0); [reflexivity | simpl; lia | reflexivity]. }
  assert (He1 : connections_buffer (thread w1) !! p = Some e1)
    by (simpl; apply list_lookup_insert_eq; exact Hltp).
  assert (Hin1 : Some p ∈ listed (thread w1)) by exact Hin.
  assert (Hsc1 : Machines.socket_contexts_pool (tables w1) !! pSock = Some (set_sock sc fd))
    by (simpl; apply list_lookup_insert_eq; exact Hlt).
  assert (Hclose : forall w2, controller_ok (thread w2) -> redialled p pSock w w2 ->
            Machines.socket_contexts_pool (tables w2) !! pSock = Some (set_sock sc fd) ->
            forall result : Z,
            exists (result' : Z) (w' : World),
              (close_connection (tables w2) pSock ≫= λ tb, Some (result, set_tables w2 tb))
              = Some (result', w') /\
              controller_ok (thread w') /\ redialled p pSock w w').
  { intros w2 Hok2 Hred2 Hsc2 result.
    destruct (redialled_close p pSock w2 _ Hsc2) as (tb & -> & Hred3).
    cbn [mbind option_bind]. eexists _, _. split; [reflexivity|].
    split; [exact Hok2|]. apply (redialled_trans p pSock w w2); assumption. }
  destruct (Z.ltb_spec fd 0); [eauto|].
  destruct (negb (nonblocking s =? 0)); [apply (Hclose w1); assumption|].
  destruct ((nodelay s).1 <? 0); [eauto|].
  rewrite Hip. cbn [mbind option_bind].
  destruct (aton s =? 0).
  { destruct (redialled_close p pSock w1 _ Hsc1) as (tb & -> & Hred2).
    cbn [mbind option_bind].
    destruct (redialled_remove p pSock w1 e1 needLock Hok1 Hin1 He1 Hps)
      as (r & Hrem & _ & Hred3 & Hok3 & _ & _).
    rewrite Hrem. cbn [mbind option_bind]. eexists _, _. split; [reflexivity|].
    split; [exact Hok3|].
    apply (redialled_trans p pSock w w1); [exact Hred1|].
    apply (redialled_trans p pSock w1 (set_thread w1 r.2)); [exact Hred3|].
    destruct Hred2 as (R1 & R2 & R3 & R4 & R5 & R6 & R7).
    split; [exact R1|]. split; [exact R2|]. split; [exact R3|]. split; [reflexivity|].
    split; [|split; [reflexivity | simpl; lia]].
    intros e0 He0'. exists e0. split; [exact He0'|]. split; [reflexivity|].
    split; [lia | left; reflexivity]. }
  set (e2 := set_connect_start_time e1 (start_ms s)).
  destruct ((connect_made s).1 =? 0).
  - set (e3 := set_need_check_timeout (set_state e2 Reconnect.STATE_CONNECTED) true).
    set (w3 := set_entry w1 p e3).
    assert (Hok3 : controller_ok (thread w3))
      by (apply (controller_ok_set_entry w1 p e1 e3 He1); [reflexivity | reflexivity | exact Hok1]).
    assert (Hred3 : redialled p pSock w w3).
    { apply (redialled_trans p pSock w w1); [exact Hred1|].
      apply (redialled_set_entry p pSock w1 e1 e3 He1); [reflexivity | simpl; lia | reflexivity]. }
    assert (He3 : connections_buffer (thread w3) !! p = Some e3).
    { simpl. apply list_lookup_insert_eq. rewrite length_insert. exact Hltp. }
    assert (Hsc3 : Machines.socket_contexts_pool (tables w3) !! pSock = Some (set_sock sc fd))
      by exact Hsc1.
    rewrite (HandshakeFacts.connected_handler c fuel my N a w3 p needLock e3 pSock
               (set_sock sc fd) He3 Hps Hsc3 eq_refl).
    cbv zeta.
    set (e4 := (connected c my a (is_client (set_sock sc fd)) e3).2).
    assert (He4 : pSockContext e4 = pSockContext e3 /\ used e4 = used e3 /\
                  need_reconnect e4 = need_reconnect e3 /\ connect_count e4 = connect_count e3).
    { unfold e4, connected. destruct (is_client (set_sock sc fd)); repeat split. }
    destruct He4 as (P4 & U4 & N4 & C4).
    set (w4 := set_entry w3 p e4).
    assert (Hok4 : controller_ok (thread w4))
      by (apply (controller_ok_set_entry w3 p e3 e4 He3); [exact P4 | exact U4 | exact Hok3]).
    assert (Hred4 : redialled p pSock w w4).
    { apply (redialled_trans p pSock w w3); [exact Hred3|].
      apply (redialled_set_entry p pSock w3 e3 e4 He3); [exact N4 | lia | exact P4]. }
    destruct ((control a).1 >=? 0).
    + cbn [mbind option_bind]. eexists _, _. split; [reflexivity|].
      split; [exact Hok4 | exact Hred4].
    + assert (He4' : connections_buffer (thread w4) !! p = Some e4).
      { simpl. apply list_lookup_insert_eq. rewrite !length_insert. exact Hltp. }
      destruct (leave_client N a w4 p e4 pSock (set_sock sc fd) needLock
                  (if negb ((control a).2 =? 0) then (control a).2 else ENOMEM))
        as (res & w' & Hleave & Hok5 & Hred5).
      * exact Hok4.
      * exact Hin.
      * exact He4'.
      * rewrite P4. exact Hps.
      * exact Hsc3.
      * exact Hserver.
      * unfold ENOMEM. destruct (Z.eqb_spec (control a).2 0); simpl; lia.
      * rewrite Hleave. cbn [mbind option_bind]. eexists _, _. split; [reflexivity|].
        split; [exact Hok5|]. apply (redialled_trans p pSock w w4); assumption.
  - set (w2 := set_entry w1 p e2).
    assert (Hok2 : controller_ok (thread w2))
      by (apply (controller_ok_set_entry w1 p e1 e2 He1); [reflexivity | reflexivity | exact Hok1]).
    assert (Hred2 : redialled p pSock w w2).
    { apply (redialled_trans p pSock w w1); [exact Hred1|].
      apply (redialled_set_entry p pSock w1 e1 e2 He1); [reflexivity | simpl; lia | reflexivity]. }
    assert (He2 : connections_buffer (thread w2) !! p = Some e2).
    { simpl. apply list_lookup_insert_eq. rewrite length_insert. exact Hltp. }
    assert (Hsc2 : Machines.socket_contexts_pool (tables w2) !! pSock = Some (set_sock sc fd))
      by exact Hsc1.
    destruct (negb (errno_or (connect_made s).2 EINPROGRESS =? EINPROGRESS));
      [apply (Hclose w2); assumption|].
    destruct ((attached s).1 <? 0); [apply (Hclose w2); assumption|].
    eexists _, _. split; [reflexivity|]. split.
    + apply (controller_ok_set_entry w2 p e2 _ He2); [reflexivity | reflexivity | exact Hok2].
    + apply (redialled_trans p pSock w w2); [exact Hred2|].
      apply (redialled_set_entry p pSock w2 e2 _ He2); [reflexivity | simpl; lia | reflexivity].
Qed.

Lemma free_connect_total N tb pSock sc :
  0 < N -> Z.of_nat (length (Machines.machine_sockets tb)) = N ->
  Machines.socket_contexts_pool tb !! pSock = Some sc ->
  is_Some (Machines.machine sc) ->
  exists tb',
    Machines.free_connect_sock_context N tb pSock = Some tb' /\
    length (Machines.machine_sockets tb') = length (Machines.machine_sockets tb) /\
    forall q, q <> pSock ->
      Machines.socket_contexts_pool tb' !! q = Machines.socket_contexts_pool tb !! q.
Proof.
  intros HN Hlen Hsc [ip Hip].
  unfold Machines.free_connect_sock_context, Machines.free_sock_context.
  rewrite Hsc. cbn [mbind option_bind]. rewrite Hip. cbn [mbind option_bind].
  destruct (MachineFacts.get_machine_index_total N (Machines.machine_sockets tb) ip HN Hlen)
    as (r & Hget & Hres).
  rewrite Hget. cbn [mbind option_bind].
  destruct Hres as [[-> _]|(Hr & s & Hs & _)].
  - destruct (Z.ltb_spec (-1) 0); [|lia]. eexists. split; [reflexivity|]. auto.
  - destruct (Z.ltb_spec r 0); [lia|]. rewrite Hs. cbn [mbind option_bind].
    rewrite MachineFacts.store_Some by lia. cbn [mbind option_bind].
    eexists. split; [reflexivity|]. split; [simpl; apply length_insert|].
    intros q Hq. simpl. apply list_lookup_insert_ne. congruence.
Qed.

(** The listed connect contexts stay ready when only the connect context
    [p] and its socket context change, and the list does not grow. *)
Lemma ready_kept w w' p e pSock :
  controller_ok (thread w) -> ready w ->
  Some p ∈ listed (thread w) ->
  connections_buffer (thread w) !! p = Some e -> pSockContext e = Some pSock ->
  (forall x, x ∈ listed (thread w') -> x ∈ listed (thread w)) ->
  (forall q, q <> p ->
     connections_buffer (thread w') !! q = connections_buffer (thread w) !! q) ->
  (forall q, q <> pSock ->
     Machines.socket_contexts_pool (tables w') !! q
     = Machines.socket_contexts_pool (tables w) !! q) ->
  (Some p ∈ listed (thread w') ->
   forall e' pSock', connections_buffer (thread w') !! p = Some e' ->
     pSockContext e' = Some pSock' ->
     exists sc,
       Machines.socket_contexts_pool (tables w') !! pSock' = Some sc /\
       (Machines.sock sc < 0 ->
        is_server sc = false /\ is_Some (Machines.machine sc) /\
        (need_reconnect e' = true -> 0 < connect_count e'))) ->
  ready w'.
Proof.
  intros (Htok & Hpl & Huniq) Hready Hin He Hps Hsub Hbuf Hpool Hp.
  intros q eq psq Hq Heq Hpsq.
  destruct (decide (q = p)) as [->|Hne]; [apply (Hp Hq eq psq Heq Hpsq)|].
  rewrite (Hbuf q Hne) in Heq.
  pose proof (Hsub _ Hq) as Hq0.
  destruct (Hready q eq psq Hq0 Heq Hpsq) as (scq & Hscq & Hcl).
  assert (Hother : psq <> pSock).
  { intros ->. apply Hne.
    assert (Heq' : Some q = Some p).
    { apply (Huniq (Some q) (Some p) pSock Hq0 Hin); [exists q, eq | exists p, e]; auto. }
    congruence. }
  exists scq. split; [rewrite (Hpool psq Hother); exact Hscq | exact Hcl].
Qed.

(** One turn of the loop keeps what the pass keeps, and comes closer to
    the end of the list. *)
Lemma reconnect_turn_spec c fuel my N dead tn w i :
  pass_ok N w -> (i < Z.to_nat (connection_count (thread w)))%nat ->
  exists w' i',
    reconnect_turn c fuel my N dead tn w i = Some (w', i') /\
    pass_ok N w' /\
    sublist (listed (thread w')) (listed (thread w)) /\
    (Z.to_nat (connection_count (thread w')) - i'
     < Z.to_nat (connection_count (thread w)) - i)%nat.
Proof.
  intros (HN & Hlen & Hok & Hready) Hi. pose proof Hok as (Htok & Hpl & Huniq).
  destruct (ConnectionFacts.thread_ok_entry (thread w) i Htok Hi) as (p & e & Hp & He).
  assert (Hin : Some p ∈ listed (thread w)).
  { apply (list_elem_of_lookup_2 _ i). rewrite ConnectionFacts.listed_lookup by exact Hi.
    exact Hp. }
  assert (Hskip : exists w' i',
            Some (w, S i) = Some (w', i') /\ pass_ok N w' /\
            sublist (listed (thread w')) (listed (thread w)) /\
            (Z.to_nat (connection_count (thread w')) - i'
             < Z.to_nat (connection_count (thread w)) - i)%nat).
  { eexists _, _. split; [reflexivity|].
    split; [split; [exact HN|]; split; [exact Hlen|]; split; [exact Hok | exact Hready]|].
    split; [reflexivity | lia]. }
  unfold reconnect_turn. rewrite Hp. cbn [mbind option_bind]. rewrite He.
  cbn [mbind option_bind].
  destruct (pSockContext e) as [pSock|] eqn:Hps; [|exact Hskip].
  destruct (Hready p e pSock Hin He Hps) as (sc & Hsc & Hclosed).
  rewrite Hsc. cbn [mbind option_bind].
  destruct (Z.geb_spec (Machines.sock sc) 0) as [|Hneg]; [exact Hskip|].
  destruct (Hclosed Hneg) as (Hserver & [ip Hip] & Hcount).
  destruct (need_reconnect e) eqn:Hnr.
  - (* to reconnect *)
    destruct (Z.gtb_spec (connect_count e) 0) as [Hpos|]; [|specialize (Hcount eq_refl); lia].
    destruct (turn_ms tn - connect_start_time e <? reconnect_interval e); [exact Hskip|].
    rewrite Hip. cbn [mbind option_bind].
    set (e1 := set_need_check_timeout
                 (set_reconnect_interval e
                    (Reconnect.next_reconnect_interval (dead ip) (reconnect_interval e)))
                 false).
    set (w1 := set_entry w p e1).
    assert (Hok1 : controller_ok (thread w1))
      by (apply (controller_ok_set_entry w p e e1 He); [reflexivity | reflexivity | exact Hok]).
    assert (Hred1 : redialled p pSock w w1)
      by (apply (redialled_set_entry p pSock w e e1 He); [reflexivity | simpl; lia | reflexivity]).
    assert (He1 : connections_buffer (thread w1) !! p = Some e1).
    { simpl. apply list_lookup_insert_eq. apply lookup_lt_Some in He. exact He. }
    destruct (do_connect_effect c fuel my N (turn_syscalls tn) (turn_answers tn) w1 p false e1
                pSock sc Hok1 Hin He1 Hps Hsc Hserver (ex_intro _ ip Hip))
      as (result & w' & Hdo & Hok' & Hred').
    rewrite Hdo. cbn [mbind option_bind snd].
    pose proof (redialled_trans p pSock w w1 w' Hred1 Hred') as (R1 & R2 & R3 & R4 & R5 & R6 & R7).
    eexists _, _. split; [reflexivity|]. split; [|split; [exact R6 | lia]].
    split; [exact HN|]. split; [rewrite R1; exact Hlen|]. split; [exact Hok'|].
    apply (ready_kept w w' p e pSock Hok Hready Hin He Hps
             (fun x Hx => elem_of_sublist _ _ x Hx R6) R4 R2).
    intros _ e' pSock' He' Hps'.
    destruct (R5 e He) as (e2 & He2 & Hn2 & Hc2 & Hp2).
    rewrite He' in He2. injection He2 as <-.
    destruct Hp2 as [Hp2|Hp2]; [|congruence].
    assert (pSock' = pSock) by congruence. subst pSock'.
    destruct (R3 sc Hsc) as (sc' & Hsc' & Hty & Hm).
    exists sc'. split; [exact Hsc'|]. intros _.
    split; [unfold is_server in *; rewrite Hty; exact Hserver|].
    split; [rewrite Hm; eauto|]. intros _. lia.
  - (* to release *)
    destruct (redialled_remove p pSock w e false Hok Hin He Hps)
      as (r & Hrem & Hr0 & (R1 & R2 & R3 & R4 & R5 & R6 & R7) & Hok' & Hnotin & Hn').
    rewrite Hrem. cbn [mbind option_bind].
    assert (Hsc1 : Machines.socket_contexts_pool (tables (set_thread w r.2)) !! pSock = Some sc)
      by exact Hsc.
    assert (Hlen1 : Z.of_nat (length (Machines.machine_sockets (tables (set_thread w r.2)))) = N)
      by exact Hlen.
    destruct (free_connect_total N (tables (set_thread w r.2)) pSock sc HN Hlen1 Hsc1
                (ex_intro _ ip Hip)) as (tb & Hfree & Hlen' & Hpool').
    rewrite Hfree. cbn [mbind option_bind]. rewrite Hr0. simpl (0 =? 0).
    eexists _, _. split; [reflexivity|].
    split; [|split; [exact R6 | cbn [thread set_tables set_thread]; rewrite Hn'; lia]].
    split; [exact HN|]. split; [cbn [tables set_tables]; rewrite Hlen'; exact Hlen|].
    split; [exact Hok'|].
    apply (ready_kept w (set_tables (set_thread w r.2) tb) p e pSock Hok Hready Hin He Hps
             (fun x Hx => elem_of_sublist _ _ x Hx R6) R4 Hpool').
    intros Hin'. destruct (Hnotin Hin').
Qed.

Lemma reconnect_loop_spec c fuel my N dead turns m :
  forall steps k w i,
    pass_ok N w ->
    (Z.to_nat (connection_count (thread w)) - i <= m)%nat -> (m < steps)%nat ->
    exists w',
      reconnect_loop steps c fuel my N dead turns k w i = Some w' /\
      pass_ok N w' /\
      sublist (listed (thread w')) (listed (thread w)).
Proof.
  induction m as [|m IH]; intros steps k w i Hpass Hm Hsteps;
    (destruct steps as [|steps]; [lia|]); cbn [reconnect_loop].
  - destruct (decide (i < Z.to_nat (connection_count (thread w)))%nat); [lia|].
    exists w. auto.
  - destruct (decide (i < Z.to_nat (connection_count (thread w)))%nat) as [Hi|];
      [|exists w; auto].
    destruct (reconnect_turn_spec c fuel my N dead (turns k) w i Hpass Hi)
      as (w1 & i1 & Hturn & Hpass1 & Hsub1 & Hless).
    rewrite Hturn. cbn [mbind option_bind fst snd].
    destruct (IH steps (S k) w1 i1 Hpass1) as (w' & Hloop & Hpass' & Hsub'); [lia | lia|].
    exists w'. split; [exact Hloop|]. split; [exact Hpass'|].
    etrans; [exact Hsub' | exact Hsub1].
Qed.

(** The loop of [machine_stop_reconnect]: after the entries below [i],
    [count] is positive when one of them was of the machine, and the
    connect contexts of the machine among them are told to stop. *)
Lemma stop_loop_spec w m turns :
  thread_ok (thread w) -> aimed w ->
  forall i count buf,
    (i + turns <= Z.to_nat (connection_count (thread w)))%nat ->
    0 <= count ->
    (0 < count <-> exists j p, (j < i)%nat /\ connections (thread w) !! j = Some (Some p) /\
                     of_machine w m p) ->
    length buf = length (connections_buffer (thread w)) ->
    (forall p e, connections_buffer (thread w) !! p = Some e ->
       exists e', buf !! p = Some e' /\ pSockContext e' = pSockContext e /\
         ((exists j, (j < i)%nat /\ connections (thread w) !! j = Some (Some p) /\
             of_machine w m p) -> e' = set_need_reconnect e false) /\
         (~ (exists j, (j < i)%nat /\ connections (thread w) !! j = Some (Some p) /\
               of_machine w m p) -> e' = e) /\
         (e' = e \/ e' = set_need_reconnect e false)) ->
    exists count' buf',
      stop_loop w m i turns count buf = Some (count', buf') /\
      0 <= count' /\
      (0 < count' <-> exists j p, (j < i + turns)%nat /\
                        connections (thread w) !! j = Some (Some p) /\ of_machine w m p) /\
      length buf' = length (connections_buffer (thread w)) /\
      (forall p e, connections_buffer (thread w) !! p = Some e ->
         exists e', buf' !! p = Some e' /\ pSockContext e' = pSockContext e /\
           ((exists j, (j < i + turns)%nat /\ connections (thread w) !! j = Some (Some p) /\
               of_machine w m p) -> e' = set_need_reconnect e false) /\
           (~ (exists j, (j < i + turns)%nat /\ connections (thread w) !! j = Some (Some p) /\
                 of_machine w m p) -> e' = e) /\
           (e' = e \/ e' = set_need_reconnect e false)).
Proof.
  intros Htok Haimed. induction turns as [|k IH]; intros i count buf Hi Hc0 Hcount Hlen Hbuf.
  - exists count, buf. rewrite Nat.add_0_r. simpl. auto.
  - cbn [stop_loop].
    destruct (ConnectionFacts.thread_ok_entry (thread w) i Htok) as (p & e & Hp & He); [lia|].
    rewrite Hp. cbn [mbind option_bind].
    destruct (Hbuf p e He) as (e' & He' & Hps' & Hyes & Hno & Hor).
    rewrite He'. cbn [mbind option_bind].
    assert (Hin : Some p ∈ listed (thread w)).
    { apply (list_elem_of_lookup_2 _ i). rewrite ConnectionFacts.listed_lookup by lia.
      exact Hp. }
    destruct (Haimed p e Hin He) as (pSock & sc & Hps & Hsc).
    rewrite Hps', Hps. cbn [mbind option_bind]. rewrite Hsc. cbn [mbind option_bind].
    replace (i + S k)%nat with (S i + k)%nat by lia.
    assert (Hstep : forall q, (exists j, (j < S i)%nat /\
                        connections (thread w) !! j = Some (Some q) /\ of_machine w m q)
                    <-> (exists j, (j < i)%nat /\
                           connections (thread w) !! j = Some (Some q) /\ of_machine w m q)
                        \/ (q = p /\ of_machine w m p)).
    { intros q. split.
      - intros (j & Hj & Hq & Hm). destruct (decide (j = i)) as [->|Hne].
        + right. rewrite Hp in Hq. injection Hq as <-. auto.
        + left. exists j. split; [lia | auto].
      - intros [(j & Hj & Hq & Hm)|[-> Hm]].
        + exists j. split; [lia | auto].
        + exists i. split; [lia | auto]. }
    destruct (decide (Machines.machine sc = Some m)) as [Hm|Hm].
    + assert (Hof : of_machine w m p) by (exists e, pSock, sc; auto).
      apply IH.
      * lia.
      * lia.
      * split; [intros _; exists i, p; split; [lia | auto]|]. intros _. lia.
      * rewrite length_insert. exact Hlen.
      * intros q eq Hq. destruct (decide (q = p)) as [->|Hne].
        -- rewrite He in Hq. injection Hq as <-.
           exists (set_need_reconnect e' false).
           split; [apply list_lookup_insert_eq; apply lookup_lt_Some in He'; exact He'|].
           split; [exact Hps'|].
           assert (Hstopped : set_need_reconnect e' false = set_need_reconnect e false)
             by (destruct Hor as [-> | ->]; reflexivity).
           split; [intros _; exact Hstopped|].
           split; [|right; exact Hstopped].
           intros Hnot. exfalso. apply Hnot. apply Hstep. right. auto.
        -- rewrite list_lookup_insert_ne by congruence.
           destruct (Hbuf q eq Hq) as (eq' & Heq' & Hpsq & Hyesq & Hnoq & Horq).
           exists eq'. split; [exact Heq'|]. split; [exact Hpsq|]. split; [|split; [|exact Horq]].
           ++ intros Hex. apply Hyesq. apply Hstep in Hex as [Hex|[Hex _]];
                [exact Hex | congruence].
           ++ intros Hnot. apply Hnoq. intros Hex. apply Hnot. apply Hstep. left. exact Hex.
    + assert (Hof : ~ of_machine w m p).
      { intros (e0 & ps0 & sc0 & He0 & Hps0 & Hsc0 & Hm0).
        rewrite He in He0. injection He0 as <-. rewrite Hps in Hps0. injection Hps0 as <-.
        rewrite Hsc in Hsc0. injection Hsc0 as <-. contradiction. }
      apply IH.
      * lia.
      * exact Hc0.
      * rewrite Hcount. split.
        -- intros (j & q & Hj & Hq & Hmq). exists j, q. split; [lia | auto].
        -- intros (j & q & Hj & Hq & Hmq). destruct (decide (j = i)) as [->|Hne].
           ++ rewrite Hp in Hq. injection Hq as <-. contradiction.
           ++ exists j, q. split; [lia | auto].
      * exact Hlen.
      * intros q eq Hq.
        destruct (Hbuf q eq Hq) as (eq' & Heq' & Hpsq & Hyesq & Hnoq & Horq).
        exists eq'. split; [exact Heq'|]. split; [exact Hpsq|]. split; [|split; [|exact Horq]].
        -- intros Hex. apply Hyesq. apply Hstep in Hex as [Hex|[-> Hex]];
             [exact Hex | contradiction].
        -- intros Hnot. apply Hnoq. intros Hex. apply Hnot. apply Hstep. left. exact Hex.
Qed.

Lemma sample_closed_ok : controller_ok (thread sample_closed_world).
Proof.
  apply (controller_ok_set_entry
           (mkWorld Machines.sample_tables
              (thread (sample_world CONNECT_TYPE_CLIENT Reconnect.STATE_CONNECTING))
              (fun _ => Hello.mkMachine 0 0))
           1 (set_state (sample_entry (Some 4%nat) true) Reconnect.STATE_CONNECTING));
    [reflexivity | reflexivity | reflexivity|].
  exact (sample_controller_ok CONNECT_TYPE_CLIENT Reconnect.STATE_CONNECTING).
Qed.

Lemma sample_listed p :
  Some p ∈ listed (thread sample_closed_world) -> p = 0%nat \/ p = 1%nat.
Proof.
  assert (Hl : listed (thread sample_closed_world) = [Some 0%nat; Some 1%nat]) by reflexivity.
  rewrite Hl. intros Hin.
  apply elem_of_cons in Hin as [Hin|Hin]; [left; congruence|].
  apply list_elem_of_singleton in Hin. right. congruence.
Qed.

Lemma sample_pass_ok : pass_ok 3 sample_closed_world.
Proof.
  split; [lia|]. split; [reflexivity|]. split; [exact sample_closed_ok|].
  intros p e pSock Hin He Hps.
  destruct (sample_listed p Hin) as [-> | ->]; simpl in He; injection He as <-; simpl in Hps;
    injection Hps as <-; (eexists; split; [reflexivity|]); intros _;
    (split; [reflexivity|]); (split; [eexists; reflexivity|]); simpl; intros; first [discriminate | lia].
Qed.

(** X23. A pass of [do_reconnect] ends, after no more turns than there are
    connections in progress, when every listed connect context whose
    socket is closed can be dialled again: its socket context is not of a
    server and has its machine, and if it is to reconnect it was dialled
    before ([connect_count > 0]; the loop does not advance on a connect
    context that is to reconnect with [connect_count == 0]).  The pass
    keeps this state, leaves the lock released, and lists nothing new:
    the connect contexts that stay listed stay in their order. *)
Theorem do_reconnect_pass steps c fuel my_machine_ip MAX_MACHINE_COUNT dead turns w :
  pass_ok MAX_MACHINE_COUNT w ->
  (Z.to_nat (connection_count (thread w)) < steps)%nat ->
  exists w',
    do_reconnect steps c fuel my_machine_ip MAX_MACHINE_COUNT dead turns w = Some w' /\
    pass_ok MAX_MACHINE_COUNT w' /\
    lock (thread w') = false /\
    sublist (listed (thread w')) (listed (thread w)).
Proof.
  intros Hpass Hsteps. unfold do_reconnect.
  assert (Hpass0 : pass_ok MAX_MACHINE_COUNT (set_thread w (set_lock (thread w) true)))
    by exact Hpass.
  destruct (reconnect_loop_spec c fuel my_machine_ip MAX_MACHINE_COUNT dead turns
              (Z.to_nat (connection_count (thread w))) steps 0
              (set_thread w (set_lock (thread w) true)) 0 Hpass0)
    as (w' & Hloop & Hpass' & Hsub); [simpl; lia | exact Hsteps|].
  rewrite Hloop. cbn [mbind option_bind].
  eexists. split; [reflexivity|]. split; [exact Hpass'|]. split; [reflexivity | exact Hsub].
Qed.

(** Two connect contexts with closed sockets: the pass releases the one
    that is not to reconnect and dials for the other. *)
Lemma do_reconnect_pass_witness :
  exists w',
    do_reconnect 3 sample_config 4 9 3 (fun _ => false) sample_turns sample_closed_world
      = Some w' /\
    pass_ok 3 w' /\
    lock (thread w') = false /\
    sublist (listed (thread w')) (listed (thread sample_closed_world)).
Proof.
  apply (do_reconnect_pass 3 sample_config 4 9 3 (fun _ => false) sample_turns
           sample_closed_world).
  - exact sample_pass_ok.
  - simpl. lia.
Defined.

(** X24. [machine_stop_reconnect] tells the listed connect contexts of
    the machine to stop reconnecting, and those only: their
    [need_reconnect] is false afterwards and nothing else is changed but
    the lock, which is left released.  It returns 0 when there was such a
    connect context and ENOENT when there was none. *)
Theorem machine_stop_reconnect_marks w m :
  thread_ok (thread w) -> aimed w ->
  exists result w',
    machine_stop_reconnect w m = Some (result, w') /\
    tables w' = tables w /\ machines w' = machines w /\
    listed (thread w') = listed (thread w) /\
    connection_count (thread w') = connection_count (thread w) /\
    lock (thread w') = false /\
    (forall p e, connections_buffer (thread w) !! p = Some e ->
       exists e', connections_buffer (thread w') !! p = Some e' /\
         (Some p ∈ listed (thread w) /\ of_machine w m p ->
          e' = set_need_reconnect e false) /\
         (~ (Some p ∈ listed (thread w) /\ of_machine w m p) -> e' = e)) /\
    ((result = 0 /\ exists p, Some p ∈ listed (thread w) /\ of_machine w m p) \/
     (result = ENOENT /\ forall p, Some p ∈ listed (thread w) -> ~ of_machine w m p)).
Proof.
  intros Htok Haimed. unfold machine_stop_reconnect.
  set (n := Z.to_nat (connection_count (thread w))).
  assert (Hlisted : forall p,
            (exists j, (j < 0 + n)%nat /\ connections (thread w) !! j = Some (Some p) /\
               of_machine w m p)
            <-> Some p ∈ listed (thread w) /\ of_machine w m p).
  { intros p. split.
    - intros (j & Hj & Hp & Hm). split; [|exact Hm].
      apply (list_elem_of_lookup_2 _ j).
      rewrite ConnectionFacts.listed_lookup by (fold n; lia). exact Hp.
    - intros [Hin Hm]. apply list_elem_of_lookup_1 in Hin as [j Hj].
      pose proof (lookup_lt_Some _ _ _ Hj) as Hlt. unfold listed in Hlt.
      rewrite length_take in Hlt.
      rewrite ConnectionFacts.listed_lookup in Hj by (fold n; lia).
      exists j. split; [fold n in Hlt; lia | auto]. }
  destruct (stop_loop_spec w m n Htok Haimed 0 0 (connections_buffer (thread w)))
    as (count & buf & Hloop & Hc0 & Hcount & Hlen & Hbuf).
  - fold n. lia.
  - lia.
  - split; [lia|]. intros (j & p & Hj & _). lia.
  - reflexivity.
  - intros p e He. exists e. split; [exact He|]. split; [reflexivity|].
    split; [intros (j & Hj & _); lia|]. split; [reflexivity | left; reflexivity].
  - rewrite Hloop. cbn [mbind option_bind fst snd].
    eexists _, _. split; [reflexivity|].
    split; [reflexivity|]. split; [reflexivity|]. split; [reflexivity|].
    split; [reflexivity|]. split; [reflexivity|]. split.
    + intros p e He. destruct (Hbuf p e He) as (e' & He' & _ & Hyes & Hno & _).
      exists e'. split; [exact He'|]. split.
      * intros Hin. apply Hyes. apply Hlisted. exact Hin.
      * intros Hnot. apply Hno. intros Hex. apply Hnot. apply Hlisted. exact Hex.
    + destruct (Z.gtb_spec count 0) as [Hpos|Hzero].
      * left. split; [reflexivity|].
        destruct (proj1 Hcount Hpos) as (j & p & Hj & Hp & Hm).
        exists p. apply Hlisted. exists j. auto.
      * right. split; [reflexivity|]. intros p Hin Hm.
        assert (Hex : exists j p, (j < 0 + n)%nat /\
                        connections (thread w) !! j = Some (Some p) /\ of_machine w m p).
        { destruct (proj2 (Hlisted p) (conj Hin Hm)) as (j & Hj & Hp & _).
          exists j, p. auto. }
        apply Hcount in Hex. lia.
Qed.

Lemma sample_aimed : aimed sample_closed_world.
Proof.
  intros p e Hin He.
  destruct (sample_listed p Hin) as [-> | ->]; simpl in He; injection He as <-;
    eexists _, _; split; reflexivity.
Qed.

(** Both connect contexts of the sample are of the machine 4. *)
Lemma machine_stop_reconnect_marks_witness :
  exists result w',
    machine_stop_reconnect sample_closed_world 4 = Some (result, w') /\
    tables w' = tables sample_closed_world /\ machines w' = machines sample_closed_world /\
    listed (thread w') = listed (thread sample_closed_world) /\
    connection_count (thread w') = connection_count (thread sample_closed_world) /\
    lock (thread w') = false /\
    (forall p e, connections_buffer (thread sample_closed_world) !! p = Some e ->
       exists e', connections_buffer (thread w') !! p = Some e' /\
         (Some p ∈ listed (thread sample_closed_world) /\ of_machine sample_closed_world 4 p ->
          e' = set_need_reconnect e false) /\
         (~ (Some p ∈ listed (thread sample_closed_world) /\
             of_machine sample_closed_world 4 p) -> e' = e)) /\
    ((result = 0 /\
      exists p, Some p ∈ listed (thread sample_closed_world) /\
        of_machine sample_closed_world 4 p) \/
     (result = ENOENT /\
      forall p, Some p ∈ listed (thread sample_closed_world) ->
        ~ of_machine sample_closed_world 4 p)).
Proof.
  apply (machine_stop_reconnect_marks sample_closed_world 4).
  - exact (proj1 sample_closed_ok).
  - exact sample_aimed.
Defined.

End ReconnectingFacts.
